(** * lsh: a shallow embedding of the command interpreter

    The repository holds several revisions of [lsh.c].  The embedding follows
    the most complete one (the last file of [src/unnamed/part_000], lines
    306-672), in module [Lsh]; the places where [src/lsh.c] is written
    differently are embedded in module [LshDraft].

    The interpreter talks to the operating system only through system calls,
    so the model is a state monad over
      - the descriptor table, working directory, [errno], signal dispositions
        and global variables of the calling process, and
      - a kernel part: the processes forked so far and a log of the system
        calls made, oldest first.
    What the environment decides (whether a file can be opened, which pid a
    fork returns, whether an executable can be launched) is read from an
    [Env] record. *)

From Stdlib Require Import ZArith String Ascii List Bool Lia DecimalString.
From stdpp Require Import base list strings.

Open Scope string_scope.
Open Scope list_scope.
Open Scope Z_scope.

(** ** Constants of the C library and of the kernel interface *)

Definition STDIN_FILENO : Z := 0.
Definition STDOUT_FILENO : Z := 1.
Definition STDERR_FILENO : Z := 2.

Definition ENOENT : Z := 2.
Definition EBADF : Z := 9.
Definition ECHILD : Z := 10.
Definition EAGAIN : Z := 11.
Definition EACCES : Z := 13.
Definition EFAULT : Z := 14.
Definition ENOTDIR : Z := 20.
Definition EISDIR : Z := 21.
Definition EMFILE : Z := 24.

Definition SIGINT : Z := 2.
Definition SIGKILL : Z := 9.
Definition SIGCHLD : Z := 17.

(** The two handlers the revisions install for [SIGINT]. *)
Inductive handler_fn := KillChildren_fn | KillChildrenOnSignal_fn.

Inductive disposition := SIG_DFL | SIG_IGN | SIG_FN (h : handler_fn).

Definition nl : string := String (ascii_of_nat 10) EmptyString.

(** [printf]'s [%i]. *)
Definition show_int (z : Z) : string := NilZero.string_of_int (Z.to_int z).

(** ** Data delivered by the parser ([parse.h]) *)

(** A [char **pgmlist]: the program name, then the arguments; the terminating
    null pointer is the end of the list, so [command[1]] of a one-word stage
    is the null sentinel. *)
Record Pgm := mkPgm { pgm_name : string; pgm_args : list string }.

Definition pgmlist (p : Pgm) : list string := pgm_name p :: pgm_args p.

(** [command[1]]: [None] is the null pointer. *)
Definition command_1 (p : Pgm) : option string := pgmlist p !! 1%nat.

(** A [Command]; the linked list [pgm] is a list, [NULL] strings are [None]. *)
Record Command := mkCommand {
  pgm : list Pgm;
  rstdin : option string;
  rstdout : option string;
  background : bool
}.

(** ** Processes and the kernel *)

(** What a descriptor refers to. *)
Inductive fobj :=
| Inherited (fd : Z)          (* a stream the interpreter was started with *)
| FileRd (path : string)
| FileWr (path : string)
| PipeRd (k : nat)
| PipeWr (k : nat).

(** The descriptor table of a process, indexed by descriptor number; its
    length is the limit on open descriptors. *)
Abbreviation fdtable := (list (option fobj)).

(** The part of the state that [fork] copies. *)
Record pstate := mkPstate {
  ps_pid : Z;
  ps_fds : fdtable;
  ps_cwd : string;
  ps_errno : Z;
  ps_sigint : disposition;
  ps_sigchld : disposition;
  children : list Z;           (* the array the global [children] points to *)
  numChildren : Z
}.

Inductive termination := Exited (code : Z) | Killed (sig : Z).

Inductive pstatus :=
| Alive (image : option (list string))  (* [Some argv] once an image was loaded *)
| Zombie (t : termination)              (* terminated, waiting to be reaped *)
| Reaped (t : termination).

Record proc := mkProc {
  p_argv : list string;        (* the stage it was forked for *)
  p_state : pstate;            (* its own copy of the process state *)
  p_status : pstatus
}.

Definition p_pid (p : proc) : Z := ps_pid (p_state p).

Inductive event :=
| EvOpen (pid : Z) (path : string) (r : Z)
| EvCreat (pid : Z) (path : string) (r : Z)
| EvPipe (pid : Z) (r : Z)
| EvFork (pid : Z) (r : Z)
| EvChdir (pid : Z) (path : option string) (r : Z)
| EvExecvp (pid : Z) (file : string) (err : option Z)
| EvWrite (pid : Z) (fd : Z) (target : option fobj) (text : string)
| EvKill (pid : Z) (target : Z) (sig : Z)
| EvWaitpid (pid : Z) (target : Z) (r : Z)
| EvExit (pid : Z) (code : Z).

Record kernel := mkKernel {
  k_procs : list proc;         (* children forked so far, oldest first *)
  k_log : list event;          (* system calls made, oldest first *)
  k_pipes : nat;               (* pipes created so far *)
  k_forks : nat                (* forks attempted so far *)
}.

Record world := mkWorld { kern : kernel; me : pstate }.

(** What the environment decides. *)
Record Env := mkEnv {
  env_open : string -> string -> option Z;    (* cwd, path: [Some errno] on failure *)
  env_creat : string -> string -> option Z;
  env_chdir : string -> string -> Z + string; (* errno, or the new directory *)
  env_execvp : string -> string -> option Z;  (* cwd, file: [Some errno] on failure *)
  env_pipe : nat -> option Z;                 (* the k-th pipe: [Some errno] on failure *)
  env_fork : nat -> Z;                        (* what the k-th fork returns to the parent *)
  env_uninit : nat -> Z                       (* contents of memory never written *)
}.

(** ** Field updates *)

Definition set_fds (t : fdtable) (p : pstate) : pstate :=
  mkPstate (ps_pid p) t (ps_cwd p) (ps_errno p) (ps_sigint p) (ps_sigchld p)
           (children p) (numChildren p).
Definition set_pid (n : Z) (p : pstate) : pstate :=
  mkPstate n (ps_fds p) (ps_cwd p) (ps_errno p) (ps_sigint p) (ps_sigchld p)
           (children p) (numChildren p).
Definition set_cwd (d : string) (p : pstate) : pstate :=
  mkPstate (ps_pid p) (ps_fds p) d (ps_errno p) (ps_sigint p) (ps_sigchld p)
           (children p) (numChildren p).
Definition set_errno (e : Z) (p : pstate) : pstate :=
  mkPstate (ps_pid p) (ps_fds p) (ps_cwd p) e (ps_sigint p) (ps_sigchld p)
           (children p) (numChildren p).
Definition set_sigint (d : disposition) (p : pstate) : pstate :=
  mkPstate (ps_pid p) (ps_fds p) (ps_cwd p) (ps_errno p) d (ps_sigchld p)
           (children p) (numChildren p).
Definition set_sigchld (d : disposition) (p : pstate) : pstate :=
  mkPstate (ps_pid p) (ps_fds p) (ps_cwd p) (ps_errno p) (ps_sigint p) d
           (children p) (numChildren p).
Definition set_children (c : list Z) (p : pstate) : pstate :=
  mkPstate (ps_pid p) (ps_fds p) (ps_cwd p) (ps_errno p) (ps_sigint p)
           (ps_sigchld p) c (numChildren p).
Definition set_numChildren (n : Z) (p : pstate) : pstate :=
  mkPstate (ps_pid p) (ps_fds p) (ps_cwd p) (ps_errno p) (ps_sigint p)
           (ps_sigchld p) (children p) n.

Definition upd_me (f : pstate -> pstate) (w : world) : world :=
  mkWorld (kern w) (f (me w)).

Definition log (e : event) (w : world) : world :=
  mkWorld (mkKernel (k_procs (kern w)) (k_log (kern w) ++ [e])
                    (k_pipes (kern w)) (k_forks (kern w)))
          (me w).

Definition set_procs (ps : list proc) (w : world) : world :=
  mkWorld (mkKernel ps (k_log (kern w)) (k_pipes (kern w)) (k_forks (kern w)))
          (me w).

Definition bump_pipes (w : world) : world :=
  mkWorld (mkKernel (k_procs (kern w)) (k_log (kern w)) (S (k_pipes (kern w)))
                    (k_forks (kern w)))
          (me w).

Definition bump_forks (w : world) : world :=
  mkWorld (mkKernel (k_procs (kern w)) (k_log (kern w)) (k_pipes (kern w))
                    (S (k_forks (kern w))))
          (me w).

(** ** Descriptor tables *)

(** The lowest free descriptor, as the kernel hands it out. *)
Fixpoint fd_alloc (t : fdtable) : option nat :=
  match t with
  | [] => None
  | None :: _ => Some 0%nat
  | Some _ :: t' => S <$> fd_alloc t'
  end.

Definition fd_get (t : fdtable) (fd : Z) : option fobj :=
  if fd <? 0 then None else mjoin (t !! Z.to_nat fd).

Definition fd_valid (t : fdtable) (fd : Z) : bool :=
  (0 <=? fd) && (Z.to_nat fd <? length t)%nat.

(** ** The monad of a running process *)

(** A wait suspended in [waitpid]: the locals [RunCommand] still needs. *)
Record frame := mkFrame {
  f_pids : list Z;
  f_count : Z;
  f_i : Z
}.

Inductive stop :=
| StExit (code : Z)              (* the process called [exit] *)
| StExec (argv : list string)    (* the process image was replaced *)
| StWait (f : frame)             (* the process is blocked in [waitpid] *)
| StSignal (sig : Z)             (* the process was ended by a signal *)
| StUndefined.                  (* the process did what C leaves undefined *)

Inductive res (A : Type) :=
| Ret (a : A) (w : world)
| Stop (s : stop) (w : world).
Arguments Ret {A} a w.
Arguments Stop {A} s w.

Definition M (A : Type) : Type := world -> res A.

Definition ret {A} (a : A) : M A := fun w => Ret a w.

Definition bind {A B} (m : M A) (k : A -> M B) : M B :=
  fun w => match m w with
           | Ret a w' => k a w'
           | Stop s w' => Stop s w'
           end.

Declare Scope proc_scope.
Delimit Scope proc_scope with proc.
Notation "x <- m ;; k" := (bind m (fun x => k))
  (at level 100, m at next level, right associativity) : proc_scope.
Notation "m ;; k" := (bind m (fun _ => k))
  (at level 100, right associativity) : proc_scope.
Open Scope proc_scope.

Definition get : M world := fun w => Ret w w.
Definition modify (f : world -> world) : M unit := fun w => Ret tt (f w).
Definition when (b : bool) (m : M unit) : M unit := if b then m else ret tt.


Definition final_world {A} (r : res A) : world :=
  match r with Ret _ w => w | Stop _ w => w end.

(** ** System calls *)

Section Syscalls.
Variable E : Env.

(** [open(path, O_RDONLY)] *)
Definition sys_open (path : string) : M Z := fun w =>
  let p := me w in
  match env_open E (ps_cwd p) path with
  | Some e => Ret (-1) (log (EvOpen (ps_pid p) path (-1)) (upd_me (set_errno e) w))
  | None =>
      match fd_alloc (ps_fds p) with
      | None => Ret (-1) (log (EvOpen (ps_pid p) path (-1)) (upd_me (set_errno EMFILE) w))
      | Some i =>
          Ret (Z.of_nat i)
              (log (EvOpen (ps_pid p) path (Z.of_nat i))
                   (upd_me (set_fds (<[i:=Some (FileRd path)]> (ps_fds p))) w))
      end
  end.

(** [creat(path, mode)] *)
Definition sys_creat (path : string) : M Z := fun w =>
  let p := me w in
  match env_creat E (ps_cwd p) path with
  | Some e => Ret (-1) (log (EvCreat (ps_pid p) path (-1)) (upd_me (set_errno e) w))
  | None =>
      match fd_alloc (ps_fds p) with
      | None => Ret (-1) (log (EvCreat (ps_pid p) path (-1)) (upd_me (set_errno EMFILE) w))
      | Some i =>
          Ret (Z.of_nat i)
              (log (EvCreat (ps_pid p) path (Z.of_nat i))
                   (upd_me (set_fds (<[i:=Some (FileWr path)]> (ps_fds p))) w))
      end
  end.

(** [pipe(pd)]: the status and the contents of [pd] afterwards.  The array
    is a fresh local, so on failure it still holds whatever was there. *)
Definition sys_pipe : M (Z * (Z * Z)) := fun w =>
  let p := me w in
  let k := k_pipes (kern w) in
  let junk := (env_uninit E 0, env_uninit E 1) in
  let failed e :=
    Ret (-1, junk) (log (EvPipe (ps_pid p) (-1)) (upd_me (set_errno e) w)) in
  match env_pipe E k with
  | Some e => failed e
  | None =>
      match fd_alloc (ps_fds p) with
      | None => failed EMFILE
      | Some i =>
          let t1 := <[i:=Some (PipeRd k)]> (ps_fds p) in
          match fd_alloc t1 with
          | None => failed EMFILE
          | Some j =>
              let t2 := <[j:=Some (PipeWr k)]> t1 in
              Ret (0, (Z.of_nat i, Z.of_nat j))
                  (log (EvPipe (ps_pid p) 0) (bump_pipes (upd_me (set_fds t2) w)))
          end
      end
  end.

Definition sys_close (fd : Z) : M Z := fun w =>
  let p := me w in
  match fd_get (ps_fds p) fd with
  | Some _ => Ret 0 (upd_me (set_fds (<[Z.to_nat fd:=None]> (ps_fds p))) w)
  | None => Ret (-1) (upd_me (set_errno EBADF) w)
  end.

Definition sys_dup2 (oldfd newfd : Z) : M Z := fun w =>
  let p := me w in
  match fd_get (ps_fds p) oldfd with
  | Some o =>
      if fd_valid (ps_fds p) newfd
      then Ret newfd (upd_me (set_fds (<[Z.to_nat newfd:=Some o]> (ps_fds p))) w)
      else Ret (-1) (upd_me (set_errno EBADF) w)
  | None => Ret (-1) (upd_me (set_errno EBADF) w)
  end.

(** [signal(sig, d)]; only the two signals the interpreter sets are kept. *)
Definition sys_signal (sig : Z) (d : disposition) : M unit :=
  modify (upd_me (fun p =>
    if sig =? SIGINT then set_sigint d p
    else if sig =? SIGCHLD then set_sigchld d p
    else p)).

(** [chdir(path)]; a null pointer is a bad address. *)
Definition sys_chdir (path : option string) : M Z := fun w =>
  let p := me w in
  let failed e :=
    Ret (-1) (log (EvChdir (ps_pid p) path (-1)) (upd_me (set_errno e) w)) in
  match path with
  | None => failed EFAULT
  | Some d =>
      match env_chdir E (ps_cwd p) d with
      | inl e => failed e
      | inr d' => Ret 0 (log (EvChdir (ps_pid p) path 0) (upd_me (set_cwd d') w))
      end
  end.

(** Across [execvp] an ignored signal stays ignored and a caught one goes
    back to its default. *)
Definition exec_disposition (d : disposition) : disposition :=
  match d with SIG_FN _ => SIG_DFL | _ => d end.

(** [execvp(file, argv)] returns only when it fails. *)
Definition sys_execvp (file : string) (argv : list string) : M Z := fun w =>
  let p := me w in
  match env_execvp E (ps_cwd p) file with
  | Some e => Ret (-1) (log (EvExecvp (ps_pid p) file (Some e)) (upd_me (set_errno e) w))
  | None =>
      Stop (StExec argv)
           (log (EvExecvp (ps_pid p) file None)
                (upd_me (fun p => set_sigchld (exec_disposition (ps_sigchld p))
                                    (set_sigint (exec_disposition (ps_sigint p)) p)) w))
  end.

(** [exit(code)]: the kernel closes every descriptor of the process. *)
Definition sys_exit {A} (code : Z) : M A := fun w =>
  let p := me w in
  Stop (StExit code)
       (log (EvExit (ps_pid p) code)
            (upd_me (set_fds (map (fun _ => None) (ps_fds p))) w)).

Definition sys_write (fd : Z) (text : string) : M unit := fun w =>
  let p := me w in
  Ret tt (log (EvWrite (ps_pid p) fd (fd_get (ps_fds p) fd) text) w).

(** [printf] writes to the standard output of the caller, [fprintf(stderr, ...)]
    to its standard error. *)
Definition printf (text : string) : M unit := sys_write STDOUT_FILENO text.
Definition fprintf_stderr (text : string) : M unit := sys_write STDERR_FILENO text.

(** A child that terminates is reaped at once when its parent ignores
    [SIGCHLD], and stays a zombie until waited for otherwise. *)
Definition terminate (parent_sigchld : disposition) (t : termination) : pstatus :=
  match parent_sigchld with
  | SIG_IGN => Reaped t
  | _ => Zombie t
  end.

Definition is_alive (p : proc) : bool :=
  match p_status p with Alive _ => true | _ => false end.

Definition is_zombie (p : proc) : bool :=
  match p_status p with Zombie _ => true | _ => false end.

Definition set_status (s : pstatus) (p : proc) : proc :=
  mkProc (p_argv p) (p_state p) s.

(** The kernel ends the living processes selected by [sel]. *)
Definition end_procs (sel : proc -> bool) (parent_sigchld : disposition)
           (t : termination) (ps : list proc) : list proc :=
  map (fun p => if sel p && is_alive p
                then set_status (terminate parent_sigchld t) p else p) ps.

(** [kill(target, sig)] by the interpreter; the model follows [SIGKILL].  A
    positive target is one process.  The target -1 is every process the
    caller may signal, the caller excepted: every process of the table.  The
    target 0 is the process group of the caller: its children, which are all
    taken to be in that group, as [wait_selects] takes them to be, and the
    caller, which ends with them.  A target below -1 names another group,
    which holds no process of the table. *)
Definition sys_kill (target sig : Z) : M Z := fun w =>
  let p := me w in
  let w1 := log (EvKill (ps_pid p) target sig) w in
  let ended sel := set_procs (end_procs sel (ps_sigchld p) (Killed sig)
                                        (k_procs (kern w1))) w1 in
  if sig =? SIGKILL then
    if 0 <? target then Ret 0 (ended (fun q => p_pid q =? target))
    else if target =? -1 then Ret 0 (ended (fun _ => true))
    else if target =? 0 then Stop (StSignal sig) (ended (fun _ => true))
    else Ret 0 w1
  else Ret 0 w1.

(** The child [waitpid(target, ...)] is about: the process itself for a
    positive [target], any child for [-1] and [0]. *)
Definition wait_selects (target : Z) (q : proc) : bool :=
  if 0 <? target then p_pid q =? target
  else (target =? -1) || (target =? 0).

Fixpoint reap_first (sel : proc -> bool) (ps : list proc) : option (Z * list proc) :=
  match ps with
  | [] => None
  | q :: ps' =>
      match p_status q with
      | Zombie t =>
          if sel q then Some (p_pid q, set_status (Reaped t) q :: ps')
          else (fun r => (r.1, q :: r.2)) <$> reap_first sel ps'
      | _ => (fun r => (r.1, q :: r.2)) <$> reap_first sel ps'
      end
  end.

(** [waitpid(target, status, WUNTRACED)]: [None] when the call has to block,
    the returned value otherwise.  Children stopped by job control, which
    [WUNTRACED] also reports, are not part of the model. *)
Definition sys_waitpid (target : Z) : M (option Z) := fun w =>
  let p := me w in
  let ps := k_procs (kern w) in
  match reap_first (wait_selects target) ps with
  | Some (pid, ps') =>
      Ret (Some pid) (log (EvWaitpid (ps_pid p) target pid) (set_procs ps' w))
  | None =>
      if existsb (fun q => wait_selects target q && is_alive q) ps
      then Ret None w
      else Ret (Some (-1))
               (log (EvWaitpid (ps_pid p) target (-1)) (upd_me (set_errno ECHILD) w))
  end.

(** [fork()], seen from the parent.  [child] is what the child goes on to
    do: it runs on a copy of the caller's state until it exits or loads its
    image, and is entered in the process table.  [argv] names the stage the
    child is for. *)
Definition sys_fork (argv : list string) (child : M unit) : M Z := fun w =>
  let p := me w in
  let r := env_fork E (k_forks (kern w)) in
  let w1 := bump_forks w in
  if 0 <? r then
    let w2 := log (EvFork (ps_pid p) r) w1 in
    let cres := child (upd_me (set_pid r) w2) in
    let wc := final_world cres in
    let st := match cres with
              | Stop (StExit c) _ => terminate (ps_sigchld p) (Exited c)
              | Stop (StExec a) _ => Alive (Some a)
              | _ => Alive None
              end in
    Ret r (mkWorld (kern (set_procs (k_procs (kern wc) ++ [mkProc argv (me wc) st]) wc))
                   p)
  else Ret (-1) (log (EvFork (ps_pid p) (-1)) (upd_me (set_errno EAGAIN) w1)).

(** A signal arrives at the calling process; [handlers] is the code of the
    functions it may have installed. *)
Definition deliver (handlers : handler_fn -> Z -> M unit) (sig : Z)
           (d : disposition) : M unit :=
  match d with
  | SIG_IGN => ret tt
  | SIG_DFL => fun w => Stop (StSignal sig) w
  | SIG_FN h => handlers h sig
  end.

(** A child ends on its own account. *)
Definition child_terminates (pid : Z) (t : termination) (w : world) : world :=
  set_procs (end_procs (fun q => p_pid q =? pid) (ps_sigchld (me w)) t
                       (k_procs (kern w))) w.

End Syscalls.

(** ** The interpreter (last file of [src/unnamed/part_000]) *)

Module Lsh.
Section WithEnv.
Variable E : Env.

(** [CountCommands]: the loop over the linked list. *)
Fixpoint CountCommands_from (counter : Z) (pgm : list Pgm) : Z :=
  match pgm with
  | [] => counter
  | _ :: next => CountCommands_from (counter + 1) next
  end.

Definition CountCommands (pgm : list Pgm) : Z := CountCommands_from 0 pgm.

Definition errno : M Z := fun w => Ret (ps_errno (me w)) w.

Definition handle_file_error : M unit :=
  e <- errno ;;
  if e =? EACCES then fprintf_stderr ("Access denied" +:+ nl)
  else if e =? EISDIR then fprintf_stderr ("File is a directory" +:+ nl)
  else if e =? ENOENT then fprintf_stderr ("No such file" +:+ nl)
  else fprintf_stderr ("Could not open file" +:+ nl).

Definition handle_directory_error : M unit :=
  e <- errno ;;
  if e =? EACCES then fprintf_stderr ("Permission denied" +:+ nl)
  else if e =? ENOENT then fprintf_stderr ("No such path" +:+ nl)
  else if e =? ENOTDIR then fprintf_stderr ("Not a directory" +:+ nl)
  else if e =? EFAULT then fprintf_stderr ("Invalid argument" +:+ nl)
  else fprintf_stderr ("Could not change working directory (" +:+ show_int e +:+ ")" +:+ nl).

(** [handle_command]: returns only when [execvp] failed. *)
Definition handle_command (command : Pgm) : M unit :=
  sys_execvp E (pgm_name command) (pgmlist command) ;;
  e <- errno ;;
  if e =? ENOENT
  then fprintf_stderr ("Could not find executable: " +:+ pgm_name command +:+ nl)
  else fprintf_stderr ("Failed to execute: " +:+ pgm_name command).

(** The local variables of [RunCommand] that the loop changes. *)
Record locals := mkLocals {
  command_counter : Z;
  command_pids : list Z;
  curr_command_index : Z;
  last_in : Z;
  child_in : Z;
  child_out : Z
}.

Definition set_command_counter (n : Z) (l : locals) : locals :=
  mkLocals n (command_pids l) (curr_command_index l) (last_in l) (child_in l) (child_out l).
Definition set_command_pids (a : list Z) (l : locals) : locals :=
  mkLocals (command_counter l) a (curr_command_index l) (last_in l) (child_in l) (child_out l).
Definition set_curr_command_index (i : Z) (l : locals) : locals :=
  mkLocals (command_counter l) (command_pids l) i (last_in l) (child_in l) (child_out l).
Definition set_child_in (fd : Z) (l : locals) : locals :=
  mkLocals (command_counter l) (command_pids l) (curr_command_index l) (last_in l) fd (child_out l).
Definition set_child_out (fd : Z) (l : locals) : locals :=
  mkLocals (command_counter l) (command_pids l) (curr_command_index l) (last_in l) (child_in l) fd.

(** [malloc(n * sizeof(__pid_t))]: [n] cells nobody has written yet. *)
Definition malloc (n : Z) : list Z :=
  map (fun i => env_uninit E (2 + i)) (seq 0 (Z.to_nat n)).

(** The branch [child == 0] of the loop body. *)
Definition child_branch (command : Pgm) (on_last_command : bool)
           (pipe_descriptor : Z * Z) (l : locals) : M unit :=
  sys_signal SIGINT SIG_IGN ;;
  when (negb on_last_command && negb (pipe_descriptor.2 =? STDOUT_FILENO))
       (sys_close pipe_descriptor.2 ;; ret tt) ;;
  when (negb (child_in l =? STDIN_FILENO))
       (sys_dup2 (child_in l) STDIN_FILENO ;; sys_close (child_in l) ;; ret tt) ;;
  when (negb (child_out l =? STDOUT_FILENO))
       (sys_dup2 (child_out l) STDOUT_FILENO ;; sys_close (child_out l) ;; ret tt) ;;
  handle_command command ;;
  sys_exit 0.


(** The loop body from the test for built-in commands to the increment of
    [curr_command_index]. *)
Definition run_stage (command : Pgm) (on_last_command : bool)
           (pipe_descriptor : Z * Z) (l : locals) : M locals :=
  l1 <- (if String.eqb "exit" (pgm_name command) then sys_exit 0
         else if String.eqb "cd" (pgm_name command) then
           status <- sys_chdir E (command_1 command) ;;
           when (status =? -1) handle_directory_error ;;
           ret (set_command_counter 0 l)
         else
           child <- sys_fork E (pgmlist command)
                      (child_branch command on_last_command pipe_descriptor l) ;;
           when (negb (child_in l =? STDIN_FILENO)) (sys_close (child_in l) ;; ret tt) ;;
           when (negb (child_out l =? STDOUT_FILENO)) (sys_close (child_out l) ;; ret tt) ;;
           let l' := set_command_pids
                       (<[Z.to_nat (curr_command_index l):=child]> (command_pids l)) l in
           ret (if negb on_last_command then set_child_out pipe_descriptor.2 l' else l')) ;;
  ret (set_curr_command_index (curr_command_index l1 + 1) l1).

(** One turn of the loop; the boolean is [false] when the loop was left by
    [break]. *)
Definition stage (command : Pgm) (on_last_command : bool) (l : locals)
  : M (bool * locals) :=
  if negb on_last_command then
    r <- sys_pipe E ;;
    let status := r.1 in
    let pipe_descriptor := r.2 in
    if status =? -1 then
      fprintf_stderr "Pipe failed" ;;
      when (negb (child_out l =? STDOUT_FILENO)) (sys_close (child_out l) ;; ret tt) ;;
      ret (false, l)
    else
      l' <- run_stage command on_last_command pipe_descriptor
                      (set_child_in pipe_descriptor.1 l) ;;
      ret (true, l')
  else
    l' <- run_stage command on_last_command (env_uninit E 0, env_uninit E 1)
                    (set_child_in (last_in l) l) ;;
    ret (true, l').

Definition is_null {A} (l : list A) : bool :=
  match l with [] => true | _ => false end.

(** [while (pgm != NULL)] *)
Fixpoint launch (pgm : list Pgm) (l : locals) : M locals :=
  match pgm with
  | [] => ret l
  | command :: next =>
      r <- stage command (is_null next) l ;;
      if r.1 then launch next r.2 else ret r.2
  end.

(** [while (i < command_counter) { waitpid(command_pids[i], ...); i++; }];
    [n] bounds the number of turns. *)
Fixpoint wait_children (n : nat) (pids : list Z) (count i : Z) : M unit :=
  match n with
  | O => ret tt
  | S n' =>
      if i <? count then
        r <- sys_waitpid (default 0 (pids !! Z.to_nat i)) ;;
        match r with
        | None => fun w => Stop (StWait (mkFrame pids count i)) w
        | Some _ => wait_children n' pids count (i + 1)
        end
      else ret tt
  end.

(** The foreground wait from index [i] on, and what follows it. *)
Definition foreground_wait (pids : list Z) (count i : Z) : M unit :=
  wait_children (Z.to_nat (count - i)) pids count i ;;
  modify (upd_me (set_numChildren 0)) ;;
  sys_signal SIGINT SIG_IGN.

(** A wait that was blocked is taken up again. *)
Definition resume (f : frame) : M unit :=
  foreground_wait (f_pids f) (f_count f) (f_i f).

(** The input redirection: [None] when the command is given up. *)
Definition redirect_input (cmd : Command) : M (option Z) :=
  match rstdin cmd with
  | Some path =>
      input <- sys_open E path ;;
      if input =? -1 then handle_file_error ;; ret None
      else ret (Some input)
  | None => ret (Some STDIN_FILENO)
  end.

(** The output redirection: [None] when the command is given up. *)
Definition redirect_output (cmd : Command) (last_in : Z) : M (option Z) :=
  match rstdout cmd with
  | Some path =>
      out_pid <- sys_creat E path ;;
      if out_pid =? -1 then
        handle_file_error ;;
        when (negb (last_in =? STDIN_FILENO)) (sys_close last_in ;; ret tt) ;;
        ret None
      else ret (Some out_pid)
  | None => ret (Some STDOUT_FILENO)
  end.

(** What follows the loop: the foreground wait, unless the command runs in
    the background. *)
Definition complete (cmd : Command) (l : locals) : M unit :=
  if negb (background cmd) then
    modify (upd_me (set_children (command_pids l))) ;;
    modify (upd_me (set_numChildren (command_counter l))) ;;
    sys_signal SIGINT (SIG_FN KillChildrenOnSignal_fn) ;;
    foreground_wait (command_pids l) (command_counter l) 0
  else ret tt.

Definition RunCommand (parse_result : Z) (cmd : Command) : M unit :=
  i <- redirect_input cmd ;;
  match i with
  | None => ret tt
  | Some last_in =>
      o <- redirect_output cmd last_in ;;
      match o with
      | None => ret tt
      | Some child_out =>
          l <- launch (pgm cmd)
                 (mkLocals (CountCommands (pgm cmd)) (malloc (CountCommands (pgm cmd)))
                           0 last_in STDIN_FILENO child_out) ;;
          complete cmd l
      end
  end.

(** [while (i < numChildren) { kill(children[i], SIGKILL); i++; }] *)
Fixpoint kill_children (n : nat) (i : Z) : M unit :=
  match n with
  | O => ret tt
  | S n' =>
      w <- get ;;
      if i <? numChildren (me w) then
        sys_kill (default 0 (children (me w) !! Z.to_nat i)) SIGKILL ;;
        kill_children n' (i + 1)
      else ret tt
  end.

Definition KillChildrenOnSignal (status : Z) : M unit :=
  w <- get ;;
  kill_children (Z.to_nat (numChildren (me w))) 0.

Definition handlers (h : handler_fn) : Z -> M unit :=
  match h with
  | KillChildrenOnSignal_fn => KillChildrenOnSignal
  | KillChildren_fn => fun _ => ret tt
  end.

(** [SIGINT] arrives at the interpreter. *)
Definition interrupt : M unit :=
  w <- get ;; deliver handlers SIGINT (ps_sigint (me w)).

(** The read-eval loop over the lines read before end of input, each
    already parsed. *)
Fixpoint read_eval (lines : list (Z * Command)) : M Z :=
  match lines with
  | [] => ret 0
  | (parse_result, cmd) :: rest =>
      RunCommand parse_result cmd ;;
      read_eval rest
  end.

Definition main (lines : list (Z * Command)) : M Z :=
  sys_signal SIGINT SIG_IGN ;;
  sys_signal SIGCHLD SIG_IGN ;;
  read_eval lines.

(** [PrintPgm]: the lines it prints, in the order it prints them. *)
Definition print_stage (pl : list string) : string :=
  "            * [ " +:+ String.concat EmptyString (map (fun s => s +:+ " ") pl)
    +:+ "]" +:+ nl.

Fixpoint PrintPgm (p : list Pgm) : list string :=
  match p with
  | [] => []
  | pl :: next => PrintPgm next ++ [print_stage (pgmlist pl)]
  end.

End WithEnv.
End Lsh.

(** ** Vocabulary of the specification *)

Definition procs (w : world) : list proc := k_procs (kern w).
Definition events (w : world) : list event := k_log (kern w).

(** The processes forked, and the system calls made, on the way from [w]
    to [w']. *)
Definition spawned (w w' : world) : list proc :=
  drop (length (procs w)) (procs w').
Definition new_events (w w' : world) : list event :=
  drop (length (events w)) (events w').

(** How a process ended, if it did. *)
Definition termination_of (p : proc) : option termination :=
  match p_status p with
  | Alive _ => None
  | Zombie t | Reaped t => Some t
  end.

(** What reaping leaves of a process entry. *)
Definition proc_view (p : proc) : list string * pstate * option termination :=
  (p_argv p, p_state p, termination_of p).

(** The caller's state apart from descriptors, directory and [errno]. *)
Definition same_me (w w' : world) : Prop :=
  ps_pid (me w') = ps_pid (me w) ∧ ps_sigint (me w') = ps_sigint (me w) ∧
  ps_sigchld (me w') = ps_sigchld (me w) ∧ children (me w') = children (me w) ∧
  numChildren (me w') = numChildren (me w).

(** A step that changes at most the descriptor table and [errno] of the caller. *)
Definition fd_step (w w' : world) : Prop :=
  kern w' = kern w ∧ same_me w w' ∧ ps_cwd (me w') = ps_cwd (me w).

(** Descriptor [n] refers to the same thing before and after. *)
Definition keeps (n : Z) (w w' : world) : Prop :=
  fd_get (ps_fds (me w')) n = fd_get (ps_fds (me w)) n.

(** The three standard streams are open. *)
Definition std_open (t : fdtable) : Prop :=
  is_Some (fd_get t 0) ∧ is_Some (fd_get t 1) ∧ is_Some (fd_get t 2).

(** What the loop of [RunCommand] keeps true of the descriptors it holds:
    the standard streams stay as they are, and [last_in] and [child_out] are
    a standard stream or a descriptor opened later. *)
Definition fd_inv (t0 : fdtable) (last_in child_out : Z) (w : world) : Prop :=
  std_open t0 ∧
  (∀ n, 0 ≤ n ≤ 2 → fd_get (ps_fds (me w)) n = fd_get t0 n) ∧
  (last_in = 0 ∨ 3 ≤ last_in) ∧ (child_out = 1 ∨ 3 ≤ child_out).

(** The text [handle_command] prints when [execvp] failed with [e]. *)
Definition launch_error_text (name : string) (e : Z) : string :=
  if e =? ENOENT then "Could not find executable: " +:+ name +:+ nl
  else "Failed to execute: " +:+ name.

(** The system calls of a forked child [pid] for stage [c], where [x] is
    what [execvp] comes to and [tgt] what its descriptor 2 refers to. *)
Definition child_events (pid : Z) (c : Pgm) (x : option Z) (tgt : option fobj)
  : list event :=
  match x with
  | None => [EvExecvp pid (pgm_name c) None]
  | Some e => [EvExecvp pid (pgm_name c) (Some e);
               EvWrite pid STDERR_FILENO tgt (launch_error_text (pgm_name c) e);
               EvExit pid 0]
  end.

Definition child_status (c : Pgm) (x : option Z) (d : disposition) : pstatus :=
  match x with
  | None => Alive (Some (pgmlist c))
  | Some _ => terminate d (Exited 0)
  end.

(** The events of the pipe call that opens a turn of the loop. *)
Definition pipe_events (on_last_command : bool) (pid status : Z) : list event :=
  if on_last_command then [] else [EvPipe pid status].

Definition is_builtin (c : Pgm) : bool :=
  String.eqb "exit" (pgm_name c) || String.eqb "cd" (pgm_name c).

(** The diagnostic of [handle_directory_error] for [errno = e]. *)
Definition directory_error_text (e : Z) : string :=
  if e =? EACCES then "Permission denied" +:+ nl
  else if e =? ENOENT then "No such path" +:+ nl
  else if e =? ENOTDIR then "Not a directory" +:+ nl
  else if e =? EFAULT then "Invalid argument" +:+ nl
  else "Could not change working directory (" +:+ show_int e +:+ ")" +:+ nl.

(** The diagnostic of [handle_file_error] for [errno = e]. *)
Definition file_error_text (e : Z) : string :=
  if e =? EACCES then "Access denied" +:+ nl
  else if e =? EISDIR then "File is a directory" +:+ nl
  else if e =? ENOENT then "No such file" +:+ nl
  else "Could not open file" +:+ nl.

(** The descriptors 0, 1 and 2 refer to the same things before and after. *)
Definition std_kept (w w' : world) : Prop :=
  ∀ n, 0 ≤ n ≤ 2 → keeps n w w'.

(** What [chdir(arg)] comes to in directory [cwd]. *)
Definition chdir_outcome (E : Env) (cwd : string) (arg : option string) : Z + string :=
  match arg with
  | None => inl EFAULT
  | Some d => env_chdir E cwd d
  end.

Definition cd_events (pid : Z) (arg : option string) (r : Z + string)
           (tgt : option fobj) : list event :=
  match r with
  | inl e => [EvChdir pid arg (-1);
              EvWrite pid STDERR_FILENO tgt (directory_error_text e)]
  | inr _ => [EvChdir pid arg 0]
  end.

Definition cd_cwd (cwd : string) (r : Z + string) : string :=
  match r with inl _ => cwd | inr d => d end.

(** The outcomes of one turn of the loop of [Lsh.RunCommand]: the loop is left
    because no pipe could be made, the interpreter exits, changes directory,
    fails to fork, or forks a child for the stage. *)
Inductive stage_spec (E : Env) (c : Pgm) (ol : bool) (l : Lsh.locals) (w : world)
  : res (bool * Lsh.locals) → Prop :=
| stage_break w' :
    ol = false →
    procs w' = procs w →
    events w' = events w ++ [EvPipe (ps_pid (me w)) (-1);
                             EvWrite (ps_pid (me w)) STDERR_FILENO
                                     (fd_get (ps_fds (me w)) 2) "Pipe failed"] →
    same_me w w' →
    ps_cwd (me w') = ps_cwd (me w) →
    (∀ t0, fd_inv t0 (Lsh.last_in l) (Lsh.child_out l) w → std_kept w w') →
    stage_spec E c ol l w (Ret (false, l) w')
| stage_exit w' :
    pgm_name c = "exit" →
    procs w' = procs w →
    events w' = events w ++ pipe_events ol (ps_pid (me w)) 0 ++ [EvExit (ps_pid (me w)) 0] →
    same_me w w' →
    stage_spec E c ol l w (Stop (StExit 0) w')
| stage_cd l' w' tgt :
    pgm_name c = "cd" →
    procs w' = procs w →
    events w' = events w ++ pipe_events ol (ps_pid (me w)) 0
                  ++ cd_events (ps_pid (me w)) (command_1 c)
                       (chdir_outcome E (ps_cwd (me w)) (command_1 c)) tgt →
    same_me w w' →
    ps_cwd (me w') = cd_cwd (ps_cwd (me w)) (chdir_outcome E (ps_cwd (me w)) (command_1 c)) →
    Lsh.command_counter l' = 0 →
    Lsh.command_pids l' = Lsh.command_pids l →
    Lsh.curr_command_index l' = Lsh.curr_command_index l + 1 →
    Lsh.last_in l' = Lsh.last_in l →
    Lsh.child_out l' = Lsh.child_out l →
    (∀ t0, fd_inv t0 (Lsh.last_in l) (Lsh.child_out l) w → std_kept w w' ∧ tgt = fd_get t0 2) →
    stage_spec E c ol l w (Ret (true, l') w')
| stage_fork_failed l' w' :
    is_builtin c = false →
    procs w' = procs w →
    events w' = events w ++ pipe_events ol (ps_pid (me w)) 0 ++ [EvFork (ps_pid (me w)) (-1)] →
    same_me w w' →
    ps_cwd (me w') = ps_cwd (me w) →
    Lsh.command_counter l' = Lsh.command_counter l →
    Lsh.command_pids l'
      = <[Z.to_nat (Lsh.curr_command_index l):=-1]> (Lsh.command_pids l) →
    Lsh.curr_command_index l' = Lsh.curr_command_index l + 1 →
    Lsh.last_in l' = Lsh.last_in l →
    (∀ t0, fd_inv t0 (Lsh.last_in l) (Lsh.child_out l) w →
           std_kept w w' ∧ (Lsh.child_out l' = 1 ∨ 3 ≤ Lsh.child_out l')) →
    stage_spec E c ol l w (Ret (true, l') w')
| stage_spawned l' w' p tgt :
    is_builtin c = false →
    procs w' = procs w ++ [p] →
    p_argv p = pgmlist c →
    0 < p_pid p →
    ps_sigint (p_state p) = SIG_IGN →
    ps_cwd (p_state p) = ps_cwd (me w) →
    p_status p = child_status c (env_execvp E (ps_cwd (me w)) (pgm_name c))
                              (ps_sigchld (me w)) →
    events w' = events w ++ pipe_events ol (ps_pid (me w)) 0
                  ++ EvFork (ps_pid (me w)) (p_pid p)
                  :: child_events (p_pid p) c
                       (env_execvp E (ps_cwd (me w)) (pgm_name c)) tgt →
    same_me w w' →
    ps_cwd (me w') = ps_cwd (me w) →
    Lsh.command_counter l' = Lsh.command_counter l →
    Lsh.command_pids l'
      = <[Z.to_nat (Lsh.curr_command_index l):=p_pid p]> (Lsh.command_pids l) →
    Lsh.curr_command_index l' = Lsh.curr_command_index l + 1 →
    Lsh.last_in l' = Lsh.last_in l →
    (∀ t0, fd_inv t0 (Lsh.last_in l) (Lsh.child_out l) w →
           std_kept w w' ∧ (Lsh.child_out l' = 1 ∨ 3 ≤ Lsh.child_out l') ∧
           tgt = fd_get t0 2) →
    stage_spec E c ol l w (Ret (true, l') w').

(** ** The revision in [src/lsh.c]

    The same interpreter at an earlier stage: diagnostics go to the standard
    output, [cd] is a case of [handle_command] and so runs in the forked
    child, a failed [pipe] ends the interpreter, the redirection errors return
    without releasing anything, and the handler [KillChildren] takes its bound
    from [sizeof]. *)

Module LshDraft.
Section WithEnv.
Variable E : Env.

(** [sizeof(children)] for [int *children], and [sizeof(__pid_t)], on the
    64-bit Linux the interpreter is written for. *)
Definition sizeof_children : Z := 8.
Definition sizeof_pid_t : Z := 4.

Definition handle_file_error : M unit :=
  e <- Lsh.errno ;;
  if e =? EACCES then printf ("Access denied" +:+ nl)
  else if e =? EISDIR then printf ("File is a directory" +:+ nl)
  else if e =? ENOENT then printf ("No such file" +:+ nl)
  else printf ("Could not open file" +:+ nl).

Definition handle_directory_error : M unit :=
  e <- Lsh.errno ;;
  if e =? EACCES then printf ("Permission denied" +:+ nl)
  else if e =? ENOENT then printf ("No such path" +:+ nl)
  else if e =? ENOTDIR then printf ("Not a directory" +:+ nl)
  else if e =? EFAULT then printf ("Invalid argument" +:+ nl)
  else printf ("Could not change working directory (" +:+ show_int e +:+ ")" +:+ nl).

Definition handle_command (command : Pgm) : M unit :=
  if String.eqb "cd" (pgm_name command) then
    status <- sys_chdir E (command_1 command) ;;
    when (status =? -1) handle_directory_error
  else
    sys_execvp E (pgm_name command) (pgmlist command) ;;
    e <- Lsh.errno ;;
    if e =? ENOENT
    then printf ("Could not find executable: " +:+ pgm_name command +:+ nl)
    else printf ("Failed to execute: " +:+ pgm_name command).

Definition child_branch (command : Pgm) (on_last_command : bool)
           (pipe_descriptor : Z * Z) (l : Lsh.locals) : M unit :=
  when (negb on_last_command && negb (pipe_descriptor.2 =? STDOUT_FILENO))
       (sys_close pipe_descriptor.2 ;; ret tt) ;;
  when (negb (Lsh.child_in l =? STDIN_FILENO))
       (sys_dup2 (Lsh.child_in l) STDIN_FILENO ;; sys_close (Lsh.child_in l) ;; ret tt) ;;
  when (negb (Lsh.child_out l =? STDOUT_FILENO))
       (sys_dup2 (Lsh.child_out l) STDOUT_FILENO ;; sys_close (Lsh.child_out l) ;; ret tt) ;;
  handle_command command ;;
  sys_exit 0.

(** One turn of the loop; it is never left by [break]. *)
Definition stage (command : Pgm) (on_last_command : bool) (l : Lsh.locals)
  : M Lsh.locals :=
  r <- (if negb on_last_command then
          r <- sys_pipe E ;;
          if r.1 =? -1 then printf "Pipe failed" ;; sys_exit (-1)
          else ret (r.2, Lsh.set_child_in r.2.1 l)
        else ret ((env_uninit E 0, env_uninit E 1),
                  Lsh.set_child_in (Lsh.last_in l) l)) ;;
  let pipe_descriptor := r.1 in
  let l := r.2 in
  (if String.eqb "exit" (pgm_name command) then sys_exit 0 else ret tt) ;;
  child <- sys_fork E (pgmlist command)
             (child_branch command on_last_command pipe_descriptor l) ;;
  when (negb (Lsh.child_in l =? STDIN_FILENO)) (sys_close (Lsh.child_in l) ;; ret tt) ;;
  when (negb (Lsh.child_out l =? STDOUT_FILENO)) (sys_close (Lsh.child_out l) ;; ret tt) ;;
  let l' := Lsh.set_command_pids
              (<[Z.to_nat (Lsh.curr_command_index l):=child]> (Lsh.command_pids l)) l in
  let l' := if negb on_last_command then Lsh.set_child_out pipe_descriptor.2 l' else l' in
  ret (Lsh.set_curr_command_index (Lsh.curr_command_index l' + 1) l').

Fixpoint launch (pgm : list Pgm) (l : Lsh.locals) : M Lsh.locals :=
  match pgm with
  | [] => ret l
  | command :: next =>
      l' <- stage command (Lsh.is_null next) l ;;
      launch next l'
  end.

(** The wait from index [i] on, and the rest of [RunCommand]. *)
Definition foreground_wait (pids : list Z) (count i : Z) : M unit :=
  Lsh.wait_children (Z.to_nat (count - i)) pids count i ;;
  sys_signal SIGINT SIG_IGN.

Definition resume (f : frame) : M unit :=
  foreground_wait (f_pids f) (f_count f) (f_i f).

Definition RunCommand (parse_result : Z) (cmd : Command) : M unit :=
  i <- match rstdin cmd with
       | Some path =>
           input <- sys_open E path ;;
           if input =? -1 then handle_file_error ;; ret None
           else ret (Some input)
       | None => ret (Some STDIN_FILENO)
       end ;;
  match i with
  | None => ret tt
  | Some last_in =>
      o <- match rstdout cmd with
           | Some path =>
               out_pid <- sys_creat E path ;;
               if out_pid =? -1 then handle_file_error ;; ret None
               else ret (Some out_pid)
           | None => ret (Some STDOUT_FILENO)
           end ;;
      match o with
      | None => ret tt
      | Some child_out =>
          l <- launch (pgm cmd)
                 (Lsh.mkLocals (Lsh.CountCommands (pgm cmd))
                               (Lsh.malloc E (Lsh.CountCommands (pgm cmd)))
                               0 last_in STDIN_FILENO child_out) ;;
          if negb (background cmd) then
            modify (upd_me (set_children (Lsh.command_pids l))) ;;
            sys_signal SIGINT (SIG_FN KillChildren_fn) ;;
            foreground_wait (Lsh.command_pids l) (Lsh.command_counter l) 0
          else sys_signal SIGINT SIG_IGN
      end
  end.

(** [children[i]]: past the end of the array the read finds memory nobody
    has written. *)
Definition children_at (w : world) (i : Z) : Z :=
  default (env_uninit E (2 + Z.to_nat i)) (children (me w) !! Z.to_nat i).

(** [for (int i = 0; i < sizeof(children)/sizeof(__pid_t); i++)] *)
Fixpoint kill_children (n : nat) (i : Z) : M unit :=
  match n with
  | O => ret tt
  | S n' =>
      if i <? sizeof_children / sizeof_pid_t then
        w <- get ;;
        sys_kill (children_at w i) SIGKILL ;;
        kill_children n' (i + 1)
      else ret tt
  end.

Definition KillChildren (status : Z) : M unit :=
  kill_children (Z.to_nat (sizeof_children / sizeof_pid_t)) 0 ;;
  printf nl.

Definition handlers (h : handler_fn) : Z -> M unit :=
  match h with
  | KillChildren_fn => KillChildren
  | KillChildrenOnSignal_fn => fun _ => ret tt
  end.

Definition interrupt : M unit :=
  w <- get ;; deliver handlers SIGINT (ps_sigint (me w)).

End WithEnv.
End LshDraft.

(** The loop of [Lsh.RunCommand], turn by turn. *)
Inductive launch_spec (E : Env)
  : list Pgm → Lsh.locals → world → res Lsh.locals → Prop :=
| launch_nil l w : launch_spec E [] l w (Ret l w)
| launch_next c next l w l1 w1 r :
    stage_spec E c (Lsh.is_null next) l w (Ret (true, l1) w1) →
    launch_spec E next l1 w1 r →
    launch_spec E (c :: next) l w r
| launch_break c next l w w1 :
    stage_spec E c (Lsh.is_null next) l w (Ret (false, l) w1) →
    launch_spec E (c :: next) l w (Ret l w1)
| launch_stop c next l w s w1 :
    stage_spec E c (Lsh.is_null next) l w (Stop s w1) →
    launch_spec E (c :: next) l w (Stop s w1).

(** A system call the loop may make: anything but [kill] and [waitpid]. *)
Definition launch_event (e : event) : Prop :=
  match e with
  | EvKill _ _ _ | EvWaitpid _ _ _ => False
  | _ => True
  end.

(** What holds of a child the loop has just forked, [d] being what the
    interpreter does about [SIGCHLD]: its pid is positive, it ignores
    [SIGINT], and it runs the program of its stage or has ended by [exit(0)]. *)
Definition child_ok (d : disposition) (p : proc) : Prop :=
  0 < p_pid p ∧ ps_sigint (p_state p) = SIG_IGN ∧
  (p_status p = Alive (Some (p_argv p)) ∨ p_status p = terminate d (Exited 0)).

(** A system call of the redirections. *)
Definition setup_event (e : event) : Prop :=
  match e with
  | EvOpen _ _ _ | EvCreat _ _ _ | EvWrite _ _ _ _ => True
  | _ => False
  end.

Definition waitpid_event (e : event) : Prop :=
  match e with
  | EvWaitpid _ _ _ => True
  | _ => False
  end.

(** What the foreground wait changes: zombies are reaped, calls to [waitpid]
    are logged, [errno] is set. *)
Definition wait_step (w w' : world) : Prop :=
  map proc_view (procs w') = map proc_view (procs w) ∧
  (∃ evs, events w' = events w ++ evs ∧ Forall waitpid_event evs) ∧
  same_me w w' ∧ ps_fds (me w') = ps_fds (me w) ∧ ps_cwd (me w') = ps_cwd (me w).

(** No living child is selected by [waitpid(target, ...)]. *)
Definition none_alive (target : Z) (ps : list proc) : Prop :=
  Forall (fun q => wait_selects target q && is_alive q = false) ps.

(** ** The claims that do not hold, as they are worded *)


(** Every child whose [execvp] failed ends with a status other than 0. *)
Definition failed_launch_exits_nonzero (E : Env) (cmd : Command) (w : world) : Prop :=
  ∀ p file e,
    p ∈ spawned w (final_world (Lsh.RunCommand E 1 cmd w)) →
    EvExecvp (p_pid p) file (Some e) ∈ new_events w (final_world (Lsh.RunCommand E 1 cmd w)) →
    ∃ code, termination_of p = Some (Exited code) ∧ code ≠ 0.

(** The stages in the order of the command line, left to right: the parser
    hands them over last stage first, as [PrintPgm] and the comment on the
    loop of [RunCommand] say. *)
Definition left_to_right (cmd : Command) : list (list string) :=
  rev (map pgmlist (pgm cmd)).

(** The children are forked in the order of the command line. *)
Definition spawns_left_to_right (E : Env) (cmd : Command) (w : world) : Prop :=
  map p_argv (spawned w (final_world (Lsh.RunCommand E 1 cmd w))) = left_to_right cmd.

(** A redirection or a pipe that could not be set up. *)
Definition setup_failure (e : event) : Prop :=
  match e with
  | EvOpen _ _ r | EvCreat _ _ r | EvPipe _ r => r = -1
  | _ => False
  end.

Definition pipe_failure (e : event) : Prop :=
  match e with
  | EvPipe _ r => r = -1
  | _ => False
  end.

(** A system call of the loop or of the redirections that is not such a
    failure. *)
Definition ok_event (e : event) : Prop := launch_event e ∧ ¬ setup_failure e.

Definition write_event (e : event) : Prop :=
  match e with
  | EvWrite _ fd _ _ => fd = STDERR_FILENO
  | _ => False
  end.

Definition kill_event (e : event) : Prop :=
  match e with
  | EvKill _ _ _ => True
  | _ => False
  end.

(** The child has not ended, or has ended on its own account by [exit(0)]. *)
Definition not_killed (p : proc) : Prop :=
  termination_of p = None ∨ termination_of p = Some (Exited 0).



(** The events of a redirection: a failed call and the diagnostic when the
    command is given up ([None]), calls that succeeded otherwise. *)
Definition redirect_shape (r : option Z) (evs : list event) : Prop :=
  match r with
  | None => ∃ e d, evs = [e; d] ∧ setup_failure e ∧ ¬ pipe_failure e ∧ write_event d
  | Some _ => Forall ok_event evs
  end.

(** In the log [evs] every [execvp] that failed is followed at once by the
    diagnostic of the same process on descriptor 2, which refers to [err],
    and by its [exit(0)]. *)
Definition reports_launch_failures (err : option fobj) (evs : list event) : Prop :=
  ∀ pid file e,
    EvExecvp pid file (Some e) ∈ evs →
    ∃ pre post,
      evs = pre ++ [EvExecvp pid file (Some e);
                    EvWrite pid STDERR_FILENO err (launch_error_text file e);
                    EvExit pid 0] ++ post.

Definition execvp_failure (e : event) : Prop :=
  match e with
  | EvExecvp _ _ (Some _) => True
  | _ => False
  end.

(** ** Two runs that differ in one launch *)

(** Two environments that differ at most in whether the program [f0] can be
    launched. *)
Definition agree_except (f0 : string) (E1 E2 : Env) : Prop :=
  env_open E1 = env_open E2 ∧ env_creat E1 = env_creat E2 ∧
  env_chdir E1 = env_chdir E2 ∧ env_pipe E1 = env_pipe E2 ∧
  env_fork E1 = env_fork E2 ∧ env_uninit E1 = env_uninit E2 ∧
  ∀ cwd f, f ≠ f0 → env_execvp E1 cwd f = env_execvp E2 cwd f.

(** Two entries of the process table for the same stage and pid, which show
    the same process unless the program of the stage is [f0]. *)
Definition same_unless (f0 : string) (q1 q2 : proc) : Prop :=
  p_argv q1 = p_argv q2 ∧ p_pid q1 = p_pid q2 ∧
  (hd_error (p_argv q1) ≠ Some f0 → proc_view q1 = proc_view q2).

(** Two worlds the interpreter cannot tell apart, with the same children
    but for those whose program is [f0]. *)
Definition sim (f0 : string) (w1 w2 : world) : Prop :=
  me w1 = me w2 ∧
  k_pipes (kern w1) = k_pipes (kern w2) ∧
  k_forks (kern w1) = k_forks (kern w2) ∧
  Forall2 (same_unless f0) (procs w1) (procs w2).

Definition res_sim (f0 : string) {A} (r1 r2 : res A) : Prop :=
  match r1, r2 with
  | Ret a1 w1, Ret a2 w2 => a1 = a2 ∧ sim f0 w1 w2
  | Stop s1 w1, Stop s2 w2 => s1 = s2 ∧ sim f0 w1 w2
  | _, _ => False
  end.

Definition uniform (f0 : string) {A} (m1 m2 : M A) : Prop :=
  ∀ w1 w2, sim f0 w1 w2 → res_sim f0 (m1 w1) (m2 w2).

(** ** Strings in memory

    A [char] buffer is the list of its cells; a C string is what is in it
    up to the first [NUL].  Reads and writes outside the buffer, and a
    [strcpy] between areas that overlap, are undefined in C: the functions
    below return [None] for them, and nothing is said of what the cells hold
    afterwards. *)

Definition INT_MAX : Z := 2147483647.

(** The value of a C expression converted to [int]. *)
Definition to_int (z : Z) : Z := (z + 2147483648) mod 4294967296 - 2147483648.

Definition NUL : ascii := Ascii.zero.

Definition is_nul (c : ascii) : bool := Ascii.eqb c NUL.

(** [isspace] in the C locale: space, and the controls from tab to carriage
    return.  A cell is taken by its value from 0 to 255; no cell above 127,
    which is a negative [char] where [char] is signed, is white space. *)
Definition isspace (c : ascii) : bool :=
  let n := Z.of_nat (nat_of_ascii c) in
  (n =? 32) || ((9 <=? n) && (n <=? 13)).

(** [string[i]]; [None] is a read outside the buffer. *)
Definition char_at (string : list ascii) (i : Z) : option ascii :=
  if i <? 0 then None else string !! Z.to_nat i.

(** [strlen]: [None] when no terminator is found in the buffer. *)
Fixpoint strlen (s : list ascii) : option nat :=
  match s with
  | [] => None
  | c :: s' => if is_nul c then Some 0%nat else S <$> strlen s'
  end.

(** The bytes of the string at [src], the terminator included, written at
    [dest] one after the other. *)
Fixpoint copy_bytes (fuel : nat) (mem : list ascii) (dest src : nat)
  : option (list ascii) :=
  match fuel with
  | O => None
  | S fuel' =>
      match mem !! src with
      | None => None
      | Some c =>
          if (dest <? length mem)%nat then
            let mem' := <[dest:=c]> mem in
            if is_nul c then Some mem' else copy_bytes fuel' mem' (S dest) (S src)
          else None
      end
  end.

(** [strcpy(mem + dest, mem + src)] copies the string at [src], the
    terminator included: [n + 1] bytes for a string of length [n].  The call
    is undefined when the area read and the area written overlap; when they
    do not, the order in which the bytes are copied makes no difference. *)
Definition strcpy (mem : list ascii) (dest src : nat) : option (list ascii) :=
  n ← strlen (drop src mem);
  if (dest <? src + S n)%nat && (src <? dest + S n)%nat then None
  else copy_bytes (S n) mem dest src.

(** [while (isspace(string[i])) i++;] *)
Fixpoint skip_leading (fuel : nat) (string : list ascii) (i : Z) : option Z :=
  match fuel with
  | O => None
  | S fuel' =>
      match char_at string i with
      | None => None
      | Some c =>
          if isspace c then skip_leading fuel' string (to_int (i + 1)) else Some i
      end
  end.

(** [while (i > 0 && isspace(string[i])) i--;] *)
Fixpoint skip_trailing (fuel : nat) (string : list ascii) (i : Z) : option Z :=
  match fuel with
  | O => None
  | S fuel' =>
      if 0 <? i then
        match char_at string i with
        | None => None
        | Some c =>
            if isspace c then skip_trailing fuel' string (to_int (i - 1)) else Some i
        end
      else Some i
  end.

(** [stripwhite]: the buffer afterwards, [None] when the function reads or
    writes outside it or has [strcpy] copy between areas that overlap. *)
Definition stripwhite (string : list ascii) : option (list ascii) :=
  i ← skip_leading (S (length string)) string 0;
  string ← (if i =? 0 then Some string
            else strcpy string 0 (Z.to_nat i));
  n ← strlen string;
  let i := to_int (Z.of_nat n - 1) in
  i ← skip_trailing (S (Z.to_nat i)) string i;
  let i := to_int (i + 1) in
  if (0 <=? i) && (i <? Z.of_nat (length string))
  then Some (<[Z.to_nat i:=NUL]> string)
  else None.

(** The string a buffer holds: the characters before the terminator. *)
Fixpoint c_str (s : list ascii) : list ascii :=
  match s with
  | [] => []
  | c :: s' => if is_nul c then [] else c :: c_str s'
  end.

(** White space only; no terminator. *)
Definition blank (l : list ascii) : Prop := Forall (fun c => isspace c = true) l.
Definition no_nul (l : list ascii) : Prop := Forall (fun c => is_nul c = false) l.

(** ** The read-eval loop ([main])

    [readline] hands over one buffer per line and [NULL] at the end of the
    input; [add_history] appends to the list the line editor keeps.  [parse]
    is in [parse.c], which reads the string in the buffer and fills a
    [Command]; what it delivers is a parameter here. *)

Module Repl.
Section WithEnv.
Variable E : Env.
Variable parse : list ascii -> Z * Command.

Definition add_history (line : list ascii) (history : list (list ascii))
  : list (list ascii) :=
  history ++ [line].

(** The body of [while (TRUE)] for a line that is not [NULL]; the value is
    the history afterwards. *)
Definition turn (line : list ascii) (history : list (list ascii))
  : M (list (list ascii)) :=
  match stripwhite line with
  | None => fun w => Stop StUndefined w
  | Some line =>
      if negb (is_nul (default NUL (head line))) then
        let history := add_history (c_str line) history in
        let r := parse (c_str line) in
        Lsh.RunCommand E r.1 r.2 ;;
        ret history
      else ret history
  end.

(** [while (TRUE)] over the lines read before the end of the input, where
    [readline] returns [NULL] and [main] returns 0. *)
Fixpoint loop (input : list (list ascii)) (history : list (list ascii))
  : M (Z * list (list ascii)) :=
  match input with
  | [] => ret (0, history)
  | line :: rest =>
      history' <- turn line history ;;
      loop rest history'
  end.

Definition main (input : list (list ascii)) : M (Z * list (list ascii)) :=
  sys_signal SIGINT SIG_IGN ;;
  sys_signal SIGCHLD SIG_IGN ;;
  loop input [].

End WithEnv.
End Repl.

(** The line as the interpreter takes it: the string [stripwhite] leaves. *)
Definition stripped (line : list ascii) : list ascii :=
  c_str (default [] (stripwhite line)).


(** The number of white-space characters a string begins with. *)
Fixpoint leading_blanks (s : list ascii) : nat :=
  match s with
  | [] => O
  | c :: s' => if isspace c then S (leading_blanks s') else O
  end.

(** The line begins with white space, and with no more of it than there are
    characters after it: the string [stripwhite] moves to the front begins
    inside the area it is moved to. *)
Definition copy_overlaps (line : list ascii) : bool :=
  let k := leading_blanks (c_str line) in
  (0 <? k)%nat && (2 * k <=? length (c_str line))%nat.

(** ** Further vocabulary *)

(** The interpreter ignores [SIGCHLD] and no process in the table is a
    zombie. *)
Definition reaping (w : world) : Prop :=
  ps_sigchld (me w) = SIG_IGN ∧ Forall (fun p => is_zombie p = false) (procs w).

(** The interpreter's table [t] is the table [base] but for the descriptors
    the loop of [RunCommand] still holds: [last_in] unless it is the
    standard input, and [child_out] unless it is the standard output.  Both
    are free in [base] and open in [t]. *)
Definition holds_only (base t : fdtable) (last_in child_out : Z) : Prop :=
  std_open base ∧ length t = length base ∧
  (∀ n, (last_in = 0 ∨ n ≠ last_in) → (child_out = 1 ∨ n ≠ child_out) →
        fd_get t n = fd_get base n) ∧
  (last_in ≠ 0 → fd_get base last_in = None ∧ is_Some (fd_get t last_in)) ∧
  (child_out ≠ 1 → fd_get base child_out = None ∧ is_Some (fd_get t child_out)) ∧
  (last_in ≠ 0 → child_out ≠ 1 → last_in ≠ child_out).

(** The code [m] leaves the working directory of the caller as it is. *)
Definition keeps_cwd {A} (m : M A) : Prop :=
  ∀ w, ps_cwd (me (final_world (m w))) = ps_cwd (me w).

(** ** The debugging printer ([DebugPrintCommand], [PrintPgm])

    Each [printf] is one write; [Lsh.PrintPgm] above gives the lines these
    writes add up to. *)

Module Debug.

(** [while ( *pl ) printf("%s ", *pl++);] *)
Fixpoint print_words (pl : list string) : M unit :=
  match pl with
  | [] => ret tt
  | s :: pl' => printf (s +:+ " ") ;; print_words pl'
  end.

Fixpoint PrintPgm (p : list Pgm) : M unit :=
  match p with
  | [] => ret tt
  | c :: next =>
      PrintPgm next ;;
      printf "            * [ " ;;
      print_words (pgmlist c) ;;
      printf ("]" +:+ nl)
  end.

(** [s ? s : "<none>"] *)
Definition or_none (s : option string) : string :=
  match s with Some s => s | None => "<none>" end.

Definition DebugPrintCommand (parse_result : Z) (cmd : Command) : M unit :=
  if negb (parse_result =? 1) then printf ("Parse ERROR" +:+ nl)
  else
    printf ("------------------------------" +:+ nl) ;;
    printf ("Parse OK" +:+ nl) ;;
    printf ("stdin:      " +:+ or_none (rstdin cmd) +:+ nl) ;;
    printf ("stdout:     " +:+ or_none (rstdout cmd) +:+ nl) ;;
    printf ("background: " +:+ (if background cmd then "true" else "false") +:+ nl) ;;
    printf ("Pgms:" +:+ nl) ;;
    PrintPgm (pgm cmd) ;;
    printf ("------------------------------" +:+ nl).

End Debug.

(** What the writes of [evs] on descriptor [fd] add up to. *)
Fixpoint output_on (fd : Z) (evs : list event) : string :=
  match evs with
  | [] => EmptyString
  | EvWrite _ fd' _ text :: evs' =>
      if fd' =? fd then text +:+ output_on fd evs' else output_on fd evs'
  | _ :: evs' => output_on fd evs'
  end.

(** The code [m] does nothing but print [text] on the standard output of
    the caller. *)
Definition only_prints (m : M unit) (text : string) : Prop :=
  ∀ w, ∃ w' evs,
    m w = Ret tt w' ∧ me w' = me w ∧ procs w' = procs w ∧
    events w' = events w ++ evs ∧
    Forall (fun e => ∃ t, e = EvWrite (ps_pid (me w)) STDOUT_FILENO
                                      (fd_get (ps_fds (me w)) STDOUT_FILENO) t) evs ∧
    output_on STDOUT_FILENO evs = text.

(** What descriptor [n] of the process [p] refers to. *)
Definition fd_of (p : proc) (n : Z) : option fobj := fd_get (ps_fds (p_state p)) n.

(** The children [ps] of a pipeline, in the order of the list: the first
    writes to [out], each one reads from the pipe the next one writes to,
    and the last one reads from [inp]. *)
Fixpoint wired (out inp : option fobj) (ps : list proc) : Prop :=
  match ps with
  | [] => True
  | p :: rest =>
      fd_of p STDOUT_FILENO = out ∧
      match rest with
      | [] => fd_of p STDIN_FILENO = inp
      | _ :: _ => ∃ k, fd_of p STDIN_FILENO = Some (PipeRd k) ∧
                       wired (Some (PipeWr k)) inp rest
      end
  end.

(** What the standard output of a pipeline of [cmd] is, and its standard
    input: the file of the redirection, or what the interpreter has there. *)
Definition pipeline_out (cmd : Command) (w : world) : option fobj :=
  match rstdout cmd with
  | Some path => Some (FileWr path)
  | None => fd_get (ps_fds (me w)) STDOUT_FILENO
  end.

Definition pipeline_in (cmd : Command) (w : world) : option fobj :=
  match rstdin cmd with
  | Some path => Some (FileRd path)
  | None => fd_get (ps_fds (me w)) STDIN_FILENO
  end.

(** What the calls of [fork] in the log [evs] returned, and the targets of
    its calls of [waitpid], in the order of the calls. *)
Definition fork_results (evs : list event) : list Z :=
  omap (λ e, match e with EvFork _ r => Some r | _ => None end) evs.

Definition waitpid_targets (evs : list event) : list Z :=
  omap (λ e, match e with EvWaitpid _ target _ => Some target | _ => None end) evs.

Definition fork_event (e : event) : Prop :=
  match e with
  | EvFork _ _ => True
  | _ => False
  end.

(** ** A session to try the definitions on *)

(** An interpreter with its three standard streams and room for five more
    descriptors, started in [/home]. *)
Definition example_shell : pstate :=
  mkPstate 100
    [Some (Inherited 0); Some (Inherited 1); Some (Inherited 2);
     None; None; None; None; None]
    "/home" 0 SIG_IGN SIG_IGN [] 0.

Definition example_world : world := mkWorld (mkKernel [] [] 0 0) example_shell.

(** [in.txt] can be read and [out.txt] written, [/tmp] is a directory,
    every program but [nosuch] can be launched, pipes and forks succeed and
    pids count up from 1000. *)
Definition example_env : Env :=
  mkEnv (fun _ p => if String.eqb p "in.txt" then None else Some ENOENT)
        (fun _ p => if String.eqb p "out.txt" then None else Some EACCES)
        (fun _ p => if String.eqb p "/tmp" then inr "/tmp" else inl ENOENT)
        (fun _ f => if String.eqb f "nosuch" then Some ENOENT else None)
        (fun _ => None)
        (fun k => 1000 + Z.of_nat k)
        (fun _ => -7).

(** The same, but no pipe can be made after the first. *)
Definition example_env_one_pipe : Env :=
  mkEnv (env_open example_env) (env_creat example_env) (env_chdir example_env)
        (env_execvp example_env)
        (fun k => if (k <? 1)%nat then None else Some EMFILE)
        (env_fork example_env) (env_uninit example_env).

(** [ls | grep txt], as the parser delivers it: last stage first. *)
Definition ls_grep : Command :=
  mkCommand [mkPgm "grep" ["txt"]; mkPgm "ls" []] None None false.

(** [a | b | c] *)
Definition three_stages : Command :=
  mkCommand [mkPgm "c" []; mkPgm "b" []; mkPgm "a" []] None None false.

(** [sort < missing.txt] *)
Definition sort_missing : Command :=
  mkCommand [mkPgm "sort" []] (Some "missing.txt") None false.

(** [sort < in.txt > /out.txt] *)
Definition sort_unwritable : Command :=
  mkCommand [mkPgm "sort" []] (Some "in.txt") (Some "/out.txt") false.

(** [nosuch] *)
Definition run_nosuch : Command :=
  mkCommand [mkPgm "nosuch" []] None None false.

(** The same, but every program can be launched. *)
Definition example_env_found : Env :=
  mkEnv (env_open example_env) (env_creat example_env) (env_chdir example_env)
        (fun _ _ => None)
        (env_pipe example_env) (env_fork example_env) (env_uninit example_env).

(** [ls | nosuch | grep txt] *)
Definition ls_nosuch_grep : Command :=
  mkCommand [mkPgm "grep" ["txt"]; mkPgm "nosuch" []; mkPgm "ls" []] None None false.

(** [sleep 100 &] *)
Definition sleep_bg : Command :=
  mkCommand [mkPgm "sleep" ["100"]] None None true.

(** [cd /tmp], [cd /nowhere] and [cd] *)
Definition cd_tmp : Command := mkCommand [mkPgm "cd" ["/tmp"]] None None false.

(** The line [  ls -l  ] as [readline] returns it, and a line of blanks. *)
Definition example_line : list ascii := list_ascii_of_string "  ls -l  " ++ [NUL].
Definition blank_line : list ascii := list_ascii_of_string "   " ++ [NUL].
Definition plain_line : list ascii := list_ascii_of_string "ls -l  " ++ [NUL].
Definition indented_line : list ascii := list_ascii_of_string "    ls " ++ [NUL].

(** A parser that takes every line for [sleep 100 &]. *)
Definition example_parse : list ascii → Z * Command := fun _ => (1, sleep_bg).

(** [sort < in.txt | uniq > out.txt] *)
Definition sort_uniq_files : Command :=
  mkCommand [mkPgm "uniq" []; mkPgm "sort" []] (Some "in.txt") (Some "out.txt") false.

(** [ls | cd /tmp] and [ls | exit] *)
Definition ls_cd : Command :=
  mkCommand [mkPgm "cd" ["/tmp"]; mkPgm "ls" []] None None false.
Definition ls_exit : Command :=
  mkCommand [mkPgm "exit" []; mkPgm "ls" []] None None false.

(** As [example_env], but no process can be forked after the first. *)
Definition example_env_one_fork : Env :=
  mkEnv (env_open example_env) (env_creat example_env) (env_chdir example_env)
        (env_execvp example_env) (env_pipe example_env)
        (fun k => if (k <? 1)%nat then 1000 else -1)
        (env_uninit example_env).



(** The interpreter blocked in the wait for [ls | grep txt], both children
    running. *)
Definition world_blocked : world :=
  final_world (Lsh.RunCommand example_env 1 ls_grep example_world).

(** As [example_env], but no pipe can be made. *)
Definition example_env_no_pipe : Env :=
  mkEnv (env_open example_env) (env_creat example_env) (env_chdir example_env)
        (env_execvp example_env)
        (fun _ => Some EMFILE)
        (env_fork example_env) (env_uninit example_env).

(** * Proofs *)

Import Lsh.

Section Proofs.
Variable E : Env.

(** ** Steps on descriptors *)

Lemma same_me_refl w : same_me w w.
Proof. by repeat split. Qed.

Lemma same_me_trans w1 w2 w3 : same_me w1 w2 → same_me w2 w3 → same_me w1 w3.
Proof. unfold same_me. intros (?&?&?&?&?) (?&?&?&?&?). repeat split; congruence. Qed.

Lemma fd_step_refl w : fd_step w w.
Proof. by repeat split. Qed.

Lemma fd_step_trans w1 w2 w3 : fd_step w1 w2 → fd_step w2 w3 → fd_step w1 w3.
Proof.
  intros (?&?&?) (?&?&?). split; [congruence|]. split; [by eapply same_me_trans|congruence].
Qed.

Lemma keeps_trans n w1 w2 w3 : keeps n w1 w2 → keeps n w2 w3 → keeps n w1 w3.
Proof. unfold keeps. congruence. Qed.

Lemma std_kept_refl w : std_kept w w.
Proof. by intros n _. Qed.

Lemma std_kept_trans w1 w2 w3 : std_kept w1 w2 → std_kept w2 w3 → std_kept w1 w3.
Proof. intros H1 H2 n Hn. eapply keeps_trans; [by apply H1|by apply H2]. Qed.

Lemma fd_get_insert_ne (t : fdtable) (i : nat) (n : Z) x :
  n ≠ Z.of_nat i → fd_get (<[i:=x]> t) n = fd_get t n.
Proof.
  intros Hn. unfold fd_get. destruct (n <? 0) eqn:Hlt; [done|].
  rewrite list_lookup_insert_ne; [done|]. apply Z.ltb_ge in Hlt. lia.
Qed.

Lemma fd_get_Some_nonneg (t : fdtable) fd o : fd_get t fd = Some o → 0 ≤ fd.
Proof. unfold fd_get. destruct (fd <? 0) eqn:Hlt; [done|]. apply Z.ltb_ge in Hlt. lia. Qed.

Lemma fd_alloc_free (t : fdtable) i : fd_alloc t = Some i → fd_get t (Z.of_nat i) = None.
Proof.
  revert i. induction t as [|[o|] t IH]; intros i; simpl; [done| |].
  - destruct (fd_alloc t) as [k|] eqn:Hk; [|done]. simpl. intros [= <-].
    specialize (IH k eq_refl). unfold fd_get in *.
    destruct (Z.of_nat k <? 0) eqn:H1; [apply Z.ltb_lt in H1; lia|].
    destruct (Z.of_nat (S k) <? 0) eqn:H2; [done|].
    rewrite Nat2Z.id in *. done.
  - intros [= <-]. done.
Qed.

Lemma fd_alloc_high (t : fdtable) i : std_open t → fd_alloc t = Some i → 3 ≤ Z.of_nat i.
Proof.
  intros (H0 & H1 & H2) Ha. apply fd_alloc_free in Ha.
  destruct (decide (Z.of_nat i = 0)) as [e|]; [rewrite e in Ha; rewrite Ha in H0; by destruct H0|].
  destruct (decide (Z.of_nat i = 1)) as [e|]; [rewrite e in Ha; rewrite Ha in H1; by destruct H1|].
  destruct (decide (Z.of_nat i = 2)) as [e|]; [rewrite e in Ha; rewrite Ha in H2; by destruct H2|].
  lia.
Qed.

Lemma std_open_insert (t : fdtable) (i : nat) x :
  3 ≤ Z.of_nat i → std_open t → std_open (<[i:=x]> t).
Proof.
  intros Hi (H0 & H1 & H2). unfold std_open. rewrite !fd_get_insert_ne by lia. done.
Qed.

Lemma fd_inv_std t0 li co w n :
  fd_inv t0 li co w → 0 ≤ n ≤ 2 → fd_get (ps_fds (me w)) n = fd_get t0 n.
Proof. intros (_ & H & _) Hn. by apply H. Qed.

Lemma fd_inv_std_open t0 li co w : fd_inv t0 li co w → std_open (ps_fds (me w)).
Proof.
  intros ((H0 & H1 & H2) & H & _). unfold std_open. rewrite !H by lia. done.
Qed.

Lemma sys_close_spec fd w :
  ∃ r w', sys_close fd w = Ret r w' ∧ fd_step w w' ∧ ∀ n, n ≠ fd → keeps n w w'.
Proof.
  unfold sys_close, keeps. destruct (fd_get _ _) eqn:Hg.
  - eexists _, _. split; [reflexivity|]. split; [by repeat split|].
    intros n Hn. simpl. apply fd_get_insert_ne.
    apply fd_get_Some_nonneg in Hg. lia.
  - eexists _, _. split; [reflexivity|]. split; [by repeat split|done].
Qed.

Lemma sys_dup2_spec a b w :
  ∃ r w', sys_dup2 a b w = Ret r w' ∧ fd_step w w' ∧ ∀ n, n ≠ b → keeps n w w'.
Proof.
  unfold sys_dup2, keeps. destruct (fd_get _ _) eqn:Hg; [destruct (fd_valid _ _) eqn:Hv|].
  - eexists _, _. split; [reflexivity|]. split; [by repeat split|].
    intros n Hn. simpl. apply fd_get_insert_ne.
    unfold fd_valid in Hv. apply andb_prop in Hv as [Hv _]. apply Z.leb_le in Hv. lia.
  - eexists _, _. split; [reflexivity|]. split; [by repeat split|done].
  - eexists _, _. split; [reflexivity|]. split; [by repeat split|done].
Qed.

(** The guarded close of the loop: [if (fd != std) close(fd);]. *)
Lemma guarded_close_spec fd std w :
  ∃ w', when (negb (fd =? std)) (sys_close fd ;; ret tt) w = Ret tt w' ∧
        fd_step w w' ∧ ∀ n, (n ≠ fd ∨ n = std) → keeps n w w'.
Proof.
  destruct (fd =? std) eqn:Heq; simpl.
  - exists w. split; [done|]. split; [apply fd_step_refl|done].
  - destruct (sys_close_spec fd w) as (r & w' & Hc & Hs & Hk).
    exists w'. unfold bind. rewrite Hc. split; [done|]. split; [done|].
    intros n [Hn| ->]; apply Hk; [done|]. apply Z.eqb_neq in Heq. congruence.
Qed.

(** The guarded redirection in the child:
    [if (fd != std) { dup2(fd, std); close(fd); }]. *)
Lemma guarded_dup2_spec fd std w :
  ∃ w', when (negb (fd =? std)) (sys_dup2 fd std ;; sys_close fd ;; ret tt) w = Ret tt w' ∧
        fd_step w w' ∧ ∀ n, n ≠ fd → n ≠ std → keeps n w w'.
Proof.
  destruct (fd =? std) eqn:Heq; simpl.
  - exists w. split; [done|]. split; [apply fd_step_refl|done].
  - destruct (sys_dup2_spec fd std w) as (r & w1 & Hd & Hs1 & Hk1).
    destruct (sys_close_spec fd w1) as (r' & w2 & Hc & Hs2 & Hk2).
    exists w2. unfold bind. rewrite Hd, Hc. split; [done|].
    split; [by eapply fd_step_trans|].
    intros n Hn1 Hn2. eapply keeps_trans; [by apply Hk1|by apply Hk2].
Qed.


Lemma handle_command_fail c w e :
  env_execvp E (ps_cwd (me w)) (pgm_name c) = Some e →
  handle_command E c w
  = Ret tt (log (EvWrite (ps_pid (me w)) STDERR_FILENO (fd_get (ps_fds (me w)) 2)
                         (launch_error_text (pgm_name c) e))
                (log (EvExecvp (ps_pid (me w)) (pgm_name c) (Some e))
                     (upd_me (set_errno e) w))).
Proof.
  intros Hx. unfold handle_command, sys_execvp, bind, errno, launch_error_text.
  rewrite Hx. simpl. by destruct (e =? ENOENT).
Qed.

Lemma handle_command_ok c w :
  env_execvp E (ps_cwd (me w)) (pgm_name c) = None →
  handle_command E c w
  = Stop (StExec (pgmlist c))
         (log (EvExecvp (ps_pid (me w)) (pgm_name c) None)
              (upd_me (fun p => set_sigchld (exec_disposition (ps_sigchld p))
                                  (set_sigint (exec_disposition (ps_sigint p)) p)) w)).
Proof. intros Hx. unfold handle_command, sys_execvp, bind. by rewrite Hx. Qed.

Lemma child_branch_spec c ol pd l w :
  let x := env_execvp E (ps_cwd (me w)) (pgm_name c) in
  ∃ tgt w',
    child_branch E c ol pd l w
      = Stop (match x with None => StExec (pgmlist c) | Some _ => StExit 0 end) w' ∧
    k_procs (kern w') = k_procs (kern w) ∧
    k_log (kern w') = k_log (kern w) ++ child_events (ps_pid (me w)) c x tgt ∧
    ps_pid (me w') = ps_pid (me w) ∧ ps_cwd (me w') = ps_cwd (me w) ∧
    ps_sigint (me w') = SIG_IGN ∧
    (child_in l ≠ 2 → child_out l ≠ 2 → (ol = true ∨ pd.2 ≠ 2) →
     tgt = fd_get (ps_fds (me w)) 2) ∧
    k_pipes (kern w') = k_pipes (kern w) ∧ k_forks (kern w') = k_forks (kern w).
Proof.
  intros x. unfold child_branch.
  set (w0 := upd_me (set_sigint SIG_IGN) w).
  assert (Hsig : sys_signal SIGINT SIG_IGN w = Ret tt w0) by done.
  unfold bind at 1. rewrite Hsig.
  assert (∃ w1, when (negb ol && negb (pd.2 =? STDOUT_FILENO)) (sys_close pd.2 ;; ret tt) w0 = Ret tt w1
            ∧ fd_step w0 w1 ∧ ((ol = true ∨ pd.2 ≠ 2) → keeps 2 w0 w1)) as (w1 & H1 & Hs1 & Hk1).
  { destruct ol; simpl.
    - exists w0. split; [done|]. split; [apply fd_step_refl|done].
    - destruct (guarded_close_spec pd.2 STDOUT_FILENO w0) as (w1 & H1 & Hs1 & Hk1).
      exists w1. split; [done|]. split; [done|]. intros [?|?]; [done|]. apply Hk1. by left. }
  unfold bind at 1. rewrite H1.
  destruct (guarded_dup2_spec (child_in l) STDIN_FILENO w1) as (w2 & H2 & Hs2 & Hk2).
  unfold bind at 1. rewrite H2.
  destruct (guarded_dup2_spec (child_out l) STDOUT_FILENO w2) as (w3 & H3 & Hs3 & Hk3).
  unfold bind at 1. rewrite H3.
  assert (Hs : fd_step w0 w3) by (eapply fd_step_trans; [|done]; by eapply fd_step_trans).
  destruct Hs as (Hkern & (Hpid & Hint & Hchld & _) & Hcwd).
  assert (Hkeep : child_in l ≠ 2 → child_out l ≠ 2 → (ol = true ∨ pd.2 ≠ 2) →
                  fd_get (ps_fds (me w3)) 2 = fd_get (ps_fds (me w)) 2).
  { intros Hi Ho Hp. specialize (Hk1 Hp). unfold keeps in *.
    rewrite Hk3, Hk2, Hk1 by done. done. }
  exists (fd_get (ps_fds (me w3)) 2).
  assert (Hx : env_execvp E (ps_cwd (me w3)) (pgm_name c) = x) by (unfold x; by rewrite Hcwd).
  unfold bind. destruct x as [e|].
  - rewrite (handle_command_fail _ _ _ Hx). eexists. split; [reflexivity|].
    simpl. rewrite Hkern, Hpid, Hcwd, Hint. simpl.
    split_and!; [done|by rewrite <- !app_assoc|done..].
  - rewrite (handle_command_ok _ _ Hx). eexists. split; [reflexivity|].
    simpl. rewrite Hkern, Hpid, Hcwd, Hint. simpl. done.
Qed.

Lemma sys_pipe_spec w :
  (∃ junk w', sys_pipe E w = Ret (-1, junk) w' ∧
     procs w' = procs w ∧ events w' = events w ++ [EvPipe (ps_pid (me w)) (-1)] ∧
     same_me w w' ∧ ps_cwd (me w') = ps_cwd (me w) ∧ ps_fds (me w') = ps_fds (me w)) ∨
  (∃ a b w', sys_pipe E w = Ret (0, (a, b)) w' ∧
     procs w' = procs w ∧ events w' = events w ++ [EvPipe (ps_pid (me w)) 0] ∧
     same_me w w' ∧ ps_cwd (me w') = ps_cwd (me w) ∧
     (std_open (ps_fds (me w)) → 3 ≤ a ∧ 3 ≤ b ∧ std_kept w w')).
Proof.
  unfold sys_pipe.
  destruct (env_pipe E _) as [e|]; [left; eexists _, _; by repeat split|].
  destruct (fd_alloc (ps_fds (me w))) as [i|] eqn:Hi; [|left; eexists _, _; by repeat split].
  destruct (fd_alloc (<[i:=_]> _)) as [j|] eqn:Hj; [|left; eexists _, _; by repeat split].
  right. eexists _, _, _. split; [reflexivity|]. repeat split.
  - by eapply fd_alloc_high.
  - eapply fd_alloc_high; [|done]. apply std_open_insert; [by eapply fd_alloc_high|done].
  - intros n Hn. unfold keeps. simpl.
    assert (3 ≤ Z.of_nat i) by by eapply fd_alloc_high.
    assert (3 ≤ Z.of_nat j).
    { eapply fd_alloc_high; [|done]. by apply std_open_insert. }
    rewrite !fd_get_insert_ne by lia. done.
Qed.

Lemma sys_fork_spec c ol pd l w :
  let x := env_execvp E (ps_cwd (me w)) (pgm_name c) in
  let pid0 := ps_pid (me w) in
  (∃ w', sys_fork E (pgmlist c) (child_branch E c ol pd l) w = Ret (-1) w' ∧
     procs w' = procs w ∧ events w' = events w ++ [EvFork pid0 (-1)] ∧
     same_me w w' ∧ ps_cwd (me w') = ps_cwd (me w) ∧ ps_fds (me w') = ps_fds (me w)) ∨
  (∃ p tgt w', sys_fork E (pgmlist c) (child_branch E c ol pd l) w = Ret (p_pid p) w' ∧
     procs w' = procs w ++ [p] ∧
     events w' = events w ++ EvFork pid0 (p_pid p) :: child_events (p_pid p) c x tgt ∧
     me w' = me w ∧
     p_argv p = pgmlist c ∧ 0 < p_pid p ∧ ps_sigint (p_state p) = SIG_IGN ∧
     ps_cwd (p_state p) = ps_cwd (me w) ∧
     p_status p = child_status c x (ps_sigchld (me w)) ∧
     (child_in l ≠ 2 → child_out l ≠ 2 → (ol = true ∨ pd.2 ≠ 2) →
      tgt = fd_get (ps_fds (me w)) 2) ∧
     p_pid p = env_fork E (k_forks (kern w)) ∧
     k_pipes (kern w') = k_pipes (kern w) ∧ k_forks (kern w') = S (k_forks (kern w))).
Proof.
  intros x pid0. unfold sys_fork.
  destruct (0 <? env_fork E _) eqn:Hr.
  - right. apply Z.ltb_lt in Hr.
    set (r := env_fork E (k_forks (kern w))) in *.
    set (wc := upd_me (set_pid r) (log (EvFork (ps_pid (me w)) r) (bump_forks w))).
    destruct (child_branch_spec c ol pd l wc)
      as (tgt & w' & Hc & Hp & Hl & Hpid & Hcwd & Hint & Htgt & Hkp & Hkf).
    simpl in Hc. fold x in Hc.
    eexists (mkProc (pgmlist c) (me w') _), tgt, _.
    unfold p_pid. simpl. rewrite Hpid. simpl.
    split; [reflexivity|]. rewrite Hc. simpl.
    unfold procs, events. simpl. rewrite Hp, Hl. simpl.
    repeat split; try done.
    + rewrite <- app_assoc. reflexivity.
    + by destruct x.
  - left. eexists. split; [reflexivity|]. by repeat split.
Qed.

Lemma handle_directory_error_eq w :
  handle_directory_error w
  = Ret tt (log (EvWrite (ps_pid (me w)) STDERR_FILENO (fd_get (ps_fds (me w)) 2)
                         (directory_error_text (ps_errno (me w)))) w).
Proof.
  unfold handle_directory_error, directory_error_text, bind, errno.
  repeat (case_match; try done).
Qed.

Lemma handle_file_error_eq w :
  handle_file_error w
  = Ret tt (log (EvWrite (ps_pid (me w)) STDERR_FILENO (fd_get (ps_fds (me w)) 2)
                         (file_error_text (ps_errno (me w)))) w).
Proof.
  unfold handle_file_error, file_error_text, bind, errno.
  repeat (case_match; try done).
Qed.

Lemma sys_chdir_eq arg w :
  sys_chdir E arg w
  = match chdir_outcome E (ps_cwd (me w)) arg with
    | inl e => Ret (-1) (log (EvChdir (ps_pid (me w)) arg (-1)) (upd_me (set_errno e) w))
    | inr d => Ret 0 (log (EvChdir (ps_pid (me w)) arg 0) (upd_me (set_cwd d) w))
    end.
Proof. unfold sys_chdir, chdir_outcome. destruct arg; [|done]. by destruct (env_chdir _ _ _). Qed.

Lemma run_stage_sound c ol pd ci l0 w0 w :
  procs w = procs w0 →
  events w = events w0 ++ pipe_events ol (ps_pid (me w0)) 0 →
  same_me w0 w →
  ps_cwd (me w) = ps_cwd (me w0) →
  (∀ t0, fd_inv t0 (last_in l0) (child_out l0) w0 →
         std_kept w0 w ∧ (ci = 0 ∨ 3 ≤ ci) ∧ (ol = true ∨ 3 ≤ pd.2)) →
  stage_spec E c ol l0 w0
    ((l' <- run_stage E c ol pd (set_child_in ci l0) ;; ret (true, l')) w).
Proof.
  intros Hp Hev Hme Hcwd Hfd.
  assert (Hpid : ps_pid (me w) = ps_pid (me w0)) by apply Hme.
  unfold run_stage.
  destruct (String.eqb "exit" (pgm_name c)) eqn:Hexit.
  { (* exit *)
    apply String.eqb_eq in Hexit. unfold bind, sys_exit. simpl.
    apply stage_exit; [done| done | | ].
    - unfold events in *. simpl. rewrite Hev, Hpid, <- app_assoc. done.
    - done. }
  destruct (String.eqb "cd" (pgm_name c)) eqn:Hcd.
  { (* cd *)
    apply String.eqb_eq in Hcd. unfold bind at 1 2 3.
    rewrite sys_chdir_eq, Hcwd.
    destruct (chdir_outcome E (ps_cwd (me w0)) (command_1 c)) as [e|d'] eqn:Hout; simpl.
    - unfold bind. rewrite handle_directory_error_eq. simpl.
      eapply (stage_cd _ _ _ _ _ _ _ (fd_get (ps_fds (me w)) 2)); try done.
      + unfold events in *. simpl. rewrite Hev, Hout, Hpid, <- !app_assoc. done.
      + by rewrite Hout.
      + intros t0 Hi. destruct (Hfd t0 Hi) as (Hk & _). split; [done|].
        rewrite <- (fd_inv_std _ _ _ _ 2 Hi) by lia. by apply Hk.
    - eapply (stage_cd _ _ _ _ _ _ _ (fd_get (ps_fds (me w)) 2)); try done.
      + unfold events in *. simpl. rewrite Hev, Hout, Hpid, <- !app_assoc. done.
      + by rewrite Hout.
      + intros t0 Hi. destruct (Hfd t0 Hi) as (Hk & _). split; [done|].
        rewrite <- (fd_inv_std _ _ _ _ 2 Hi) by lia. by apply Hk. }
  (* an external program *)
  assert (Hb : is_builtin c = false) by (unfold is_builtin; by rewrite Hexit, Hcd).
  unfold bind at 1 2 3.
  destruct (sys_fork_spec c ol pd (set_child_in ci l0) w)
    as [(w1 & Hf & Hp1 & Hev1 & Hme1 & Hcwd1 & Hfds1)
       |(p & tgt & w1 & Hf & Hp1 & Hev1 & Hme1 & Hargv & Hpos & Hint & Hpcwd & Hst & Htgt & _)];
    rewrite Hf; simpl.
  - destruct (guarded_close_spec ci STDIN_FILENO w1) as (w2 & H2 & Hs2 & Hk2).
    unfold bind at 1. simpl in H2 |- *. rewrite H2.
    destruct (guarded_close_spec (child_out l0) STDOUT_FILENO w2) as (w3 & H3 & Hs3 & Hk3).
    unfold bind at 1. rewrite H3. simpl.
    assert (Hs : fd_step w1 w3) by by eapply fd_step_trans.
    destruct Hs as (Hkern & Hme3 & Hcwd3).
    eapply stage_fork_failed; try done.
    + unfold procs in *. by rewrite Hkern, Hp1.
    + unfold events in *. rewrite Hkern, Hev1, Hev, Hpid, <- !app_assoc. done.
    + eapply same_me_trans; [done|]. by eapply same_me_trans.
    + congruence.
    + by destruct ol.
    + by destruct ol.
    + by destruct ol.
    + by destruct ol.
    + intros t0 Hi. destruct (Hfd t0 Hi) as (Hk & Hci & Hpd).
      destruct Hi as (Hstd & Hsame & Hli & Hco). split.
      * eapply std_kept_trans; [done|].
        intros n Hn. unfold keeps. transitivity (fd_get (ps_fds (me w2)) n).
        -- apply Hk3. destruct Hco as [->|?]; [destruct (decide (n = 1)); [by right|left; lia]|left; lia].
        -- transitivity (fd_get (ps_fds (me w1)) n); [|by rewrite Hfds1].
           apply Hk2. destruct Hci as [->|?]; [destruct (decide (n = 0)); [by right|left; lia]|left; lia].
      * destruct ol; simpl; [done|]. destruct Hpd as [?|?]; [done|by right].
  - destruct (guarded_close_spec ci STDIN_FILENO w1) as (w2 & H2 & Hs2 & Hk2).
    unfold bind at 1. simpl in H2 |- *. rewrite H2.
    destruct (guarded_close_spec (child_out l0) STDOUT_FILENO w2) as (w3 & H3 & Hs3 & Hk3).
    unfold bind at 1. rewrite H3. simpl.
    assert (Hs : fd_step w1 w3) by by eapply fd_step_trans.
    destruct Hs as (Hkern & Hme3 & Hcwd3).
    eapply (stage_spawned _ _ _ _ _ _ _ p tgt); try done.
    + unfold procs in *. by rewrite Hkern, Hp1, Hp.
    + congruence.
    + destruct Hme as (_ & _ & Hc & _). by rewrite Hst, Hcwd, Hc.
    + unfold events in *. rewrite Hkern, Hev1, Hev, Hpid, Hcwd, <- !app_assoc. done.
    + eapply same_me_trans; [done|]. eapply same_me_trans; [|done].
      unfold same_me. by rewrite Hme1.
    + congruence.
    + by destruct ol.
    + by destruct ol.
    + by destruct ol.
    + by destruct ol.
    + intros t0 Hi. destruct (Hfd t0 Hi) as (Hk & Hci & Hpd).
      pose proof Hi as (Hstd & Hsame & Hli & Hco). split; [|split].
      * eapply std_kept_trans; [done|].
        intros n Hn. unfold keeps. transitivity (fd_get (ps_fds (me w2)) n).
        -- apply Hk3. destruct Hco as [->|?]; [destruct (decide (n = 1)); [by right|left; lia]|left; lia].
        -- transitivity (fd_get (ps_fds (me w1)) n); [|by rewrite Hme1].
           apply Hk2. destruct Hci as [->|?]; [destruct (decide (n = 0)); [by right|left; lia]|left; lia].
      * destruct ol; simpl; [done|]. destruct Hpd as [?|?]; [done|by right].
      * rewrite Htgt.
        -- rewrite <- (fd_inv_std _ _ _ _ 2 Hi) by lia. by apply Hk.
        -- simpl. lia.
        -- simpl. lia.
        -- destruct Hpd as [?|?]; [by left|right; lia].
Qed.

Lemma stage_sound c ol l w : stage_spec E c ol l w (stage E c ol l w).
Proof.
  unfold stage. destruct ol; simpl.
  - apply run_stage_sound;
      [done | unfold events; simpl; by rewrite app_nil_r | apply same_me_refl | done |].
    intros t0 (_ & _ & Hli & _). split; [apply std_kept_refl|]. split; [done|by left].
  - unfold bind at 1.
    destruct (sys_pipe_spec w)
      as [(junk & w1 & Hpi & Hp1 & Hev1 & Hme1 & Hcwd1 & Hfds1)
         |(a & b & w1 & Hpi & Hp1 & Hev1 & Hme1 & Hcwd1 & Hhigh)]; rewrite Hpi; simpl.
    + unfold bind at 1. unfold fprintf_stderr, sys_write. simpl.
      set (w2 := log _ w1).
      destruct (guarded_close_spec (child_out l) STDOUT_FILENO w2) as (w3 & H3 & Hs3 & Hk3).
      unfold bind at 1. rewrite H3. simpl.
      destruct Hs3 as (Hkern & Hme3 & Hcwd3).
      apply stage_break; try done.
      * unfold procs in *. by rewrite Hkern.
      * unfold events in *. rewrite Hkern. simpl. rewrite Hev1, Hfds1, <- app_assoc.
        destruct Hme1 as (-> & _). done.
      * eapply same_me_trans; [done|]. done.
      * rewrite Hcwd3. simpl. done.
      * intros t0 (_ & _ & _ & Hco) n Hn. unfold keeps.
        transitivity (fd_get (ps_fds (me w2)) n); [|simpl; by rewrite Hfds1].
        apply Hk3. destruct Hco as [->|?]; [destruct (decide (n = 1)); [by right|left; lia]|left; lia].
    + apply run_stage_sound; [done..|].
      intros t0 Hi. destruct (Hhigh (fd_inv_std_open _ _ _ _ Hi)) as (Ha & Hb & Hk).
      split; [done|]. split; right; done.
Qed.

(** ** The loop *)

Lemma launch_sound pgm l w : launch_spec E pgm l w (launch E pgm l w).
Proof.
  revert l w. induction pgm as [|c next IH]; intros l w; simpl; [constructor|].
  unfold bind. pose proof (stage_sound c (is_null next) l w) as Hs.
  destruct (stage E c (is_null next) l w) as [[b l1] w1|s w1].
  - destruct b; simpl.
    + eapply launch_next; [done|apply IH].
    + inversion Hs; subst. by apply launch_break.
  - by apply launch_stop.
Qed.

Lemma child_events_launch pid c x tgt : Forall launch_event (child_events pid c x tgt).
Proof. destruct x; repeat constructor. Qed.

Lemma pipe_events_launch ol pid r : Forall launch_event (pipe_events ol pid r).
Proof. destruct ol; repeat constructor. Qed.

Lemma cd_events_launch pid arg r tgt : Forall launch_event (cd_events pid arg r tgt).
Proof. destruct r; repeat constructor. Qed.

Lemma child_status_ok c x d p :
  p_argv p = pgmlist c → p_status p = child_status c x d →
  p_status p = Alive (Some (p_argv p)) ∨ p_status p = terminate d (Exited 0).
Proof. intros Ha Hs. rewrite Hs, Ha. destruct x; simpl; [by right|by left]. Qed.

(** What one turn of the loop leaves as it was, and how it extends the
    process table and the log. *)
Lemma stage_frame c ol l w r :
  stage_spec E c ol l w r →
  same_me w (final_world r) ∧
  (∃ news, procs (final_world r) = procs w ++ news ∧
           Forall (child_ok (ps_sigchld (me w))) news ∧ (length news ≤ 1)%nat) ∧
  (∃ evs, events (final_world r) = events w ++ evs ∧ Forall launch_event evs).
Proof.
  assert (Hnil : ∀ ps : list proc, ∃ news, ps = ps ++ news ∧
                    Forall (child_ok (ps_sigchld (me w))) news ∧ (length news ≤ 1)%nat).
  { intros ps. exists []. rewrite app_nil_r. repeat split; [constructor|simpl; lia]. }
  intros Hs. inversion Hs; subst; simpl; (split; [done|]).
  - split; [replace (procs w') with (procs w); apply Hnil|].
    eexists. split; [done|]. repeat constructor.
  - split; [replace (procs w') with (procs w); apply Hnil|].
    eexists. split; [done|].
    apply Forall_app. split; [apply pipe_events_launch|repeat constructor].
  - split; [replace (procs w') with (procs w); apply Hnil|].
    eexists. split; [done|].
    apply Forall_app. split; [apply pipe_events_launch|apply cd_events_launch].
  - split; [replace (procs w') with (procs w); apply Hnil|].
    eexists. split; [done|].
    apply Forall_app. split; [apply pipe_events_launch|repeat constructor].
  - split.
    + exists [p]. repeat split; [done| |simpl; lia].
      constructor; [|constructor]. repeat split; [done..|]. by eapply child_status_ok.
    + eexists. split; [done|].
      apply Forall_app. split; [apply pipe_events_launch|].
      constructor; [done|apply child_events_launch].
Qed.

(** The same for the whole loop; it ends by returning or by [exit(0)]. *)
Lemma launch_frame pgm l w r :
  launch_spec E pgm l w r →
  same_me w (final_world r) ∧
  (∃ news, procs (final_world r) = procs w ++ news ∧
           Forall (child_ok (ps_sigchld (me w))) news ∧ (length news ≤ length pgm)%nat) ∧
  (∃ evs, events (final_world r) = events w ++ evs ∧ Forall launch_event evs) ∧
  ((∃ l' w', r = Ret l' w') ∨ (∃ w', r = Stop (StExit 0) w')).
Proof.
  induction 1 as [l w|c next l w l1 w1 r Hs Hl IH|c next l w w1 Hs|c next l w s w1 Hs].
  - split; [apply same_me_refl|]. split; [exists []; by rewrite app_nil_r|].
    split; [exists []; by rewrite app_nil_r|]. left. by eexists _, _.
  - destruct (stage_frame _ _ _ _ _ Hs) as (Hm1 & (n1 & Hp1 & Hok1 & Hlen1) & (e1 & He1 & Hev1)).
    destruct IH as (Hm2 & (n2 & Hp2 & Hok2 & Hlen2) & (e2 & He2 & Hev2) & Hr).
    simpl in *. split; [by eapply same_me_trans|]. split; [|split; [|done]].
    + exists (n1 ++ n2). rewrite Hp2, Hp1, <- app_assoc. split; [done|].
      split; [|rewrite length_app; lia].
      apply Forall_app. split; [done|]. destruct Hm1 as (_ & _ & <- & _). done.
    + exists (e1 ++ e2). rewrite He2, He1, <- app_assoc. split; [done|]. by apply Forall_app.
  - destruct (stage_frame _ _ _ _ _ Hs) as (Hm1 & (n1 & Hp1 & Hok1 & Hlen1) & (e1 & He1 & Hev1)).
    simpl in *. split; [done|]. split; [|split; [by exists e1|]].
    + exists n1. repeat split; [done..|lia].
    + left. by eexists _, _.
  - destruct (stage_frame _ _ _ _ _ Hs) as (Hm1 & (n1 & Hp1 & Hok1 & Hlen1) & (e1 & He1 & Hev1)).
    simpl in *. split; [done|]. split; [|split; [by exists e1|]].
    + exists n1. repeat split; [done..|lia].
    + right. inversion Hs; subst. by eexists.
Qed.

(** ** The redirections *)

Lemma sys_open_spec path w :
  (∃ w', sys_open E path w = Ret (-1) w' ∧ procs w' = procs w ∧
     events w' = events w ++ [EvOpen (ps_pid (me w)) path (-1)] ∧
     same_me w w' ∧ ps_cwd (me w') = ps_cwd (me w) ∧ ps_fds (me w') = ps_fds (me w) ∧
     (env_open E (ps_cwd (me w)) path = None ∨
      env_open E (ps_cwd (me w)) path = Some (ps_errno (me w')))) ∨
  (∃ i w', sys_open E path w = Ret (Z.of_nat i) w' ∧ procs w' = procs w ∧
     events w' = events w ++ [EvOpen (ps_pid (me w)) path (Z.of_nat i)] ∧
     same_me w w' ∧ ps_cwd (me w') = ps_cwd (me w) ∧
     fd_get (ps_fds (me w)) (Z.of_nat i) = None ∧
     ps_fds (me w') = <[i:=Some (FileRd path)]> (ps_fds (me w))).
Proof.
  unfold sys_open. destruct (env_open E _ _) as [e|] eqn:He.
  - left. eexists. split; [done|]. repeat split. by right.
  - destruct (fd_alloc _) as [i|] eqn:Hi.
    + right. eexists _, _. split; [done|]. repeat split. by apply fd_alloc_free.
    + left. eexists. split; [done|]. repeat split. by left.
Qed.

Lemma sys_creat_spec path w :
  (∃ w', sys_creat E path w = Ret (-1) w' ∧ procs w' = procs w ∧
     events w' = events w ++ [EvCreat (ps_pid (me w)) path (-1)] ∧
     same_me w w' ∧ ps_cwd (me w') = ps_cwd (me w) ∧ ps_fds (me w') = ps_fds (me w)) ∨
  (∃ i w', sys_creat E path w = Ret (Z.of_nat i) w' ∧ procs w' = procs w ∧
     events w' = events w ++ [EvCreat (ps_pid (me w)) path (Z.of_nat i)] ∧
     same_me w w' ∧ ps_cwd (me w') = ps_cwd (me w) ∧
     fd_get (ps_fds (me w)) (Z.of_nat i) = None ∧
     ps_fds (me w') = <[i:=Some (FileWr path)]> (ps_fds (me w))).
Proof.
  unfold sys_creat. destruct (env_creat E _ _) as [e|] eqn:He.
  - left. eexists. split; [done|]. by repeat split.
  - destruct (fd_alloc _) as [i|] eqn:Hi.
    + right. eexists _, _. split; [done|]. repeat split. by apply fd_alloc_free.
    + left. eexists. split; [done|]. by repeat split.
Qed.

Lemma sys_open_forks path w :
  k_forks (kern (final_world (sys_open E path w))) = k_forks (kern w).
Proof. unfold sys_open. destruct (env_open E _ _); [done|]. by destruct (fd_alloc _). Qed.

Lemma sys_creat_forks path w :
  k_forks (kern (final_world (sys_creat E path w))) = k_forks (kern w).
Proof. unfold sys_creat. destruct (env_creat E _ _); [done|]. by destruct (fd_alloc _). Qed.

Lemma of_nat_eqb_m1 i : (Z.of_nat i =? -1) = false.
Proof. apply Z.eqb_neq. lia. Qed.

(** Closing a descriptor that was free before it was opened puts the table
    back as it was. *)
Lemma insert_close (t : fdtable) (i : nat) x :
  fd_get t (Z.of_nat i) = None → (i < length t)%nat → <[i:=None]> (<[i:=x]> t) = t.
Proof.
  intros Hg Hi. rewrite list_insert_insert_eq. apply list_insert_id.
  unfold fd_get in Hg. destruct (Z.of_nat i <? 0) eqn:Hlt; [apply Z.ltb_lt in Hlt; lia|].
  rewrite Nat2Z.id in Hg. destruct (t !! i) as [[o|]|] eqn:Hl; [done|done|].
  apply lookup_ge_None in Hl. lia.
Qed.

Lemma fd_alloc_lt (t : fdtable) i : fd_alloc t = Some i → (i < length t)%nat.
Proof.
  revert i. induction t as [|[o|] t IH]; intros i; simpl; [done| |].
  - destruct (fd_alloc t) as [k|]; [|done]. simpl. intros [= <-].
    specialize (IH k eq_refl). lia.
  - intros [= <-]. lia.
Qed.

Lemma redirect_input_failed cmd path w w1 :
  rstdin cmd = Some path → sys_open E path w = Ret (-1) w1 →
  redirect_input E cmd w
  = Ret None (log (EvWrite (ps_pid (me w1)) STDERR_FILENO (fd_get (ps_fds (me w1)) 2)
                           (file_error_text (ps_errno (me w1)))) w1).
Proof.
  intros Hin Ho. unfold redirect_input, bind. rewrite Hin, Ho. simpl.
  by rewrite handle_file_error_eq.
Qed.

Lemma redirect_input_opened cmd path fd w w1 :
  rstdin cmd = Some path → sys_open E path w = Ret fd w1 → fd ≠ -1 →
  redirect_input E cmd w = Ret (Some fd) w1.
Proof.
  intros Hin Ho Hfd. unfold redirect_input, bind. rewrite Hin, Ho.
  apply Z.eqb_neq in Hfd. by rewrite Hfd.
Qed.

(** C4.  A command whose input file does not exist ([open] fails with
    [ENOENT]) is given up before the loop is entered: the interpreter writes
    [No such file] on its standard error and returns; no process is forked
    and its descriptor table is as before, so nothing the call opened is left
    behind. *)
Theorem missing_input_aborts_before_spawn pr cmd path w :
  rstdin cmd = Some path →
  env_open E (ps_cwd (me w)) path = Some ENOENT →
  ∃ w', RunCommand E pr cmd w = Ret tt w' ∧
        events w' = events w ++
          [EvOpen (ps_pid (me w)) path (-1);
           EvWrite (ps_pid (me w)) STDERR_FILENO (fd_get (ps_fds (me w)) 2)
                   ("No such file" +:+ nl)] ∧
        procs w' = procs w ∧
        k_forks (kern w') = k_forks (kern w) ∧
        ps_fds (me w') = ps_fds (me w).
Proof.
  intros Hin Hopen. eexists. split.
  - unfold RunCommand, bind.
    erewrite redirect_input_failed; [reflexivity|done|].
    unfold sys_open. by rewrite Hopen.
  - unfold events. simpl. rewrite <- app_assoc. done.
Qed.

(** C8.  When the input file was opened but the output file cannot be
    created, the command is given up before the loop is entered: no process is
    forked, and the descriptor of the input file is closed again, so the
    descriptor table is as it was before the command.  (The interpreter's
    standard input is open, as it is whenever it has read a line.) *)
Theorem output_failure_releases_input pr cmd pin pout fd w w1 w2 :
  rstdin cmd = Some pin →
  rstdout cmd = Some pout →
  is_Some (fd_get (ps_fds (me w)) STDIN_FILENO) →
  sys_open E pin w = Ret fd w1 → fd ≠ -1 →
  sys_creat E pout w1 = Ret (-1) w2 →
  ∃ w', RunCommand E pr cmd w = Ret tt w' ∧
        procs w' = procs w ∧
        k_forks (kern w') = k_forks (kern w) ∧
        is_Some (fd_get (ps_fds (me w1)) fd) ∧
        fd_get (ps_fds (me w')) fd = None ∧
        ps_fds (me w') = ps_fds (me w).
Proof.
  intros Hin Hout Hstdin Hopen Hfd Hcreat.
  destruct (sys_open_spec pin w)
    as [(w1' & Ho & _)|(i & w1' & Ho & Hp1 & _ & _ & _ & Hfree & Hfds1)];
    rewrite Hopen in Ho; [congruence|]. injection Ho as -> <-.
  assert (Hlt : (i < length (ps_fds (me w)))%nat).
  { unfold sys_open in Hopen. destruct (env_open E _ _); [injection Hopen; lia|].
    destruct (fd_alloc _) as [k|] eqn:Hk; [|injection Hopen; lia].
    injection Hopen as Hik _. apply Nat2Z.inj in Hik. subst k. by eapply fd_alloc_lt. }
  assert (Hi0 : Z.of_nat i ≠ STDIN_FILENO).
  { intros Heq. rewrite Heq in Hfree. rewrite Hfree in Hstdin. by destruct Hstdin. }
  destruct (sys_creat_spec pout w1)
    as [(w2' & Hc & Hp2 & _ & _ & _ & Hfds2)|(j & w2' & Hc & _)];
    rewrite Hcreat in Hc; [|injection Hc as Hc _; lia]. injection Hc as <-.
  assert (Hget : fd_get (ps_fds (me w1)) (Z.of_nat i) = Some (FileRd pin)).
  { rewrite Hfds1. unfold fd_get.
    destruct (Z.of_nat i <? 0) eqn:Hneg; [apply Z.ltb_lt in Hneg; lia|].
    rewrite Nat2Z.id, list_lookup_insert_eq by done. done. }
  assert (Hforks : k_forks (kern w1) = k_forks (kern w)).
  { pose proof (sys_open_forks pin w) as H. by rewrite Hopen in H. }
  assert (Hforks2 : k_forks (kern w2) = k_forks (kern w1)).
  { pose proof (sys_creat_forks pout w1) as H. by rewrite Hcreat in H. }
  eexists. split.
  - unfold RunCommand. unfold bind at 1.
    rewrite (redirect_input_opened cmd pin (Z.of_nat i) w w1) by done.
    unfold bind at 1. unfold redirect_output, bind at 1. rewrite Hout, Hcreat. simpl.
    unfold bind. rewrite handle_file_error_eq. simpl.
    apply Z.eqb_neq in Hi0. rewrite Hi0. simpl.
    unfold sys_close. simpl. rewrite Hfds2, Hget. reflexivity.
  - simpl. repeat split.
    + unfold procs in *. simpl. congruence.
    + congruence.
    + by rewrite Hget.
    + rewrite Hfds1, Nat2Z.id, list_insert_insert_eq. unfold fd_get.
      destruct (Z.of_nat i <? 0); [done|].
      rewrite Nat2Z.id, list_lookup_insert_eq by done. done.
    + rewrite Hfds1, Nat2Z.id. by apply insert_close.
Qed.


Lemma complete_cd_stage bg l w :
  command_counter l = 0 →
  ∃ w', complete (mkCommand [] None None bg) l w = Ret tt w' ∧
        procs w' = procs w ∧ events w' = events w ∧ ps_cwd (me w') = ps_cwd (me w).
Proof.
  intros Hc. unfold complete. destruct bg; simpl; [by exists w|].
  unfold foreground_wait. rewrite Hc. simpl. eexists. by split.
Qed.

Lemma spawned_app w w' news : procs w' = procs w ++ news → spawned w w' = news.
Proof. intros H. unfold spawned. rewrite H. apply drop_app_length. Qed.

Lemma new_events_app w w' evs : events w' = events w ++ evs → new_events w w' = evs.
Proof. intros H. unfold new_events. rewrite H. apply drop_app_length. Qed.

Lemma spawned_same w w' : procs w' = procs w → spawned w w' = [].
Proof. intros H. apply spawned_app. by rewrite app_nil_r. Qed.

(** A child forked in a turn of the loop starts in the directory the
    interpreter is in. *)
Lemma stage_spawned_cwd c ol l w p :
  p ∈ spawned w (final_world (stage E c ol l w)) → ps_cwd (p_state p) = ps_cwd (me w).
Proof.
  pose proof (stage_sound c ol l w) as Hs.
  inversion Hs; subst; simpl.
  1-4: rewrite spawned_same by done; by intros ?%elem_of_nil.
  erewrite spawned_app by done. intros ->%list_elem_of_singleton. done.
Qed.

(** ** The foreground wait *)

Lemma wait_step_refl w : wait_step w w.
Proof.
  split; [done|]. split; [exists []; by rewrite app_nil_r|]. split; [apply same_me_refl|done].
Qed.

Lemma wait_step_trans w1 w2 w3 : wait_step w1 w2 → wait_step w2 w3 → wait_step w1 w3.
Proof.
  intros (Hv1 & (e1 & He1 & Hf1) & Hm1 & Hfd1 & Hc1) (Hv2 & (e2 & He2 & Hf2) & Hm2 & Hfd2 & Hc2).
  split; [congruence|]. split.
  - exists (e1 ++ e2). rewrite He2, He1, <- app_assoc. split; [done|]. by apply Forall_app.
  - split; [by eapply same_me_trans|]. split; congruence.
Qed.

Lemma reap_first_view sel ps pid ps' :
  reap_first sel ps = Some (pid, ps') → map proc_view ps' = map proc_view ps.
Proof.
  revert pid ps'. induction ps as [|q ps IH]; intros pid ps'; simpl; [done|].
  assert (Hrec : (λ r : Z * list proc, (r.1, q :: r.2)) <$> reap_first sel ps = Some (pid, ps') →
                 map proc_view ps' = map proc_view (q :: ps)).
  { destruct (reap_first sel ps) as [[pid1 ps1]|]; [|done]. simpl. intros [= <- <-].
    simpl. f_equal. by eapply IH. }
  destruct (p_status q) as [im|t|t] eqn:Hst; [done| |done].
  destruct (sel q); [|done]. intros [= <- <-]. simpl. f_equal.
  unfold proc_view, termination_of. simpl. by rewrite Hst.
Qed.

Lemma sys_waitpid_spec target w :
  (sys_waitpid target w = Ret None w ∧ ¬ none_alive target (procs w)) ∨
  (∃ r w', sys_waitpid target w = Ret (Some r) w' ∧ wait_step w w').
Proof.
  unfold sys_waitpid. fold (procs w).
  destruct (reap_first _ _) as [[pid ps']|] eqn:Hr.
  - right. eexists _, _. split; [done|]. split; [|split; [|done]].
    + unfold procs. simpl. by eapply reap_first_view.
    + eexists. split; [done|]. by repeat constructor.
  - destruct (existsb _ _) eqn:Hex.
    + left. split; [done|]. intros Hn. apply existsb_exists in Hex as (q & Hq & Hsel).
      apply list_elem_of_In in Hq. unfold none_alive in Hn.
      rewrite Forall_forall in Hn. specialize (Hn q Hq). congruence.
    + right. eexists _, _. split; [done|]. split; [done|]. split; [|done].
      eexists. split; [done|]. by repeat constructor.
Qed.

Lemma wait_children_spec n pids count i w :
  ∃ w', wait_step w w' ∧
    (wait_children n pids count i w = Ret tt w' ∨
     ∃ j, i ≤ j ∧ wait_children n pids count i w = Stop (StWait (mkFrame pids count j)) w').
Proof.
  revert i w. induction n as [|n IH]; intros i w; simpl.
  - exists w. split; [apply wait_step_refl|by left].
  - destruct (i <? count); [|exists w; split; [apply wait_step_refl|by left]].
    unfold bind.
    destruct (sys_waitpid_spec (default 0 (pids !! Z.to_nat i)) w)
      as [(Hw & _)|(r & w1 & Hw & Hs1)]; rewrite Hw.
    + exists w. split; [apply wait_step_refl|]. right. exists i. split; [lia|done].
    + destruct (IH (i + 1) w1) as (w2 & Hs2 & Hr).
      exists w2. split; [by eapply wait_step_trans|].
      destruct Hr as [Hr|(j & Hj & Hr)]; [by left|]. right. exists j. split; [lia|done].
Qed.

(** What [complete] does after the loop. *)
Lemma complete_spec cmd l w :
  if background cmd then complete cmd l w = Ret tt w
  else
    ∃ w', wait_step (upd_me (set_sigint (SIG_FN KillChildrenOnSignal_fn))
                       (upd_me (set_numChildren (command_counter l))
                          (upd_me (set_children (command_pids l)) w))) w' ∧
      (complete cmd l w
         = Ret tt (upd_me (set_sigint SIG_IGN) (upd_me (set_numChildren 0) w')) ∨
       ∃ j, 0 ≤ j ∧
         complete cmd l w
           = Stop (StWait (mkFrame (command_pids l) (command_counter l) j)) w').
Proof.
  unfold complete. destruct (background cmd); simpl; [done|].
  set (w0 := upd_me (set_sigint (SIG_FN KillChildrenOnSignal_fn))
               (upd_me (set_numChildren (command_counter l))
                  (upd_me (set_children (command_pids l)) w))).
  change ((modify (upd_me (set_children (command_pids l)));;
           modify (upd_me (set_numChildren (command_counter l)));;
           sys_signal SIGINT (SIG_FN KillChildrenOnSignal_fn);;
           foreground_wait (command_pids l) (command_counter l) 0) w)
    with (foreground_wait (command_pids l) (command_counter l) 0 w0).
  unfold foreground_wait. unfold bind at 1 3.
  destruct (wait_children_spec (Z.to_nat (command_counter l - 0)) (command_pids l)
              (command_counter l) 0 w0)
    as (w' & Hs & [Hr|(j & Hj & Hr)]); rewrite Hr.
  - exists w'. split; [done|]. left. reflexivity.
  - exists w'. split; [done|]. right. exists j. split; [lia|done].
Qed.

(** ** [RunCommand] in three parts *)

Lemma fresh_high (t : fdtable) i :
  std_open t → fd_get t (Z.of_nat i) = None → 3 ≤ Z.of_nat i.
Proof.
  intros (H0 & H1 & H2) Hfree.
  destruct (decide (Z.of_nat i = 0)) as [e|]; [rewrite e in Hfree; rewrite Hfree in H0; by destruct H0|].
  destruct (decide (Z.of_nat i = 1)) as [e|]; [rewrite e in Hfree; rewrite Hfree in H1; by destruct H1|].
  destruct (decide (Z.of_nat i = 2)) as [e|]; [rewrite e in Hfree; rewrite Hfree in H2; by destruct H2|].
  lia.
Qed.

Lemma insert_std_kept w w' i x :
  ps_fds (me w') = <[i:=x]> (ps_fds (me w)) → 3 ≤ Z.of_nat i → std_kept w w'.
Proof.
  intros Hfds Hi n Hn. unfold keeps. rewrite Hfds. apply fd_get_insert_ne. lia.
Qed.

Lemma setup_events_nil w fd :
  ∃ evs, events w = events w ++ evs ∧ Forall setup_event evs ∧ redirect_shape (Some fd) evs.
Proof. exists []. rewrite app_nil_r. split; [done|]. split; constructor. Qed.

Lemma redirect_input_spec cmd w :
  ∃ r w', redirect_input E cmd w = Ret r w' ∧
    procs w' = procs w ∧ same_me w w' ∧ ps_cwd (me w') = ps_cwd (me w) ∧
    (∃ evs, events w' = events w ++ evs ∧ Forall setup_event evs ∧
            redirect_shape r evs) ∧
    ∀ li, r = Some li → std_open (ps_fds (me w)) →
          std_kept w w' ∧ (li = 0 ∨ 3 ≤ li).
Proof.
  unfold redirect_input. destruct (rstdin cmd) as [path|].
  - unfold bind.
    destruct (sys_open_spec path w)
      as [(w1 & Ho & Hp & Hev & Hme & Hcwd & Hfds & _)
         |(i & w1 & Ho & Hp & Hev & Hme & Hcwd & Hfree & Hfds)]; rewrite Ho; simpl.
    + rewrite handle_file_error_eq. simpl. eexists _, _. split; [done|].
      split_and!; [done|done|done| |done].
      eexists. unfold events in *. simpl. rewrite Hev, <- app_assoc.
      split; [done|]. split; [by repeat constructor|].
        eexists _, _. split; [reflexivity|]. simpl. split_and!; [done|tauto|done].
    + rewrite of_nat_eqb_m1. eexists _, _. split; [done|].
      split_and!; [done|done|done| |].
      * eexists. split; [done|]. split; [by repeat constructor|].
        repeat constructor. simpl. lia.
      * intros li [= <-] Hstd. pose proof (fresh_high _ _ Hstd Hfree).
        split; [by eapply insert_std_kept|by right].
  - eexists _, _. split; [done|].
    split_and!; [done|apply same_me_refl|done|apply setup_events_nil|].
    intros li [= <-] _. split; [apply std_kept_refl|by left].
Qed.

Lemma redirect_output_spec cmd li w :
  ∃ r w', redirect_output E cmd li w = Ret r w' ∧
    procs w' = procs w ∧ same_me w w' ∧ ps_cwd (me w') = ps_cwd (me w) ∧
    (∃ evs, events w' = events w ++ evs ∧ Forall setup_event evs ∧
            redirect_shape r evs) ∧
    ∀ co, r = Some co → std_open (ps_fds (me w)) →
          std_kept w w' ∧ (co = 1 ∨ 3 ≤ co).
Proof.
  unfold redirect_output. destruct (rstdout cmd) as [path|].
  - unfold bind at 1.
    destruct (sys_creat_spec path w)
      as [(w1 & Ho & Hp & Hev & Hme & Hcwd & Hfds)
         |(i & w1 & Ho & Hp & Hev & Hme & Hcwd & Hfree & Hfds)]; rewrite Ho; simpl.
    + unfold bind at 1. rewrite handle_file_error_eq.
      set (w2 := log _ w1).
      destruct (guarded_close_spec li STDIN_FILENO w2) as (w3 & H3 & (Hkern & Hme3 & Hcwd3) & _).
      cbv beta iota. unfold bind at 1. rewrite H3. eexists _, _. split; [done|].
      split_and!; [| | | |done].
      * unfold procs in *. by rewrite Hkern.
      * eapply same_me_trans; [done|]. done.
      * by rewrite Hcwd3.
      * eexists. unfold events in *. rewrite Hkern. simpl. rewrite Hev, <- app_assoc.
        split; [done|]. split; [by repeat constructor|].
        eexists _, _. split; [reflexivity|]. simpl. split_and!; [done|tauto|done].
    + rewrite of_nat_eqb_m1. eexists _, _. split; [done|].
      split_and!; [done|done|done| |].
      * eexists. split; [done|]. split; [by repeat constructor|].
        repeat constructor. simpl. lia.
      * intros co [= <-] Hstd. pose proof (fresh_high _ _ Hstd Hfree).
        split; [by eapply insert_std_kept|by right].
  - eexists _, _. split; [done|].
    split_and!; [done|apply same_me_refl|done|apply setup_events_nil|].
    intros co [= <-] _. split; [apply std_kept_refl|by left].
Qed.

(** [RunCommand] either gives the command up at a redirection, or enters the
    loop and goes on to [complete]. *)
Lemma RunCommand_cases pr cmd w :
  (∃ w', RunCommand E pr cmd w = Ret tt w' ∧
     procs w' = procs w ∧ same_me w w' ∧
     (∃ evs, events w' = events w ++ evs ∧ Forall setup_event evs ∧
             ∃ pre e d, evs = pre ++ [e; d] ∧ Forall ok_event pre ∧
                        setup_failure e ∧ ¬ pipe_failure e ∧ write_event d)) ∨
  (∃ li co wr,
     procs wr = procs w ∧ same_me w wr ∧ ps_cwd (me wr) = ps_cwd (me w) ∧
     (∃ evs, events wr = events w ++ evs ∧ Forall setup_event evs ∧ Forall ok_event evs) ∧
     (std_open (ps_fds (me w)) → fd_inv (ps_fds (me w)) li co wr) ∧
     RunCommand E pr cmd w
     = (l <- launch E (pgm cmd)
               (mkLocals (CountCommands (pgm cmd)) (malloc E (CountCommands (pgm cmd)))
                         0 li STDIN_FILENO co) ;;
        complete cmd l) wr).
Proof.
  destruct (redirect_input_spec cmd w)
    as (r1 & w1 & H1 & Hp1 & Hme1 & Hcwd1 & (e1 & He1 & Hf1 & Hsh1) & Hfd1).
  destruct r1 as [li|].
  - destruct (redirect_output_spec cmd li w1)
      as (r2 & w2 & H2 & Hp2 & Hme2 & Hcwd2 & (e2 & He2 & Hf2 & Hsh2) & Hfd2).
    assert (Hev : events w2 = events w ++ e1 ++ e2) by (by rewrite He2, He1, <- app_assoc).
    assert (Hf : Forall setup_event (e1 ++ e2)) by by apply Forall_app.
    destruct r2 as [co|].
    + right. exists li, co, w2.
      split_and!; [congruence|by eapply same_me_trans|congruence| | |].
      * exists (e1 ++ e2). split; [done|]. split; [done|]. by apply Forall_app.
      * intros Hstd. destruct (Hfd1 li eq_refl Hstd) as (Hk1 & Hli).
        assert (Hstd1 : std_open (ps_fds (me w1))).
        { destruct Hstd as (H0 & H1' & H2'). unfold std_open.
          rewrite !(Hk1 _) by lia. done. }
        destruct (Hfd2 co eq_refl Hstd1) as (Hk2 & Hco).
        split; [done|]. split; [|done].
        intros n Hn. transitivity (fd_get (ps_fds (me w1)) n); [by apply Hk2|by apply Hk1].
      * unfold RunCommand. unfold bind at 1. rewrite H1. cbv beta iota.
        unfold bind at 1. rewrite H2. reflexivity.
    + left. exists w2. split.
      * unfold RunCommand. unfold bind at 1. rewrite H1. cbv beta iota.
        unfold bind at 1. rewrite H2. reflexivity.
      * split_and!; [congruence|by eapply same_me_trans|].
        exists (e1 ++ e2). split; [done|]. split; [done|].
        destruct Hsh2 as (e & d & -> & He & Hnp & Hd). by exists e1, e, d.
  - left. exists w1. split.
    + unfold RunCommand. unfold bind at 1. rewrite H1. reflexivity.
    + split_and!; [done|done|]. exists e1. split; [done|]. split; [done|].
      destruct Hsh1 as (e & d & -> & He & Hnp & Hd). by exists [], e, d.
Qed.

Lemma setup_launch_event e : setup_event e → launch_event e.
Proof. by destruct e. Qed.

Lemma waitpid_not_launch e : waitpid_event e → ¬ launch_event e.
Proof. destruct e; simpl; tauto. Qed.

(** The interpreter leaves the loop by [exit] only at a stage named [exit]. *)
Lemma launch_stop_exit pgm l w s w' :
  launch_spec E pgm l w (Stop s w') →
  s = StExit 0 ∧ ∃ c, c ∈ pgm ∧ pgm_name c = "exit".
Proof.
  intros H. remember (Stop s w') as r eqn:Hr. revert Hr.
  induction H as [l w|c next l w l1 w1 r Hs Hl IH|c next l w w1 Hs|c next l w s1 w1 Hs];
    intros Hr; try done.
  - destruct (IH Hr) as (-> & c' & Hin & Hn). split; [done|].
    exists c'. split; [by apply list_elem_of_further|done].
  - injection Hr as ? ?. subst. inversion Hs; subst. split; [done|].
    exists c. split; [apply list_elem_of_here|done].
Qed.

(** ** The order of the children *)

Lemma sublist_full {A} (l1 l2 : list A) :
  l1 `sublist_of` l2 → length l1 = length l2 → l1 = l2.
Proof.
  induction 1 as [|x l1 l2 Hs IH|x l1 l2 Hs IH]; simpl; intros Hlen; [done| |].
  - f_equal. apply IH. lia.
  - apply sublist_length in Hs. lia.
Qed.

(** The children are forked in the order of the list of stages. *)
Lemma launch_argv pgm l w r :
  launch_spec E pgm l w r →
  ∃ news, procs (final_world r) = procs w ++ news ∧
          map p_argv news `sublist_of` map pgmlist pgm.
Proof.
  assert (Hnil : ∀ (ps : list proc) k, ∃ news, ps = ps ++ news ∧ map p_argv news `sublist_of` k).
  { intros ps k. exists []. rewrite app_nil_r. split; [done|apply sublist_nil_l]. }
  induction 1 as [l w|c next l w l1 w1 r Hs Hl IH|c next l w w1 Hs|c next l w s w1 Hs]; simpl.
  - apply Hnil.
  - destruct IH as (n2 & Hp2 & Hsub). inversion Hs; subst.
    + exists n2. split; [congruence|]. by apply sublist_cons.
    + exists n2. split; [congruence|]. by apply sublist_cons.
    + exists (p :: n2). split.
      * rewrite Hp2. replace (procs w1) with (procs w ++ [p]). by rewrite <- app_assoc.
      * simpl. replace (p_argv p) with (pgmlist c). by apply sublist_skip.
  - inversion Hs; subst. replace (procs w1) with (procs w). apply Hnil.
  - inversion Hs; subst. replace (procs w1) with (procs w). apply Hnil.
Qed.

Lemma Z_to_nat_succ z : 0 ≤ z → Z.to_nat (z + 1) = S (Z.to_nat z).
Proof. lia. Qed.

(** When every stage of the list got its child, the array of pids holds the
    pids of the children in the order of the list, from the index the loop
    started at, and the count of commands is as it was. *)
Lemma launch_all_spawned pgm l w r :
  launch_spec E pgm l w r →
  ∀ news, procs (final_world r) = procs w ++ news →
  length news = length pgm →
  0 ≤ curr_command_index l →
  (Z.to_nat (curr_command_index l) + length pgm ≤ length (command_pids l))%nat →
  ∃ l' w', r = Ret l' w' ∧ command_counter l' = command_counter l ∧
    command_pids l'
    = take (Z.to_nat (curr_command_index l)) (command_pids l) ++ map p_pid news
      ++ drop (Z.to_nat (curr_command_index l) + length pgm) (command_pids l).
Proof.
  induction 1 as [l w|c next l w l1 w1 r Hs Hl IH|c next l w w1 Hs|c next l w s w1 Hs];
    simpl; intros news Hp Hlen Hidx Hroom.
  - destruct news; [|done]. eexists _, _. split; [done|]. split; [done|].
    simpl. rewrite Nat.add_0_r. by rewrite take_drop.
  - destruct (launch_frame _ _ _ _ Hl) as (_ & (n2 & Hp2 & _ & Hlen2) & _).
    inversion Hs; subst.
    + (* cd: no child for this stage *)
      assert (news = n2) by (apply (app_inv_head (procs w)); congruence). subst. lia.
    + assert (news = n2) by (apply (app_inv_head (procs w)); congruence). subst. lia.
    + assert (Hnews : news = p :: n2).
      { apply (app_inv_head (procs w)). rewrite <- Hp, Hp2.
        replace (procs w1) with (procs w ++ [p]). by rewrite <- app_assoc. }
      subst news. simpl in Hlen.
      destruct (IH n2 Hp2) as (l' & w' & -> & Hc & Hpids).
      * lia.
      * lia.
      * replace (curr_command_index l1) with (curr_command_index l + 1).
        replace (command_pids l1)
          with (<[Z.to_nat (curr_command_index l):=p_pid p]> (command_pids l)).
        rewrite length_insert, Z_to_nat_succ by done. lia.
      * eexists _, _. split; [done|]. split; [congruence|].
        rewrite Hpids.
        replace (curr_command_index l1) with (curr_command_index l + 1).
        replace (command_pids l1)
          with (<[Z.to_nat (curr_command_index l):=p_pid p]> (command_pids l)).
        rewrite Z_to_nat_succ by done.
        set (i := Z.to_nat (curr_command_index l)) in *.
        rewrite (take_S_r _ _ (p_pid p)) by (apply list_lookup_insert_eq; lia).
        rewrite take_insert_ge by lia. rewrite drop_insert_lt by lia.
        simpl. rewrite <- app_assoc. simpl.
        by replace (i + S (length next))%nat with (S (i + length next)) by lia.
  - inversion Hs; subst.
    assert (news = []) by (apply (app_inv_head (procs w)); rewrite app_nil_r; congruence).
    subst. done.
  - inversion Hs; subst.
    assert (news = []) by (apply (app_inv_head (procs w)); rewrite app_nil_r; congruence).
    subst. done.
Qed.

Lemma CountCommands_from_length pgm n :
  CountCommands_from n pgm = n + Z.of_nat (length pgm).
Proof.
  revert n. induction pgm as [|c pgm IH]; intros n; simpl; [lia|]. rewrite IH. lia.
Qed.

Lemma CountCommands_length pgm : CountCommands pgm = Z.of_nat (length pgm).
Proof. unfold CountCommands. by rewrite CountCommands_from_length. Qed.

Lemma malloc_length n : length (malloc E n) = Z.to_nat n.
Proof. unfold malloc. by rewrite length_map, length_seq. Qed.

(** [RunCommand] as a whole: what the loop has done when it is over, and how
    the command ends. *)
Lemma RunCommand_phases pr cmd w :
  ∃ wl news evs,
    procs wl = procs w ++ news ∧
    Forall (child_ok (ps_sigchld (me w))) news ∧
    (length news ≤ length (pgm cmd))%nat ∧
    map p_argv news `sublist_of` map pgmlist (pgm cmd) ∧
    events wl = events w ++ evs ∧ Forall launch_event evs ∧
    same_me w wl ∧
    (RunCommand E pr cmd w = Ret tt wl ∨
     (RunCommand E pr cmd w = Stop (StExit 0) wl ∧
      ∃ c, c ∈ pgm cmd ∧ pgm_name c = "exit") ∨
     (background cmd = false ∧
      ∃ l w',
        (length news = length (pgm cmd) →
         command_counter l = Z.of_nat (length (pgm cmd)) ∧
         command_pids l = map p_pid news) ∧
        wait_step (upd_me (set_sigint (SIG_FN KillChildrenOnSignal_fn))
                     (upd_me (set_numChildren (command_counter l))
                        (upd_me (set_children (command_pids l)) wl))) w' ∧
        (RunCommand E pr cmd w
           = Ret tt (upd_me (set_sigint SIG_IGN) (upd_me (set_numChildren 0) w')) ∨
         ∃ j, 0 ≤ j ∧
           RunCommand E pr cmd w
             = Stop (StWait (mkFrame (command_pids l) (command_counter l) j)) w'))).
Proof.
  destruct (RunCommand_cases pr cmd w)
    as [(w' & HR & Hp & Hme & (evs & Hev & Hf & _))
       |(li & co & wr & Hp & Hme & Hcwd & (evs & Hev & Hf & _) & Hinv & HR)].
  - exists w', [], evs. rewrite app_nil_r.
    split_and!; [done|constructor|simpl; lia|apply sublist_nil_l|done| |done|by left].
    eapply Forall_impl; [done|apply setup_launch_event].
  - set (l0 := mkLocals (CountCommands (pgm cmd)) (malloc E (CountCommands (pgm cmd)))
                        0 li STDIN_FILENO co) in *.
    pose proof (launch_sound (pgm cmd) l0 wr) as Hl.
    destruct (launch_frame _ _ _ _ Hl)
      as (Hme2 & (news & Hp2 & Hok & Hlen) & (evs2 & Hev2 & Hf2) & Hres).
    destruct (launch_argv _ _ _ _ Hl) as (news' & Hp2' & Hsub).
    assert (news' = news) as -> by (apply (app_inv_head (procs wr)); congruence).
    assert (Hsc : ps_sigchld (me wr) = ps_sigchld (me w)) by apply Hme.
    rewrite Hsc in Hok.
    exists (final_world (launch E (pgm cmd) l0 wr)), news, (evs ++ evs2).
    split_and!; [congruence|done|done|done| | |by eapply same_me_trans|].
    + rewrite Hev2, Hev, <- app_assoc. done.
    + apply Forall_app. split; [|done]. eapply Forall_impl; [done|apply setup_launch_event].
    + rewrite HR. unfold bind.
      destruct Hres as [(l' & wl & Hr)|(wl & Hr)]; rewrite Hr in *; simpl.
      * pose proof (complete_spec cmd l' wl) as Hc.
        destruct (background cmd); [by left|].
        right. right. split; [done|]. exists l'.
        destruct Hc as (w' & Hs & Hc). exists w'. split; [|split; [done|]].
        -- intros Hfull.
           destruct (launch_all_spawned _ _ _ _ Hl news Hp2 Hfull) as (l2 & w2 & Heq & Hcnt & Hpids).
           ++ done.
           ++ simpl. rewrite malloc_length, CountCommands_length. lia.
           ++ injection Heq as <- <-. split.
              ** rewrite Hcnt. simpl. apply CountCommands_length.
              ** rewrite Hpids. simpl. rewrite drop_ge, app_nil_r; [done|].
                 rewrite malloc_length, CountCommands_length. lia.
        -- destruct Hc as [Hc|(j & Hj & Hc)]; [by left|]. right. by exists j.
      * right. left. split; [done|]. by destruct (launch_stop_exit _ _ _ _ _ Hl).
Qed.

(** ** Background commands *)

Lemma RunCommand_sigchld pr cmd w :
  ps_sigchld (me (final_world (RunCommand E pr cmd w))) = ps_sigchld (me w).
Proof.
  destruct (RunCommand_phases pr cmd w)
    as (wl & news & evs & _ & _ & _ & _ & _ & _ & Hme & Hr).
  assert (Hwl : ps_sigchld (me wl) = ps_sigchld (me w)) by apply Hme.
  destruct Hr as [->|[(-> & _)|(_ & l & w' & _ & Hs & Hr)]]; [done|done|].
  destruct Hs as (_ & _ & (_ & _ & Hsc & _) & _). simpl in Hsc.
  destruct Hr as [->|(j & _ & ->)]; simpl; congruence.
Qed.

Lemma read_eval_sigchld lines w :
  ps_sigchld (me (final_world (read_eval E lines w))) = ps_sigchld (me w).
Proof.
  revert w. induction lines as [|[pr cmd] rest IH]; intros w; simpl; [done|].
  unfold bind. pose proof (RunCommand_sigchld pr cmd w) as HR.
  destruct (RunCommand E pr cmd w) as [[] w1|s w1]; simpl in *; [|done].
  by rewrite IH.
Qed.

(** [main] ignores [SIGCHLD] before it reads the first line, and nothing
    that follows changes that. *)
Lemma main_ignores_sigchld lines w :
  ps_sigchld (me (final_world (main E lines w))) = SIG_IGN.
Proof. unfold main, bind. simpl. by rewrite read_eval_sigchld. Qed.

Lemma child_ok_not_zombie p : child_ok SIG_IGN p → is_zombie p = false.
Proof. intros (_ & _ & [Hs|Hs]); unfold is_zombie; by rewrite Hs. Qed.

Lemma spawned_child_terminates pid t w w' :
  spawned w (child_terminates pid t w')
  = map (λ p, if (p_pid p =? pid) && is_alive p
              then set_status (terminate (ps_sigchld (me w')) t) p else p)
        (spawned w w').
Proof. unfold spawned, child_terminates, end_procs, procs. simpl. by rewrite skipn_map. Qed.

(** C7.  A command that runs in the background leaves the recorded children
    (the array and the count) as they were, calls [waitpid] not once and is
    never left blocked: [RunCommand] returns, unless a stage is [exit] and
    the interpreter ends with status 0.  It does not touch the disposition of
    [SIGCHLD]; [main] has set it to be ignored for the whole session, and with
    it ignored no child the command forked is or becomes a zombie: one that
    has ended, and one that ends later, is reaped at once. *)
Theorem background_command_does_not_wait pr cmd w :
  background cmd = true →
  children (me (final_world (RunCommand E pr cmd w))) = children (me w) ∧
  numChildren (me (final_world (RunCommand E pr cmd w))) = numChildren (me w) ∧
  (∀ e, e ∈ new_events w (final_world (RunCommand E pr cmd w)) → ¬ waitpid_event e) ∧
  ((∃ w', RunCommand E pr cmd w = Ret tt w') ∨
   ((∃ w', RunCommand E pr cmd w = Stop (StExit 0) w') ∧
    ∃ c, c ∈ pgm cmd ∧ pgm_name c = "exit")) ∧
  ps_sigchld (me (final_world (RunCommand E pr cmd w))) = ps_sigchld (me w) ∧
  (∀ lines w0, ps_sigchld (me (final_world (main E lines w0))) = SIG_IGN) ∧
  (ps_sigchld (me w) = SIG_IGN →
   ∀ p, (p ∈ spawned w (final_world (RunCommand E pr cmd w)) → is_zombie p = false) ∧
        ∀ pid t,
          p ∈ spawned w (child_terminates pid t (final_world (RunCommand E pr cmd w))) →
          is_zombie p = false).
Proof.
  intros Hbg.
  destruct (RunCommand_phases pr cmd w)
    as (wl & news & evs & Hp & Hok & _ & _ & Hev & Hf & Hme & Hr).
  assert (HR : RunCommand E pr cmd w = Ret tt wl ∨
               (RunCommand E pr cmd w = Stop (StExit 0) wl ∧
                ∃ c, c ∈ pgm cmd ∧ pgm_name c = "exit")).
  { destruct Hr as [?|[?|(Hfg & _)]]; [by left|by right|congruence]. }
  assert (Hw : final_world (RunCommand E pr cmd w) = wl).
  { by destruct HR as [->|(-> & _)]. }
  rewrite Hw. split_and!.
  - apply Hme.
  - apply Hme.
  - intros e He. rewrite (new_events_app _ _ _ Hev) in He. intros Hwp.
    rewrite Forall_forall in Hf. by apply (waitpid_not_launch e Hwp), Hf.
  - destruct HR as [?|(? & ?)]; [left|right]; eauto.
  - apply Hme.
  - apply main_ignores_sigchld.
  - intros Hign p. rewrite Hign in Hok. rewrite Forall_forall in Hok. split.
    + rewrite (spawned_app _ _ _ Hp). intros Hin. by apply child_ok_not_zombie, Hok.
    + intros pid t. rewrite spawned_child_terminates, (spawned_app _ _ _ Hp).
      intros (q & <- & Hq%list_elem_of_In)%list_elem_of_In%in_map_iff.
      assert (Hsc : ps_sigchld (me wl) = SIG_IGN) by (destruct Hme as (_ & _ & -> & _); done).
      destruct ((p_pid q =? pid) && is_alive q).
      * rewrite Hsc. done.
      * by apply child_ok_not_zombie, Hok.
Qed.

(** ** The children of a command *)

Lemma spawned_view w w1 w2 :
  map proc_view (procs w2) = map proc_view (procs w1) →
  map proc_view (spawned w w2) = map proc_view (spawned w w1).
Proof. intros H. unfold spawned. by rewrite <- !skipn_map, H. Qed.

(** The children forked for a command are, up to reaping, those the loop
    has forked. *)
Lemma RunCommand_spawned pr cmd w :
  ∃ news,
    map proc_view (spawned w (final_world (RunCommand E pr cmd w))) = map proc_view news ∧
    Forall (child_ok (ps_sigchld (me w))) news ∧
    (length news ≤ length (pgm cmd))%nat ∧
    map p_argv news `sublist_of` map pgmlist (pgm cmd).
Proof.
  destruct (RunCommand_phases pr cmd w)
    as (wl & news & evs & Hp & Hok & Hlen & Hsub & _ & _ & _ & Hr).
  exists news. split; [|done].
  rewrite <- (spawned_app _ _ _ Hp).
  destruct Hr as [->|[(-> & _)|(_ & l & w' & _ & Hs & Hr)]]; [done|done|].
  destruct Hs as (Hv & _).
  destruct Hr as [->|(j & _ & ->)]; simpl; by apply spawned_view.
Qed.

Lemma Forall_view (P : list string * pstate * option termination → Prop) l1 l2 :
  map proc_view l1 = map proc_view l2 →
  Forall (λ p, P (proc_view p)) l2 → Forall (λ p, P (proc_view p)) l1.
Proof.
  intros Hm H. apply (Forall_map proc_view P). rewrite Hm. by apply Forall_map.
Qed.





(** [PrintPgm] prints the stages in the order of the command line, by going
    to the end of the list first. *)
Lemma PrintPgm_left_to_right cmd :
  PrintPgm (pgm cmd) = map print_stage (left_to_right cmd).
Proof.
  unfold left_to_right. induction (pgm cmd) as [|c next IH]; simpl; [done|].
  by rewrite IH, map_app.
Qed.

(** C9, as the code has it.  The loop takes the stages in the order of the
    list the parser delivers and never reverses it: the children are forked
    in that order, and when every stage gets its child the order is that of
    the command line read from right to left. *)
Theorem children_forked_in_list_order pr cmd w :
  map p_argv (spawned w (final_world (RunCommand E pr cmd w)))
    `sublist_of` map pgmlist (pgm cmd) ∧
  (length (spawned w (final_world (RunCommand E pr cmd w))) = length (pgm cmd) →
   map p_argv (spawned w (final_world (RunCommand E pr cmd w)))
   = rev (left_to_right cmd)).
Proof.
  destruct (RunCommand_spawned pr cmd w) as (news & Hv & _ & _ & Hsub).
  assert (Hargv : map p_argv (spawned w (final_world (RunCommand E pr cmd w)))
                  = map p_argv news).
  { change p_argv with (λ p, (proc_view p).1.1).
    rewrite <- !(map_map proc_view (λ v, v.1.1)). by rewrite Hv. }
  rewrite Hargv. split; [done|].
  intros Hlen. unfold left_to_right. rewrite rev_involutive.
  apply sublist_full; [done|].
  apply (f_equal length) in Hargv. rewrite !length_map in Hargv.
  rewrite !length_map. congruence.
Qed.

(** ** Failures while a command is set up *)

Lemma pipe_events_ok ol pid : Forall ok_event (pipe_events ol pid 0).
Proof. destruct ol; repeat constructor. simpl. lia. Qed.

Lemma cd_events_ok pid arg r tgt : Forall ok_event (cd_events pid arg r tgt).
Proof. destruct r; repeat constructor; simpl; tauto. Qed.

Lemma child_events_ok pid c x tgt : Forall ok_event (child_events pid c x tgt).
Proof. destruct x; repeat constructor; simpl; tauto. Qed.

(** The events of a turn that does not leave the loop. *)
Lemma stage_events_ok c ol l w l1 w1 :
  stage_spec E c ol l w (Ret (true, l1) w1) →
  ∃ evs, events w1 = events w ++ evs ∧ Forall ok_event evs.
Proof.
  intros Hs. inversion Hs; subst; (eexists; split; [done|]).
  - apply Forall_app. split; [apply pipe_events_ok|apply cd_events_ok].
  - apply Forall_app. split; [apply pipe_events_ok|]. repeat constructor. simpl. tauto.
  - apply Forall_app. split; [apply pipe_events_ok|].
    constructor; [split; simpl; tauto|apply child_events_ok].
Qed.

(** The events of the loop: calls that succeed, and at the end, when a pipe
    could not be made, the failed call and the diagnostic; the loop has then
    been left by [break]. *)
Lemma launch_events pgm l w r :
  launch_spec E pgm l w r →
  ∃ pre tail,
    events (final_world r) = events w ++ pre ++ tail ∧ Forall ok_event pre ∧
    (tail = [] ∨
     ((∃ e d, tail = [e; d] ∧ pipe_failure e ∧ write_event d) ∧ ∃ l' w', r = Ret l' w')).
Proof.
  induction 1 as [l w|c next l w l1 w1 r Hs Hl IH|c next l w w1 Hs|c next l w s w1 Hs]; simpl.
  - exists [], []. rewrite !app_nil_r. split; [done|]. split; [constructor|by left].
  - destruct (stage_events_ok _ _ _ _ _ _ Hs) as (e1 & He1 & Hok1).
    destruct IH as (pre & tail & Hev & Hok & Htail).
    exists (e1 ++ pre), tail. rewrite Hev, He1, <- !app_assoc.
    split; [done|]. split; [by apply Forall_app|done].
  - inversion Hs; subst. eexists [], _. split; [done|]. split; [constructor|].
    right. split; [|by eexists _, _]. eexists _, _. split; [done|]. by split.
  - inversion Hs; subst. eexists _, []. rewrite app_nil_r. split; [done|]. split; [|by left].
    apply Forall_app. split; [apply pipe_events_ok|]. repeat constructor. simpl. tauto.
Qed.

Lemma none_alive_view target ps ps' :
  map proc_view ps' = map proc_view ps → none_alive target ps → none_alive target ps'.
Proof.
  intros Hv. unfold none_alive.
  set (P := λ v : list string * pstate * option termination,
         (if 0 <? target then ps_pid v.1.2 =? target else (target =? -1) || (target =? 0))
         && (if v.2 is None then true else false) = false).
  assert (Heq : ∀ q, wait_selects target q && is_alive q = false ↔ P (proc_view q)).
  { intros q. unfold P, wait_selects, is_alive, proc_view, termination_of, p_pid. simpl.
    by destruct (p_status q). }
  intros H. eapply Forall_impl; [|intros q; apply Heq].
  apply (Forall_view P _ _ Hv). eapply Forall_impl; [done|intros q; apply Heq].
Qed.

(** The wait does not block on children that have ended. *)
Lemma wait_children_returns n pids count i w :
  (∀ j, i ≤ j < count → none_alive (default 0 (pids !! Z.to_nat j)) (procs w)) →
  ∃ w', wait_children n pids count i w = Ret tt w' ∧ wait_step w w'.
Proof.
  revert i w. induction n as [|n IH]; intros i w Hdead; simpl.
  - exists w. split; [done|apply wait_step_refl].
  - destruct (i <? count) eqn:Hlt; [|exists w; split; [done|apply wait_step_refl]].
    apply Z.ltb_lt in Hlt. unfold bind.
    destruct (sys_waitpid_spec (default 0 (pids !! Z.to_nat i)) w)
      as [(_ & Hn)|(r & w1 & Hw & Hs1)]; [destruct Hn; apply Hdead; lia|].
    rewrite Hw.
    destruct (IH (i + 1) w1) as (w2 & Hr & Hs2).
    + intros j Hj. eapply none_alive_view; [apply Hs1|apply Hdead; lia].
    + exists w2. split; [done|by eapply wait_step_trans].
Qed.

Lemma resume_returns f w :
  (∀ j, f_i f ≤ j < f_count f → none_alive (default 0 (f_pids f !! Z.to_nat j)) (procs w)) →
  ∃ w', resume f w = Ret tt w' ∧ numChildren (me w') = 0 ∧ ps_sigint (me w') = SIG_IGN ∧
        map proc_view (procs w') = map proc_view (procs w).
Proof.
  intros Hdead. unfold resume, foreground_wait. unfold bind at 1.
  destruct (wait_children_returns (Z.to_nat (f_count f - f_i f)) (f_pids f) (f_count f)
              (f_i f) w Hdead) as (w' & -> & Hs).
  eexists. split; [reflexivity|]. simpl. split; [done|]. split; [done|]. apply Hs.
Qed.

Lemma all_dead_none_alive target ps :
  Forall (λ q, is_alive q = false) ps → none_alive target ps.
Proof.
  intros H. eapply Forall_impl; [done|]. intros q Hq. simpl. rewrite Hq.
  by destruct (wait_selects target q).
Qed.

(** The events of a command: calls that succeed; when a redirection or a
    pipe fails, the failed call and the diagnostic, after which nothing more
    is set up; and the calls of the foreground wait. *)
Lemma RunCommand_events pr cmd w :
  ∃ pre tail waits,
    new_events w (final_world (RunCommand E pr cmd w)) = pre ++ tail ++ waits ∧
    Forall ok_event pre ∧ Forall waitpid_event waits ∧
    (tail = [] ∨
     ((∃ e d, tail = [e; d] ∧ setup_failure e ∧ write_event d ∧
              (¬ pipe_failure e → spawned w (final_world (RunCommand E pr cmd w)) = [])) ∧
      ((∃ w', RunCommand E pr cmd w = Ret tt w') ∨
       (∃ f w', RunCommand E pr cmd w = Stop (StWait f) w')))).
Proof.
  destruct (RunCommand_cases pr cmd w)
    as [(w' & HR & Hp & Hme & (evs & Hev & Hf & (pre & e & d & -> & Hok & He & Hnp & Hd)))
       |(li & co & wr & Hp & Hme & Hcwd & (evs & Hev & Hf & Hok) & Hinv & HR)].
  - exists pre, [e; d], []. rewrite HR. simpl.
    rewrite (new_events_app _ _ _ Hev), ?app_nil_r.
    split; [done|]. split; [done|]. split; [constructor|]. right. split.
    + exists e, d. split; [done|]. split; [done|]. split; [done|].
      intros _. by apply spawned_same.
    + left. by exists w'.
  - set (l0 := mkLocals (CountCommands (pgm cmd)) (malloc E (CountCommands (pgm cmd)))
                        0 li STDIN_FILENO co) in *.
    pose proof (launch_sound (pgm cmd) l0 wr) as Hl.
    destruct (launch_events _ _ _ _ Hl) as (pre2 & tail & Hev2 & Hok2 & Htail).
    rewrite HR. unfold bind.
    destruct (launch E (pgm cmd) l0 wr) as [l' wl|s wl] eqn:Hlr; simpl in *.
    + assert (Hevl : events wl = events w ++ (evs ++ pre2) ++ tail)
        by (by rewrite Hev2, Hev, <- !app_assoc).
      assert (Hpipe : tail = [] ∨ ∃ e d, tail = [e; d] ∧ setup_failure e ∧ write_event d ∧
                        (¬ pipe_failure e → ∀ w', spawned w w' = [])).
      { destruct Htail as [->|((e & d & -> & He & Hd) & _)]; [by left|].
        right. exists e, d. split; [done|]. split; [by destruct e|]. split; [done|].
        by intros Hn. }
      pose proof (complete_spec cmd l' wl) as Hc.
      destruct (background cmd).
      * rewrite Hc. simpl. exists (evs ++ pre2), tail, [].
        rewrite (new_events_app _ _ _ Hevl), ?app_nil_r.
        split; [done|]. split; [by apply Forall_app|]. split; [constructor|].
        destruct Hpipe as [->|(e & d & -> & He & Hd & Hs)]; [by left|right].
        split; [|left; by eexists].
        exists e, d. split; [done|]. split; [done|]. split; [done|]. intros Hn. by apply Hs.
      * destruct Hc as (w' & (_ & (waits & Hw & Hfw) & _) & Hc).
        simpl in Hw. fold (events wl) in Hw.
        assert (Hevw : events w' = events w ++ (evs ++ pre2) ++ tail ++ waits).
        { unfold events in *. rewrite Hw. simpl. unfold events in Hevl.
          rewrite Hevl, <- !app_assoc. done. }
        exists (evs ++ pre2), tail, waits.
        assert (Hnew : new_events w (final_world (complete cmd l' wl))
                       = (evs ++ pre2) ++ tail ++ waits).
        { destruct Hc as [->|(j & _ & ->)]; simpl; by apply new_events_app. }
        split; [done|]. split; [by apply Forall_app|]. split; [done|].
        destruct Hpipe as [->|(e & d & -> & He & Hd & Hs)]; [by left|right].
        split.
        -- exists e, d. split; [done|]. split; [done|]. split; [done|]. intros Hn. by apply Hs.
        -- destruct Hc as [->|(j & _ & ->)]; [left; by eexists|right; by eexists _, _].
    + exists (evs ++ pre2), [], []. rewrite ?app_nil_r.
      destruct Htail as [->|(_ & l' & w' & ?)]; [|done].
      rewrite app_nil_r in Hev2.
      assert (Hevl : events wl = events w ++ evs ++ pre2) by (by rewrite Hev2, Hev, <- !app_assoc).
      rewrite (new_events_app _ _ _ Hevl).
      split; [done|]. split; [by apply Forall_app|]. split; [constructor|by left].
Qed.

Lemma child_ok_not_killed d p : child_ok d p → not_killed p.
Proof.
  intros (_ & _ & [Hs|Hs]); unfold not_killed, termination_of; rewrite Hs; [by left|].
  right. by destruct d.
Qed.

(** No child forked for a command has been killed when [RunCommand] is
    over or blocked: each runs, or has ended by its own [exit(0)]. *)
Lemma RunCommand_not_killed pr cmd w :
  Forall not_killed (spawned w (final_world (RunCommand E pr cmd w))).
Proof.
  destruct (RunCommand_spawned pr cmd w) as (news & Hv & Hok & _ & _).
  apply (Forall_view (λ v, v.2 = None ∨ v.2 = Some (Exited 0)) _ _ Hv).
  eapply Forall_impl; [done|]. intros p. apply child_ok_not_killed.
Qed.

(** ** The interrupt handler *)

Lemma end_procs_none_alive_mono sel d t target ps :
  none_alive target ps → none_alive target (end_procs sel d t ps).
Proof.
  unfold none_alive, end_procs. intros H. apply Forall_map.
  eapply Forall_impl; [done|]. intros q Hq. simpl.
  destruct (sel q && is_alive q) eqn:Hs; [|done].
  unfold wait_selects, is_alive, p_pid in *. simpl. by destruct d; rewrite andb_false_r.
Qed.

Lemma end_procs_none_alive d t target ps :
  0 < target →
  none_alive target (end_procs (λ q, p_pid q =? target) d t ps).
Proof.
  intros Hpos. unfold none_alive, end_procs. apply Forall_map, Forall_forall.
  intros q _. simpl. apply Z.ltb_lt in Hpos.
  destruct (p_pid q =? target) eqn:Hsel; simpl.
  - destruct (is_alive q) eqn:Ha; simpl.
    + unfold is_alive. simpl. by destruct d; rewrite andb_false_r.
    + by rewrite Ha, andb_false_r.
  - unfold wait_selects. by rewrite Hpos, Hsel.
Qed.

Lemma end_procs_view sel d t ps :
  map (λ q, (p_argv q, p_state q)) (end_procs sel d t ps)
  = map (λ q, (p_argv q, p_state q)) ps.
Proof.
  unfold end_procs. rewrite map_map. apply map_ext. intros q.
  by destruct (sel q && is_alive q).
Qed.

Lemma sys_kill_spec target w :
  0 < target →
  ∃ w', sys_kill target SIGKILL w = Ret 0 w' ∧ me w' = me w ∧
        events w' = events w ++ [EvKill (ps_pid (me w)) target SIGKILL] ∧
        procs w' = end_procs (λ q, p_pid q =? target) (ps_sigchld (me w))
                             (Killed SIGKILL) (procs w).
Proof.
  intros Hpos. unfold sys_kill. apply Z.ltb_lt in Hpos. rewrite Hpos. simpl.
  eexists. by split.
Qed.

(** The loop of the handler: it signals the recorded children from index
    [i] to the recorded count, and none of them is alive afterwards. *)
Lemma kill_children_spec n i w :
  0 ≤ i →
  n = Z.to_nat (numChildren (me w) - i) →
  numChildren (me w) = Z.of_nat (length (children (me w))) →
  Forall (λ pid, 0 < pid) (children (me w)) →
  ∃ w', kill_children n i w = Ret tt w' ∧ me w' = me w ∧
    events w' = events w ++
      map (λ pid, EvKill (ps_pid (me w)) pid SIGKILL) (drop (Z.to_nat i) (children (me w))) ∧
    map (λ q, (p_argv q, p_state q)) (procs w') = map (λ q, (p_argv q, p_state q)) (procs w) ∧
    (∀ t, none_alive t (procs w) → none_alive t (procs w')) ∧
    (∀ j, i ≤ j < numChildren (me w) →
          none_alive (default 0 (children (me w) !! Z.to_nat j)) (procs w')).
Proof.
  revert i w. induction n as [|n IH]; intros i w Hi Hn Hnum Hpos; simpl.
  - exists w. split; [done|]. split; [done|]. split_and!; [|done|done|intros j Hj; lia].
    rewrite drop_ge by lia. by rewrite app_nil_r.
  - unfold bind, get. assert (Hlt : i < numChildren (me w)) by lia.
    apply Z.ltb_lt in Hlt as Hlt'. rewrite Hlt'.
    destruct (children (me w) !! Z.to_nat i) as [pid|] eqn:Hlook;
      [|apply lookup_ge_None in Hlook; lia].
    simpl.
    assert (Hpid : 0 < pid).
    { rewrite Forall_forall in Hpos. apply Hpos. by eapply list_elem_of_lookup_2. }
    destruct (sys_kill_spec pid w Hpid) as (w1 & Hk & Hme1 & Hev1 & Hp1).
    rewrite Hk.
    destruct (IH (i + 1) w1) as (w2 & Hr & Hme2 & Hev2 & Hv2 & Hmono2 & Hdead2);
      [lia|rewrite Hme1; lia|by rewrite Hme1|by rewrite Hme1|].
    rewrite Hme1 in *.
    exists w2. split; [done|]. split; [done|]. split_and!.
    + rewrite Hev2, Hev1, <- app_assoc. f_equal.
      rewrite (drop_S _ pid (Z.to_nat i)) by done. simpl.
      by replace (Z.to_nat (i + 1)) with (S (Z.to_nat i)) by lia.
    + rewrite Hv2, Hp1. apply end_procs_view.
    + intros t Ht. apply Hmono2. rewrite Hp1. by apply end_procs_none_alive_mono.
    + intros j Hj. destruct (decide (j = i)) as [->|Hne].
      * rewrite Hlook. simpl. apply Hmono2. rewrite Hp1. by apply end_procs_none_alive.
      * apply Hdead2. lia.
Qed.

Lemma view_pids l1 l2 :
  map proc_view l1 = map proc_view l2 → map p_pid l1 = map p_pid l2.
Proof.
  intros H. change p_pid with (λ p, ps_pid (proc_view p).1.2).
  rewrite <- !(map_map proc_view (λ v, ps_pid v.1.2)). by rewrite H.
Qed.

Lemma state_view_pids (l1 l2 : list proc) :
  map (λ q, (p_argv q, p_state q)) l1 = map (λ q, (p_argv q, p_state q)) l2 →
  map p_pid l1 = map p_pid l2.
Proof.
  intros H. change p_pid with (λ p, ps_pid ((λ q, (p_argv q, p_state q)) p).2).
  rewrite <- !(map_map (λ q, (p_argv q, p_state q)) (λ v, ps_pid v.2)). by rewrite H.
Qed.

Lemma spawned_state_view w w1 w2 :
  map (λ q, (p_argv q, p_state q)) (procs w2) = map (λ q, (p_argv q, p_state q)) (procs w1) →
  map p_pid (spawned w w2) = map p_pid (spawned w w1).
Proof.
  intros H. apply state_view_pids. unfold spawned. by rewrite <- !skipn_map, H.
Qed.

(** C1.  Take a foreground pipeline every stage of which has got its
    process, K in all, and let the interpreter be blocked in the wait for
    them.  The recorded children are then the pids of these K processes, the
    recorded count is K and the handler [KillChildrenOnSignal] is installed.
    When [SIGINT] arrives the handler sends [SIGKILL] to each of the K pids, in
    the order recorded and counting up to the recorded count, and to nothing
    else; none of the K processes is alive afterwards; and the wait, taken up
    again, does not block: [RunCommand] returns to the read-eval loop with the
    count reset and [SIGINT] ignored again. *)
Theorem interrupt_kills_every_recorded_child pr cmd w f w1 :
  RunCommand E pr cmd w = Stop (StWait f) w1 →
  length (spawned w w1) = length (pgm cmd) →
  children (me w1) = map p_pid (spawned w w1) ∧
  numChildren (me w1) = Z.of_nat (length (pgm cmd)) ∧
  ps_sigint (me w1) = SIG_FN KillChildrenOnSignal_fn ∧
  ∃ w2 w3,
    interrupt w1 = Ret tt w2 ∧
    new_events w1 w2
    = map (λ p, EvKill (ps_pid (me w1)) (p_pid p) SIGKILL) (spawned w w1) ∧
    Forall (λ p, is_alive p = false) (spawned w w2) ∧
    resume f w2 = Ret tt w3 ∧
    numChildren (me w3) = 0 ∧ ps_sigint (me w3) = SIG_IGN.
Proof.
  intros HR Hall.
  destruct (RunCommand_phases pr cmd w)
    as (wl & news & evs & Hp & Hok & Hlen & _ & _ & _ & Hme & Hr).
  destruct Hr as [Hr|[(Hr & _)|(_ & l & w' & Hfull & Hs & [Hr|(j & Hj & Hr)])]];
    rewrite HR in Hr; try done.
  injection Hr as -> ->.
  destruct Hs as (Hv & _ & (Hpid & Hint & Hchld & Hch & Hnum) & _). simpl in *.
  assert (Hsv : map proc_view (spawned w w') = map proc_view news).
  { rewrite <- (spawned_app _ _ _ Hp). by apply spawned_view. }
  assert (Hlen' : length news = length (pgm cmd)).
  { apply (f_equal length) in Hsv. rewrite !length_map in Hsv. congruence. }
  destruct (Hfull Hlen') as (Hcount & Hpids).
  assert (Hsp : map p_pid (spawned w w') = map p_pid news) by by apply view_pids.
  assert (Hchildren : children (me w') = map p_pid (spawned w w')) by congruence.
  assert (HnumK : numChildren (me w') = Z.of_nat (length (pgm cmd))) by congruence.
  split; [done|]. split; [done|]. split; [done|].
  assert (Hpos : Forall (λ pid, 0 < pid) (children (me w'))).
  { rewrite Hch, Hpids. apply Forall_map. eapply Forall_impl; [done|]. by intros p (? & _). }
  assert (Hnumlen : numChildren (me w') = Z.of_nat (length (children (me w')))).
  { rewrite HnumK, Hch, Hpids, length_map. by rewrite Hlen'. }
  destruct (kill_children_spec (Z.to_nat (numChildren (me w'))) 0 w')
    as (w2 & Hk & Hme2 & Hev2 & Hv2 & _ & Hdead); [lia|f_equal; lia|done|done|].
  assert (Hint2 : interrupt w' = Ret tt w2).
  { unfold interrupt, bind, get. rewrite Hint. exact Hk. }
  destruct (resume_returns (mkFrame (command_pids l) (command_counter l) j) w2)
    as (w3 & Hres & Hn3 & Hs3 & _).
  { simpl. intros k Hk'. rewrite <- Hch. apply Hdead. lia. }
  exists w2, w3. split; [done|]. split_and!; [|  |done|done|done].
  - rewrite (new_events_app _ _ _ Hev2). change (Z.to_nat 0) with 0%nat.
    rewrite drop_0, Hchildren, map_map. done.
  - assert (Hsp2 : map p_pid (spawned w w2) = children (me w')).
    { rewrite Hchildren. by apply spawned_state_view. }
    apply Forall_forall. intros p Hin.
    assert (Hc : p_pid p ∈ children (me w')).
    { rewrite <- Hsp2. apply list_elem_of_In, in_map. by apply list_elem_of_In. }
    assert (Hppos : 0 < p_pid p).
    { rewrite Forall_forall in Hpos. by apply Hpos. }
    apply list_elem_of_lookup in Hc as (k & Hk').
    assert (Hkl : (k < length (children (me w')))%nat) by by eapply lookup_lt_Some.
    specialize (Hdead (Z.of_nat k)). rewrite Nat2Z.id, Hk' in Hdead. simpl in Hdead.
    assert (Hp2 : p ∈ procs w2).
    { unfold spawned in Hin. by eapply (sublist_subseteq _ _ (sublist_drop _ _)). }
    unfold none_alive in Hdead. rewrite Forall_forall in Hdead.
    specialize (Hdead ltac:(lia) p Hp2). unfold wait_selects in Hdead.
    apply Z.ltb_lt in Hppos. rewrite Hppos, Z.eqb_refl in Hdead. done.
Qed.

(** ** Children whose program cannot be launched *)

Lemma reports_app err a b :
  reports_launch_failures err a → reports_launch_failures err b →
  reports_launch_failures err (a ++ b).
Proof.
  intros Ha Hb pid file e [Hin|Hin]%elem_of_app.
  - destruct (Ha _ _ _ Hin) as (pre & post & ->). exists pre, (post ++ b).
    by rewrite <- !app_assoc.
  - destruct (Hb _ _ _ Hin) as (pre & post & ->). exists (a ++ pre), post.
    by rewrite <- !app_assoc.
Qed.

Lemma reports_none err evs :
  Forall (λ e, ¬ execvp_failure e) evs → reports_launch_failures err evs.
Proof.
  intros H pid file e Hin. rewrite Forall_forall in H. by destruct (H _ Hin).
Qed.

Lemma reports_child err pid c x :
  reports_launch_failures err (child_events pid c x err).
Proof.
  intros pid' file e Hin. destruct x as [e0|]; simpl in *.
  - apply elem_of_cons in Hin as [[= -> -> ->]|Hin].
    + by exists [], [].
    + apply elem_of_cons in Hin as [?|Hin]; [done|].
      by apply list_elem_of_singleton in Hin.
  - by apply list_elem_of_singleton in Hin.
Qed.

Lemma pipe_events_no_exec ol pid r : Forall (λ e, ¬ execvp_failure e) (pipe_events ol pid r).
Proof. destruct ol; repeat constructor; simpl; tauto. Qed.

Lemma cd_events_no_exec pid arg r tgt :
  Forall (λ e, ¬ execvp_failure e) (cd_events pid arg r tgt).
Proof. destruct r; repeat constructor; simpl; tauto. Qed.

Lemma fd_inv_step t0 li co co' w w' :
  fd_inv t0 li co w → std_kept w w' → (co' = 1 ∨ 3 ≤ co') → fd_inv t0 li co' w'.
Proof.
  intros (Hstd & Hsame & Hli & _) Hk Hco. split; [done|]. split; [|done].
  intros n Hn. rewrite <- Hsame by done. by apply Hk.
Qed.

(** A turn of the loop reports every failed launch on the interpreter's
    standard error, and keeps what the loop needs of the descriptors. *)
Lemma stage_reports t0 c ol l w r :
  stage_spec E c ol l w r →
  fd_inv t0 (last_in l) (child_out l) w →
  (∃ evs, events (final_world r) = events w ++ evs ∧
          reports_launch_failures (fd_get t0 STDERR_FILENO) evs) ∧
  (∀ l1 w1, r = Ret (true, l1) w1 → fd_inv t0 (last_in l1) (child_out l1) w1).
Proof.
  intros Hs Hinv. inversion Hs; subst; simpl.
  - split; [|done]. eexists. split; [done|]. apply reports_none. repeat constructor; simpl; tauto.
  - split; [|done]. eexists. split; [done|]. apply reports_none.
    apply Forall_app. split; [apply pipe_events_no_exec|]. repeat constructor; simpl; tauto.
  - match goal with H : ∀ t0, fd_inv t0 _ _ w → _ |- _ => destruct (H t0 Hinv) as (Hk & ->) end.
    split.
    + eexists. split; [done|]. apply reports_none.
      apply Forall_app. split; [apply pipe_events_no_exec|apply cd_events_no_exec].
    + intros l1 w1 [= <- <-].
      replace (last_in l') with (last_in l). replace (child_out l') with (child_out l).
      eapply fd_inv_step; [done|done|]. apply Hinv.
  - match goal with H : ∀ t0, fd_inv t0 _ _ w → _ |- _ => destruct (H t0 Hinv) as (Hk & Hco) end.
    split.
    + eexists. split; [done|]. apply reports_none.
      apply Forall_app. split; [apply pipe_events_no_exec|]. repeat constructor; simpl; tauto.
    + intros l1 w1 [= <- <-]. replace (last_in l') with (last_in l).
      by eapply fd_inv_step.
  - match goal with H : ∀ t0, fd_inv t0 _ _ w → _ |- _ =>
      destruct (H t0 Hinv) as (Hk & Hco & ->) end.
    split.
    + eexists. split; [done|]. apply reports_app.
      * apply reports_none, pipe_events_no_exec.
      * apply (reports_app _ [_]); [apply reports_none; repeat constructor; simpl; tauto|].
        apply reports_child.
    + intros l1 w1 [= <- <-]. replace (last_in l') with (last_in l).
      by eapply fd_inv_step.
Qed.

Lemma launch_reports t0 pgm l w r :
  launch_spec E pgm l w r →
  fd_inv t0 (last_in l) (child_out l) w →
  ∃ evs, events (final_world r) = events w ++ evs ∧
         reports_launch_failures (fd_get t0 STDERR_FILENO) evs.
Proof.
  induction 1 as [l w|c next l w l1 w1 r Hs Hl IH|c next l w w1 Hs|c next l w s w1 Hs];
    intros Hinv; simpl.
  - exists []. rewrite app_nil_r. split; [done|]. by apply reports_none.
  - destruct (stage_reports _ _ _ _ _ _ Hs Hinv) as ((e1 & He1 & Hr1) & Hnext).
    destruct (IH (Hnext _ _ eq_refl)) as (e2 & He2 & Hr2).
    exists (e1 ++ e2). simpl in He1. rewrite He2, He1, <- app_assoc.
    split; [done|]. by apply reports_app.
  - by destruct (stage_reports _ _ _ _ _ _ Hs Hinv) as (? & _).
  - by destruct (stage_reports _ _ _ _ _ _ Hs Hinv) as (? & _).
Qed.

Lemma setup_no_exec evs : Forall setup_event evs → Forall (λ e, ¬ execvp_failure e) evs.
Proof. intros H. eapply Forall_impl; [done|]. intros e He. destruct e; simpl in *; tauto. Qed.

Lemma waitpid_no_exec evs : Forall waitpid_event evs → Forall (λ e, ¬ execvp_failure e) evs.
Proof. intros H. eapply Forall_impl; [done|]. intros e He. destruct e; simpl in *; tauto. Qed.

Lemma RunCommand_reports pr cmd w :
  std_open (ps_fds (me w)) →
  reports_launch_failures (fd_get (ps_fds (me w)) STDERR_FILENO)
    (new_events w (final_world (RunCommand E pr cmd w))).
Proof.
  intros Hstd.
  destruct (RunCommand_cases pr cmd w)
    as [(w' & HR & Hp & Hme & (evs & Hev & Hf & _))
       |(li & co & wr & Hp & Hme & Hcwd & (evs & Hev & Hf & _) & Hinv & HR)].
  - rewrite HR. simpl. rewrite (new_events_app _ _ _ Hev). by apply reports_none, setup_no_exec.
  - set (l0 := mkLocals (CountCommands (pgm cmd)) (malloc E (CountCommands (pgm cmd)))
                        0 li STDIN_FILENO co) in *.
    pose proof (launch_sound (pgm cmd) l0 wr) as Hl.
    destruct (launch_reports _ _ _ _ _ Hl (Hinv Hstd)) as (evs2 & Hev2 & Hrep).
    rewrite HR. unfold bind.
    destruct (launch E (pgm cmd) l0 wr) as [l' wl|s wl] eqn:Hlr; simpl in *.
    + pose proof (complete_spec cmd l' wl) as Hc.
      destruct (background cmd).
      * rewrite Hc. simpl.
        assert (Hevl : events wl = events w ++ evs ++ evs2)
          by (by rewrite Hev2, Hev, <- !app_assoc).
        rewrite (new_events_app _ _ _ Hevl).
        apply reports_app; [by apply reports_none, setup_no_exec|done].
      * destruct Hc as (w' & (_ & (waits & Hw & Hfw) & _) & Hc).
        simpl in Hw. fold (events wl) in Hw.
        assert (Hevw : events w' = events w ++ evs ++ evs2 ++ waits).
        { unfold events in *. rewrite Hw. simpl. rewrite Hev2, Hev, <- !app_assoc. done. }
        assert (Hnew : new_events w (final_world (complete cmd l' wl))
                       = evs ++ evs2 ++ waits).
        { destruct Hc as [->|(j & _ & ->)]; simpl; by apply new_events_app. }
        rewrite Hnew.
        apply reports_app; [by apply reports_none, setup_no_exec|].
        apply reports_app; [done|by apply reports_none, waitpid_no_exec].
    + assert (Hevl : events wl = events w ++ evs ++ evs2)
        by (by rewrite Hev2, Hev, <- !app_assoc).
      rewrite (new_events_app _ _ _ Hevl).
      apply reports_app; [by apply reports_none, setup_no_exec|done].
Qed.

(** No [kill] is sent while a command is set up and waited for. *)
Lemma RunCommand_no_kill pr cmd w e :
  e ∈ new_events w (final_world (RunCommand E pr cmd w)) → ¬ kill_event e.
Proof.
  destruct (RunCommand_events pr cmd w) as (pre & tail & waits & -> & Hok & Hw & Htail).
  rewrite Forall_forall in Hok. rewrite Forall_forall in Hw.
  intros [Hi|[Hi|Hi]%elem_of_app]%elem_of_app.
  - destruct (Hok _ Hi) as (Hl & _). destruct e; simpl in *; tauto.
  - destruct Htail as [->|((e0 & d & -> & He0 & Hd & _) & _)]; [by apply elem_of_nil in Hi|].
    apply elem_of_cons in Hi as [->|Hi]; [destruct e0; simpl in *; tauto|].
    apply list_elem_of_singleton in Hi as ->. destruct d; simpl in *; tauto.
  - specialize (Hw _ Hi). destruct e; simpl in *; tauto.
Qed.

End Proofs.

(** ** Two runs that differ in one launch *)

Section TwoRuns.
Variable f0 : string.
Variable E E2 : Env.
Hypothesis Hagree : agree_except f0 E E2.

Lemma same_unless_refl q : same_unless f0 q q.
Proof. by repeat split. Qed.

Lemma sim_refl w : sim f0 w w.
Proof.
  repeat split. induction (procs w); constructor; [apply same_unless_refl|done].
Qed.

Lemma uniform_ret {A} (a : A) : uniform f0 (ret a) (ret a).
Proof. intros w1 w2 Hs. by split. Qed.

Lemma uniform_bind {A B} (m1 m2 : M A) (k1 k2 : A → M B) :
  uniform f0 m1 m2 → (∀ a, uniform f0 (k1 a) (k2 a)) →
  uniform f0 (bind m1 k1) (bind m2 k2).
Proof.
  intros Hm Hk w1 w2 Hs. unfold bind. specialize (Hm w1 w2 Hs).
  destruct (m1 w1), (m2 w2); simpl in Hm; try done.
  destruct Hm as [-> Hs']. by apply Hk.
Qed.

Lemma uniform_when b (m1 m2 : M unit) :
  uniform f0 m1 m2 → uniform f0 (when b m1) (when b m2).
Proof. intros Hm. destruct b; [done|apply uniform_ret]. Qed.

Ltac same_step :=
  let Hme := fresh "Hme" in
  let Hp := fresh "Hp" in
  let Hf := fresh "Hf" in
  let Hq := fresh "Hq" in
  intros ? ? (Hme & Hp & Hf & Hq);
  destruct Hagree as (Ho & Hc & Hd & Hpi & Hfk & Hu & Hx);
  unfold procs in Hq;
  cbv [sys_open sys_creat sys_pipe sys_close sys_dup2 sys_signal sys_chdir
       sys_execvp sys_exit sys_write printf fprintf_stderr errno modify
       log upd_me bump_pipes];
  simpl; rewrite ?Hme, ?Hp, ?Hf, ?Ho, ?Hc, ?Hd, ?Hpi, ?Hu;
  repeat case_match; simpl; (split; [done|]); unfold sim, procs; simpl;
  rewrite ?Hme, ?Hp, ?Hf; done.

Lemma uniform_open path : uniform f0 (sys_open E path) (sys_open E2 path).
Proof. same_step. Qed.

Lemma uniform_creat path : uniform f0 (sys_creat E path) (sys_creat E2 path).
Proof. same_step. Qed.

Lemma uniform_pipe : uniform f0 (sys_pipe E) (sys_pipe E2).
Proof. same_step. Qed.

Lemma uniform_close fd : uniform f0 (sys_close fd) (sys_close fd).
Proof. same_step. Qed.

Lemma uniform_dup2 a b : uniform f0 (sys_dup2 a b) (sys_dup2 a b).
Proof. same_step. Qed.

Lemma uniform_signal sig d : uniform f0 (sys_signal sig d) (sys_signal sig d).
Proof. same_step. Qed.

Lemma uniform_chdir path : uniform f0 (sys_chdir E path) (sys_chdir E2 path).
Proof. same_step. Qed.

Lemma uniform_exit {A} code : uniform f0 (@sys_exit A code) (sys_exit code).
Proof. same_step. Qed.

Lemma uniform_write fd text : uniform f0 (sys_write fd text) (sys_write fd text).
Proof. same_step. Qed.

Lemma uniform_errno : uniform f0 errno errno.
Proof. same_step. Qed.

Lemma uniform_execvp file argv :
  file ≠ f0 → uniform f0 (sys_execvp E file argv) (sys_execvp E2 file argv).
Proof.
  intros Hne w1 w2 (Hme & Hp & Hf & Hq).
  destruct Hagree as (_ & _ & _ & _ & _ & _ & Hx).
  unfold sys_execvp. rewrite Hme, (Hx _ _ Hne).
  destruct (env_execvp E2 _ _); simpl; (split; [done|]);
    unfold sim, procs in *; simpl; rewrite ?Hme; done.
Qed.

Lemma uniform_fprintf text : uniform f0 (fprintf_stderr text) (fprintf_stderr text).
Proof. apply uniform_write. Qed.

Lemma uniform_handle_file_error : uniform f0 handle_file_error handle_file_error.
Proof.
  apply uniform_bind; [apply uniform_errno|]. intros e.
  repeat case_match; apply uniform_fprintf.
Qed.

Lemma uniform_handle_directory_error :
  uniform f0 handle_directory_error handle_directory_error.
Proof.
  apply uniform_bind; [apply uniform_errno|]. intros e.
  repeat case_match; apply uniform_fprintf.
Qed.

Lemma uniform_handle_command c :
  pgm_name c ≠ f0 → uniform f0 (handle_command E c) (handle_command E2 c).
Proof.
  intros Hne. apply uniform_bind; [by apply uniform_execvp|]. intros _.
  apply uniform_bind; [apply uniform_errno|]. intros e.
  case_match; apply uniform_fprintf.
Qed.

Lemma uniform_close_ret fd :
  uniform f0 (sys_close fd ;; ret tt) (sys_close fd ;; ret tt).
Proof. apply uniform_bind; [apply uniform_close|]. intros _. apply uniform_ret. Qed.

Lemma uniform_dup2_close a b :
  uniform f0 (sys_dup2 a b ;; sys_close a ;; ret tt)
             (sys_dup2 a b ;; sys_close a ;; ret tt).
Proof. apply uniform_bind; [apply uniform_dup2|]. intros _. apply uniform_close_ret. Qed.

Lemma uniform_child_branch c ol pd l :
  pgm_name c ≠ f0 →
  uniform f0 (child_branch E c ol pd l) (child_branch E2 c ol pd l).
Proof.
  intros Hne. unfold child_branch.
  apply uniform_bind; [apply uniform_signal|]. intros _.
  apply uniform_bind; [apply uniform_when, uniform_close_ret|]. intros _.
  apply uniform_bind; [apply uniform_when, uniform_dup2_close|]. intros _.
  apply uniform_bind; [apply uniform_when, uniform_dup2_close|]. intros _.
  apply uniform_bind; [by apply uniform_handle_command|]. intros _.
  apply uniform_exit.
Qed.

(** A child leaves the process table and the counters of the kernel alone. *)
Lemma child_branch_quiet E0 c ol pd l w :
  let w' := final_world (child_branch E0 c ol pd l w) in
  procs w' = procs w ∧ k_pipes (kern w') = k_pipes (kern w) ∧
  k_forks (kern w') = k_forks (kern w) ∧ ps_pid (me w') = ps_pid (me w).
Proof.
  destruct (child_branch_spec E0 c ol pd l w)
    as (tgt & w1 & Hc & Hp & _ & Hpid & _ & _ & _ & Hkp & Hkf).
  simpl. rewrite Hc. done.
Qed.

Lemma uniform_fork c ol pd l :
  uniform f0 (sys_fork E (pgmlist c) (child_branch E c ol pd l))
             (sys_fork E2 (pgmlist c) (child_branch E2 c ol pd l)).
Proof.
  intros w1 w2 Hs. pose proof Hs as (Hme & Hp & Hf & Hq).
  destruct Hagree as (_ & _ & _ & _ & Hfk & _ & _).
  unfold sys_fork. rewrite Hme, Hf, Hfk.
  set (r := env_fork E2 (k_forks (kern w2))).
  destruct (0 <? r) eqn:Hr.
  - set (s1 := upd_me (set_pid r) (log (EvFork (ps_pid (me w2)) r) (bump_forks w1))).
    set (s2 := upd_me (set_pid r) (log (EvFork (ps_pid (me w2)) r) (bump_forks w2))).
    assert (Hss : sim f0 s1 s2).
    { unfold sim, procs in *. subst s1 s2. simpl. rewrite Hme, Hp, Hf. done. }
    destruct (child_branch_quiet E c ol pd l s1) as (Q1 & Q2 & Q3 & Q4).
    destruct (child_branch_quiet E2 c ol pd l s2) as (R1 & R2 & R3 & R4).
    pose proof Hss as (Sme & Sp & Sf & Sq).
    simpl. split; [done|]. unfold sim, procs in *. simpl.
    split_and!; [done|congruence|congruence|].
    rewrite Q1, R1. apply Forall2_app; [done|]. constructor; [|constructor].
    split_and!; [done|unfold p_pid; simpl; congruence|]. simpl. intros Hne.
    assert (Hn : pgm_name c ≠ f0) by congruence.
    pose proof (uniform_child_branch c ol pd l Hn s1 s2 Hss) as Hu.
    destruct (child_branch E c ol pd l s1), (child_branch E2 c ol pd l s2);
      simpl in Hu; try done; destruct Hu as (-> & Hme' & _); simpl;
      unfold proc_view; simpl; by rewrite Hme'.
  - simpl. split; [done|]. unfold sim, procs in *. simpl. rewrite Hme, Hp, Hf. done.
Qed.

Lemma uniform_run_stage c ol pd l :
  uniform f0 (run_stage E c ol pd l) (run_stage E2 c ol pd l).
Proof.
  unfold run_stage. apply uniform_bind; [|intros l1; apply uniform_ret].
  destruct (String.eqb "exit" (pgm_name c)); [apply uniform_exit|].
  destruct (String.eqb "cd" (pgm_name c)).
  - apply uniform_bind; [apply uniform_chdir|]. intros status.
    apply uniform_bind; [apply uniform_when, uniform_handle_directory_error|].
    intros _. apply uniform_ret.
  - apply uniform_bind; [apply uniform_fork|]. intros child.
    apply uniform_bind; [apply uniform_when, uniform_close_ret|]. intros _.
    apply uniform_bind; [apply uniform_when, uniform_close_ret|]. intros _.
    apply uniform_ret.
Qed.

Lemma uniform_stage c ol l : uniform f0 (stage E c ol l) (stage E2 c ol l).
Proof.
  unfold stage. destruct Hagree as (_ & _ & _ & _ & _ & Hu & _).
  destruct (negb ol).
  - apply uniform_bind; [apply uniform_pipe|]. intros r.
    destruct (r.1 =? -1).
    + apply uniform_bind; [apply uniform_fprintf|]. intros _.
      apply uniform_bind; [apply uniform_when, uniform_close_ret|]. intros _.
      apply uniform_ret.
    + apply uniform_bind; [apply uniform_run_stage|]. intros l'. apply uniform_ret.
  - rewrite Hu. apply uniform_bind; [apply uniform_run_stage|]. intros l'.
    apply uniform_ret.
Qed.

Lemma uniform_launch p : ∀ l, uniform f0 (launch E p l) (launch E2 p l).
Proof.
  induction p as [|c next IH]; intros l; simpl; [apply uniform_ret|].
  apply uniform_bind; [apply uniform_stage|]. intros r.
  destruct (r.1); [apply IH|apply uniform_ret].
Qed.

Lemma uniform_redirect_input cmd :
  uniform f0 (redirect_input E cmd) (redirect_input E2 cmd).
Proof.
  unfold redirect_input. destruct (rstdin cmd); [|apply uniform_ret].
  apply uniform_bind; [apply uniform_open|]. intros input.
  destruct (input =? -1); [|apply uniform_ret].
  apply uniform_bind; [apply uniform_handle_file_error|]. intros _. apply uniform_ret.
Qed.

Lemma uniform_redirect_output cmd li :
  uniform f0 (redirect_output E cmd li) (redirect_output E2 cmd li).
Proof.
  unfold redirect_output. destruct (rstdout cmd); [|apply uniform_ret].
  apply uniform_bind; [apply uniform_creat|]. intros out.
  destruct (out =? -1); [|apply uniform_ret].
  apply uniform_bind; [apply uniform_handle_file_error|]. intros _.
  apply uniform_bind; [apply uniform_when, uniform_close_ret|]. intros _.
  apply uniform_ret.
Qed.

Lemma malloc_agree n : malloc E n = malloc E2 n.
Proof. unfold malloc. destruct Hagree as (_ & _ & _ & _ & _ & -> & _). done. Qed.

Lemma same_unless_view l1 : ∀ l1' l2 l2',
  map proc_view l1' = map proc_view l1 → map proc_view l2' = map proc_view l2 →
  Forall2 (same_unless f0) l1 l2 → Forall2 (same_unless f0) l1' l2'.
Proof.
  induction l1 as [|q1 l1 IH]; intros l1' l2 l2' H1 H2 HF; inversion HF; subst;
    destruct l1' as [|q1' l1']; destruct l2' as [|q2' l2']; simpl in *; try done.
  injection H1 as Ea1 Es1 Et1 Hl1. injection H2 as Ea2 Es2 Et2 Hl2.
  constructor; [|by eapply IH].
  match goal with H : same_unless _ _ _ |- _ => destruct H as (Ha & Hp & Hv) end.
  split_and!; [congruence|unfold p_pid in *; by rewrite Es1, Es2|].
  rewrite Ea1. intros Hne. specialize (Hv Hne). unfold proc_view in *.
  rewrite Ea1, Es1, Et1, Ea2, Es2, Et2. exact Hv.
Qed.

Lemma complete_view cmd l w :
  map proc_view (procs (final_world (complete cmd l w))) = map proc_view (procs w).
Proof.
  pose proof (complete_spec cmd l w) as H. destruct (background cmd).
  - by rewrite H.
  - destruct H as (w' & (Hv & _) & [->|(j & _ & ->)]); unfold procs in *; simpl;
      by rewrite Hv.
Qed.

(** The two runs of a command leave the same children behind, but for those
    whose program is [f0]. *)
Lemma RunCommand_siblings pr cmd w1 w2 :
  sim f0 w1 w2 →
  Forall2 (same_unless f0) (procs (final_world (RunCommand E pr cmd w1)))
                           (procs (final_world (RunCommand E2 pr cmd w2))).
Proof.
  intros Hs. unfold RunCommand. unfold bind at 1 4.
  pose proof (uniform_redirect_input cmd w1 w2 Hs) as Hi.
  destruct (redirect_input E cmd w1) as [i1 wi1|s1 wi1],
           (redirect_input E2 cmd w2) as [i2 wi2|s2 wi2]; simpl in Hi; try done;
    destruct Hi as (-> & Hsi); [|simpl; apply Hsi].
  destruct i2 as [li|]; [|simpl; apply Hsi].
  unfold bind at 1 3.
  pose proof (uniform_redirect_output cmd li wi1 wi2 Hsi) as Ho.
  destruct (redirect_output E cmd li wi1) as [o1 wo1|s1 wo1],
           (redirect_output E2 cmd li wi2) as [o2 wo2|s2 wo2]; simpl in Ho; try done;
    destruct Ho as (-> & Hso); [|simpl; apply Hso].
  destruct o2 as [co|]; [|simpl; apply Hso].
  unfold bind. rewrite malloc_agree.
  set (l0 := mkLocals _ _ _ _ _ _).
  pose proof (uniform_launch (pgm cmd) l0 wo1 wo2 Hso) as Hl.
  destruct (launch E (pgm cmd) l0 wo1) as [l1 wl1|s1 wl1],
           (launch E2 (pgm cmd) l0 wo2) as [l2 wl2|s2 wl2]; simpl in Hl; try done;
    destruct Hl as (-> & Hsl); [|simpl; apply Hsl].
  eapply same_unless_view; [apply complete_view|apply complete_view|apply Hsl].
Qed.

Lemma RunCommand_spawned_siblings pr cmd w :
  Forall2 (same_unless f0) (spawned w (final_world (RunCommand E pr cmd w)))
                           (spawned w (final_world (RunCommand E2 pr cmd w))).
Proof.
  unfold spawned. apply Forall2_drop, RunCommand_siblings, sim_refl.
Qed.

End TwoRuns.

(** C2, as the code has it.  A child whose [execvp] fails writes the launch
    error ([Could not find executable] for [ENOENT], [Failed to execute]
    otherwise) on descriptor 2, which in the child still refers to what the
    interpreter's own standard error refers to and not to the pipe or file its
    standard output was redirected to, and then ends by [exit(0)]: with
    status 0.  The other children are left alone: no child of the command is
    killed, the interpreter sends no signal, and had the program [f0] of the
    failing stage been launched instead, the children for the other stages
    would be the same processes in the same state. *)
Theorem failed_launch_reported_then_exit_zero (E : Env) pr cmd w :
  std_open (ps_fds (me w)) →
  reports_launch_failures (fd_get (ps_fds (me w)) STDERR_FILENO)
    (new_events w (final_world (RunCommand E pr cmd w))) ∧
  Forall not_killed (spawned w (final_world (RunCommand E pr cmd w))) ∧
  (∀ e, e ∈ new_events w (final_world (RunCommand E pr cmd w)) → ¬ kill_event e) ∧
  (∀ f0 E2, agree_except f0 E E2 →
     Forall2 (same_unless f0)
       (spawned w (final_world (RunCommand E pr cmd w)))
       (spawned w (final_world (RunCommand E2 pr cmd w)))).
Proof.
  intros Hstd. split; [by apply RunCommand_reports|].
  split; [apply RunCommand_not_killed|].
  split; [intros e; apply RunCommand_no_kill|].
  intros f0 E2 Hagree. by apply RunCommand_spawned_siblings.
Qed.





(** * More of the interpreter

    What the functions of [lsh.c] around [RunCommand] do, and what
    [RunCommand] does at its edges. *)

(** ** [stripwhite] *)

Lemma to_int_small z : -2147483648 ≤ z ≤ INT_MAX → to_int z = z.
Proof.
  unfold to_int, INT_MAX. intros H.
  rewrite Z.mod_small; lia.
Qed.

Lemma is_nul_true c : is_nul c = true → c = NUL.
Proof. unfold is_nul. apply Ascii.eqb_eq. Qed.

Lemma is_nul_NUL : is_nul NUL = true.
Proof. reflexivity. Qed.

Lemma isspace_not_nul c : isspace c = true → is_nul c = false.
Proof.
  intros H. destruct (is_nul c) eqn:Hn; [|done].
  apply is_nul_true in Hn. subst. discriminate.
Qed.

Lemma blank_no_nul l : blank l → no_nul l.
Proof. intros H. eapply Forall_impl; [exact H|]. intros c. apply isspace_not_nul. Qed.

Lemma char_at_app_r (pre rest : list ascii) :
  char_at (pre ++ rest) (Z.of_nat (length pre)) = head rest.
Proof.
  unfold char_at. destruct (Z.of_nat (length pre) <? 0) eqn:H;
    [apply Z.ltb_lt in H; lia|].
  rewrite Nat2Z.id, lookup_app_r by lia. rewrite Nat.sub_diag. by destruct rest.
Qed.

Lemma skip_leading_spec sp : ∀ pre c rest fuel,
  blank sp → isspace c = false → (length sp < fuel)%nat →
  Z.of_nat (length (pre ++ sp)) ≤ INT_MAX →
  skip_leading fuel (pre ++ sp ++ c :: rest) (Z.of_nat (length pre))
  = Some (Z.of_nat (length (pre ++ sp))).
Proof.
  induction sp as [|s sp IH]; intros pre c rest fuel Hb Hc Hf Hmax.
  - destruct fuel; [simpl in Hf; lia|]. simpl. rewrite char_at_app_r. simpl.
    rewrite Hc. by rewrite app_nil_r.
  - destruct fuel; [simpl in Hf; lia|]. simpl. rewrite char_at_app_r. simpl.
    inversion Hb; subst. rewrite H1.
    rewrite length_app in Hmax. simpl in Hmax.
    rewrite to_int_small by (unfold INT_MAX in *; lia).
    replace (Z.of_nat (length pre) + 1) with (Z.of_nat (length (pre ++ [s])))
      by (rewrite length_app; simpl; lia).
    replace (pre ++ s :: sp ++ c :: rest) with ((pre ++ [s]) ++ sp ++ c :: rest)
      by (by rewrite <- app_assoc).
    rewrite IH; [|done|done|simpl in Hf; lia|rewrite !length_app in *; simpl in *; lia].
    by rewrite <- app_assoc.
Qed.

Lemma strlen_app w t : no_nul w → strlen (w ++ NUL :: t) = Some (length w).
Proof.
  induction 1 as [|c w Hc Hw IH]; simpl; [done|]. by rewrite Hc, IH.
Qed.

Lemma strlen_split s n :
  strlen s = Some n → ∃ w t, s = w ++ NUL :: t ∧ no_nul w ∧ length w = n.
Proof.
  revert n. induction s as [|c s IH]; intros n; simpl; [done|].
  destruct (is_nul c) eqn:Hc.
  - intros [= <-]. apply is_nul_true in Hc. subst. exists [], s.
    split; [done|]. split; [constructor|done].
  - destruct (strlen s) as [m|] eqn:Hs; simpl; [|done]. intros [= <-].
    destruct (IH m eq_refl) as (w & t & Hs' & Hw & Hl). subst s m.
    exists (c :: w), t. split; [done|]. split; [by constructor|done].
Qed.

Lemma strlen_None s : strlen s = None → no_nul s.
Proof.
  induction s as [|c s IH]; simpl; [constructor|].
  destruct (is_nul c) eqn:Hc; [done|].
  destruct (strlen s); simpl; [done|]. intros _. constructor; [done|by apply IH].
Qed.

Lemma c_str_app w t : no_nul w → c_str (w ++ NUL :: t) = w.
Proof. induction 1 as [|c w Hc Hw IH]; simpl; [done|]. by rewrite Hc, IH. Qed.

Lemma copy_bytes_spec w : ∀ fuel mem dest src t,
  drop src mem = w ++ NUL :: t → no_nul w → (dest ≤ src)%nat →
  (length w < fuel)%nat →
  copy_bytes fuel mem dest src
  = Some (take dest mem ++ w ++ NUL :: drop (dest + length w + 1) mem).
Proof.
  induction w as [|c w IH]; intros fuel mem dest src t Hd Hw Hle Hf.
  - destruct fuel; [simpl in Hf; lia|]. simpl.
    assert (Hs : mem !! src = Some NUL).
    { rewrite <- (Nat.add_0_r src), <- lookup_drop, Hd. done. }
    rewrite Hs. apply lookup_lt_Some in Hs.
    destruct (dest <? length mem)%nat eqn:Hlt; [|apply Nat.ltb_ge in Hlt; lia].
    simpl. f_equal. apply Nat.ltb_lt in Hlt.
    rewrite insert_take_drop by done. by rewrite Nat.add_0_r, Nat.add_1_r.
  - destruct fuel; [simpl in Hf; lia|]. simpl.
    assert (Hs : mem !! src = Some c).
    { rewrite <- (Nat.add_0_r src), <- lookup_drop, Hd. done. }
    rewrite Hs. apply lookup_lt_Some in Hs.
    destruct (dest <? length mem)%nat eqn:Hlt; [|apply Nat.ltb_ge in Hlt; lia].
    apply Nat.ltb_lt in Hlt. inversion Hw; subst. rewrite H1.
    rewrite (IH fuel (<[dest:=c]> mem) (S dest) (S src) t); [|..|done|lia|simpl in Hf; lia].
    + f_equal. rewrite drop_insert_lt by lia.
      rewrite (take_S_r _ _ c) by (by rewrite list_lookup_insert_eq).
      rewrite take_insert_ge by lia.
      rewrite <- app_assoc.
      replace (S dest + length w + 1)%nat with (dest + S (length w) + 1)%nat by lia.
      done.
    + rewrite drop_insert_lt by lia.
      replace (S src) with (src + 1)%nat by lia.
      rewrite <- (drop_drop mem 1 src), Hd. done.
Qed.

(** A string moved to the front of the buffer from behind its own end. *)
Lemma strcpy_spec w mem src t :
  drop src mem = w ++ NUL :: t → no_nul w → (length w < src)%nat →
  strcpy mem 0 src = Some (w ++ NUL :: drop (length w + 1) mem).
Proof.
  intros Hd Hw Hlt. unfold strcpy. rewrite Hd, (strlen_app w t Hw).
  cbn [mbind option_bind].
  destruct ((0 <? src + S (length w))%nat && (src <? 0 + S (length w))%nat) eqn:Ho.
  - apply andb_true_iff in Ho as [_ Ho]. apply Nat.ltb_lt in Ho. lia.
  - by rewrite (copy_bytes_spec w _ mem 0 src t) by (done || lia).
Qed.

Lemma strcpy_overlap w mem src t :
  drop src mem = w ++ NUL :: t → no_nul w → (0 < src ≤ length w)%nat →
  strcpy mem 0 src = None.
Proof.
  intros Hd Hw Hlt. unfold strcpy. rewrite Hd, (strlen_app w t Hw).
  cbn [mbind option_bind].
  destruct ((0 <? src + S (length w))%nat && (src <? 0 + S (length w))%nat) eqn:Ho;
    [done|].
  apply andb_false_iff in Ho as [Ho|Ho]; apply Nat.ltb_ge in Ho; lia.
Qed.

Lemma char_at_last (core rest : list ascii) :
  core ≠ [] → char_at (core ++ rest) (Z.of_nat (length core) - 1) = last core.
Proof.
  intros Hne. destruct (exists_last Hne) as (l & x & ->).
  rewrite last_snoc, length_app. simpl.
  replace (Z.of_nat (length l + 1) - 1) with (Z.of_nat (length l)) by lia.
  rewrite <- app_assoc. by rewrite char_at_app_r.
Qed.

Lemma skip_trailing_spec tsp : ∀ core rest fuel,
  blank tsp → core ≠ [] → (∀ c, last core = Some c → isspace c = false) →
  (length tsp < fuel)%nat → Z.of_nat (length (core ++ tsp)) - 1 ≤ INT_MAX →
  skip_trailing fuel (core ++ tsp ++ rest) (Z.of_nat (length (core ++ tsp)) - 1)
  = Some (Z.of_nat (length core) - 1).
Proof.
  induction tsp as [|s tsp IH] using rev_ind; intros core rest fuel Hb Hne Hl Hf Hmax.
  - destruct fuel; [simpl in Hf; lia|]. rewrite app_nil_r. simpl.
    destruct (0 <? Z.of_nat (length core) - 1) eqn:Hpos; [|done].
    rewrite char_at_last by done.
    destruct (exists_last Hne) as (l & x & ->). rewrite last_snoc.
    by rewrite (Hl x) by apply last_snoc.
  - destruct fuel; [simpl in Hf; lia|].
    assert (Hc : (0 < length core)%nat) by (destruct core; [done|simpl; lia]).
    rewrite !length_app in *. simpl in *.
    apply Forall_app in Hb as [Hb Hs]. inversion Hs; subst.
    cbn [skip_trailing].
    destruct (0 <? Z.of_nat (length core + (length tsp + 1)) - 1) eqn:Hpos;
      [|apply Z.ltb_ge in Hpos; lia].
    replace (Z.of_nat (length core + (length tsp + 1)) - 1)
      with (Z.of_nat (length (core ++ tsp))) by (rewrite length_app; lia).
    replace (core ++ (tsp ++ [s]) ++ rest) with ((core ++ tsp) ++ s :: rest)
      by (by rewrite <- !app_assoc).
    rewrite char_at_app_r. simpl. rewrite H1.
    rewrite to_int_small by (rewrite length_app; unfold INT_MAX in *; lia).
    rewrite <- app_assoc.
    apply IH; [done|done|done|lia|rewrite length_app; lia].
Qed.

Lemma skip_leading_line sp core tsp tail :
  blank sp → (core = [] → tsp = []) →
  (∀ c, head core = Some c → isspace c = false) →
  Z.of_nat (length (sp ++ core ++ tsp)) ≤ INT_MAX →
  skip_leading (S (length (sp ++ core ++ tsp ++ NUL :: tail)))
               (sp ++ core ++ tsp ++ NUL :: tail) 0
  = Some (Z.of_nat (length sp)).
Proof.
  intros Hsp Hempty Hhead Hmax. rewrite !length_app in Hmax.
  assert (∃ c rest, core ++ tsp ++ NUL :: tail = c :: rest ∧ isspace c = false)
    as (c & rest & Heq & Hc).
  { destruct core as [|c core]; [rewrite Hempty by done; by exists NUL, tail|].
    exists c, (core ++ tsp ++ NUL :: tail). split; [done|]. by apply Hhead. }
  rewrite Heq.
  rewrite (skip_leading_spec sp [] c rest); [done|done|done| |simpl; lia].
  rewrite length_app. simpl. lia.
Qed.

(** The buffer [stripwhite] leaves: the string moved to the front, cut after
    its last character that is not white space. *)
Lemma stripwhite_spec sp core tsp tail :
  blank sp → blank tsp → no_nul core → (core = [] → tsp = []) →
  (∀ c, head core = Some c → isspace c = false) →
  (∀ c, last core = Some c → isspace c = false) →
  Z.of_nat (length (sp ++ core ++ tsp)) ≤ INT_MAX →
  sp = [] ∨ (length (core ++ tsp) < length sp)%nat →
  stripwhite (sp ++ core ++ tsp ++ NUL :: tail)
  = Some (<[length core:=NUL]>
            (core ++ tsp ++ NUL :: drop (length (core ++ tsp) + 1)
                                        (sp ++ core ++ tsp ++ NUL :: tail))).
Proof.
  intros Hsp Htsp Hcore Hempty Hhead Hlast Hmax Hfar.
  pose proof (skip_leading_line sp core tsp tail Hsp Hempty Hhead Hmax) as H1.
  set (string := sp ++ core ++ tsp ++ NUL :: tail) in *.
  assert (Hw : no_nul (core ++ tsp)).
  { apply Forall_app. split; [done|by apply blank_no_nul]. }
  rewrite !length_app in Hmax.
  unfold stripwhite.
  rewrite H1. cbn [mbind option_bind].
  set (B := core ++ tsp ++ NUL :: drop (length (core ++ tsp) + 1) string).
  assert (H2 : (if Z.of_nat (length sp) =? 0 then Some string
                else strcpy string 0 (Z.to_nat (Z.of_nat (length sp))))
               = Some B).
  { destruct (Z.of_nat (length sp) =? 0) eqn:H0.
    - apply Z.eqb_eq in H0. destruct sp; [|simpl in H0; lia].
      subst B string. simpl.
      replace (drop (length (core ++ tsp) + 1) (core ++ tsp ++ NUL :: tail)) with tail;
        [done|].
      replace (core ++ tsp ++ NUL :: tail) with ((core ++ tsp ++ [NUL]) ++ tail)
        by (by rewrite <- !app_assoc).
      symmetry. apply drop_app_length'. rewrite !length_app. simpl. lia.
    - rewrite Nat2Z.id.
      destruct Hfar as [->|Hfar]; [done|].
      rewrite (strcpy_spec (core ++ tsp) string (length sp) tail).
      + subst B. by rewrite <- app_assoc.
      + subst string. rewrite drop_app_length. by rewrite <- app_assoc.
      + done.
      + done. }
  rewrite H2. cbn [mbind option_bind].
  assert (H3 : strlen B = Some (length (core ++ tsp))).
  { subst B. rewrite app_assoc. by apply strlen_app. }
  rewrite H3. cbn [mbind option_bind]. rewrite length_app.
  rewrite to_int_small by (unfold INT_MAX in *; lia).
  assert (H4 : skip_trailing
                 (S (Z.to_nat (Z.of_nat (length core + length tsp) - 1))) B
                 (Z.of_nat (length core + length tsp) - 1)
               = Some (Z.of_nat (length core) - 1)).
  { destruct core as [|c0 core].
    - rewrite Hempty by done. done.
    - subst B. rewrite <- length_app.
      apply skip_trailing_spec; [done|done|done| |rewrite length_app; lia].
      rewrite length_app. simpl. lia. }
  rewrite H4. cbn [mbind option_bind].
  rewrite to_int_small by (unfold INT_MAX in *; lia).
  replace (Z.of_nat (length core) - 1 + 1) with (Z.of_nat (length core)) by lia.
  assert (HB : (length core < length B)%nat).
  { subst B. rewrite !length_app. simpl. lia. }
  destruct (0 <=? Z.of_nat (length core)) eqn:Ha; [|apply Z.leb_gt in Ha; lia].
  destruct (Z.of_nat (length core) <? Z.of_nat (length B)) eqn:Hb;
    [|apply Z.ltb_ge in Hb; lia].
  simpl. by rewrite Nat2Z.id.
Qed.

(** The string begins inside the area it is moved to. *)
Lemma stripwhite_overlap sp core tsp tail :
  blank sp → blank tsp → no_nul core → (core = [] → tsp = []) →
  (∀ c, head core = Some c → isspace c = false) →
  Z.of_nat (length (sp ++ core ++ tsp)) ≤ INT_MAX →
  (0 < length sp ≤ length (core ++ tsp))%nat →
  stripwhite (sp ++ core ++ tsp ++ NUL :: tail) = None.
Proof.
  intros Hsp Htsp Hcore Hempty Hhead Hmax Hnear.
  pose proof (skip_leading_line sp core tsp tail Hsp Hempty Hhead Hmax) as H1.
  set (string := sp ++ core ++ tsp ++ NUL :: tail) in *.
  assert (Hw : no_nul (core ++ tsp)).
  { apply Forall_app. split; [done|by apply blank_no_nul]. }
  unfold stripwhite. rewrite H1. cbn [mbind option_bind].
  destruct (Z.of_nat (length sp) =? 0) eqn:H0; [apply Z.eqb_eq in H0; lia|].
  rewrite Nat2Z.id.
  rewrite (strcpy_overlap (core ++ tsp) string (length sp) tail); [done| |done|done].
  subst string. rewrite drop_app_length. by rewrite <- app_assoc.
Qed.

Lemma leading_blanks_app sp r :
  blank sp → (∀ c, head r = Some c → isspace c = false) →
  leading_blanks (sp ++ r) = length sp.
Proof.
  intros Hsp Hr. induction Hsp as [|c sp Hc Hsp IH]; simpl.
  - destruct r as [|c r]; [done|]. simpl. by rewrite (Hr c).
  - by rewrite Hc, IH.
Qed.

Lemma copy_overlaps_line sp core tsp tail :
  blank sp → blank tsp → no_nul core → (core = [] → tsp = []) →
  (∀ c, head core = Some c → isspace c = false) →
  copy_overlaps (sp ++ core ++ tsp ++ NUL :: tail)
  = (0 <? length sp)%nat && (length sp <=? length (core ++ tsp))%nat.
Proof.
  intros Hsp Htsp Hcore Hempty Hhead. unfold copy_overlaps.
  replace (sp ++ core ++ tsp ++ NUL :: tail) with ((sp ++ core ++ tsp) ++ NUL :: tail)
    by (by rewrite <- !app_assoc).
  rewrite c_str_app.
  2:{ apply Forall_app. split; [by apply blank_no_nul|].
      apply Forall_app. split; [done|by apply blank_no_nul]. }
  rewrite leading_blanks_app; [|done|].
  2:{ intros c. destruct core as [|c0 core]; [rewrite Hempty by done; done|].
      simpl. apply Hhead. }
  cbv zeta. f_equal. rewrite !length_app.
  destruct (length sp <=? length core + length tsp)%nat eqn:H.
  - apply Nat.leb_le in H. apply Nat.leb_le. lia.
  - apply Nat.leb_gt in H. apply Nat.leb_gt. lia.
Qed.

Lemma lead_split (w : list ascii) :
  ∃ sp r, w = sp ++ r ∧ blank sp ∧ ∀ c, head r = Some c → isspace c = false.
Proof.
  induction w as [|x w (sp & r & -> & Hb & Hh)].
  - exists [], []. split; [done|]. split; [constructor|done].
  - destruct (isspace x) eqn:Hx.
    + exists (x :: sp), r. split; [done|]. split; [by constructor|done].
    + exists [], (x :: sp ++ r). split; [done|]. split; [constructor|].
      simpl. by intros c [= <-].
Qed.

Lemma trail_split (r : list ascii) :
  ∃ core tsp, r = core ++ tsp ∧ blank tsp ∧ ∀ c, last core = Some c → isspace c = false.
Proof.
  induction r as [|x r (core & tsp & -> & Hb & Hl)] using rev_ind.
  - exists [], []. split; [done|]. split; [constructor|done].
  - destruct (isspace x) eqn:Hx.
    + exists core, (tsp ++ [x]). split; [by rewrite app_assoc|].
      split; [|done]. apply Forall_app. split; [done|by repeat constructor].
    + exists ((core ++ tsp) ++ [x]), []. split; [by rewrite app_nil_r|].
      split; [constructor|]. intros c. rewrite last_snoc. by intros [= <-].
Qed.

(** A terminated buffer, cut into leading white space, the string proper,
    trailing white space, the terminator and what follows it. *)
Lemma strlen_decompose s n :
  strlen s = Some n →
  ∃ sp core tsp tail,
    s = sp ++ core ++ tsp ++ NUL :: tail ∧
    blank sp ∧ blank tsp ∧ no_nul core ∧ (core = [] → tsp = []) ∧
    (∀ c, head core = Some c → isspace c = false) ∧
    (∀ c, last core = Some c → isspace c = false) ∧
    n = length (sp ++ core ++ tsp).
Proof.
  intros Hn. destruct (strlen_split s n Hn) as (w & tail & -> & Hw & <-).
  destruct (lead_split w) as (sp & r & -> & Hsp & Hh).
  destruct (trail_split r) as (core & tsp & -> & Htsp & Hl).
  apply Forall_app in Hw as [_ Hw]. apply Forall_app in Hw as [Hcore _].
  exists sp, core, tsp, tail. rewrite <- !app_assoc.
  split_and!; [done|done|done|done| | |done|done].
  - intros ->. simpl in Hh. destruct tsp as [|x tsp]; [done|].
    inversion Htsp; subst. specialize (Hh x eq_refl). congruence.
  - intros c Hc. apply Hh. rewrite head_app. by rewrite Hc.
Qed.

Lemma insert_after (core : list ascii) x X c :
  <[length core:=c]> (core ++ x :: X) = core ++ c :: X.
Proof. induction core as [|y core IH]; simpl; [done|]. by rewrite IH. Qed.

Lemma stripwhite_result sp core tsp tail :
  blank sp → blank tsp → no_nul core → (core = [] → tsp = []) →
  (∀ c, head core = Some c → isspace c = false) →
  (∀ c, last core = Some c → isspace c = false) →
  Z.of_nat (length (sp ++ core ++ tsp)) ≤ INT_MAX →
  sp = [] ∨ (length (core ++ tsp) < length sp)%nat →
  let s := sp ++ core ++ tsp ++ NUL :: tail in
  ∃ R, stripwhite s = Some (core ++ NUL :: R) ∧
       length (core ++ NUL :: R) = length s ∧
       drop (S (length (sp ++ core ++ tsp))) (core ++ NUL :: R)
       = drop (S (length (sp ++ core ++ tsp))) s.
Proof.
  intros Hsp Htsp Hcore He Hh Hl Hmax Hfar s.
  pose proof (stripwhite_spec sp core tsp tail Hsp Htsp Hcore He Hh Hl Hmax Hfar) as Hs.
  fold s in Hs.
  set (T := drop (length (core ++ tsp) + 1) s) in *.
  assert (HT : length T = (length sp + length tail)%nat).
  { subst T s. rewrite length_drop, !length_app. simpl. lia. }
  exists (drop 1 (tsp ++ [NUL]) ++ T).
  assert (Hx : tsp ++ NUL :: T = (tsp ++ [NUL]) ++ T) by (by rewrite <- app_assoc).
  assert (∃ x X, tsp ++ [NUL] = x :: X) as (x & X & HxX).
  { destruct tsp; simpl; eauto. }
  rewrite Hs, Hx, HxX. simpl. rewrite drop_0, insert_after. split; [done|].
  assert (HX : length X = length tsp).
  { apply (f_equal length) in HxX. rewrite length_app in HxX. simpl in HxX. lia. }
  split.
  - subst s. rewrite !length_app. simpl. rewrite !length_app. simpl. lia.
  - replace (core ++ NUL :: X ++ T) with ((core ++ NUL :: X) ++ T)
      by (by rewrite <- app_assoc).
    rewrite drop_app_ge by (rewrite !length_app; simpl; lia).
    subst T. rewrite drop_drop. f_equal.
    rewrite !length_app. simpl. lia.
Qed.

Lemma c_str_core core R : no_nul core → c_str (core ++ NUL :: R) = core.
Proof. apply c_str_app. Qed.

(** What [stripwhite] does to a line: nothing that C defines when the copy
    overlaps, and otherwise the string proper at the front of the buffer. *)
Lemma stripwhite_cases s n :
  strlen s = Some n → Z.of_nat n ≤ INT_MAX →
  ∃ sp core tsp tail,
    s = sp ++ core ++ tsp ++ NUL :: tail ∧
    blank sp ∧ blank tsp ∧ no_nul core ∧ (core = [] → tsp = []) ∧
    (∀ c, head core = Some c → isspace c = false) ∧
    (∀ c, last core = Some c → isspace c = false) ∧
    n = length (sp ++ core ++ tsp) ∧
    ((copy_overlaps s = true ∧ stripwhite s = None) ∨
     (copy_overlaps s = false ∧
      ∃ R, stripwhite s = Some (core ++ NUL :: R) ∧
           length (core ++ NUL :: R) = length s ∧
           drop (S n) (core ++ NUL :: R) = drop (S n) s)).
Proof.
  intros Hn Hmax.
  destruct (strlen_decompose s n Hn)
    as (sp & core & tsp & tail & -> & Hsp & Htsp & Hcore & He & Hh & Hl & ->).
  exists sp, core, tsp, tail. split_and!; try done.
  rewrite (copy_overlaps_line sp core tsp tail) by done.
  destruct (0 <? length sp)%nat eqn:H0; cbn [andb].
  - apply Nat.ltb_lt in H0.
    destruct (length sp <=? length (core ++ tsp))%nat eqn:H1.
    + apply Nat.leb_le in H1. left. split; [done|].
      by apply stripwhite_overlap.
    + apply Nat.leb_gt in H1. right. split; [done|].
      apply stripwhite_result; try done. by right.
  - apply Nat.ltb_ge in H0. right. split; [done|].
    apply stripwhite_result; try done. left. destruct sp; [done|simpl in H0; lia].
Qed.

(** X1.  [stripwhite] on a buffer that holds a terminated string.  When the
    string begins with white space and has at least as many characters
    after it, [strcpy] is called on areas that overlap, which C leaves
    undefined.  In every other case the function reads and writes no cell
    outside the buffer, leaves the buffer as long as it was, with a string
    in it that is no longer than before, and does not touch what follows the
    terminator it found. *)
Theorem stripwhite_stays_in_string s n :
  strlen s = Some n → Z.of_nat n ≤ INT_MAX →
  (copy_overlaps s = true → stripwhite s = None) ∧
  (copy_overlaps s = false →
   ∃ s' m, stripwhite s = Some s' ∧ length s' = length s ∧
           strlen s' = Some m ∧ (m ≤ n)%nat ∧
           drop (S n) s' = drop (S n) s).
Proof.
  intros Hn Hmax.
  destruct (stripwhite_cases s n Hn Hmax)
    as (sp & core & tsp & tail & Hs & Hsp & Htsp & Hcore & He & Hh & Hl & Hlen
        & [(Ho & Hnone)|(Ho & R & Hres & Hlen' & Hd)]).
  - split; [done|]. rewrite Ho. done.
  - split; [rewrite Ho; done|]. intros _.
    exists (core ++ NUL :: R), (length core).
    split; [done|]. split; [done|]. split; [by apply strlen_app|].
    split; [rewrite Hlen, !length_app; lia|done].
Qed.

(** X2.  Where it is defined, what [stripwhite] leaves is the line without
    the white space at its two ends: the string before is white space, the
    string after, white space, and the string after neither begins nor ends
    with white space. *)
Theorem stripwhite_trims s n s' :
  strlen s = Some n → Z.of_nat n ≤ INT_MAX →
  stripwhite s = Some s' →
  ∃ pre post,
    c_str s = pre ++ c_str s' ++ post ∧ blank pre ∧ blank post ∧
    (∀ c, head (c_str s') = Some c → isspace c = false) ∧
    (∀ c, last (c_str s') = Some c → isspace c = false).
Proof.
  intros Hn Hmax Hs'.
  destruct (stripwhite_cases s n Hn Hmax)
    as (sp & core & tsp & tail & Hs & Hsp & Htsp & Hcore & He & Hh & Hl & Hlen
        & [(Ho & Hnone)|(Ho & R & Hres & _)]); [congruence|].
  rewrite Hres in Hs'. injection Hs' as <-. subst s.
  exists sp, tsp.
  rewrite c_str_core by done.
  replace (sp ++ core ++ tsp ++ NUL :: tail) with ((sp ++ core ++ tsp) ++ NUL :: tail)
    by (by rewrite <- !app_assoc).
  rewrite c_str_app; [done|].
  apply Forall_app. split; [by apply blank_no_nul|].
  apply Forall_app. split; [done|by apply blank_no_nul].
Qed.

(** X3.  Stripping twice is stripping once: the buffer [stripwhite] leaves,
    where it is defined, is left as it is, cell by cell, by a second call,
    which is defined too. *)
Theorem stripwhite_idempotent s n s' :
  strlen s = Some n → Z.of_nat n ≤ INT_MAX →
  stripwhite s = Some s' → stripwhite s' = Some s'.
Proof.
  intros Hn Hmax Hs'.
  destruct (stripwhite_cases s n Hn Hmax)
    as (sp & core & tsp & tail & Hs & Hsp & Htsp & Hcore & He & Hh & Hl & Hlen
        & [(Ho & Hnone)|(Ho & R & Hres & _)]); [congruence|].
  rewrite Hres in Hs'. injection Hs' as <-.
  pose proof (stripwhite_spec [] core [] R) as H. simpl in H.
  rewrite H; [|constructor|constructor|done|done|done|done| |by left].
  - f_equal. rewrite insert_after. do 2 f_equal.
    rewrite app_nil_r.
    replace (core ++ NUL :: R) with ((core ++ [NUL]) ++ R) by (by rewrite <- app_assoc).
    apply drop_app_length'. rewrite length_app. simpl. lia.
  - rewrite Hlen in Hmax. rewrite !length_app in *. simpl in *. lia.
Qed.

Lemma stripwhite_stays_in_line s n :
  strlen s = Some n → Z.of_nat n ≤ INT_MAX →
  (copy_overlaps s = true ∧ stripwhite s = None) ∨
  (copy_overlaps s = false ∧ ∃ s', stripwhite s = Some s').
Proof.
  intros Hn Hmax.
  destruct (stripwhite_cases s n Hn Hmax)
    as (sp & core & tsp & tail & _ & _ & _ & _ & _ & _ & _ & _
        & [(Ho & Hnone)|(Ho & R & Hres & _)]).
  - by left.
  - right. eauto.
Qed.

(** ** The read-eval loop *)

Section ReadEval.
Variable E : Env.
Variable parse : list ascii → Z * Command.

Lemma stripped_head s n s' :
  strlen s = Some n → Z.of_nat n ≤ INT_MAX → stripwhite s = Some s' →
  is_nul (default NUL (head s')) = is_null (c_str s').
Proof.
  intros Hn Hmax Hs'.
  destruct (stripwhite_cases s n Hn Hmax)
    as (sp & core & tsp & tail & Hs & Hsp & Htsp & Hcore & He & Hh & Hl & Hlen
        & [(Ho & Hnone)|(Ho & R & Hres & _)]); [congruence|].
  rewrite Hres in Hs'. injection Hs' as <-. rewrite c_str_core by done.
  destruct core as [|c core]; [done|]. simpl. by inversion Hcore.
Qed.

Lemma stripped_blank line n :
  strlen line = Some n → Z.of_nat n ≤ INT_MAX →
  blank (c_str line) → copy_overlaps line = false ∧ stripped line = [].
Proof.
  intros Hn Hmax Hb.
  destruct (stripwhite_cases line n Hn Hmax)
    as (sp & core & tsp & tail & Hs & Hsp & Htsp & Hcore & He & Hh & Hl & Hlen & Hcases).
  assert (Hc : core = []).
  { destruct core as [|c core]; [done|]. subst line.
    replace (sp ++ (c :: core) ++ tsp ++ NUL :: tail)
      with ((sp ++ (c :: core) ++ tsp) ++ NUL :: tail) in Hb
      by (by rewrite <- !app_assoc).
    rewrite c_str_app in Hb.
    - apply Forall_app in Hb as [_ Hb]. apply Forall_app in Hb as [Hb _].
      inversion Hb; subst. specialize (Hh c eq_refl). congruence.
    - apply Forall_app. split; [by apply blank_no_nul|].
      apply Forall_app. split; [done|by apply blank_no_nul]. }
  assert (Ho : copy_overlaps line = false).
  { subst line. rewrite (copy_overlaps_line sp core tsp tail) by done.
    subst core. rewrite (He eq_refl). simpl.
    destruct sp; [done|]. simpl. done. }
  split; [done|].
  destruct Hcases as [(Ho' & _)|(_ & R & Hres & _)]; [congruence|].
  unfold stripped. rewrite Hres. simpl. rewrite c_str_core by done. done.
Qed.

Lemma turn_defined line n history :
  strlen line = Some n → Z.of_nat n ≤ INT_MAX → copy_overlaps line = false →
  Repl.turn E parse line history
  = if is_null (stripped line) then ret history
    else (RunCommand E (parse (stripped line)).1 (parse (stripped line)).2 ;;
          ret (history ++ [stripped line])).
Proof.
  intros Hn Hmax Ho.
  destruct (stripwhite_stays_in_line line n Hn Hmax) as [(Ho' & _)|(_ & s' & Hs)];
    [congruence|].
  pose proof (stripped_head line n s' Hn Hmax Hs) as Hnul.
  unfold Repl.turn, stripped. rewrite Hs. simpl. rewrite Hnul.
  by destruct (is_null (c_str s')).
Qed.

Lemma turn_undefined line n history w :
  strlen line = Some n → Z.of_nat n ≤ INT_MAX → copy_overlaps line = true →
  Repl.turn E parse line history w = Stop StUndefined w.
Proof.
  intros Hn Hmax Ho.
  destruct (stripwhite_stays_in_line line n Hn Hmax) as [(_ & Hs)|(Ho' & _)];
    [|congruence].
  unfold Repl.turn. by rewrite Hs.
Qed.

(** X4.  A line that is empty or all white space runs nothing and is not
    entered in the history.  A line on which [stripwhite] is defined and
    that is not blank is entered in the history without the white space at
    its ends, and the command [parse] makes of that string is run.  On any
    other line, white space followed by at least as many characters, the
    interpreter does what C leaves undefined. *)
Theorem blank_line_runs_nothing line n history :
  strlen line = Some n → Z.of_nat n ≤ INT_MAX →
  (blank (c_str line) →
   copy_overlaps line = false ∧ stripped line = [] ∧
   Repl.turn E parse line history = ret history) ∧
  (copy_overlaps line = false →
   Repl.turn E parse line history
   = if is_null (stripped line) then ret history
     else (RunCommand E (parse (stripped line)).1 (parse (stripped line)).2 ;;
           ret (history ++ [stripped line]))) ∧
  (copy_overlaps line = true →
   ∀ w, Repl.turn E parse line history w = Stop StUndefined w).
Proof.
  intros Hn Hmax. split; [|split].
  - intros Hb. destruct (stripped_blank line n Hn Hmax Hb) as (Ho & Hs).
    split; [done|]. split; [done|].
    rewrite (turn_defined line n history Hn Hmax Ho), Hs. done.
  - by apply (turn_defined line n).
  - intros Ho w. by apply (turn_undefined line n).
Qed.




End ReadEval.

(** ** Zombies *)

Section Zombies.
Variable E : Env.

Lemma reap_first_no_zombie sel ps :
  Forall (λ p, is_zombie p = false) ps → reap_first sel ps = None.
Proof.
  induction 1 as [|q ps Hq Hps IH]; simpl; [done|].
  unfold is_zombie in Hq. destruct (p_status q); try done; by rewrite IH.
Qed.

Lemma sys_waitpid_reaping target w :
  reaping w →
  ∃ r w', sys_waitpid target w = Ret r w' ∧ procs w' = procs w ∧
          ps_sigchld (me w') = ps_sigchld (me w).
Proof.
  intros (Hc & Hz). unfold sys_waitpid.
  rewrite (reap_first_no_zombie _ _ Hz).
  destruct (existsb _ _); eauto.
Qed.

Lemma wait_children_reaping n : ∀ pids count i w,
  reaping w → reaping (final_world (wait_children n pids count i w)).
Proof.
  induction n as [|n IH]; intros pids count i w Hr; simpl; [done|].
  destruct (i <? count); [|done]. unfold bind.
  destruct (sys_waitpid_reaping (default 0 (pids !! Z.to_nat i)) w Hr)
    as (r & w' & -> & Hp & Hc).
  assert (Hr' : reaping w').
  { destruct Hr as (Hc0 & Hz). split; [congruence|by rewrite Hp]. }
  destruct r; [by apply IH|done].
Qed.

Lemma reaping_upd f w :
  (∀ p, ps_sigchld (f p) = ps_sigchld p) → reaping w → reaping (upd_me f w).
Proof. intros Hf (Hc & Hz). split; [simpl; by rewrite Hf|done]. Qed.

Lemma foreground_wait_reaping pids count i w :
  reaping w → reaping (final_world (foreground_wait pids count i w)).
Proof.
  intros Hr. unfold foreground_wait, bind.
  pose proof (wait_children_reaping (Z.to_nat (count - i)) pids count i w Hr) as H.
  destruct (wait_children _ _ _ _ w) as [[] w'|s w']; [|done].
  destruct H as (Hc & Hz). split; [exact Hc|exact Hz].
Qed.

Lemma complete_reaping cmd l w :
  reaping w → reaping (final_world (complete cmd l w)).
Proof.
  intros Hr. unfold complete. destruct (negb (background cmd)); [|done].
  apply (foreground_wait_reaping (command_pids l) (command_counter l) 0
           (upd_me (set_sigint (SIG_FN KillChildrenOnSignal_fn))
              (upd_me (set_numChildren (command_counter l))
                 (upd_me (set_children (command_pids l)) w)))).
  do 3 (apply reaping_upd; [done|]). done.
Qed.

Lemma RunCommand_reaping pr cmd w :
  reaping w → reaping (final_world (RunCommand E pr cmd w)).
Proof.
  intros (Hc & Hz).
  destruct (RunCommand_cases E pr cmd w)
    as [(w' & -> & Hp & Hme & _)|(li & co & wr & Hp & Hme & _ & _ & _ & ->)].
  - split; simpl; [|by rewrite Hp]. destruct Hme as (_ & _ & Hs & _). congruence.
  - set (l0 := mkLocals _ _ _ _ _ _).
    pose proof (launch_sound E (pgm cmd) l0 wr) as Hl.
    destruct (launch_frame E _ _ _ _ Hl) as (Hme2 & (news & Hp2 & Hok & _) & _ & _).
    assert (Hcr : ps_sigchld (me wr) = SIG_IGN).
    { destruct Hme as (_ & _ & Hs & _). congruence. }
    assert (Hrl : reaping (final_world (launch E (pgm cmd) l0 wr))).
    { split.
      - destruct Hme2 as (_ & _ & Hs & _). congruence.
      - rewrite Hp2, Hp. apply Forall_app. split; [done|].
        rewrite Hcr in Hok. eapply Forall_impl; [exact Hok|].
        intros p. apply child_ok_not_zombie. }
    unfold bind. destruct (launch E (pgm cmd) l0 wr) as [l wl|s wl]; [|done].
    by apply complete_reaping.
Qed.

Lemma end_procs_reaping sel t ps :
  Forall (λ p, is_zombie p = false) ps →
  Forall (λ p, is_zombie p = false) (end_procs sel SIG_IGN t ps).
Proof.
  intros H. unfold end_procs. apply Forall_map.
  eapply Forall_impl; [exact H|]. intros p Hp. simpl.
  by destruct (sel p && is_alive p).
Qed.

Lemma sys_kill_reaping target sig w :
  reaping w →
  me (final_world (sys_kill target sig w)) = me w ∧
  reaping (final_world (sys_kill target sig w)).
Proof.
  intros (Hc & Hz). unfold sys_kill.
  assert (Hended : ∀ sel,
    reaping (set_procs (end_procs sel (ps_sigchld (me w)) (Killed sig)
                          (k_procs (kern (log (EvKill (ps_pid (me w)) target sig) w))))
                       (log (EvKill (ps_pid (me w)) target sig) w))).
  { intros sel. split; [done|]. unfold procs. simpl. rewrite Hc.
    by apply end_procs_reaping. }
  destruct (sig =? SIGKILL); [|done].
  destruct (0 <? target); [split; [done|apply Hended]|].
  destruct (target =? -1); [split; [done|apply Hended]|].
  destruct (target =? 0); [split; [done|apply Hended]|done].
Qed.

Lemma kill_children_reaping n : ∀ i w,
  reaping w → reaping (final_world (kill_children n i w)).
Proof.
  induction n as [|n IH]; intros i w Hr; simpl; [done|].
  unfold bind, get. destruct (i <? numChildren (me w)); [|done].
  destruct (sys_kill_reaping (default 0 (children (me w) !! Z.to_nat i)) SIGKILL w Hr)
    as (_ & Hr').
  destruct (sys_kill (default 0 (children (me w) !! Z.to_nat i)) SIGKILL w)
    as [r w'|s w']; [|exact Hr'].
  by apply IH.
Qed.

(** X6.  The interpreter leaves no zombie.  Once [SIGCHLD] is ignored, as
    [main] sets it before the first command, and no process in the table is
    a zombie, this is still so after a command is run, after a blocked wait
    is taken up again, after an interrupt, and after any child ends. *)
Theorem no_child_is_left_a_zombie pr cmd w :
  reaping w →
  reaping (final_world (RunCommand E pr cmd w)) ∧
  (∀ f, reaping (final_world (resume f w))) ∧
  reaping (final_world (interrupt w)) ∧
  (∀ pid t, reaping (child_terminates pid t w)).
Proof.
  intros Hr. split; [by apply RunCommand_reaping|].
  split; [intros f; by apply foreground_wait_reaping|]. split.
  - unfold interrupt, bind, get, deliver.
    destruct (ps_sigint (me w)) as [| |h]; [done|done|].
    destruct h; [done|]. unfold handlers, KillChildrenOnSignal, bind, get.
    by apply kill_children_reaping.
  - intros pid t. destruct Hr as (Hc & Hz). split; [done|].
    unfold child_terminates, procs. simpl. rewrite Hc. by apply end_procs_reaping.
Qed.

End Zombies.

(** ** The descriptors of the interpreter *)

Section Descriptors.
Variable E : Env.

Lemma fd_get_insert_eq (t : fdtable) (i : nat) x :
  (i < length t)%nat → fd_get (<[i:=x]> t) (Z.of_nat i) = x.
Proof.
  intros Hi. unfold fd_get.
  destruct (Z.of_nat i <? 0) eqn:Hlt; [apply Z.ltb_lt in Hlt; lia|].
  rewrite Nat2Z.id, list_lookup_insert_eq by done. done.
Qed.

Lemma fd_get_Some_lt (t : fdtable) fd o :
  fd_get t fd = Some o → 0 ≤ fd ∧ (Z.to_nat fd < length t)%nat.
Proof.
  intros H. split; [by eapply fd_get_Some_nonneg|].
  unfold fd_get in H. destruct (fd <? 0); [done|].
  destruct (t !! Z.to_nat fd) eqn:Hl; [|done]. by eapply lookup_lt_Some.
Qed.

Lemma table_eq (t t' : fdtable) :
  length t = length t' → (∀ n, fd_get t n = fd_get t' n) → t = t'.
Proof.
  intros Hlen H. apply list_eq. intros i.
  specialize (H (Z.of_nat i)). unfold fd_get in H.
  destruct (Z.of_nat i <? 0) eqn:Hlt; [apply Z.ltb_lt in Hlt; lia|].
  rewrite Nat2Z.id in H.
  destruct (t !! i) as [a|] eqn:H1, (t' !! i) as [b|] eqn:H2; simpl in H.
  - by rewrite H.
  - apply lookup_lt_Some in H1. apply lookup_ge_None in H2. lia.
  - apply lookup_lt_Some in H2. apply lookup_ge_None in H1. lia.
  - done.
Qed.

Lemma sys_close_fds fd w :
  ∃ r w', sys_close fd w = Ret r w' ∧ kern w' = kern w ∧
    length (ps_fds (me w')) = length (ps_fds (me w)) ∧
    fd_get (ps_fds (me w')) fd = None ∧
    ∀ n, n ≠ fd → fd_get (ps_fds (me w')) n = fd_get (ps_fds (me w)) n.
Proof.
  unfold sys_close. destruct (fd_get _ _) eqn:Hg.
  - eexists _, _. split; [reflexivity|]. simpl.
    destruct (fd_get_Some_lt _ _ _ Hg) as (H0 & Hlt).
    split; [done|]. split; [by rewrite length_insert|]. split.
    + rewrite <- (Z2Nat.id fd) at 2 by done. by apply fd_get_insert_eq.
    + intros n Hn. apply fd_get_insert_ne. lia.
  - eexists _, _. split; [reflexivity|]. simpl. done.
Qed.

Lemma guarded_close_fds fd std w :
  ∃ w', when (negb (fd =? std)) (sys_close fd ;; ret tt) w = Ret tt w' ∧
    kern w' = kern w ∧
    length (ps_fds (me w')) = length (ps_fds (me w)) ∧
    (fd ≠ std → fd_get (ps_fds (me w')) fd = None) ∧
    ∀ n, (n ≠ fd ∨ fd = std) → fd_get (ps_fds (me w')) n = fd_get (ps_fds (me w)) n.
Proof.
  destruct (fd =? std) eqn:Heq; simpl.
  - apply Z.eqb_eq in Heq. exists w. by repeat split.
  - apply Z.eqb_neq in Heq.
    destruct (sys_close_fds fd w) as (r & w' & Hc & Hk & Hl & Hf & Hn).
    exists w'. unfold bind. rewrite Hc. split; [done|]. split; [done|].
    split; [done|]. split; [done|]. intros n [?|?]; [by apply Hn|done].
Qed.

Lemma sys_pipe_fds w :
  std_open (ps_fds (me w)) →
  (∃ junk w', sys_pipe E w = Ret (-1, junk) w' ∧ ps_fds (me w') = ps_fds (me w)) ∨
  (∃ i j w', sys_pipe E w = Ret (0, (i, j)) w' ∧ 3 ≤ i ∧ 3 ≤ j ∧ i ≠ j ∧
     fd_get (ps_fds (me w)) i = None ∧ fd_get (ps_fds (me w)) j = None ∧
     length (ps_fds (me w')) = length (ps_fds (me w)) ∧
     is_Some (fd_get (ps_fds (me w')) i) ∧ is_Some (fd_get (ps_fds (me w')) j) ∧
     ∀ n, n ≠ i → n ≠ j → fd_get (ps_fds (me w')) n = fd_get (ps_fds (me w)) n).
Proof.
  intros Hstd. unfold sys_pipe.
  destruct (env_pipe E _); [left; eauto|].
  destruct (fd_alloc (ps_fds (me w))) as [i|] eqn:Hi; [|left; eauto].
  destruct (fd_alloc (<[i:=_]> _)) as [j|] eqn:Hj; [|left; eauto].
  right. exists (Z.of_nat i), (Z.of_nat j). eexists. split; [reflexivity|]. simpl.
  pose proof (fd_alloc_free _ _ Hi) as Hfi. pose proof (fd_alloc_lt _ _ Hi) as Hli.
  pose proof (fd_alloc_free _ _ Hj) as Hfj. pose proof (fd_alloc_lt _ _ Hj) as Hlj.
  rewrite length_insert in Hlj.
  assert (Hne : i ≠ j).
  { intros ->. rewrite fd_get_insert_eq in Hfj by done. done. }
  rewrite fd_get_insert_ne in Hfj by lia.
  split; [by eapply fd_alloc_high|]. split; [by eapply fresh_high|].
  split; [lia|]. split; [done|]. split; [done|].
  split; [by rewrite !length_insert|]. split.
  { rewrite fd_get_insert_ne by lia. rewrite fd_get_insert_eq by done. by eexists. }
  split.
  { rewrite fd_get_insert_eq by (by rewrite length_insert). by eexists. }
  intros n H1 H2. by rewrite !fd_get_insert_ne by done.
Qed.

Lemma run_stage_fds c ol pd l w :
  is_builtin c = false →
  ∃ l' w', run_stage E c ol pd l w = Ret l' w' ∧
    last_in l' = last_in l ∧
    child_out l' = (if negb ol then pd.2 else child_out l) ∧
    length (ps_fds (me w')) = length (ps_fds (me w)) ∧
    (child_in l ≠ 0 → fd_get (ps_fds (me w')) (child_in l) = None) ∧
    (child_out l ≠ 1 → fd_get (ps_fds (me w')) (child_out l) = None) ∧
    ∀ n, (child_in l = 0 ∨ n ≠ child_in l) → (child_out l = 1 ∨ n ≠ child_out l) →
         fd_get (ps_fds (me w')) n = fd_get (ps_fds (me w)) n.
Proof.
  intros Hb. apply orb_false_elim in Hb as [He Hc].
  unfold run_stage. rewrite He, Hc.
  assert (∃ child w2, sys_fork E (pgmlist c) (child_branch E c ol pd l) w = Ret child w2 ∧
                      ps_fds (me w2) = ps_fds (me w)) as (child & w2 & Hf & Hfds).
  { destruct (sys_fork_spec E c ol pd l w)
      as [(w2 & Hf & _ & _ & _ & _ & Hfds)|(p & tgt & w2 & Hf & _ & _ & Hme & _)].
    - eauto.
    - exists (p_pid p), w2. by rewrite Hme. }
  destruct (guarded_close_fds (child_in l) STDIN_FILENO w2)
    as (w3 & H3 & _ & Hl3 & Hc3 & Hn3).
  destruct (guarded_close_fds (child_out l) STDOUT_FILENO w3)
    as (w4 & H4 & _ & Hl4 & Hc4 & Hn4).
  unfold bind at 1 2. rewrite Hf. unfold bind at 1. rewrite H3.
  unfold bind at 1. rewrite H4. cbn [ret bind].
  eexists _, w4. split; [reflexivity|].
  unfold STDIN_FILENO, STDOUT_FILENO in *.
  split; [by destruct (negb ol)|]. split; [by destruct (negb ol)|].
  split; [congruence|]. split; [|split].
  - intros Hci. destruct (decide (child_out l = 1)) as [H1|H1].
    + rewrite Hn4 by (by right). by apply Hc3.
    + destruct (decide (child_in l = child_out l)) as [Heq|Hne].
      * rewrite Heq. by apply Hc4.
      * rewrite Hn4 by (by left). by apply Hc3.
  - done.
  - intros n Hi Ho. rewrite Hn4, Hn3, Hfds; [done| |].
    + destruct Hi; [by right|by left].
    + destruct Ho; [by right|by left].
Qed.

Lemma holds_only_std base t li co : holds_only base t li co → std_open t.
Proof.
  intros (Hstd & _ & Hn & Hli & Hco & _).
  assert (∀ n, 0 ≤ n ≤ 2 → fd_get t n = fd_get base n) as Hk.
  { intros n Hr. apply Hn.
    - destruct (decide (li = 0)) as [|Hne]; [by left|right]. intros <-.
      destruct (Hli Hne) as (Hfree & _). destruct Hstd as ((x0 & H0) & (x1 & H1) & (x2 & H2)).
      assert (n = 0 ∨ n = 1 ∨ n = 2) as [-> | [-> | ->]] by lia; congruence.
    - destruct (decide (co = 1)) as [|Hne]; [by left|right]. intros <-.
      destruct (Hco Hne) as (Hfree & _). destruct Hstd as ((x0 & H0) & (x1 & H1) & (x2 & H2)).
      assert (n = 0 ∨ n = 1 ∨ n = 2) as [-> | [-> | ->]] by lia; congruence. }
  unfold std_open. rewrite !Hk by lia. done.
Qed.

(** One turn of the loop for a stage that is not built in: either the pipe
    could not be made, or the turn leaves the interpreter with the
    descriptors it holds for the next turn, and with none after the last. *)
Lemma stage_fds base c ol l w :
  is_builtin c = false →
  holds_only base (ps_fds (me w)) (last_in l) (child_out l) →
  (ol = false ∧ ∃ w', stage E c ol l w = Ret (false, l) w') ∨
  (∃ l' w', stage E c ol l w = Ret (true, l') w' ∧
     if ol then ps_fds (me w') = base
     else holds_only base (ps_fds (me w')) (last_in l') (child_out l')).
Proof.
  intros Hb Hinv. pose proof (holds_only_std _ _ _ _ Hinv) as Hstd.
  destruct Hinv as (Hbase & Hlen & Hn & Hli & Hco & Hne).
  unfold stage. destruct ol; simpl.
  - right.
    destruct (run_stage_fds c true (env_uninit E 0, env_uninit E 1)
                (set_child_in (last_in l) l) w Hb)
      as (l' & w' & Hr & Hl' & Ho' & Hlen' & Hci & Hcout & Hk).
    simpl in *. unfold bind. rewrite Hr. exists l', w'. split; [done|].
    apply table_eq; [congruence|]. intros n.
    destruct (decide (last_in l ≠ 0 ∧ n = last_in l)) as [[H0 ->]|Hnl].
    { rewrite Hci by done. symmetry. by apply Hli. }
    destruct (decide (child_out l ≠ 1 ∧ n = child_out l)) as [[H1 ->]|Hno].
    { rewrite Hcout by done. symmetry. by apply Hco. }
    assert (last_in l = 0 ∨ n ≠ last_in l) as Ha.
    { destruct (decide (last_in l = 0)); [by left|right]. intros ->. by apply Hnl. }
    assert (child_out l = 1 ∨ n ≠ child_out l) as Hb'.
    { destruct (decide (child_out l = 1)); [by left|right]. intros ->. by apply Hno. }
    rewrite Hk by done. by apply Hn.
  - destruct (sys_pipe_fds w Hstd)
      as [(junk & w1 & Hp & Hf1)
         |(i & j & w1 & Hp & Hi3 & Hj3 & Hij & Hfi & Hfj & Hl1 & Hoi & Hoj & Hk1)].
    + left. split; [done|].
      unfold bind at 1. rewrite Hp. cbn [fst snd]. simpl (-1 =? -1). cbv iota.
      unfold bind at 1. unfold fprintf_stderr, sys_write.
      destruct (guarded_close_fds (child_out l) STDOUT_FILENO
                  (log (EvWrite (ps_pid (me w1)) STDERR_FILENO
                                (fd_get (ps_fds (me w1)) STDERR_FILENO) "Pipe failed") w1))
        as (w3 & H3 & _).
      unfold bind at 1. rewrite H3. eauto.
    + right.
      destruct (run_stage_fds c false (i, j) (set_child_in i l) w1 Hb)
        as (l' & w' & Hr & Hl' & Ho' & Hlen' & Hci & Hcout & Hk).
      unfold bind at 1. rewrite Hp. cbn [fst snd]. simpl (0 =? -1). cbv iota.
      unfold bind at 1. rewrite Hr. simpl in *. exists l', w'. split; [done|].
      rewrite Hl', Ho'.
      assert (Hili : last_in l ≠ 0 → i ≠ last_in l).
      { intros H0 ->. destruct (Hli H0) as (_ & (? & Ho)). congruence. }
      assert (Hjli : last_in l ≠ 0 → j ≠ last_in l).
      { intros H0 ->. destruct (Hli H0) as (_ & (? & Ho)). congruence. }
      assert (Hico : child_out l ≠ 1 → i ≠ child_out l).
      { intros H0 ->. destruct (Hco H0) as (_ & (? & Ho)). congruence. }
      assert (Hjco : child_out l ≠ 1 → j ≠ child_out l).
      { intros H0 ->. destruct (Hco H0) as (_ & (? & Ho)). congruence. }
      assert (Hbi : fd_get base i = None).
      { rewrite <- Hn; [done| |].
        - destruct (decide (last_in l = 0)); [by left|right; by apply Hili].
        - destruct (decide (child_out l = 1)); [by left|right; by apply Hico]. }
      assert (Hbj : fd_get base j = None).
      { rewrite <- Hn; [done| |].
        - destruct (decide (last_in l = 0)); [by left|right; by apply Hjli].
        - destruct (decide (child_out l = 1)); [by left|right; by apply Hjco]. }
      split; [done|]. split; [congruence|]. split; [|split; [|split]].
      * intros n Hnl Hnj. assert (n ≠ j) as Hn_j by (destruct Hnj; [lia|done]).
        destruct (decide (n = i)) as [->|Hn_i].
        { rewrite Hci by lia. by rewrite Hbi. }
        destruct (decide (child_out l ≠ 1 ∧ n = child_out l)) as [[H1 ->]|Hno].
        { rewrite Hcout by done. symmetry. by apply Hco. }
        assert (child_out l = 1 ∨ n ≠ child_out l) as Hb'.
        { destruct (decide (child_out l = 1)); [by left|right]. intros ->. by apply Hno. }
        rewrite Hk by (try done; by right). rewrite Hk1 by done. by apply Hn.
      * intros H0. destruct (Hli H0) as (Hfree & Hopen). split; [done|].
        rewrite Hk, Hk1; [done|by apply not_eq_sym, Hili|by apply not_eq_sym, Hjli| |].
        -- right. by apply not_eq_sym, Hili.
        -- destruct (decide (child_out l = 1)); [by left|right]. by apply Hne.
      * intros _. split; [done|].
        rewrite Hk; [done| |].
        -- right. lia.
        -- destruct (decide (child_out l = 1)); [by left|right]. by apply Hjco.
      * intros H0 _. by apply not_eq_sym, Hjli.
Qed.

Lemma launch_fds base next : ∀ c l w,
  Forall (λ c, is_builtin c = false) (c :: next) →
  holds_only base (ps_fds (me w)) (last_in l) (child_out l) →
  ∃ l' w' evs, launch E (c :: next) l w = Ret l' w' ∧
    events w' = events w ++ evs ∧
    (ps_fds (me w') = base ∨ ∃ e, e ∈ evs ∧ pipe_failure e).
Proof.
  induction next as [|c2 next IH]; intros c l w Hall Hinv;
    inversion Hall as [|? ? Hc Hrest]; subst.
  - destruct (stage_fds base c true l w Hc Hinv)
      as [(? & _)|(l' & w' & Hs & Hfds)]; [done|].
    pose proof (stage_sound E c true l w) as Hspec.
    destruct (stage_frame E _ _ _ _ _ Hspec) as (_ & _ & (evs & Hev & _)).
    rewrite Hs in Hev. simpl in Hev.
    exists l', w', evs. cbn [launch is_null]. unfold bind. rewrite Hs. simpl.
    split; [done|]. split; [done|by left].
  - pose proof (stage_sound E c false l w) as Hspec.
    cbn [launch is_null]. unfold bind at 1.
    destruct (stage_fds base c false l w Hc Hinv)
      as [(_ & w' & Hs)|(l' & w' & Hs & Hinv')].
    + rewrite Hs in *. inversion Hspec as [? ? ? Hev| | | |]; subst.
      eexists l, w', _. split; [done|]. split; [exact Hev|]. right.
      eexists. split; [apply list_elem_of_here|done].
    + destruct (stage_frame E _ _ _ _ _ Hspec) as (_ & _ & (evs & Hev & _)).
      rewrite Hs in *. simpl in Hev. cbn [fst snd].
      destruct (IH c2 l' w' Hrest Hinv') as (l2 & w2 & evs2 & Hl & Hev2 & Hr).
      exists l2, w2, (evs ++ evs2). split; [done|].
      split; [by rewrite Hev2, Hev, app_assoc|].
      destruct Hr as [?|(e & He & Hp)]; [by left|right].
      exists e. split; [|done]. apply elem_of_app. by right.
Qed.

Lemma sys_open_fds path w :
  std_open (ps_fds (me w)) →
  ∃ r w' e, sys_open E path w = Ret r w' ∧ events w' = events w ++ [e] ∧
    ¬ pipe_failure e ∧
    if r =? -1 then ps_fds (me w') = ps_fds (me w)
    else holds_only (ps_fds (me w)) (ps_fds (me w')) r 1.
Proof.
  intros Hstd.
  destruct (sys_open_spec E path w)
    as [(w' & Ho & _ & Hev & _ & _ & Hfds & _)
       |(i & w' & Ho & _ & Hev & _ & _ & Hfree & Hfds)].
  - exists (-1), w'. eexists. split; [done|]. split; [done|]. split; [simpl; tauto|]. done.
  - exists (Z.of_nat i), w'. eexists. split; [done|]. split; [done|].
    split; [simpl; tauto|]. rewrite of_nat_eqb_m1.
    pose proof (fresh_high _ _ Hstd Hfree) as Hhigh.
    assert (Hlt : (i < length (ps_fds (me w)))%nat).
    { unfold sys_open in Ho. destruct (env_open E _ _); [injection Ho; lia|].
      destruct (fd_alloc _) as [k|] eqn:Hk; [|injection Ho; lia].
      injection Ho as Hk' _. apply Nat2Z.inj in Hk'. subst. by eapply fd_alloc_lt. }
    rewrite Hfds. split; [done|]. split; [by rewrite length_insert|].
    split; [|split; [|split]].
    + intros n [?|Hn] _; [lia|]. by apply fd_get_insert_ne.
    + intros _. split; [done|]. rewrite fd_get_insert_eq by done. by eexists.
    + done.
    + done.
Qed.

Lemma redirect_input_fds cmd w :
  std_open (ps_fds (me w)) →
  ∃ r w' evs, redirect_input E cmd w = Ret r w' ∧ events w' = events w ++ evs ∧
    Forall (λ e, ¬ pipe_failure e) evs ∧
    match r with
    | None => ps_fds (me w') = ps_fds (me w)
    | Some li => holds_only (ps_fds (me w)) (ps_fds (me w')) li 1
    end.
Proof.
  intros Hstd. unfold redirect_input. destruct (rstdin cmd) as [path|].
  - destruct (sys_open_fds path w Hstd) as (r & w' & e & Ho & Hev & Hnp & Hr).
    unfold bind at 1. rewrite Ho. destruct (r =? -1) eqn:Hm.
    + unfold bind. rewrite handle_file_error_eq. simpl.
      eexists None, _, _. split; [done|]. split.
      { unfold events in *. simpl. rewrite Hev, <- app_assoc. done. }
      split; [|done]. repeat constructor; [done|simpl; tauto].
    + exists (Some r), w', [e]. split; [done|]. split; [done|].
      split; [by repeat constructor|done].
  - exists (Some STDIN_FILENO), w, []. split; [done|]. rewrite app_nil_r.
    split; [done|]. split; [constructor|].
    split; [done|]. split; [done|]. split; [done|]. split; [done|].
    split; [done|]. done.
Qed.

Lemma sys_creat_fds path w :
  std_open (ps_fds (me w)) →
  ∃ r w' e, sys_creat E path w = Ret r w' ∧ events w' = events w ++ [e] ∧
    ¬ pipe_failure e ∧
    if r =? -1 then ps_fds (me w') = ps_fds (me w)
    else 3 ≤ r ∧ fd_get (ps_fds (me w)) r = None ∧
         length (ps_fds (me w')) = length (ps_fds (me w)) ∧
         is_Some (fd_get (ps_fds (me w')) r) ∧
         ∀ n, n ≠ r → fd_get (ps_fds (me w')) n = fd_get (ps_fds (me w)) n.
Proof.
  intros Hstd.
  destruct (sys_creat_spec E path w)
    as [(w' & Ho & _ & Hev & _ & _ & Hfds)
       |(i & w' & Ho & _ & Hev & _ & _ & Hfree & Hfds)].
  - exists (-1), w'. eexists. split; [done|]. split; [done|]. split; [simpl; tauto|]. done.
  - exists (Z.of_nat i), w'. eexists. split; [done|]. split; [done|].
    split; [simpl; tauto|]. rewrite of_nat_eqb_m1.
    pose proof (fresh_high _ _ Hstd Hfree) as Hhigh.
    assert (Hlt : (i < length (ps_fds (me w)))%nat).
    { unfold sys_creat in Ho. destruct (env_creat E _ _); [injection Ho; lia|].
      destruct (fd_alloc _) as [k|] eqn:Hk; [|injection Ho; lia].
      injection Ho as Hk' _. apply Nat2Z.inj in Hk'. subst. by eapply fd_alloc_lt. }
    rewrite Hfds. split; [done|]. split; [done|]. split; [by rewrite length_insert|].
    split; [rewrite fd_get_insert_eq by done; by eexists|].
    intros n Hn. by apply fd_get_insert_ne.
Qed.

Lemma redirect_output_fds base cmd li w :
  holds_only base (ps_fds (me w)) li 1 →
  ∃ r w' evs, redirect_output E cmd li w = Ret r w' ∧ events w' = events w ++ evs ∧
    Forall (λ e, ¬ pipe_failure e) evs ∧
    match r with
    | None => ps_fds (me w') = base
    | Some co => holds_only base (ps_fds (me w')) li co
    end.
Proof.
  intros Hinv. pose proof (holds_only_std _ _ _ _ Hinv) as Hstd.
  unfold redirect_output. destruct (rstdout cmd) as [path|].
  - destruct (sys_creat_fds path w Hstd) as (r & w1 & e & Ho & Hev & Hnp & Hr).
    destruct Hinv as (Hbase & Hlen & Hn & Hli & _ & _).
    unfold bind at 1. rewrite Ho. destruct (r =? -1) eqn:Hm.
    + unfold bind at 1. rewrite handle_file_error_eq.
      set (w2 := log _ w1).
      destruct (guarded_close_fds li STDIN_FILENO w2) as (w3 & H3 & Hk3 & Hl3 & Hc3 & Hn3).
      unfold bind at 1. rewrite H3. cbn [ret].
      eexists None, w3, _. split; [done|]. split.
      { unfold events in *. rewrite Hk3. subst w2. simpl. rewrite Hev, <- app_assoc. done. }
      split; [repeat constructor; [done|simpl; tauto]|].
      unfold STDIN_FILENO in *. subst w2. simpl in *.
      apply table_eq; [congruence|]. intros n.
      destruct (decide (li ≠ 0 ∧ n = li)) as [[H0 ->]|Hnl].
      { rewrite Hc3 by done. symmetry. by apply Hli. }
      assert (li = 0 ∨ n ≠ li) as Ha.
      { destruct (decide (li = 0)); [by left|right]. intros ->. by apply Hnl. }
      rewrite Hn3, Hr by (destruct Ha; [by right|by left]).
      apply Hn; [done|by left].
    + destruct Hr as (H3 & Hfree & Hlen1 & Hopen & Hk).
      exists (Some r), w1, [e]. split; [done|]. split; [done|].
      split; [by repeat constructor|].
      assert (Hrl : li ≠ 0 → li ≠ r).
      { intros H0 ->. destruct (Hli H0) as (_ & (? & Ho')). congruence. }
      split; [done|]. split; [congruence|]. split; [|split; [|split]].
      * intros n Hnl [?|Hnr]; [lia|]. rewrite Hk by done. apply Hn; [done|by left].
      * intros H0. destruct (Hli H0) as (Hf & Hop). split; [done|].
        rewrite Hk by (by apply Hrl). done.
      * intros _. split; [|done]. rewrite <- Hn; [done| |by left].
        destruct (decide (li = 0)); [by left|right]. by apply not_eq_sym, Hrl.
      * intros H0 _. by apply Hrl.
  - exists (Some STDOUT_FILENO), w, []. split; [done|]. rewrite app_nil_r.
    split; [done|]. split; [constructor|done].
Qed.

(** X7.  A command leaves the interpreter's descriptor table as it found
    it.  When the standard descriptors are open, no stage is built in and no
    pipe fails, every descriptor [RunCommand] opens for a redirection or a
    pipe is closed again in the interpreter by the time it returns or waits,
    whatever else fails: [open], [creat], [fork] or the launch of a stage. *)
Theorem no_descriptor_is_leaked pr cmd w :
  std_open (ps_fds (me w)) →
  pgm cmd ≠ [] →
  Forall (λ c, is_builtin c = false) (pgm cmd) →
  (∀ e, e ∈ new_events w (final_world (RunCommand E pr cmd w)) → ¬ pipe_failure e) →
  ps_fds (me (final_world (RunCommand E pr cmd w))) = ps_fds (me w).
Proof.
  intros Hstd Hne Hall Hnp. unfold RunCommand in *.
  destruct (redirect_input_fds cmd w Hstd) as (ri & w1 & evs1 & Hi & Hev1 & _ & Hr1).
  unfold bind at 1 in Hnp. unfold bind at 1. rewrite Hi in *.
  destruct ri as [li|]; [|done].
  destruct (redirect_output_fds _ cmd li w1 Hr1) as (ro & w2 & evs2 & Ho & Hev2 & _ & Hr2).
  unfold bind at 1 in Hnp. unfold bind at 1. rewrite Ho in *.
  destruct ro as [co|]; [|done].
  set (l0 := mkLocals _ _ _ _ _ _) in *.
  destruct (pgm cmd) as [|c next] eqn:Hpgm; [done|].
  destruct (launch_fds (ps_fds (me w)) next c l0 w2 Hall Hr2)
    as (l' & wl & evs3 & Hl & Hev3 & Hr3).
  unfold bind in *. rewrite Hl in *.
  pose proof (complete_spec cmd l' wl) as Hc.
  assert (Hfin : ps_fds (me (final_world (complete cmd l' wl))) = ps_fds (me wl) ∧
                 ∃ waits, events (final_world (complete cmd l' wl)) = events wl ++ waits).
  { destruct (background cmd).
    - rewrite Hc. split; [done|]. exists []. by rewrite app_nil_r.
    - destruct Hc as (w' & (_ & (waits & Hev & _) & _ & Hfds & _) & [->|(j & _ & ->)]);
        simpl; (split; [done|]); exists waits; done. }
  destruct Hfin as (Hfds & waits & Hevw).
  destruct Hr3 as [Hok|(e & He & Hp)]; [congruence|].
  exfalso. apply (Hnp e); [|done].
  unfold new_events. rewrite Hevw, Hev3, Hev2, Hev1, <- !app_assoc.
  rewrite drop_app_length. rewrite !elem_of_app. tauto.
Qed.

End Descriptors.

(** ** When the foreground wait ends *)

Section WaitEnds.

Lemma existsb_none_alive target ps :
  existsb (λ q, wait_selects target q && is_alive q) ps = false →
  none_alive target ps.
Proof.
  intros Hex. apply Forall_forall. intros q Hq.
  destruct (wait_selects target q && is_alive q) eqn:Hsq; [|done].
  assert (existsb (λ q, wait_selects target q && is_alive q) ps = true); [|congruence].
  apply existsb_exists. exists q. split; [by apply list_elem_of_In|done].
Qed.

Lemma wait_children_blocks n : ∀ pids count i w,
  reaping w → (Z.to_nat (count - i) ≤ n)%nat →
  (∃ w', wait_children n pids count i w = Ret tt w') →
  ∀ j, i ≤ j < count → none_alive (default 0 (pids !! Z.to_nat j)) (procs w).
Proof.
  induction n as [|n IH]; intros pids count i w Hr Hn (w' & Hw) j Hj; [lia|].
  simpl in Hw. destruct (i <? count) eqn:Hlt; [|apply Z.ltb_ge in Hlt; lia].
  unfold bind in Hw. unfold sys_waitpid in Hw.
  destruct Hr as (Hc & Hz).
  rewrite (reap_first_no_zombie _ _ Hz) in Hw.
  destruct (existsb _ _) eqn:Hex; [done|].
  destruct (decide (j = i)) as [->|Hne]; [by apply existsb_none_alive|].
  set (w1 := log _ (upd_me (set_errno ECHILD) w)) in Hw.
  assert (Hr1 : reaping w1) by (by split).
  apply (IH pids count (i + 1) w1 Hr1); [lia|by exists w'|lia].
Qed.

End WaitEnds.

(** ** Built-in stages *)

Section Builtins.
Variable E : Env.

Lemma new_events_mono w w1 w2 e :
  (∃ evs, events w1 = events w ++ evs) → (∃ evs, events w2 = events w1 ++ evs) →
  e ∈ new_events w1 w2 → e ∈ new_events w w2.
Proof.
  intros (evs1 & H1) (evs2 & H2) He.
  rewrite (new_events_app _ _ _ H2) in He.
  rewrite H1, <- app_assoc in H2. rewrite (new_events_app _ _ _ H2).
  apply elem_of_app. by right.
Qed.

Lemma stage_grows c ol l w r :
  stage_spec E c ol l w r → ∃ evs, events (final_world r) = events w ++ evs.
Proof. intros H. destruct (stage_frame E _ _ _ _ _ H) as (_ & _ & (evs & Hev & _)). eauto. Qed.

Lemma launch_grows pgm l w r :
  launch_spec E pgm l w r → ∃ evs, events (final_world r) = events w ++ evs.
Proof. intros H. destruct (launch_frame E _ _ _ _ H) as (_ & _ & (evs & Hev & _) & _). eauto. Qed.

Lemma stage_counter c ol l w l1 w1 :
  stage_spec E c ol l w (Ret (true, l1) w1) →
  (command_counter l = 0 → command_counter l1 = 0) ∧
  (pgm_name c = "cd" → command_counter l1 = 0).
Proof.
  intros Hs. inversion Hs; subst.
  - done.
  - split; [congruence|]. intros Hcd.
    match goal with H : is_builtin c = false |- _ =>
      unfold is_builtin in H; rewrite Hcd in H; done end.
  - split; [congruence|]. intros Hcd.
    match goal with H : is_builtin c = false |- _ =>
      unfold is_builtin in H; rewrite Hcd in H; done end.
Qed.

Lemma stage_break_event c ol l w l1 w1 :
  stage_spec E c ol l w (Ret (false, l1) w1) →
  l1 = l ∧ ∃ e, pipe_failure e ∧ e ∈ new_events w w1.
Proof.
  intros Hs. inversion Hs as [? ? ? Hev| | | |]; subst. split; [done|].
  eexists. split; [|rewrite (new_events_app _ _ _ Hev); apply list_elem_of_here]. done.
Qed.

Lemma launch_cd pgm l w r :
  launch_spec E pgm l w r →
  ∀ l' w', r = Ret l' w' →
    (command_counter l = 0 → command_counter l' = 0) ∧
    ((∃ c, c ∈ pgm ∧ pgm_name c = "cd") →
     (∀ e, e ∈ new_events w w' → ¬ pipe_failure e) → command_counter l' = 0).
Proof.
  induction 1 as [l w|c next l w l1 w1 r Hs Hl IH|c next l w w1 Hs|c next l w s w1 Hs];
    intros l' w' Hr.
  - injection Hr as <- <-. split; [done|]. intros (c & Hc & _). by apply elem_of_nil in Hc.
  - destruct (stage_counter _ _ _ _ _ _ Hs) as (H0 & Hcd).
    destruct (IH l' w' Hr) as (IH0 & IHcd). subst r.
    split; [tauto|]. intros (c0 & Hc0 & Hn) Hnp.
    apply elem_of_cons in Hc0 as [->|Hc0]; [tauto|].
    apply IHcd; [eauto|]. intros e He. apply Hnp.
    eapply new_events_mono; [|by apply (launch_grows _ _ _ _ Hl)|done].
    by apply (stage_grows _ _ _ _ _ Hs).
  - injection Hr as <- <-. split; [done|]. intros _ Hnp.
    destruct (stage_break_event _ _ _ _ _ _ Hs) as (_ & e & Hp & He).
    by destruct (Hnp e He).
  - done.
Qed.

Lemma launch_not_waitpid e : launch_event e → ¬ waitpid_event e.
Proof. destruct e; simpl; tauto. Qed.

Lemma complete_no_wait cmd l w :
  command_counter l = 0 →
  ∃ w', complete cmd l w = Ret tt w' ∧ events w' = events w ∧ procs w' = procs w.
Proof.
  intros H0. unfold complete, foreground_wait. rewrite H0.
  destruct (background cmd); simpl; eauto.
Qed.

Lemma complete_grows cmd l w :
  ∃ evs, events (final_world (complete cmd l w)) = events w ++ evs.
Proof.
  pose proof (complete_spec cmd l w) as Hc. destruct (background cmd).
  - rewrite Hc. exists []. by rewrite app_nil_r.
  - destruct Hc as (w' & (_ & (waits & Hev & _) & _) & [->|(j & _ & ->)]);
      exists waits; done.
Qed.

Lemma in_new_events w wa wb wf x y z e :
  events wa = events w ++ x → events wb = events wa ++ y →
  events wf = events wb ++ z → e ∈ y → e ∈ new_events w wf.
Proof.
  intros Ha Hb Hf He. rewrite Hb, Ha, <- !app_assoc in Hf.
  rewrite (new_events_app _ _ _ Hf). rewrite !elem_of_app. tauto.
Qed.

Lemma setup_not_waitpid e : setup_event e → ¬ waitpid_event e.
Proof. destruct e; simpl; tauto. Qed.

(** X9.  A command with a [cd] among its stages is not waited for.  Unless
    a pipe fails, [command_counter] is 0 when the loop is left, so the
    interpreter calls [waitpid] for none of the children it forked for the
    other stages and is back at once, or has left by [exit]. *)
Theorem cd_stage_cancels_the_wait pr cmd w :
  (∃ c, c ∈ pgm cmd ∧ pgm_name c = "cd") →
  (∀ e, e ∈ new_events w (final_world (RunCommand E pr cmd w)) → ¬ pipe_failure e) →
  (∀ e, e ∈ new_events w (final_world (RunCommand E pr cmd w)) → ¬ waitpid_event e) ∧
  ((∃ w', RunCommand E pr cmd w = Ret tt w') ∨
   (∃ w', RunCommand E pr cmd w = Stop (StExit 0) w')).
Proof.
  intros Hcd Hnp.
  destruct (RunCommand_cases E pr cmd w)
    as [(w' & HR & _ & _ & (evs & Hev & Hset & _))
       |(li & co & wr & _ & _ & _ & (evs & Hev & Hset & _) & _ & HR)].
  - rewrite HR. simpl. split; [|left; eauto].
    rewrite (new_events_app _ _ _ Hev). intros e He.
    rewrite Forall_forall in Hset. by apply setup_not_waitpid, Hset.
  - set (l0 := mkLocals _ _ _ _ _ _) in *.
    pose proof (launch_sound E (pgm cmd) l0 wr) as Hl.
    destruct (launch_frame E _ _ _ _ Hl) as (_ & _ & (evs2 & Hev2 & Hle) & Hres).
    assert (Hnw : ∀ e, e ∈ evs ++ evs2 → ¬ waitpid_event e).
    { intros e He. apply elem_of_app in He as [He|He].
      - rewrite Forall_forall in Hset. by apply setup_not_waitpid, Hset.
      - rewrite Forall_forall in Hle. by apply launch_not_waitpid, Hle. }
    rewrite HR in *. unfold bind in *.
    destruct (launch E (pgm cmd) l0 wr) as [l wl|s wl] eqn:Hlaunch; simpl in Hev2.
    + destruct (complete_grows cmd l wl) as (waits & Hevw).
      destruct (launch_cd _ _ _ _ Hl l wl eq_refl) as (_ & Hc0).
      assert (H0 : command_counter l = 0).
      { apply Hc0; [done|]. intros e He. apply Hnp.
        rewrite (new_events_app _ _ _ Hev2) in He.
        by eapply in_new_events. }
      destruct (complete_no_wait cmd l wl H0) as (w2 & Hc & Hev3 & _).
      rewrite Hc. simpl. split; [|left; eauto].
      rewrite Hev2, Hev, <- app_assoc in Hev3.
      by rewrite (new_events_app _ _ _ Hev3).
    + simpl. split.
      * rewrite Hev, <- app_assoc in Hev2. by rewrite (new_events_app _ _ _ Hev2).
      * right. destruct Hres as [(? & ? & ?)|(w2 & Hs)]; [done|]. injection Hs as -> ->. eauto.
Qed.

Lemma first_exit (pgm : list Pgm) :
  (∃ c, c ∈ pgm ∧ pgm_name c = "exit") →
  ∃ pre c post, pgm = pre ++ c :: post ∧ pgm_name c = "exit" ∧
                Forall (λ c, pgm_name c ≠ "exit") pre.
Proof.
  induction pgm as [|c0 pgm IH]; intros (c & Hc & Hn).
  - by apply elem_of_nil in Hc.
  - destruct (decide (pgm_name c0 = "exit")) as [H0|H0].
    + exists [], c0, pgm. split; [done|]. split; [done|constructor].
    + apply elem_of_cons in Hc as [->|Hc]; [done|].
      destruct IH as (pre & c1 & post & -> & H1 & Hpre); [eauto|].
      exists (c0 :: pre), c1, post. split; [done|]. split; [done|by constructor].
Qed.

Lemma launch_exit pre : ∀ c post l w r,
  launch_spec E (pre ++ c :: post) l w r →
  Forall (λ c, pgm_name c ≠ "exit") pre → pgm_name c = "exit" →
  (∀ e, e ∈ new_events w (final_world r) → ¬ pipe_failure e) →
  ∃ w', r = Stop (StExit 0) w'.
Proof.
  induction pre as [|c0 pre IH]; intros c post l w r Hl Hpre Hc Hnp; simpl in Hl;
    inversion Hl as [|? ? ? ? l1 w1 ? Hs Hl1|? ? ? ? w1 Hs|? ? ? ? s w1 Hs]; subst.
  - inversion Hs; subst; try congruence;
      match goal with H : is_builtin c = false |- _ =>
        unfold is_builtin in H; rewrite Hc in H; done end.
  - destruct (stage_break_event _ _ _ _ _ _ Hs) as (_ & e & Hp & He).
    by destruct (Hnp e He).
  - inversion Hs; subst. eauto.
  - inversion Hpre; subst.
    apply (IH c post l1 w1 r Hl1); [done|done|].
    intros e He. apply Hnp.
    eapply new_events_mono; [|by apply (launch_grows _ _ _ _ Hl1)|done].
    by apply (stage_grows _ _ _ _ _ Hs).
  - destruct (stage_break_event _ _ _ _ _ _ Hs) as (_ & e & Hp & He).
    by destruct (Hnp e He).
  - inversion Hpre; subst. inversion Hs; subst. congruence.
Qed.

Lemma pipe_failure_setup e : pipe_failure e → setup_failure e.
Proof. by destruct e. Qed.

(** X10.  [exit] ends the interpreter wherever it stands in the command.
    When nothing fails while the command is set up, [RunCommand] ends the
    interpreter, with status 0, exactly when one of the stages is [exit];
    it then has waited for no child and signalled none. *)
Theorem exit_stage_ends_the_interpreter pr cmd w :
  (∀ e, e ∈ new_events w (final_world (RunCommand E pr cmd w)) → ¬ setup_failure e) →
  ((∃ w', RunCommand E pr cmd w = Stop (StExit 0) w') ↔
   (∃ c, c ∈ pgm cmd ∧ pgm_name c = "exit")) ∧
  ((∃ c, c ∈ pgm cmd ∧ pgm_name c = "exit") →
   ∀ e, e ∈ new_events w (final_world (RunCommand E pr cmd w)) →
        ¬ waitpid_event e ∧ ¬ kill_event e).
Proof.
  intros Hns.
  assert (Hex : (∃ c, c ∈ pgm cmd ∧ pgm_name c = "exit") →
                ∃ w', RunCommand E pr cmd w = Stop (StExit 0) w' ∧
                      ∀ e, e ∈ new_events w w' → launch_event e).
  { intros Hc. destruct (first_exit _ Hc) as (pre & c & post & Hpgm & Hn & Hpre).
    destruct (RunCommand_cases E pr cmd w)
      as [(w' & HR & _ & _ & (evs & Hev & _ & (pre' & e & d & -> & _ & Hf & _)))
         |(li & co & wr & _ & _ & _ & (evs & Hev & Hset & _) & _ & HR)].
    - exfalso. apply (Hns e); [|done]. rewrite HR. simpl.
      rewrite (new_events_app _ _ _ Hev). rewrite elem_of_app. right.
      apply list_elem_of_here.
    - set (l0 := mkLocals _ _ _ _ _ _) in *.
      pose proof (launch_sound E (pgm cmd) l0 wr) as Hl.
      destruct (launch_frame E _ _ _ _ Hl) as (_ & _ & (evs2 & Hev2 & Hle) & _).
      destruct (complete_grows cmd (match launch E (pgm cmd) l0 wr with
                                    | Ret l _ => l | Stop _ _ => l0 end)
                               (final_world (launch E (pgm cmd) l0 wr)))
        as (waits & Hevw).
      assert (Hl' : launch_spec E (pre ++ c :: post) l0 wr (launch E (pgm cmd) l0 wr))
        by (rewrite <- Hpgm; exact Hl).
      destruct (launch_exit pre c post l0 wr _ Hl' Hpre Hn) as (w' & Hw').
      { intros e He Hp. apply (Hns e); [|by apply pipe_failure_setup].
        rewrite (new_events_app _ _ _ Hev2) in He.
        rewrite HR. unfold bind.
        destruct (launch E (pgm cmd) l0 wr) as [l wl|s wl]; simpl in *.
        - by eapply in_new_events.
        - rewrite Hev, <- app_assoc in Hev2. rewrite (new_events_app _ _ _ Hev2).
          apply elem_of_app. by right. }
      rewrite HR. unfold bind. rewrite Hw' in *. simpl in *.
      exists w'. split; [done|].
      rewrite Hev, <- app_assoc in Hev2. rewrite (new_events_app _ _ _ Hev2).
      intros e He. apply elem_of_app in He as [He|He].
      + rewrite Forall_forall in Hset. by apply setup_launch_event, Hset.
      + rewrite Forall_forall in Hle. by apply Hle. }
  split; [split|].
  - intros (w' & HR).
    destruct (RunCommand_phases E pr cmd w)
      as (wl & news & evs & _ & _ & _ & _ & _ & _ & _ & Hr).
    destruct Hr as [Hr|[(_ & Hc)|(_ & l & w2 & _ & _ & [Hr|(j & _ & Hr)])]];
      [congruence|done|congruence|congruence].
  - intros Hc. destruct (Hex Hc) as (w' & HR & _). eauto.
  - intros Hc e He. destruct (Hex Hc) as (w' & HR & Hle). rewrite HR in He. simpl in He.
    specialize (Hle e He). destruct e; simpl in *; tauto.
Qed.

End Builtins.

(** ** A fork that fails *)

Section FailedFork.
Variable E : Env.

Lemma end_procs_all_dead d t ps :
  Forall (λ p, is_alive p = false) (end_procs (λ _, true) d t ps).
Proof.
  unfold end_procs. apply Forall_map. apply Forall_forall. intros p _. simpl.
  destruct (is_alive p) eqn:Ha; [|done]. by destruct d.
Qed.

(** X11.  A [fork] that fails is not reported, and -1 is kept as the pid of
    the stage.  For a command of one stage the interpreter then calls
    [waitpid(-1, ...)], which is about any child and not about the command.
    Either the call returns and the command is over, or it blocks; an
    interrupt then makes the handler call [kill(-1, SIGKILL)], after which no
    process of the table is alive, those of earlier background commands
    included. *)
Theorem failed_fork_waits_for_any_child pr c w :
  is_builtin c = false →
  env_fork E (k_forks (kern w)) ≤ 0 →
  (∃ w1 got,
     RunCommand E pr (mkCommand [c] None None false) w = Ret tt w1 ∧
     new_events w w1
     = [EvFork (ps_pid (me w)) (-1); EvWaitpid (ps_pid (me w)) (-1) got] ∧
     spawned w w1 = [] ∧ children (me w1) = [-1]) ∨
  (∃ w1,
     RunCommand E pr (mkCommand [c] None None false) w
     = Stop (StWait (mkFrame [-1] 1 0)) w1 ∧
     new_events w w1 = [EvFork (ps_pid (me w)) (-1)] ∧
     spawned w w1 = [] ∧
     children (me w1) = [-1] ∧ numChildren (me w1) = 1 ∧
     ∃ w2, interrupt w1 = Ret tt w2 ∧
           new_events w1 w2 = [EvKill (ps_pid (me w)) (-1) SIGKILL] ∧
           procs w2 = end_procs (λ _, true) (ps_sigchld (me w)) (Killed SIGKILL) (procs w) ∧
           Forall (λ p, is_alive p = false) (procs w2)).
Proof.
  intros Hb Hf. apply orb_false_elim in Hb as [He Hc].
  assert (Hlt : (0 <? env_fork E (k_forks (kern w))) = false) by (apply Z.ltb_ge; lia).
  assert (HR : RunCommand E pr (mkCommand [c] None None false) w
    = ((r <- sys_waitpid (-1) ;;
        match r with
        | None => λ w0, Stop (StWait (mkFrame [-1] 1 0)) w0
        | Some _ => ret tt
        end) ;;
       modify (upd_me (set_numChildren 0)) ;;
       sys_signal SIGINT (SIG_IGN))
      (upd_me (set_sigint (SIG_FN KillChildrenOnSignal_fn))
         (upd_me (set_numChildren 1)
            (upd_me (set_children [-1])
               (log (EvFork (ps_pid (me w)) (-1))
                  (upd_me (set_errno EAGAIN) (bump_forks w))))))).
  { unfold RunCommand, redirect_input, redirect_output. cbn [rstdin rstdout pgm background].
    unfold bind at 1. cbn [ret]. unfold bind at 1. cbn [ret].
    unfold bind at 1. cbn [launch is_null]. unfold bind at 1.
    unfold stage. cbn [negb]. unfold bind at 1. unfold run_stage. rewrite He, Hc.
    unfold bind at 1. unfold bind at 1. unfold sys_fork. rewrite Hlt.
    cbn.
    replace (<[Z.to_nat 0:=-1]> (malloc E (0 + 1))) with [-1] by reflexivity.
    change (0 + 1) with 1. unfold foreground_wait.
    change (Z.to_nat (1 - 0)) with 1%nat. cbn [wait_children].
    change (0 <? 1) with true. cbv iota.
    change (default 0 ([-1] !! Z.to_nat 0)) with (-1). reflexivity. }
  assert (Hk : k_procs (kern (bump_forks w)) = k_procs (kern w)) by done.
  destruct (reap_first (wait_selects (-1)) (k_procs (kern w))) as [[pid ps']|] eqn:Hreap.
  - left. eexists _, pid. split.
    { rewrite HR. unfold bind at 1 2. unfold sys_waitpid.
      cbn [kern k_procs upd_me log me]. rewrite Hk, Hreap. reflexivity. }
    apply reap_first_view in Hreap. apply (f_equal length) in Hreap.
    rewrite !length_map in Hreap.
    unfold new_events, spawned, events, procs. cbn.
    rewrite <- !app_assoc. rewrite drop_app_length. split; [done|].
    rewrite <- Hreap, drop_all. done.
  - destruct (existsb (λ q, wait_selects (-1) q && is_alive q) (k_procs (kern w))) eqn:Hex.
    + right. eexists. split.
      { rewrite HR. unfold bind at 1 2. unfold sys_waitpid.
        cbn [kern k_procs upd_me log me]. rewrite Hk, Hreap, Hex. reflexivity. }
      unfold new_events, spawned, events, procs. cbn.
      rewrite !drop_app_length. split; [done|]. rewrite drop_all.
      split; [done|]. split; [done|]. split; [done|].
      eexists. split; [reflexivity|]. cbn. rewrite drop_app_length.
      split; [done|]. split; [done|]. apply end_procs_all_dead.
    + left. eexists _, (-1). split.
      { rewrite HR. unfold bind at 1 2. unfold sys_waitpid.
        cbn [kern k_procs upd_me log me]. rewrite Hk, Hreap, Hex. reflexivity. }
      unfold new_events, spawned, events, procs. cbn.
      rewrite <- !app_assoc. rewrite drop_app_length. split; [done|].
      rewrite drop_all. done.
Qed.

End FailedFork.

(** ** The working directory *)

Section WorkingDirectory.
Variable E : Env.

Lemma keeps_cwd_ret {A} (a : A) : keeps_cwd (ret a).
Proof. by intros w. Qed.

Lemma keeps_cwd_bind {A B} (m : M A) (k : A → M B) :
  keeps_cwd m → (∀ a, keeps_cwd (k a)) → keeps_cwd (bind m k).
Proof.
  intros Hm Hk w. unfold bind. specialize (Hm w).
  destruct (m w) as [a w'|s w']; simpl in *; [|done]. by rewrite Hk.
Qed.

Lemma keeps_cwd_when b (m : M unit) : keeps_cwd m → keeps_cwd (when b m).
Proof. intros Hm. destruct b; [done|apply keeps_cwd_ret]. Qed.

Ltac cwd_step :=
  intros w;
  cbv [sys_open sys_creat sys_pipe sys_close sys_dup2 sys_signal sys_exit sys_write
       sys_waitpid sys_fork printf fprintf_stderr errno modify get];
  repeat case_match; done.

Lemma keeps_cwd_open path : keeps_cwd (sys_open E path).
Proof. cwd_step. Qed.

Lemma keeps_cwd_creat path : keeps_cwd (sys_creat E path).
Proof. cwd_step. Qed.

Lemma keeps_cwd_pipe : keeps_cwd (sys_pipe E).
Proof. cwd_step. Qed.

Lemma keeps_cwd_close fd : keeps_cwd (sys_close fd).
Proof. cwd_step. Qed.

Lemma keeps_cwd_signal sig d : keeps_cwd (sys_signal sig d).
Proof. cwd_step. Qed.

Lemma keeps_cwd_exit {A} code : keeps_cwd (@sys_exit A code).
Proof. cwd_step. Qed.

Lemma keeps_cwd_write fd text : keeps_cwd (sys_write fd text).
Proof. cwd_step. Qed.

Lemma keeps_cwd_errno : keeps_cwd errno.
Proof. cwd_step. Qed.

Lemma keeps_cwd_waitpid target : keeps_cwd (sys_waitpid target).
Proof. cwd_step. Qed.

(** Whatever the child does, in its own copy of the state. *)
Lemma keeps_cwd_fork argv child : keeps_cwd (sys_fork E argv child).
Proof. cwd_step. Qed.

Lemma keeps_cwd_close_ret fd : keeps_cwd (sys_close fd ;; ret tt).
Proof. apply keeps_cwd_bind; [apply keeps_cwd_close|]. intros _. apply keeps_cwd_ret. Qed.

Lemma keeps_cwd_wait_children n : ∀ pids count i, keeps_cwd (wait_children n pids count i).
Proof.
  induction n as [|n IH]; intros pids count i; simpl; [apply keeps_cwd_ret|].
  destruct (i <? count); [|apply keeps_cwd_ret].
  apply keeps_cwd_bind; [apply keeps_cwd_waitpid|]. intros [r|]; [apply IH|done].
Qed.

Lemma keeps_cwd_modify (f : pstate → pstate) :
  (∀ p, ps_cwd (f p) = ps_cwd p) → keeps_cwd (modify (upd_me f)).
Proof. intros Hf w. simpl. apply Hf. Qed.

Lemma keeps_cwd_handle_file_error : keeps_cwd handle_file_error.
Proof.
  apply keeps_cwd_bind; [apply keeps_cwd_errno|]. intros e.
  repeat case_match; apply keeps_cwd_write.
Qed.

Lemma keeps_cwd_foreground_wait pids count i : keeps_cwd (foreground_wait pids count i).
Proof.
  apply keeps_cwd_bind; [apply keeps_cwd_wait_children|]. intros _.
  apply keeps_cwd_bind; [by apply keeps_cwd_modify|]. intros _. apply keeps_cwd_signal.
Qed.

Lemma keeps_cwd_complete cmd l : keeps_cwd (complete cmd l).
Proof.
  unfold complete. destruct (negb (background cmd)); [|apply keeps_cwd_ret].
  apply keeps_cwd_bind; [by apply keeps_cwd_modify|]. intros _.
  apply keeps_cwd_bind; [by apply keeps_cwd_modify|]. intros _.
  apply keeps_cwd_bind; [apply keeps_cwd_signal|]. intros _.
  apply keeps_cwd_foreground_wait.
Qed.

Lemma keeps_cwd_run_stage c ol pd l :
  pgm_name c ≠ "cd" → keeps_cwd (run_stage E c ol pd l).
Proof.
  intros Hc. unfold run_stage.
  apply keeps_cwd_bind; [|intros l1; apply keeps_cwd_ret].
  destruct (String.eqb "exit" (pgm_name c)); [apply keeps_cwd_exit|].
  destruct (String.eqb "cd" (pgm_name c)) eqn:Hcd.
  { apply String.eqb_eq in Hcd. by destruct Hc. }
  apply keeps_cwd_bind; [apply keeps_cwd_fork|]. intros child.
  apply keeps_cwd_bind; [apply keeps_cwd_when, keeps_cwd_close_ret|]. intros _.
  apply keeps_cwd_bind; [apply keeps_cwd_when, keeps_cwd_close_ret|]. intros _.
  apply keeps_cwd_ret.
Qed.

Lemma keeps_cwd_stage c ol l : pgm_name c ≠ "cd" → keeps_cwd (stage E c ol l).
Proof.
  intros Hc. unfold stage. destruct (negb ol).
  - apply keeps_cwd_bind; [apply keeps_cwd_pipe|]. intros r.
    destruct (r.1 =? -1).
    + apply keeps_cwd_bind; [apply keeps_cwd_write|]. intros _.
      apply keeps_cwd_bind; [apply keeps_cwd_when, keeps_cwd_close_ret|]. intros _.
      apply keeps_cwd_ret.
    + apply keeps_cwd_bind; [by apply keeps_cwd_run_stage|]. intros l'.
      apply keeps_cwd_ret.
  - apply keeps_cwd_bind; [by apply keeps_cwd_run_stage|]. intros l'.
    apply keeps_cwd_ret.
Qed.

Lemma keeps_cwd_launch p : ∀ l,
  Forall (λ c, pgm_name c ≠ "cd") p → keeps_cwd (launch E p l).
Proof.
  induction p as [|c next IH]; intros l Hall; simpl; [apply keeps_cwd_ret|].
  inversion Hall; subst.
  apply keeps_cwd_bind; [by apply keeps_cwd_stage|]. intros r.
  destruct (r.1); [by apply IH|apply keeps_cwd_ret].
Qed.

Lemma keeps_cwd_redirect_input cmd : keeps_cwd (redirect_input E cmd).
Proof.
  unfold redirect_input. destruct (rstdin cmd); [|apply keeps_cwd_ret].
  apply keeps_cwd_bind; [apply keeps_cwd_open|]. intros input.
  destruct (input =? -1); [|apply keeps_cwd_ret].
  apply keeps_cwd_bind; [apply keeps_cwd_handle_file_error|]. intros _.
  apply keeps_cwd_ret.
Qed.

Lemma keeps_cwd_redirect_output cmd li : keeps_cwd (redirect_output E cmd li).
Proof.
  unfold redirect_output. destruct (rstdout cmd); [|apply keeps_cwd_ret].
  apply keeps_cwd_bind; [apply keeps_cwd_creat|]. intros out.
  destruct (out =? -1); [|apply keeps_cwd_ret].
  apply keeps_cwd_bind; [apply keeps_cwd_handle_file_error|]. intros _.
  apply keeps_cwd_bind; [apply keeps_cwd_when, keeps_cwd_close_ret|]. intros _.
  apply keeps_cwd_ret.
Qed.

Lemma stage_children_cwd c ol l w :
  pgm_name c ≠ "cd" →
  ∃ news, procs (final_world (stage E c ol l w)) = procs w ++ news ∧
          Forall (λ q, ps_cwd (p_state q) = ps_cwd (me w)) news ∧
          ps_cwd (me (final_world (stage E c ol l w))) = ps_cwd (me w).
Proof.
  intros Hc. pose proof (keeps_cwd_stage c ol l Hc w) as Hk.
  pose proof (stage_sound E c ol l w) as Hs.
  destruct (stage E c ol l w) as [r w'|s w'] eqn:Hst; simpl in *;
    inversion Hs; subst; try done.
  - exists []. rewrite app_nil_r. split; [done|]. split; [constructor|done].
  - exists []. rewrite app_nil_r. split; [done|]. split; [constructor|done].
  - eexists [_]. split; [done|]. split; [by repeat constructor|done].
  - exists []. rewrite app_nil_r. split; [done|]. split; [constructor|done].
Qed.

Lemma launch_children_cwd p : ∀ l w,
  Forall (λ c, pgm_name c ≠ "cd") p →
  ∃ news, procs (final_world (launch E p l w)) = procs w ++ news ∧
          Forall (λ q, ps_cwd (p_state q) = ps_cwd (me w)) news.
Proof.
  induction p as [|c next IH]; intros l w Hall.
  - exists []. by rewrite app_nil_r.
  - inversion Hall; subst. cbn [launch]. unfold bind.
    destruct (stage_children_cwd c (is_null next) l w) as (n1 & Hp1 & Hc1 & Hcwd); [done|].
    destruct (stage E c (is_null next) l w) as [[b l1] w1|s w1]; simpl in *; [|eauto].
    destruct b; simpl; [|eauto].
    destruct (IH l1 w1) as (n2 & Hp2 & Hc2); [done|].
    exists (n1 ++ n2). rewrite Hp2, Hp1, app_assoc. split; [done|].
    apply Forall_app. split; [done|]. by rewrite <- Hcwd.
Qed.

(** X12.  Only [cd] changes the working directory of the interpreter: after
    a command none of whose stages is [cd] the directory is the one before,
    and it is the directory of every child forked for the command. *)
Theorem only_cd_changes_directory pr cmd w :
  Forall (λ c, pgm_name c ≠ "cd") (pgm cmd) →
  ps_cwd (me (final_world (RunCommand E pr cmd w))) = ps_cwd (me w) ∧
  Forall (λ p, ps_cwd (p_state p) = ps_cwd (me w))
         (spawned w (final_world (RunCommand E pr cmd w))).
Proof.
  intros Hall. split.
  - revert w. change (keeps_cwd (RunCommand E pr cmd)). unfold RunCommand.
    apply keeps_cwd_bind; [apply keeps_cwd_redirect_input|]. intros [li|];
      [|apply keeps_cwd_ret].
    apply keeps_cwd_bind; [apply keeps_cwd_redirect_output|]. intros [co|];
      [|apply keeps_cwd_ret].
    apply keeps_cwd_bind; [by apply keeps_cwd_launch|]. intros l.
    apply keeps_cwd_complete.
  - destruct (RunCommand_cases E pr cmd w)
      as [(w' & HR & Hp & _)|(li & co & wr & Hp & _ & Hcwd & _ & _ & HR)].
    + rewrite HR. simpl. rewrite (spawned_same _ _ Hp). constructor.
    + set (l0 := mkLocals _ _ _ _ _ _) in *.
      destruct (launch_children_cwd (pgm cmd) l0 wr Hall) as (news & Hpl & Hc).
      rewrite Hp, Hcwd in *.
      assert (Hv : map proc_view (spawned w (final_world (RunCommand E pr cmd w)))
                   = map proc_view news).
      { rewrite <- (spawned_app w _ news Hpl). apply spawned_view.
        rewrite HR. unfold bind.
        destruct (launch E (pgm cmd) l0 wr) as [l wl|s wl]; [|done].
        apply complete_view. }
      apply (Forall_view (λ v, ps_cwd v.1.2 = ps_cwd (me w)) _ _ Hv). done.
Qed.

Lemma keeps_cwd_draft_stage c ol l : keeps_cwd (LshDraft.stage E c ol l).
Proof.
  unfold LshDraft.stage.
  apply keeps_cwd_bind.
  { destruct (negb ol); [|apply keeps_cwd_ret].
    apply keeps_cwd_bind; [apply keeps_cwd_pipe|]. intros r.
    destruct (r.1 =? -1); [|apply keeps_cwd_ret].
    apply keeps_cwd_bind; [apply keeps_cwd_write|]. intros _. apply keeps_cwd_exit. }
  intros r.
  apply keeps_cwd_bind.
  { destruct (String.eqb "exit" (pgm_name c)); [apply keeps_cwd_exit|apply keeps_cwd_ret]. }
  intros _.
  apply keeps_cwd_bind; [apply keeps_cwd_fork|]. intros child.
  apply keeps_cwd_bind; [apply keeps_cwd_when, keeps_cwd_close_ret|]. intros _.
  apply keeps_cwd_bind; [apply keeps_cwd_when, keeps_cwd_close_ret|]. intros _.
  apply keeps_cwd_ret.
Qed.

Lemma keeps_cwd_draft_launch p : ∀ l, keeps_cwd (LshDraft.launch E p l).
Proof.
  induction p as [|c next IH]; intros l; simpl; [apply keeps_cwd_ret|].
  apply keeps_cwd_bind; [apply keeps_cwd_draft_stage|]. intros l'. apply IH.
Qed.

Lemma keeps_cwd_draft_file_error : keeps_cwd LshDraft.handle_file_error.
Proof.
  apply keeps_cwd_bind; [apply keeps_cwd_errno|]. intros e.
  repeat case_match; apply keeps_cwd_write.
Qed.

(** X13.  In [src/lsh.c] no command changes the working directory of the
    interpreter, [cd] included: there [chdir] is called from
    [handle_command], in the forked child, and the child exits after it. *)
Theorem draft_cd_never_changes_directory pr cmd w :
  ps_cwd (me (final_world (LshDraft.RunCommand E pr cmd w))) = ps_cwd (me w).
Proof.
  revert w. change (keeps_cwd (LshDraft.RunCommand E pr cmd)).
  unfold LshDraft.RunCommand.
  apply keeps_cwd_bind.
  { destruct (rstdin cmd); [|apply keeps_cwd_ret].
    apply keeps_cwd_bind; [apply keeps_cwd_open|]. intros input.
    destruct (input =? -1); [|apply keeps_cwd_ret].
    apply keeps_cwd_bind; [apply keeps_cwd_draft_file_error|]. intros _.
    apply keeps_cwd_ret. }
  intros [li|]; [|apply keeps_cwd_ret].
  apply keeps_cwd_bind.
  { destruct (rstdout cmd); [|apply keeps_cwd_ret].
    apply keeps_cwd_bind; [apply keeps_cwd_creat|]. intros out.
    destruct (out =? -1); [|apply keeps_cwd_ret].
    apply keeps_cwd_bind; [apply keeps_cwd_draft_file_error|]. intros _.
    apply keeps_cwd_ret. }
  intros [co|]; [|apply keeps_cwd_ret].
  apply keeps_cwd_bind; [apply keeps_cwd_draft_launch|]. intros l.
  destruct (negb (background cmd)); [|apply keeps_cwd_signal].
  apply keeps_cwd_bind; [by apply keeps_cwd_modify|]. intros _.
  apply keeps_cwd_bind; [apply keeps_cwd_signal|]. intros _.
  unfold LshDraft.foreground_wait.
  apply keeps_cwd_bind; [apply keeps_cwd_wait_children|]. intros _.
  apply keeps_cwd_signal.
Qed.

End WorkingDirectory.

(** ** The revision in [src/lsh.c] *)

Section Draft.
Variable E : Env.

Lemma end_procs_other pid d t ps q :
  q ∈ ps → p_pid q ≠ pid → q ∈ end_procs (λ p, p_pid p =? pid) d t ps.
Proof.
  intros Hq Hne. unfold end_procs. apply list_elem_of_In, in_map_iff.
  exists q. split; [|by apply list_elem_of_In].
  destruct (p_pid q =? pid) eqn:Heq; [apply Z.eqb_eq in Heq; done|done].
Qed.

(** X14.  In [src/lsh.c] the handler signals two children, whatever their
    number: the bound of its loop is [sizeof(children)/sizeof(__pid_t)], the
    size of a pointer over that of a pid.  Of a longer pipeline the first
    two children in the array are killed and every other process is left
    as it is. *)
Theorem draft_kill_loop_signals_two_entries w p0 p1 rest :
  ps_sigint (me w) = SIG_FN KillChildren_fn →
  children (me w) = p0 :: p1 :: rest →
  0 < p0 → 0 < p1 →
  ∃ w', LshDraft.interrupt E w = Ret tt w' ∧
    new_events w w'
    = [EvKill (ps_pid (me w)) p0 SIGKILL; EvKill (ps_pid (me w)) p1 SIGKILL;
       EvWrite (ps_pid (me w)) STDOUT_FILENO (fd_get (ps_fds (me w)) STDOUT_FILENO) nl] ∧
    ∀ q, q ∈ procs w → p_pid q ≠ p0 → p_pid q ≠ p1 → q ∈ procs w'.
Proof.
  intros Hint Hch H0 H1.
  unfold LshDraft.interrupt, bind, get. rewrite Hint. cbn [deliver LshDraft.handlers].
  unfold LshDraft.KillChildren.
  change (Z.to_nat (LshDraft.sizeof_children / LshDraft.sizeof_pid_t)) with 2%nat.
  cbn [LshDraft.kill_children].
  change (0 <? LshDraft.sizeof_children / LshDraft.sizeof_pid_t) with true.
  change (0 + 1 <? LshDraft.sizeof_children / LshDraft.sizeof_pid_t) with true.
  cbv iota. unfold bind, get.
  assert (Hc0 : LshDraft.children_at E w 0 = p0).
  { unfold LshDraft.children_at. by rewrite Hch. }
  rewrite Hc0.
  destruct (sys_kill_spec p0 w H0) as (w1 & -> & Hme1 & Hev1 & Hp1).
  assert (Hc1 : LshDraft.children_at E w1 (0 + 1) = p1).
  { unfold LshDraft.children_at. by rewrite Hme1, Hch. }
  rewrite Hc1.
  destruct (sys_kill_spec p1 w1 H1) as (w2 & -> & Hme2 & Hev2 & Hp2).
  eexists. split; [reflexivity|]. split.
  - unfold new_events, events in *. cbn. rewrite Hev2, Hev1, Hme2, Hme1, <- !app_assoc.
    by rewrite drop_app_length.
  - intros q Hq Hn0 Hn1. unfold procs in *. cbn. rewrite Hp2, Hp1.
    apply end_procs_other; [|done]. by apply end_procs_other.
Qed.

(** X15.  In [src/lsh.c] a pipe that cannot be made ends the interpreter:
    before any stage of the pipeline is forked, [Pipe failed] is printed on
    the standard output and the interpreter leaves by [exit(-1)]. *)
Theorem draft_pipe_failure_ends_interpreter pr cmd c c2 rest e w :
  rstdin cmd = None → rstdout cmd = None →
  pgm cmd = c :: c2 :: rest →
  env_pipe E (k_pipes (kern w)) = Some e →
  ∃ w', LshDraft.RunCommand E pr cmd w = Stop (StExit (-1)) w' ∧
    new_events w w'
    = [EvPipe (ps_pid (me w)) (-1);
       EvWrite (ps_pid (me w)) STDOUT_FILENO (fd_get (ps_fds (me w)) STDOUT_FILENO)
               "Pipe failed";
       EvExit (ps_pid (me w)) (-1)] ∧
    procs w' = procs w.
Proof.
  intros Hin Hout Hpgm Hpipe.
  unfold LshDraft.RunCommand. rewrite Hin, Hout, Hpgm.
  unfold bind at 1. cbn [ret]. unfold bind at 1. cbn [ret].
  unfold bind at 1. cbn [LshDraft.launch is_null]. unfold bind at 1.
  unfold LshDraft.stage. cbn [negb]. unfold bind at 1 2. unfold sys_pipe.
  rewrite Hpipe. cbn.
  eexists. split; [reflexivity|].
  unfold new_events, spawned, events, procs. cbn.
  rewrite <- !app_assoc. rewrite drop_app_length. done.
Qed.

End Draft.

(** ** The debugging printer *)

Section DebugPrinter.

Lemma string_app_cons x (a b : string) : String x a +:+ b = String x (a +:+ b).
Proof. reflexivity. Qed.

Lemma string_app_assoc (a b c : string) : (a +:+ b) +:+ c = a +:+ (b +:+ c).
Proof. induction a as [|x a IH]; [done|]. by rewrite !string_app_cons, IH. Qed.

Lemma string_app_empty (a : string) : a +:+ EmptyString = a.
Proof. induction a as [|x a IH]; [done|]. by rewrite string_app_cons, IH. Qed.

Lemma concat_cons (x : string) xs :
  String.concat EmptyString (x :: xs) = x +:+ String.concat EmptyString xs.
Proof. destruct xs; simpl; [by rewrite string_app_empty|done]. Qed.

Lemma concat_snoc xs (x : string) :
  String.concat EmptyString (xs ++ [x]) = String.concat EmptyString xs +:+ x.
Proof.
  induction xs as [|y xs IH]; [done|].
  change ((y :: xs) ++ [x]) with (y :: (xs ++ [x])).
  by rewrite !concat_cons, IH, string_app_assoc.
Qed.

Lemma output_on_app fd a b : output_on fd (a ++ b) = output_on fd a +:+ output_on fd b.
Proof.
  induction a as [|e a IH]; simpl; [done|].
  destruct e; try done. destruct (_ =? fd); [|done].
  by rewrite IH, string_app_assoc.
Qed.

Lemma only_prints_ret : only_prints (ret tt) EmptyString.
Proof. intros w. exists w, []. rewrite app_nil_r. by repeat split. Qed.

Lemma only_prints_printf text : only_prints (printf text) text.
Proof.
  intros w. eexists _, [_]. split; [reflexivity|]. simpl.
  split; [done|]. split; [done|]. split; [done|].
  split; [repeat constructor; by eexists|]. apply string_app_empty.
Qed.

Lemma only_prints_bind m1 m2 t1 t2 :
  only_prints m1 t1 → only_prints m2 t2 → only_prints (m1 ;; m2) (t1 +:+ t2).
Proof.
  intros H1 H2 w.
  destruct (H1 w) as (w1 & evs1 & Hm1 & Hme1 & Hp1 & Hev1 & Hf1 & Ho1).
  destruct (H2 w1) as (w2 & evs2 & Hm2 & Hme2 & Hp2 & Hev2 & Hf2 & Ho2).
  exists w2, (evs1 ++ evs2). unfold bind. rewrite Hm1, Hm2.
  split; [done|]. split; [congruence|]. split; [congruence|].
  split; [by rewrite Hev2, Hev1, app_assoc|].
  split; [|by rewrite output_on_app, Ho1, Ho2].
  apply Forall_app. split; [done|]. by rewrite Hme1 in Hf2.
Qed.

Lemma only_prints_eq m t t' : only_prints m t → t = t' → only_prints m t'.
Proof. by intros H <-. Qed.

Lemma only_prints_words pl :
  only_prints (Debug.print_words pl)
              (String.concat EmptyString (map (λ s, s +:+ " ") pl)).
Proof.
  induction pl as [|s pl IH]; [apply only_prints_ret|].
  cbn [Debug.print_words map]. rewrite concat_cons.
  apply only_prints_bind; [apply only_prints_printf|done].
Qed.

Lemma only_prints_PrintPgm p :
  only_prints (Debug.PrintPgm p) (String.concat EmptyString (PrintPgm p)).
Proof.
  induction p as [|c next IH]; [apply only_prints_ret|].
  cbn [Debug.PrintPgm PrintPgm]. rewrite concat_snoc.
  apply only_prints_bind; [done|]. unfold print_stage.
  apply only_prints_bind; [apply only_prints_printf|].
  apply only_prints_bind; [apply only_prints_words|apply only_prints_printf].
Qed.

(** X16.  [DebugPrintCommand] only prints, on the standard output of the
    interpreter.  When the parse result is not 1 it prints [Parse ERROR]
    and nothing else; otherwise it prints the redirections ([<none>] for
    one that is not given), the background flag, and one line for each
    stage, in the order of the command line, which is the list from its
    last element to its first. *)
Theorem DebugPrintCommand_prints_left_to_right parse_result cmd :
  only_prints (Debug.DebugPrintCommand parse_result cmd)
    (if parse_result =? 1 then
       "------------------------------" +:+ nl +:+
       "Parse OK" +:+ nl +:+
       "stdin:      " +:+ Debug.or_none (rstdin cmd) +:+ nl +:+
       "stdout:     " +:+ Debug.or_none (rstdout cmd) +:+ nl +:+
       "background: " +:+ (if background cmd then "true" else "false") +:+ nl +:+
       "Pgms:" +:+ nl +:+
       String.concat EmptyString (map print_stage (rev (map pgmlist (pgm cmd)))) +:+
       "------------------------------" +:+ nl
     else "Parse ERROR" +:+ nl).
Proof.
  unfold Debug.DebugPrintCommand.
  destruct (parse_result =? 1); cbn [negb]; [|apply only_prints_printf].
  pose proof (PrintPgm_left_to_right cmd) as Hp. unfold left_to_right in Hp.
  rewrite <- Hp.
  eapply only_prints_eq.
  { repeat (apply only_prints_bind; [apply only_prints_printf|]).
    apply only_prints_bind; [apply only_prints_PrintPgm|apply only_prints_printf]. }
  by rewrite !string_app_assoc.
Qed.

End DebugPrinter.

(** ** How the children are wired *)

Section Wiring.
Variable E : Env.

Lemma sys_dup2_fds a b w :
  ∃ r w', sys_dup2 a b w = Ret r w' ∧ kern w' = kern w ∧
    length (ps_fds (me w')) = length (ps_fds (me w)) ∧
    (∀ n, n ≠ b → fd_get (ps_fds (me w')) n = fd_get (ps_fds (me w)) n) ∧
    (is_Some (fd_get (ps_fds (me w)) a) → is_Some (fd_get (ps_fds (me w)) b) →
     fd_get (ps_fds (me w')) b = fd_get (ps_fds (me w)) a).
Proof.
  unfold sys_dup2. destruct (fd_get (ps_fds (me w)) a) as [o|] eqn:Ha.
  - destruct (fd_valid (ps_fds (me w)) b) eqn:Hv.
    + eexists _, _. split; [reflexivity|]. simpl.
      unfold fd_valid in Hv. apply andb_true_iff in Hv as [H0 Hlt].
      apply Z.leb_le in H0. apply Nat.ltb_lt in Hlt.
      split; [done|]. split; [by rewrite length_insert|]. split.
      * intros n Hn. apply fd_get_insert_ne. lia.
      * intros _ _. rewrite <- (Z2Nat.id b) at 2 by done. by apply fd_get_insert_eq.
    + eexists _, _. split; [reflexivity|]. simpl.
      split; [done|]. split; [done|]. split; [done|]. intros _ (x & Hb).
      destruct (fd_get_Some_lt _ _ _ Hb) as (H0 & Hlt).
      unfold fd_valid in Hv. apply andb_false_iff in Hv as [Hv|Hv].
      * apply Z.leb_gt in Hv. lia.
      * apply Nat.ltb_ge in Hv. lia.
  - eexists _, _. split; [reflexivity|]. simpl.
    split; [done|]. split; [done|]. split; [done|]. by intros (x & Hx).
Qed.

Lemma guarded_dup2_fds fd std w :
  ∃ w', when (negb (fd =? std)) (sys_dup2 fd std ;; sys_close fd ;; ret tt) w = Ret tt w' ∧
    kern w' = kern w ∧
    length (ps_fds (me w')) = length (ps_fds (me w)) ∧
    (∀ n, n ≠ fd → n ≠ std → fd_get (ps_fds (me w')) n = fd_get (ps_fds (me w)) n) ∧
    (fd ≠ std → fd_get (ps_fds (me w')) fd = None) ∧
    (is_Some (fd_get (ps_fds (me w)) fd) → is_Some (fd_get (ps_fds (me w)) std) →
     fd_get (ps_fds (me w')) std = fd_get (ps_fds (me w)) fd).
Proof.
  destruct (fd =? std) eqn:Heq; simpl.
  - apply Z.eqb_eq in Heq. subst. exists w. by repeat split.
  - apply Z.eqb_neq in Heq.
    destruct (sys_dup2_fds fd std w) as (r & w1 & Hd & Hk1 & Hl1 & Hn1 & Hs1).
    destruct (sys_close_fds fd w1) as (r' & w2 & Hc & Hk2 & Hl2 & Hf2 & Hn2).
    exists w2. unfold bind. rewrite Hd, Hc.
    split; [done|]. split; [congruence|]. split; [congruence|]. split; [|split].
    + intros n Hnf Hns. rewrite Hn2, Hn1 by done. done.
    + done.
    + intros Ho Hv. rewrite Hn2 by (by apply not_eq_sym). by apply Hs1.
Qed.

(** The descriptors of a child that has launched its program: 0 is what
    [child_in] was, 1 what [child_out] was, and the descriptors the child
    was forked with for the pipes and the redirections are closed. *)
Lemma child_branch_fds c ol pd l w :
  std_open (ps_fds (me w)) →
  (child_in l = 0 ∨ 3 ≤ child_in l ∧ is_Some (fd_get (ps_fds (me w)) (child_in l))) →
  (child_out l = 1 ∨ 3 ≤ child_out l ∧ is_Some (fd_get (ps_fds (me w)) (child_out l))) →
  (ol = true ∨ 3 ≤ pd.2 ∧ pd.2 ≠ child_in l ∧ pd.2 ≠ child_out l) →
  child_in l ≠ child_out l →
  env_execvp E (ps_cwd (me w)) (pgm_name c) = None →
  let t := ps_fds (me w) in
  let t' := ps_fds (me (final_world (child_branch E c ol pd l w))) in
  fd_get t' 0 = fd_get t (child_in l) ∧
  fd_get t' 1 = fd_get t (child_out l) ∧
  ∀ n, n ≠ 0 → n ≠ 1 →
       fd_get t' n = if decide (n = child_in l ∨ n = child_out l ∨ ol = false ∧ n = pd.2)
                     then None else fd_get t n.
Proof.
  intros Hstd Hci Hco Hj Hne Hx t t'. subst t.
  destruct Hstd as (S0 & S1 & S2).
  set (w0 := upd_me (set_sigint SIG_IGN) w).
  assert (Hsig : sys_signal SIGINT SIG_IGN w = Ret tt w0) by done.
  assert (∃ w1, when (negb ol && negb (pd.2 =? STDOUT_FILENO)) (sys_close pd.2 ;; ret tt) w0
                = Ret tt w1 ∧ ps_cwd (me w1) = ps_cwd (me w) ∧
                (∀ n, (ol = true ∨ n ≠ pd.2) →
                      fd_get (ps_fds (me w1)) n = fd_get (ps_fds (me w)) n) ∧
                (ol = false → fd_get (ps_fds (me w1)) pd.2 = None))
    as (w1 & H1 & Hk1 & Hn1 & Hc1).
  { destruct ol; simpl.
    - exists w0. split; [done|]. split; [done|]. split; [done|done].
    - destruct (guarded_close_fds pd.2 STDOUT_FILENO w0) as (w1 & H1 & Hk & _ & Hc & Hn).
      destruct (guarded_close_spec pd.2 STDOUT_FILENO w0) as (? & He & (_ & _ & Hf) & _).
      exists w1. split; [done|]. split; [rewrite H1 in He; by injection He as <-|]. split.
      + intros n [?|Hnn]; [done|]. rewrite Hn by (by left). done.
      + intros _. apply Hc. unfold STDOUT_FILENO. destruct Hj as [?|(? & _)]; [done|lia]. }
  destruct (guarded_dup2_fds (child_in l) STDIN_FILENO w1)
    as (w2 & H2 & Hk2 & _ & Hn2 & Hc2 & Hs2).
  destruct (guarded_dup2_fds (child_out l) STDOUT_FILENO w2)
    as (w3 & H3 & Hk3 & _ & Hn3 & Hc3 & Hs3).
  assert (Hcwd : ps_cwd (me w3) = ps_cwd (me w)).
  { destruct (guarded_dup2_spec (child_out l) STDOUT_FILENO w2) as (? & Ha & (_ & _ & Hb) & _).
    destruct (guarded_dup2_spec (child_in l) STDIN_FILENO w1) as (? & Hc & (_ & _ & Hd) & _).
    rewrite Ha in H3. injection H3 as <-. rewrite Hc in H2. injection H2 as <-.
    congruence. }
  assert (Hrun : t' = ps_fds (me w3)).
  { subst t'. unfold child_branch.
    unfold bind at 1. rewrite Hsig. unfold bind at 1. rewrite H1.
    unfold bind at 1. rewrite H2. unfold bind at 1. rewrite H3.
    rewrite <- Hcwd in Hx. unfold bind. by rewrite (handle_command_ok E _ _ Hx). }
  rewrite Hrun. clear Hrun t'.
  unfold STDIN_FILENO, STDOUT_FILENO in *.
  assert (Hj1 : ol = true ∨ child_in l ≠ pd.2).
  { destruct Hj as [?|(_ & ? & _)]; [by left|right; by apply not_eq_sym]. }
  assert (Hj2 : ol = true ∨ child_out l ≠ pd.2).
  { destruct Hj as [?|(_ & _ & ?)]; [by left|right; by apply not_eq_sym]. }
  assert (Hj0 : ol = true ∨ 0 ≠ pd.2) by (destruct Hj as [?|(? & _)]; [by left|right; lia]).
  assert (Hj01 : ol = true ∨ 1 ≠ pd.2) by (destruct Hj as [?|(? & _)]; [by left|right; lia]).
  assert (Hco0 : child_out l ≠ 0) by (destruct Hco as [->|(? & _)]; lia).
  assert (Hci1 : child_in l ≠ 1) by (destruct Hci as [->|(? & _)]; lia).
  (* descriptor 0 after the first [dup2] *)
  assert (H0 : fd_get (ps_fds (me w2)) 0 = fd_get (ps_fds (me w)) (child_in l)).
  { destruct (decide (child_in l = 0)) as [Heq|Hn0].
    - rewrite Heq in *. simpl in H2. injection H2 as Hw. rewrite <- Hw. by apply Hn1.
    - rewrite Hs2; [by apply Hn1| |].
      + rewrite Hn1 by done. destruct Hci as [?|(_ & ?)]; done.
      + rewrite Hn1 by done. done. }
  split; [|split].
  - rewrite Hn3 by done. done.
  - destruct (decide (child_out l = 1)) as [Heq|Hn1'].
    + rewrite Heq in *. simpl in H3. injection H3 as Hw. rewrite <- Hw.
      rewrite Hn2 by done. by apply Hn1.
    + rewrite Hs3.
      * rewrite Hn2 by done. by apply Hn1.
      * rewrite Hn2, Hn1 by done. destruct Hco as [?|(_ & ?)]; done.
      * rewrite Hn2, Hn1 by done. done.
  - intros n Hn_0 Hn_1. destruct (decide _) as [Hcl|Hop].
    + destruct (decide (n = child_out l)) as [->|Hnco]; [by apply Hc3|].
      rewrite Hn3 by done.
      destruct (decide (n = child_in l)) as [->|Hnci]; [by apply Hc2|].
      rewrite Hn2 by done.
      destruct Hcl as [?|[?|(Hol & ->)]]; [done|done|]. by apply Hc1.
    + assert (n ≠ child_in l ∧ n ≠ child_out l ∧ (ol = true ∨ n ≠ pd.2)) as (A & B & C).
      { split; [tauto|]. split; [tauto|]. destruct ol; [by left|right]. tauto. }
      rewrite Hn3, Hn2, Hn1 by done. done.
Qed.

Lemma sys_pipe_objs w i j w' :
  sys_pipe E w = Ret (0, (i, j)) w' →
  ∃ k, fd_get (ps_fds (me w')) i = Some (PipeRd k) ∧
       fd_get (ps_fds (me w')) j = Some (PipeWr k).
Proof.
  unfold sys_pipe. destruct (env_pipe E _); [done|].
  destruct (fd_alloc (ps_fds (me w))) as [a|] eqn:Ha; [|done].
  destruct (fd_alloc (<[a:=_]> _)) as [b|] eqn:Hb; [|done].
  intros [= <- <- <-]. exists (k_pipes (kern w)). simpl.
  pose proof (fd_alloc_lt _ _ Ha) as Hla. pose proof (fd_alloc_lt _ _ Hb) as Hlb.
  pose proof (fd_alloc_free _ _ Hb) as Hfb.
  assert (a ≠ b).
  { intros ->. rewrite fd_get_insert_eq in Hfb by done. done. }
  split.
  - rewrite fd_get_insert_ne by lia. by rewrite fd_get_insert_eq.
  - by rewrite fd_get_insert_eq.
Qed.

(** What a child that is alive was forked with. *)
Lemma fork_child_fds c ol pd l w :
  std_open (ps_fds (me w)) →
  (child_in l = 0 ∨ 3 ≤ child_in l ∧ is_Some (fd_get (ps_fds (me w)) (child_in l))) →
  (child_out l = 1 ∨ 3 ≤ child_out l ∧ is_Some (fd_get (ps_fds (me w)) (child_out l))) →
  (ol = true ∨ 3 ≤ pd.2 ∧ pd.2 ≠ child_in l ∧ pd.2 ≠ child_out l) →
  child_in l ≠ child_out l →
  ∃ r w', sys_fork E (pgmlist c) (child_branch E c ol pd l) w = Ret r w' ∧
    ps_fds (me w') = ps_fds (me w) ∧
    (procs w' = procs w ∨
     ∃ p, procs w' = procs w ++ [p] ∧
       (is_alive p = true →
        fd_of p 0 = fd_get (ps_fds (me w)) (child_in l) ∧
        fd_of p 1 = fd_get (ps_fds (me w)) (child_out l) ∧
        ∀ n, n ≠ 0 → n ≠ 1 →
             fd_of p n = if decide (n = child_in l ∨ n = child_out l ∨ ol = false ∧ n = pd.2)
                         then None else fd_get (ps_fds (me w)) n)).
Proof.
  intros Hstd Hci Hco Hj Hne. unfold sys_fork.
  destruct (0 <? env_fork E (k_forks (kern w))) eqn:Hr.
  - set (ws := upd_me (set_pid _) (log _ (bump_forks w))).
    destruct (child_branch_spec E c ol pd l ws) as (tgt & wc & Hc & Hpc & _).
    pose proof (child_branch_fds c ol pd l ws Hstd Hci Hco Hj Hne) as Hfds.
    rewrite Hc in *. cbn [final_world] in *.
    eexists _, _. split; [reflexivity|]. split; [done|]. right.
    eexists. split; [unfold procs; simpl; rewrite Hpc; reflexivity|].
    intros Halive. unfold is_alive in Halive. simpl in Halive.
    apply Hfds. change (ps_cwd (me ws)) with (ps_cwd (me w)).
    destruct (env_execvp E (ps_cwd (me w)) (pgm_name c)) eqn:Hx; [|done].
    unfold terminate in Halive. by destruct (ps_sigchld (me w)).
  - eexists _, _. split; [reflexivity|]. split; [done|]. by left.
Qed.

Lemma run_stage_wire c ol pd l w :
  is_builtin c = false →
  std_open (ps_fds (me w)) →
  (child_in l = 0 ∨ 3 ≤ child_in l ∧ is_Some (fd_get (ps_fds (me w)) (child_in l))) →
  (child_out l = 1 ∨ 3 ≤ child_out l ∧ is_Some (fd_get (ps_fds (me w)) (child_out l))) →
  (ol = true ∨ 3 ≤ pd.2 ∧ pd.2 ≠ child_in l ∧ pd.2 ≠ child_out l) →
  child_in l ≠ child_out l →
  procs (final_world (run_stage E c ol pd l w)) = procs w ∨
  ∃ p, procs (final_world (run_stage E c ol pd l w)) = procs w ++ [p] ∧
    (is_alive p = true →
     fd_of p 0 = fd_get (ps_fds (me w)) (child_in l) ∧
     fd_of p 1 = fd_get (ps_fds (me w)) (child_out l) ∧
     ∀ n, n ≠ 0 → n ≠ 1 →
          fd_of p n = if decide (n = child_in l ∨ n = child_out l ∨ ol = false ∧ n = pd.2)
                      then None else fd_get (ps_fds (me w)) n).
Proof.
  intros Hb Hstd Hci Hco Hj Hne. apply orb_false_elim in Hb as [He Hc].
  unfold run_stage. rewrite He, Hc.
  destruct (fork_child_fds c ol pd l w Hstd Hci Hco Hj Hne) as (r & w2 & Hf & _ & Hp).
  destruct (guarded_close_fds (child_in l) STDIN_FILENO w2) as (w3 & H3 & Hk3 & _).
  destruct (guarded_close_fds (child_out l) STDOUT_FILENO w3) as (w4 & H4 & Hk4 & _).
  assert (Hfin : procs (final_world
            ((l1 <- (child <- sys_fork E (pgmlist c) (child_branch E c ol pd l);;
                     when (negb (child_in l =? STDIN_FILENO)) (sys_close (child_in l);; ret ());;
                     when (negb (child_out l =? STDOUT_FILENO)) (sys_close (child_out l);; ret ());;
                     ret (if negb ol
                          then set_child_out pd.2
                                 (set_command_pids
                                    (<[Z.to_nat (curr_command_index l):=child]> (command_pids l)) l)
                          else set_command_pids
                                 (<[Z.to_nat (curr_command_index l):=child]> (command_pids l)) l));;
              ret (set_curr_command_index (curr_command_index l1 + 1) l1)) w)) = procs w2).
  { unfold bind at 1 2. rewrite Hf. unfold bind at 1. rewrite H3.
    unfold bind at 1. rewrite H4. cbn [ret bind final_world].
    unfold procs. by rewrite Hk4, Hk3. }
  rewrite Hfin. exact Hp.
Qed.

Lemma sys_pipe_procs w : procs (final_world (sys_pipe E w)) = procs w.
Proof.
  unfold sys_pipe. destruct (env_pipe E _); [done|].
  destruct (fd_alloc (ps_fds (me w))); [|done]. by destruct (fd_alloc _).
Qed.

Lemma holds_only_high base t li co :
  holds_only base t li co →
  (li = 0 ∨ 3 ≤ li ∧ is_Some (fd_get t li)) ∧
  (co = 1 ∨ 3 ≤ co ∧ is_Some (fd_get t co)) ∧ li ≠ co.
Proof.
  intros (Hstd & _ & _ & Hli & Hco & Hne).
  assert (∀ fd x, fd_get base fd = None → fd_get t fd = Some x → 3 ≤ fd) as Hhigh.
  { intros fd x Hf Ho. apply fd_get_Some_nonneg in Ho.
    destruct Hstd as ((x0 & H0) & (x1 & H1) & (x2 & H2)).
    destruct (decide (fd = 0)) as [->|]; [congruence|].
    destruct (decide (fd = 1)) as [->|]; [congruence|].
    destruct (decide (fd = 2)) as [->|]; [congruence|]. lia. }
  assert (A : li = 0 ∨ 3 ≤ li ∧ is_Some (fd_get t li)).
  { destruct (decide (li = 0)) as [|H0]; [by left|right].
    destruct (Hli H0) as (Hf & (x & Ho)). split; [by eapply Hhigh|by eexists]. }
  assert (B : co = 1 ∨ 3 ≤ co ∧ is_Some (fd_get t co)).
  { destruct (decide (co = 1)) as [|H1]; [by left|right].
    destruct (Hco H1) as (Hf & (x & Ho)). split; [by eapply Hhigh|by eexists]. }
  split; [done|]. split; [done|].
  destruct A as [->|(A & _)], B as [->|(B & _)]; lia.
Qed.

(** One turn of the loop, seen from the child it forks. *)
Lemma stage_wire base c ol l w :
  is_builtin c = false →
  holds_only base (ps_fds (me w)) (last_in l) (child_out l) →
  procs (final_world (stage E c ol l w)) = procs w ∨
  ∃ l' w' p, stage E c ol l w = Ret (true, l') w' ∧ procs w' = procs w ++ [p] ∧
    (if ol then is_alive p = true → fd_of p 0 = fd_get (ps_fds (me w)) (last_in l)
     else last_in l' = last_in l ∧
          fd_get (ps_fds (me w')) (last_in l') = fd_get (ps_fds (me w)) (last_in l) ∧
          ∃ k, fd_get (ps_fds (me w')) (child_out l') = Some (PipeWr k) ∧
               (is_alive p = true → fd_of p 0 = Some (PipeRd k))) ∧
    (is_alive p = true →
     fd_of p 1 = fd_get (ps_fds (me w)) (child_out l) ∧
     ∀ n, n ≠ 0 → n ≠ 1 →
          fd_of p n = fd_get base n ∨
          n = last_in l ∧ fd_of p n = fd_get (ps_fds (me w)) (last_in l)).
Proof.
  intros Hb Hinv. pose proof (holds_only_std _ _ _ _ Hinv) as Hstd.
  destruct (holds_only_high _ _ _ _ Hinv) as (Hli3 & Hco3 & Hlico).
  destruct Hinv as (Hbase & Hlen & Hn & Hli & Hco & Hne).
  destruct ol.
  - unfold stage. cbn [negb].
    set (l1 := set_child_in (last_in l) l).
    destruct (run_stage_fds E c true (env_uninit E 0, env_uninit E 1) l1 w Hb)
      as (l' & w' & Hr & _).
    destruct (run_stage_wire c true (env_uninit E 0, env_uninit E 1) l1 w Hb Hstd
                Hli3 Hco3 (or_introl eq_refl) Hlico)
      as [Hp|(p & Hp & Hch)]; subst l1;
      rewrite Hr in Hp; simpl in Hp; unfold bind; rewrite Hr; simpl.
    + by left.
    + right. exists l', w', p. split; [done|]. split; [done|]. split.
      * intros Ha. by destruct (Hch Ha) as (H0 & _).
      * intros Ha. destruct (Hch Ha) as (_ & H1 & Hoth). split; [done|].
        intros n Hn0 Hn1. rewrite (Hoth n Hn0 Hn1). left.
        destruct (decide _) as [[->|[->|(? & _)]]|Hop]; [| |done|].
        -- symmetry. by apply Hli.
        -- symmetry. by apply Hco.
        -- apply Hn.
           ++ destruct (decide (last_in l = 0)); [by left|right]. intros ->.
              apply Hop. by left.
           ++ destruct (decide (child_out l = 1)); [by left|right]. intros ->.
              apply Hop. right. by left.
  - pose proof (sys_pipe_procs w) as Hpp.
    destruct (sys_pipe_fds E w Hstd)
      as [(junk & w1 & Hpi & Hf1)
         |(i & j & w1 & Hpi & Hi3 & Hj3 & Hij & Hfi & Hfj & Hl1 & Hoi & Hoj & Hk1)];
      rewrite Hpi in Hpp; cbn [final_world] in Hpp.
    + left.
      destruct (guarded_close_fds (child_out l) STDOUT_FILENO
                  (log (EvWrite (ps_pid (me w1)) STDERR_FILENO
                                (fd_get (ps_fds (me w1)) STDERR_FILENO) "Pipe failed") w1))
        as (w3 & H3 & Hk3 & _).
      assert (Hst : stage E c false l w = Ret (false, l) w3).
      { unfold stage. cbn [negb]. unfold bind at 1. rewrite Hpi. cbn [fst snd].
        simpl (-1 =? -1). cbv iota. unfold bind at 1. unfold fprintf_stderr, sys_write.
        unfold bind at 1. by rewrite H3. }
      rewrite Hst. simpl. unfold procs in *. by rewrite Hk3.
    + assert (Hst : stage E c false l w
                    = (l' <- run_stage E c false (i, j) (set_child_in i l);;
                       ret (true, l')) w1).
      { unfold stage. cbn [negb]. unfold bind at 1. by rewrite Hpi. }
      rewrite Hst. clear Hst.
      destruct (sys_pipe_objs w i j w1 Hpi) as (k & Hri & Hwj).
      set (l1 := set_child_in i l).
      assert (Hstd1 : std_open (ps_fds (me w1))).
      { unfold std_open. rewrite !Hk1 by lia. done. }
      assert (Hili : last_in l ≠ 0 → i ≠ last_in l).
      { intros H0 ->. destruct (Hli H0) as (_ & (? & Ho)). congruence. }
      assert (Hjli : last_in l ≠ 0 → j ≠ last_in l).
      { intros H0 ->. destruct (Hli H0) as (_ & (? & Ho)). congruence. }
      assert (Hico : child_out l ≠ 1 → i ≠ child_out l).
      { intros H0 ->. destruct (Hco H0) as (_ & (? & Ho)). congruence. }
      assert (Hjco : child_out l ≠ 1 → j ≠ child_out l).
      { intros H0 ->. destruct (Hco H0) as (_ & (? & Ho)). congruence. }
      assert (Hico' : i ≠ child_out l) by (destruct (decide (child_out l = 1)); [lia|auto]).
      assert (Hjco' : j ≠ child_out l) by (destruct (decide (child_out l = 1)); [lia|auto]).
      assert (Hili' : i ≠ last_in l) by (destruct (decide (last_in l = 0)); [lia|auto]).
      assert (Hjli' : j ≠ last_in l) by (destruct (decide (last_in l = 0)); [lia|auto]).
      assert (Hbi : fd_get base i = None).
      { rewrite <- Hn; [done|by right; apply Hili'|by right; apply Hico']. }
      assert (Hbj : fd_get base j = None).
      { rewrite <- Hn; [done|by right; apply Hjli'|by right; apply Hjco']. }
      destruct (run_stage_fds E c false (i, j) l1 w1 Hb)
        as (l' & w' & Hr & Hl' & Ho' & _ & _ & _ & Hk).
      assert (Hco1 : child_out l1 = 1 ∨
                     3 ≤ child_out l1 ∧ is_Some (fd_get (ps_fds (me w1)) (child_out l1))).
      { destruct Hco3 as [?|(? & Ho)]; [by left|right]. split; [done|].
        simpl. rewrite Hk1; [done|by apply not_eq_sym|by apply not_eq_sym]. }
      assert (Hci1 : child_in l1 = 0 ∨
                     3 ≤ child_in l1 ∧ is_Some (fd_get (ps_fds (me w1)) (child_in l1))).
      { right. split; [done|done]. }
      assert (Hj1 : false = true ∨ 3 ≤ (i, j).2 ∧ (i, j).2 ≠ child_in l1 ∧
                                   (i, j).2 ≠ child_out l1).
      { right. simpl. split; [done|]. split; [by apply not_eq_sym|done]. }
      destruct (run_stage_wire c false (i, j) l1 w1 Hb Hstd1 Hci1 Hco1 Hj1 Hico')
        as [Hp|(p & Hp & Hch)]; subst l1.
      { rewrite Hr in Hp. simpl in Hp. left. unfold bind. rewrite Hr. simpl. congruence. }
      rewrite Hr in Hp. simpl in Hp. right. unfold bind. rewrite Hr. simpl.
      exists l', w', p. split; [done|]. split; [congruence|].
      simpl in Hk, Ho', Hl'. split; [split; [done|split]|].
      * rewrite Hl'. rewrite Hk; [|by right; apply not_eq_sym|].
        -- rewrite Hk1; [done|by apply not_eq_sym|by apply not_eq_sym].
        -- destruct (decide (child_out l = 1)); [by left|right]. by apply not_eq_sym.
      * exists k. rewrite Ho'. split.
        -- rewrite Hk; [done|by right; apply not_eq_sym|].
           destruct (decide (child_out l = 1)); [by left|by right].
        -- intros Ha. destruct (Hch Ha) as (H0 & _). by rewrite H0.
      * intros Ha. destruct (Hch Ha) as (_ & H1 & Hoth). simpl in H1, Hoth. split.
        -- rewrite H1. apply Hk1; by apply not_eq_sym.
        -- intros n Hn0 Hn1. rewrite (Hoth n Hn0 Hn1).
           destruct (decide _) as [[->|[->|(_ & ->)]]|Hop].
           ++ left. by rewrite Hbi.
           ++ left. symmetry. by apply Hco.
           ++ left. by rewrite Hbj.
           ++ assert (n ≠ i ∧ n ≠ child_out l ∧ n ≠ j) as (A & B & C) by tauto.
              rewrite Hk1 by done.
              destruct (decide (n = last_in l)) as [->|Hnl]; [by right|left].
              apply Hn; [by right|by right].
Qed.

Lemma launch_one_procs c l w :
  procs (final_world (launch E [c] l w)) = procs (final_world (stage E c true l w)).
Proof.
  cbn [launch is_null]. unfold bind.
  destruct (stage E c true l w) as [[[] l'] w'|s w']; done.
Qed.

(** The loop, seen from the children it forks. *)
Lemma launch_wire base next : ∀ c l w,
  Forall (λ c, is_builtin c = false) (c :: next) →
  holds_only base (ps_fds (me w)) (last_in l) (child_out l) →
  ∃ news, procs (final_world (launch E (c :: next) l w)) = procs w ++ news ∧
    (length news ≤ length (c :: next))%nat ∧
    (length news = length (c :: next) → Forall (λ p, is_alive p = true) news →
     wired (fd_get (ps_fds (me w)) (child_out l))
           (fd_get (ps_fds (me w)) (last_in l)) news ∧
     Forall (λ p, ∀ n, n ≠ 0 → n ≠ 1 →
                  fd_of p n = fd_get base n ∨
                  n = last_in l ∧ fd_of p n = fd_get (ps_fds (me w)) (last_in l)) news).
Proof.
  induction next as [|c2 next IH]; intros c l w Hall Hinv;
    inversion Hall as [|? ? Hc Hrest]; subst.
  - rewrite launch_one_procs.
    destruct (stage_wire base c true l w Hc Hinv)
      as [Hp|(l' & w' & p & Hs & Hp & H0 & H1)].
    + exists []. rewrite app_nil_r. split; [done|]. split; [simpl; lia|done].
    + rewrite Hs. cbn [final_world]. exists [p]. split; [done|]. split; [done|].
      intros _ Ha. inversion Ha as [|? ? Hap _]; subst.
      destruct (H1 Hap) as (Ho & Hoth).
      split; [by split; [|apply H0]|]. constructor; [exact Hoth|constructor].
  - destruct (stage_fds E base c false l w Hc Hinv)
      as [(_ & w' & Hs)|(l' & w' & Hs & Hinv')].
    + exists []. rewrite app_nil_r. split; [|split; [simpl; lia|done]].
      destruct (stage_wire base c false l w Hc Hinv)
        as [Hp|(? & ? & ? & Hs' & _)]; [|congruence].
      cbn [launch is_null]. unfold bind. rewrite Hs in *. done.
    + destruct (IH c2 l' w' Hrest Hinv') as (news2 & Hp2 & Hlen2 & Hw2).
      assert (Hl : launch E (c :: c2 :: next) l w = launch E (c2 :: next) l' w').
      { cbn [launch is_null]. unfold bind at 1. by rewrite Hs. }
      rewrite Hl.
      destruct (stage_wire base c false l w Hc Hinv)
        as [Hp|(l'' & w'' & p & Hs' & Hp & (Hli & Hin & k & Hout & H0) & H1)].
      * rewrite Hs in Hp. cbn [final_world] in Hp.
        exists news2. split; [congruence|]. split; [simpl in *; lia|].
        intros Hlen. simpl in *. lia.
      * rewrite Hs in Hs'. injection Hs' as <- <-.
        exists (p :: news2). split; [by rewrite Hp2, Hp, <- app_assoc|].
        split; [simpl in *; lia|].
        intros Hlen Ha. inversion Ha as [|? ? Hap Ha2]; subst.
        destruct (Hw2 ltac:(simpl in *; lia) Ha2) as (Hwired & Hoth2).
        destruct (H1 Hap) as (Ho & Hoth).
        rewrite Hin, Hout, Hli in *.
        split; [|by constructor].
        destruct news2 as [|q rest]; [simpl in Hlen; lia|].
        split; [done|]. exists k. split; [by apply H0|done].
Qed.

Lemma redirect_input_obj cmd w li w' :
  redirect_input E cmd w = Ret (Some li) w' →
  procs w' = procs w ∧
  match rstdin cmd with
  | Some path => fd_get (ps_fds (me w)) li = None ∧
                 fd_get (ps_fds (me w')) li = Some (FileRd path)
  | None => li = 0 ∧ w' = w
  end.
Proof.
  unfold redirect_input. destruct (rstdin cmd) as [path|]; [|by intros [= <- <-]].
  unfold bind at 1, sys_open.
  destruct (env_open E _ _) as [e|].
  { simpl (-1 =? -1). cbv iota. unfold bind. by rewrite handle_file_error_eq. }
  destruct (fd_alloc _) as [i|] eqn:Hi.
  - rewrite of_nat_eqb_m1. intros [= <- <-]. split; [done|]. simpl.
    split; [by apply fd_alloc_free|]. apply fd_get_insert_eq. by eapply fd_alloc_lt.
  - simpl (-1 =? -1). cbv iota. unfold bind. by rewrite handle_file_error_eq.
Qed.

Lemma redirect_output_obj cmd li w co w' :
  redirect_output E cmd li w = Ret (Some co) w' →
  procs w' = procs w ∧
  (∀ n, n ≠ co → fd_get (ps_fds (me w')) n = fd_get (ps_fds (me w)) n) ∧
  match rstdout cmd with
  | Some path => fd_get (ps_fds (me w')) co = Some (FileWr path)
  | None => co = 1 ∧ w' = w
  end.
Proof.
  unfold redirect_output. destruct (rstdout cmd) as [path|]; [|by intros [= <- <-]].
  assert (Hfail : ∀ w1, (handle_file_error;;
                         when (negb (li =? STDIN_FILENO)) (sys_close li;; ret ());;
                         ret (None : option Z)) w1 ≠ Ret (Some co) w').
  { intros w1. unfold bind at 1. rewrite handle_file_error_eq.
    destruct (guarded_close_fds li STDIN_FILENO
                (log (EvWrite (ps_pid (me w1)) STDERR_FILENO
                              (fd_get (ps_fds (me w1)) 2)
                              (file_error_text (ps_errno (me w1)))) w1))
      as (w3 & H3 & _).
    unfold bind at 1. rewrite H3. done. }
  unfold bind at 1, sys_creat.
  destruct (env_creat E _ _) as [e|].
  { simpl (-1 =? -1). cbv iota. intros H. by apply Hfail in H. }
  destruct (fd_alloc _) as [i|] eqn:Hi.
  - rewrite of_nat_eqb_m1. intros [= <- <-]. split; [done|]. simpl. split.
    + intros n Hn. apply fd_get_insert_ne. lia.
    + apply fd_get_insert_eq. by eapply fd_alloc_lt.
  - simpl (-1 =? -1). cbv iota. intros H. by apply Hfail in H.
Qed.

Lemma wired_view out : ∀ inp ps qs,
  map proc_view ps = map proc_view qs → wired out inp ps → wired out inp qs.
Proof.
  intros inp ps. revert out. induction ps as [|p ps IH]; intros out [|q qs] Hv; try done.
  injection Hv as Ha Hs Ht Hv. unfold fd_of in *. simpl. unfold fd_of. rewrite <- Hs.
  intros (Ho & Hrest). split; [done|].
  destruct ps as [|p2 ps], qs as [|q2 qs]; try done.
  destruct Hrest as (k & Hk & Hw). exists k. split; [done|]. by apply IH.
Qed.

Lemma alive_view p q : proc_view p = proc_view q → is_alive p = is_alive q.
Proof.
  intros [= _ _ Ht]. unfold is_alive, termination_of in *.
  destruct (p_status p), (p_status q); done.
Qed.

Lemma Forall_proc_view (P Q : proc → Prop) ps qs :
  (∀ p q, proc_view p = proc_view q → P p → Q q) →
  map proc_view ps = map proc_view qs → Forall P ps → Forall Q qs.
Proof.
  intros HPQ. revert qs. induction ps as [|p ps IH]; intros [|q qs] Hv; try done.
  injection Hv as Ha Hs Ht Hv. intros HF. inversion HF; subst.
  constructor; [|by apply IH].
  apply (HPQ p q); [|done]. unfold proc_view. by rewrite Ha, Hs, Ht.
Qed.

(** X17.  A pipeline of external commands is wired as the command line asks.
    When every stage was forked and has launched its program, the children
    are the stages in the order of the list; the child of the first stage of
    the list writes to the output file, or to the standard output of the
    interpreter; every child reads from the pipe that the child of the next
    stage writes to, and the last one from the input file, or from the
    standard input of the interpreter.  The other descriptors of a child are
    as the interpreter had them before the command, so no child keeps an
    end of a pipe it does not use; but a child may still hold the input file
    that is meant for the last one. *)
Theorem pipeline_is_wired pr cmd w :
  std_open (ps_fds (me w)) →
  Forall (λ c, is_builtin c = false) (pgm cmd) →
  length (spawned w (final_world (RunCommand E pr cmd w))) = length (pgm cmd) →
  Forall (λ p, is_alive p = true) (spawned w (final_world (RunCommand E pr cmd w))) →
  map p_argv (spawned w (final_world (RunCommand E pr cmd w))) = map pgmlist (pgm cmd) ∧
  wired (pipeline_out cmd w) (pipeline_in cmd w)
        (spawned w (final_world (RunCommand E pr cmd w))) ∧
  Forall (λ p, ∀ n, n ≠ 0 → n ≠ 1 →
               fd_of p n = fd_get (ps_fds (me w)) n ∨
               ∃ path, rstdin cmd = Some path ∧ fd_of p n = Some (FileRd path))
         (spawned w (final_world (RunCommand E pr cmd w))).
Proof.
  intros Hstd Hall.
  assert (Hnone : ∀ w', procs w' = procs w → spawned w w' = []).
  { intros w' Hp. unfold spawned. rewrite Hp. by apply drop_all. }
  assert (Hempty : ∀ w', spawned w w' = [] →
            length (spawned w w') = length (pgm cmd) →
            Forall (λ p, is_alive p = true) (spawned w w') →
            map p_argv (spawned w w') = map pgmlist (pgm cmd) ∧
            wired (pipeline_out cmd w) (pipeline_in cmd w) (spawned w w') ∧
            Forall (λ p, ∀ n, n ≠ 0 → n ≠ 1 →
                         fd_of p n = fd_get (ps_fds (me w)) n ∨
                         ∃ path, rstdin cmd = Some path ∧ fd_of p n = Some (FileRd path))
                   (spawned w w')).
  { intros w' -> Hlen _. destruct (pgm cmd); [|done]. by repeat split. }
  destruct (redirect_input_fds E cmd w Hstd) as (ri & w1 & evs1 & Hi & _ & _ & Hr1).
  destruct (redirect_input_spec E cmd w) as (ri' & w1' & Hi' & Hp1 & _).
  rewrite Hi in Hi'. injection Hi' as <- <-.
  destruct ri as [li|].
  2:{ assert (HR : RunCommand E pr cmd w = Ret tt w1).
      { unfold RunCommand. unfold bind at 1. by rewrite Hi. }
      rewrite HR. by apply Hempty, Hnone. }
  destruct (redirect_output_fds E _ cmd li w1 Hr1) as (ro & w2 & evs2 & Ho & _ & _ & Hr2).
  destruct (redirect_output_spec E cmd li w1) as (ro' & w2' & Ho' & Hp2 & _).
  rewrite Ho in Ho'. injection Ho' as <- <-.
  assert (Hpw : procs w2 = procs w) by congruence.
  destruct ro as [co|].
  2:{ assert (HR : RunCommand E pr cmd w = Ret tt w2).
      { unfold RunCommand. unfold bind at 1. rewrite Hi. unfold bind at 1. by rewrite Ho. }
      rewrite HR. by apply Hempty, Hnone. }
  set (l0 := mkLocals (CountCommands (pgm cmd)) (malloc E (CountCommands (pgm cmd)))
                      0 li STDIN_FILENO co).
  assert (HR : RunCommand E pr cmd w = (l <- launch E (pgm cmd) l0;; complete cmd l) w2).
  { unfold RunCommand. unfold bind at 1. rewrite Hi. unfold bind at 1. by rewrite Ho. }
  rewrite HR. clear HR.
  destruct (redirect_input_obj cmd w li w1 Hi) as (_ & Hin).
  destruct (redirect_output_obj cmd li w1 co w2 Ho) as (_ & Hkeep & Hout).
  destruct (holds_only_high _ _ _ _ Hr1) as (Hli & _ & _).
  destruct (holds_only_high _ _ _ _ Hr2) as (_ & Hco & Hlico).
  subst l0. destruct (pgm cmd) as [|c next] eqn:Hpgm.
  { set (l0 := mkLocals _ _ _ _ _ _).
    apply Hempty. cbn [launch]. unfold bind. simpl.
    pose proof (spawned_view w w2 _ (complete_view cmd l0 w2)) as Hv.
    rewrite (Hnone w2 Hpw) in Hv. by apply map_eq_nil in Hv. }
  set (l0 := mkLocals _ _ _ _ _ _).
  destruct (launch_fds E _ next c l0 w2 Hall Hr2) as (l' & wl & _ & Hl & _).
  destruct (launch_wire _ next c l0 w2 Hall Hr2) as (news & Hpl & _ & Hw).
  destruct (launch_argv E _ _ _ _ (launch_sound E (c :: next) l0 w2))
    as (news' & Hpl' & Hsub).
  assert (news' = news) as -> by (apply (app_inv_head (procs w2)); congruence).
  unfold bind. rewrite Hl in *. cbn [final_world] in *.
  rewrite Hpw in Hpl.
  pose proof (spawned_view w wl _ (complete_view cmd l' wl)) as Hv.
  rewrite (spawned_app _ _ _ Hpl) in Hv.
  set (sp := spawned w (final_world (complete cmd l' wl))) in *.
  intros Hlen Ha.
  assert (Hlen' : length news = length (c :: next)).
  { rewrite <- Hlen, <- (length_map proc_view news), <- Hv. by rewrite length_map. }
  assert (Ha' : Forall (λ p, is_alive p = true) news).
  { apply (Forall_proc_view (λ p, is_alive p = true) _ sp news); [|done|done].
    intros p q Hpq. by rewrite (alive_view p q Hpq). }
  destruct (Hw Hlen' Ha') as (Hwired & Hoth). simpl in Hwired, Hoth.
  assert (Hobj_in : fd_get (ps_fds (me w2)) li = pipeline_in cmd w).
  { rewrite Hkeep by done. unfold pipeline_in.
    destruct (rstdin cmd) as [path|]; [by destruct Hin|]. by destruct Hin as (-> & ->). }
  assert (Hobj_out : fd_get (ps_fds (me w2)) co = pipeline_out cmd w).
  { unfold pipeline_out. destruct (rstdout cmd) as [path|]; [done|].
    destruct Hout as (-> & ->).
    destruct Hr1 as (_ & _ & Hn1 & _). apply Hn1; [|by left].
    destruct Hli as [?|(? & _)]; [by left|right; unfold STDOUT_FILENO; lia]. }
  rewrite Hobj_in, Hobj_out in *.
  split; [|split].
  - apply sublist_full in Hsub; [|by rewrite !length_map].
    rewrite <- Hsub.
    transitivity (map (λ v : list string * pstate * option termination, v.1.1)
                      (map proc_view sp)); [by rewrite map_map|].
    rewrite Hv. by rewrite map_map.
  - by apply (wired_view _ _ news sp).
  - apply (Forall_proc_view
             (λ p, ∀ n, n ≠ 0 → n ≠ 1 →
                   fd_of p n = fd_get (ps_fds (me w)) n ∨
                   n = li ∧ fd_of p n = pipeline_in cmd w) _ news sp); [|done|done].
    intros p q [= _ Hs _] HP n Hn0 Hn1. unfold fd_of in *. rewrite <- Hs.
    destruct (HP n Hn0 Hn1) as [?|(-> & Hf)]; [by left|right].
    unfold pipeline_in in Hf. destruct (rstdin cmd) as [path|]; [by exists path|].
    by destruct Hin as (? & _).
Qed.

End Wiring.

(** ** The array of pids after a pipe has failed *)

Section UnwrittenPids.
Variable E : Env.

Lemma fork_results_none evs : Forall (λ e, ¬ fork_event e) evs → fork_results evs = [].
Proof.
  induction 1 as [|e evs He _ IH]; [done|].
  destruct e; simpl in He; try tauto; exact IH.
Qed.

Lemma waitpid_targets_none evs :
  Forall (λ e, ¬ waitpid_event e) evs → waitpid_targets evs = [].
Proof.
  induction 1 as [|e evs He _ IH]; [done|].
  destruct e; simpl in He; try tauto; exact IH.
Qed.

(** A turn of the loop for a stage that is not built in enters what [fork]
    returned in the array. *)
Lemma stage_written c ol l w l1 w1 :
  stage_spec E c ol l w (Ret (true, l1) w1) → is_builtin c = false →
  ∃ evs r, events w1 = events w ++ evs ∧ fork_results evs = [r] ∧
    Forall (λ e, ¬ pipe_failure e) evs ∧
    command_counter l1 = command_counter l ∧
    command_pids l1 = <[Z.to_nat (curr_command_index l):=r]> (command_pids l) ∧
    curr_command_index l1 = curr_command_index l + 1.
Proof.
  intros Hs Hb. inversion Hs; subst.
  - match goal with H : pgm_name c = "cd" |- _ =>
      unfold is_builtin in Hb; rewrite H in Hb; done end.
  - eexists _, (-1). split; [eassumption|]. split; [by destruct ol|].
    split; [|done]. destruct ol; repeat constructor; simpl; first [tauto|lia].
  - eexists _, (p_pid p). split; [eassumption|].
    split; [by destruct ol, (env_execvp E _ _)|]. split; [|done].
    destruct ol, (env_execvp E _ _); repeat constructor; simpl; first [tauto|lia].
Qed.

(** The loop enters what the calls of [fork] returned, from the index it
    starts at; the count of commands stays; and when a pipe has failed, a
    stage is left without an entry. *)
Lemma launch_written pgm l w r :
  launch_spec E pgm l w r →
  Forall (λ c, is_builtin c = false) pgm →
  0 ≤ curr_command_index l →
  (Z.to_nat (curr_command_index l) + length pgm ≤ length (command_pids l))%nat →
  ∀ l' w', r = Ret l' w' →
  ∃ evs, events w' = events w ++ evs ∧
    (length (fork_results evs) ≤ length pgm)%nat ∧
    command_counter l' = command_counter l ∧
    command_pids l'
    = take (Z.to_nat (curr_command_index l)) (command_pids l) ++ fork_results evs
      ++ drop (Z.to_nat (curr_command_index l) + length (fork_results evs))
              (command_pids l) ∧
    (Exists pipe_failure evs → (length (fork_results evs) < length pgm)%nat).
Proof.
  induction 1 as [l w|c next l w l1 w1 r Hs Hl IH|c next l w w1 Hs|c next l w s w1 Hs];
    intros Hall Hidx Hroom l' w' Hr.
  - injection Hr as <- <-. exists []. rewrite app_nil_r. simpl.
    split; [done|]. split; [done|]. split; [done|].
    split; [by rewrite Nat.add_0_r, take_drop|]. by intros ?%Exists_nil.
  - inversion Hall as [|? ? Hc Hrest]; subst.
    destruct (stage_written _ _ _ _ _ _ Hs Hc) as (evs1 & r1 & Hev1 & Hf1 & Hnp & Hcnt & Hp & Hi).
    destruct (IH Hrest) with (l' := l') (w' := w') as (evs2 & Hev2 & Hlen2 & Hcnt2 & Hp2 & Hpf);
      [lia| |done|].
    { rewrite Hp, Hi, length_insert, Z_to_nat_succ by done. simpl in Hroom. lia. }
    exists (evs1 ++ evs2). unfold fork_results in *. rewrite omap_app, Hf1.
    split; [by rewrite Hev2, Hev1, app_assoc|]. split; [simpl; lia|].
    split; [congruence|]. split.
    + rewrite Hp2, Hp, Hi, Z_to_nat_succ by done.
      set (i := Z.to_nat (curr_command_index l)) in *. simpl in Hroom.
      rewrite (take_S_r _ _ r1) by (apply list_lookup_insert_eq; lia).
      rewrite take_insert_ge by lia. rewrite drop_insert_lt by lia.
      simpl. rewrite <- app_assoc. simpl.
      by replace (i + S (length (omap _ evs2)))%nat
        with (S (i + length (omap (λ e, match e with EvFork _ r => Some r | _ => None end)
                                  evs2)))%nat by lia.
    + intros Hex. apply Exists_app in Hex as [Hex|Hex].
      * exfalso. apply Exists_exists in Hex as (e & He & Hpe).
        rewrite Forall_forall in Hnp. by apply (Hnp e).
      * specialize (Hpf Hex). simpl. lia.
  - injection Hr as <- <-. inversion Hs as [? ? ? Hev| | | |]; subst.
    eexists. split; [exact Hev|]. simpl.
    split; [lia|]. split; [done|]. split; [by rewrite Nat.add_0_r, take_drop|].
    intros _. lia.
  - done.
Qed.

Lemma sys_waitpid_target target w r w' :
  sys_waitpid target w = Ret (Some r) w' →
  ∃ e, events w' = events w ++ [e] ∧ waitpid_targets [e] = [target].
Proof.
  unfold sys_waitpid. destruct (reap_first _ _) as [[pid ps']|].
  - intros [= <- <-]. by eexists.
  - destruct (existsb _ _); [done|]. intros [= <- <-]. by eexists.
Qed.

(** A wait that comes back has called [waitpid] once for every index from
    [i] up to the count, with the entry of the array at that index. *)
Lemma wait_children_targets n : ∀ pids count i w w',
  wait_children n pids count i w = Ret tt w' →
  (Z.to_nat (count - i) ≤ n)%nat → 0 ≤ i →
  ∃ evs, events w' = events w ++ evs ∧
    waitpid_targets evs
    = map (λ j, default 0 (pids !! j)) (seq (Z.to_nat i) (Z.to_nat (count - i))).
Proof.
  induction n as [|n IH]; intros pids count i w w' Hw Hn Hi.
  - injection Hw as <-. exists []. rewrite app_nil_r. split; [done|].
    by replace (Z.to_nat (count - i)) with 0%nat by lia.
  - simpl in Hw. destruct (i <? count) eqn:Hlt.
    + apply Z.ltb_lt in Hlt. unfold bind in Hw.
      destruct (sys_waitpid _ w) as [[r|] w1|s w1] eqn:Hs; [|done|done].
      destruct (sys_waitpid_target _ _ _ _ Hs) as (e & Hev1 & Ht1).
      destruct (IH pids count (i + 1) w1 w' Hw) as (evs & Hev & Ht); [lia|lia|].
      exists (e :: evs). split; [by rewrite Hev, Hev1, <- app_assoc|].
      replace (Z.to_nat (count - i)) with (S (Z.to_nat (count - (i + 1)))) by lia.
      simpl. rewrite <- Z_to_nat_succ by done. rewrite <- Ht.
      unfold waitpid_targets in *. simpl in *.
      destruct e; simpl in *; try done. by injection Ht1 as ->.
    + apply Z.ltb_ge in Hlt. injection Hw as <-. exists []. rewrite app_nil_r.
      split; [done|]. by replace (Z.to_nat (count - i)) with 0%nat by lia.
Qed.

Lemma complete_targets cmd l w w' :
  background cmd = false → complete cmd l w = Ret tt w' →
  ∃ evs, events w' = events w ++ evs ∧
    waitpid_targets evs
    = map (λ j, default 0 (command_pids l !! j)) (seq 0 (Z.to_nat (command_counter l))).
Proof.
  intros Hbg. unfold complete. rewrite Hbg. simpl.
  set (w0 := upd_me (set_sigint (SIG_FN KillChildrenOnSignal_fn))
               (upd_me (set_numChildren (command_counter l))
                  (upd_me (set_children (command_pids l)) w))).
  change ((modify (upd_me (set_children (command_pids l)));;
           modify (upd_me (set_numChildren (command_counter l)));;
           sys_signal SIGINT (SIG_FN KillChildrenOnSignal_fn);;
           foreground_wait (command_pids l) (command_counter l) 0) w)
    with (foreground_wait (command_pids l) (command_counter l) 0 w0).
  unfold foreground_wait. unfold bind at 1.
  destruct (wait_children _ _ _ _ w0) as [[] w1|s w1] eqn:Hw; [|done].
  intros [= <-].
  destruct (wait_children_targets _ _ _ _ _ _ Hw) as (evs & Hev & Ht); [lia|lia|].
  exists evs. split; [exact Hev|]. by rewrite Z.sub_0_r in Ht.
Qed.

Lemma entries_in_order (pids : list Z) :
  map (λ j, default 0 (pids !! j)) (seq 0 (length pids)) = pids.
Proof.
  induction pids as [|x pids IH]; [done|].
  simpl. f_equal. rewrite <- seq_shift, map_map. exact IH.
Qed.

(** X18.  After a pipe has failed the interpreter waits for pids it never
    wrote.  For a foreground command without built-in stages, the array
    [command_pids], which [children] points to, then holds what the calls of
    [fork] returned, followed by at least one entry that is as [malloc] left
    it; the count of commands is still that of all the stages, so the wait
    goes through these entries too: when [RunCommand] comes back it has
    called [waitpid] on every one of them, and otherwise it is blocked in a
    wait over the whole array. *)
Theorem pipe_failure_waits_on_unwritten_pids pr cmd w :
  background cmd = false →
  Forall (λ c, is_builtin c = false) (pgm cmd) →
  (∃ e, e ∈ new_events w (final_world (RunCommand E pr cmd w)) ∧ pipe_failure e) →
  ∃ written rest,
    written = fork_results (new_events w (final_world (RunCommand E pr cmd w))) ∧
    rest = drop (length written) (malloc E (CountCommands (pgm cmd))) ∧
    rest ≠ [] ∧
    children (me (final_world (RunCommand E pr cmd w))) = written ++ rest ∧
    ((∃ w', RunCommand E pr cmd w = Ret tt w' ∧
            waitpid_targets (new_events w w') = written ++ rest) ∨
     (∃ j w', RunCommand E pr cmd w
              = Stop (StWait (mkFrame (written ++ rest) (CountCommands (pgm cmd)) j)) w')).
Proof.
  intros Hbg Hall (e & He & Hpe).
  destruct (RunCommand_cases E pr cmd w)
    as [(w' & HR & _ & _ & (evs & Hev & _ & (pre' & e0 & d & -> & Hpre & _ & Hnp & Hd)))
       |(li & co & wr & _ & _ & _ & (evs0 & Hev0 & Hset & _) & _ & HR)].
  { exfalso. rewrite HR in He. simpl in He. rewrite (new_events_app _ _ _ Hev) in He.
    apply elem_of_app in He as [He|He].
    - rewrite Forall_forall in Hpre. destruct (Hpre e He) as (_ & Hns).
      by apply Hns, pipe_failure_setup.
    - apply elem_of_cons in He as [->|He]; [done|].
      apply list_elem_of_singleton in He as ->. by destruct d. }
  set (l0 := mkLocals _ _ _ _ _ _) in *.
  pose proof (launch_sound E (pgm cmd) l0 wr) as Hl.
  destruct (launch_frame E _ _ _ _ Hl) as (_ & _ & (evsL & HevL & Hle) & Hres).
  destruct Hres as [(l' & wl & Hr)|(wl & Hr)].
  2:{ rewrite Hr in Hl. destruct (launch_stop_exit E _ _ _ _ _ Hl) as (_ & c & Hc & Hn).
      rewrite Forall_forall in Hall. specialize (Hall c Hc).
      unfold is_builtin in Hall. rewrite Hn in Hall. done. }
  rewrite Hr in HevL. cbn [final_world] in HevL.
  destruct (launch_written _ _ _ _ Hl Hall) with (l' := l') (w' := wl)
    as (evsL' & HevL' & Hlen & Hcnt & Hp & Hpf); [done| |done|].
  { simpl. rewrite malloc_length, CountCommands_length. lia. }
  assert (evsL' = evsL) as -> by (apply (app_inv_head (events wr)); congruence).
  simpl in Hcnt, Hp. rewrite drop_0 in Hp || idtac.
  pose proof (complete_spec cmd l' wl) as Hc. rewrite Hbg in Hc.
  destruct Hc as (w' & (_ & (waits & Hevw & Hwaits) & Hme & _) & Hc).
  assert (Hch : children (me w') = command_pids l') by (destruct Hme as (_ & _ & _ & ? & _); done).
  assert (Hall_ev : events w' = events w ++ evs0 ++ evsL ++ waits).
  { transitivity (events wl ++ waits); [exact Hevw|].
    rewrite HevL, Hev0, <- !app_assoc. done. }
  assert (Hf0 : fork_results evs0 = []).
  { apply fork_results_none. eapply Forall_impl; [exact Hset|]. intros x; destruct x; simpl; tauto. }
  assert (Hfw : fork_results waits = []).
  { apply fork_results_none. eapply Forall_impl; [exact Hwaits|]. intros x; destruct x; simpl; tauto. }
  assert (Hfr : fork_results (evs0 ++ evsL ++ waits) = fork_results evsL).
  { unfold fork_results in *. by rewrite !omap_app, Hf0, Hfw, app_nil_r. }
  assert (Hfail : Exists pipe_failure evsL).
  { apply Exists_exists. exists e. split; [|done].
    assert (Hin : e ∈ evs0 ++ evsL ++ waits).
    { destruct Hc as [Hc|(j & _ & Hc)]; rewrite HR in He; unfold bind in He;
        rewrite Hr, Hc in He; unfold new_events, events in *; simpl in He;
        rewrite Hall_ev, drop_app_length in He; exact He. }
    rewrite !elem_of_app in Hin. destruct Hin as [Hin|[Hin|Hin]]; [|done|].
    - rewrite Forall_forall in Hset. specialize (Hset e Hin). by destruct e.
    - rewrite Forall_forall in Hwaits. specialize (Hwaits e Hin). by destruct e. }
  specialize (Hpf Hfail).
  assert (Hnew : ∀ wf, events wf = events w' →
            fork_results (new_events w wf) = fork_results evsL).
  { intros wf Hwf. rewrite <- Hwf in Hall_ev. by rewrite (new_events_app _ _ _ Hall_ev). }
  assert (Hrest : drop (length (fork_results evsL)) (malloc E (CountCommands (pgm cmd))) ≠ []).
  { intros Hnil. apply (f_equal length) in Hnil.
    rewrite length_drop, malloc_length, CountCommands_length in Hnil. simpl in Hnil. lia. }
  exists (fork_results evsL), (drop (length (fork_results evsL))
                                 (malloc E (CountCommands (pgm cmd)))).
  destruct Hc as [Hc|(j & Hj & Hc)].
  - assert (HRe : RunCommand E pr cmd w
                  = Ret tt (upd_me (set_sigint SIG_IGN) (upd_me (set_numChildren 0) w'))).
    { rewrite HR. unfold bind. by rewrite Hr, Hc. }
    rewrite HRe. cbn [final_world].
    split; [by rewrite Hnew|]. split; [done|]. split; [done|].
    split; [simpl; by rewrite Hch, Hp|].
    left. eexists. split; [done|].
    destruct (complete_targets cmd l' wl _ Hbg Hc) as (waits' & Hevw' & Ht).
    assert (waits' = waits) as ->.
    { apply (app_inv_head (events wl)). rewrite <- Hevw'. exact Hevw. }
    assert (Hwt : waitpid_targets (evs0 ++ evsL) = []).
    { apply waitpid_targets_none. apply Forall_app. split.
      - eapply Forall_impl; [exact Hset|]. intros x; destruct x; simpl; tauto.
      - eapply Forall_impl; [exact Hle|]. intros x; destruct x; simpl; tauto. }
    assert (Hev_f : events (upd_me (set_sigint SIG_IGN) (upd_me (set_numChildren 0) w'))
                    = events w ++ (evs0 ++ evsL) ++ waits).
    { rewrite <- app_assoc. exact Hall_ev. }
    rewrite (new_events_app _ _ _ Hev_f).
    unfold waitpid_targets in *. rewrite omap_app, Hwt, Ht. simpl.
    rewrite Hcnt, Hp. simpl.
    set (pids := fork_results evsL ++ _).
    replace (Z.to_nat (CountCommands (pgm cmd))) with (length pids); [apply entries_in_order|].
    subst pids. rewrite length_app, length_drop, malloc_length, CountCommands_length. lia.
  - assert (HRe : RunCommand E pr cmd w
                  = Stop (StWait (mkFrame (command_pids l') (command_counter l') j)) w').
    { rewrite HR. unfold bind. by rewrite Hr, Hc. }
    rewrite HRe. cbn [final_world].
    split; [by rewrite Hnew|]. split; [done|]. split; [done|].
    split; [by rewrite Hch, Hp|].
    right. exists j, w'. by rewrite Hp, Hcnt.
Qed.

End UnwrittenPids.

(** ** The descriptors after a pipe has failed *)

Section BrokenPipe.
Variable E : Env.

(** A turn of the loop that goes on leaves the input of the pipeline
    open, on the same descriptor. *)
Lemma stage_keeps_input base c l w l' w' :
  is_builtin c = false →
  holds_only base (ps_fds (me w)) (last_in l) (child_out l) →
  stage E c false l w = Ret (true, l') w' →
  last_in l' = last_in l ∧
  fd_get (ps_fds (me w')) (last_in l) = fd_get (ps_fds (me w)) (last_in l).
Proof.
  intros Hb Hinv Hs. pose proof (holds_only_std _ _ _ _ Hinv) as Hstd.
  destruct (holds_only_high _ _ _ _ Hinv) as (Hli3 & Hco3 & Hlico).
  destruct Hinv as (Hbase & Hlen & Hn & Hli & Hco & Hne).
  destruct (sys_pipe_fds E w Hstd)
    as [(junk & w1 & Hpi & Hf1)
       |(i & j & w1 & Hpi & Hi3 & Hj3 & Hij & Hfi & Hfj & Hl1 & Hoi & Hoj & Hk1)].
  - exfalso. revert Hs. unfold stage. cbn [negb]. unfold bind at 1. rewrite Hpi.
    cbn [fst snd]. simpl (-1 =? -1). cbv iota. unfold bind at 1.
    unfold fprintf_stderr, sys_write.
    destruct (guarded_close_fds (child_out l) STDOUT_FILENO
                (log (EvWrite (ps_pid (me w1)) STDERR_FILENO
                              (fd_get (ps_fds (me w1)) STDERR_FILENO) "Pipe failed") w1))
      as (w3 & H3 & _).
    unfold bind at 1. by rewrite H3.
  - assert (Hst : stage E c false l w
                  = (l' <- run_stage E c false (i, j) (set_child_in i l);;
                     ret (true, l')) w1).
    { unfold stage. cbn [negb]. unfold bind at 1. by rewrite Hpi. }
    rewrite Hst in Hs. clear Hst.
    destruct (run_stage_fds E c false (i, j) (set_child_in i l) w1 Hb)
      as (l2 & w2 & Hr & Hl' & _ & _ & _ & _ & Hk).
    unfold bind in Hs. rewrite Hr in Hs. injection Hs as <- <-.
    simpl in Hl', Hk. split; [done|].
    assert (Hili : i ≠ last_in l).
    { intros ->. destruct Hli3 as [?|(_ & (? & Ho))]; [lia|congruence]. }
    assert (Hjli : j ≠ last_in l).
    { intros ->. destruct Hli3 as [?|(_ & (? & Ho))]; [lia|congruence]. }
    rewrite Hk; [|by right; apply not_eq_sym|].
    + apply Hk1; by apply not_eq_sym.
    + destruct (decide (child_out l = 1)); [by left|by right].
Qed.

(** A turn of the loop that is left because the pipe failed closes the
    output it holds, and nothing else. *)
Lemma stage_break_fds base c l w w' :
  is_builtin c = false →
  holds_only base (ps_fds (me w)) (last_in l) (child_out l) →
  stage E c false l w = Ret (false, l) w' →
  holds_only base (ps_fds (me w')) (last_in l) 1 ∧
  fd_get (ps_fds (me w')) (last_in l) = fd_get (ps_fds (me w)) (last_in l).
Proof.
  intros Hb Hinv Hs. pose proof (holds_only_std _ _ _ _ Hinv) as Hstd.
  destruct (holds_only_high _ _ _ _ Hinv) as (Hli3 & Hco3 & Hlico).
  destruct Hinv as (Hbase & Hlen & Hn & Hli & Hco & Hne).
  destruct (sys_pipe_fds E w Hstd)
    as [(junk & w1 & Hpi & Hf1)
       |(i & j & w1 & Hpi & Hi3 & Hj3 & Hij & Hfi & Hfj & Hl1 & Hoi & Hoj & Hk1)].
  - destruct (guarded_close_fds (child_out l) STDOUT_FILENO
                (log (EvWrite (ps_pid (me w1)) STDERR_FILENO
                              (fd_get (ps_fds (me w1)) STDERR_FILENO) "Pipe failed") w1))
      as (w3 & H3 & _ & Hl3 & Hc3 & Hn3).
    assert (Hst : stage E c false l w = Ret (false, l) w3).
    { unfold stage. cbn [negb]. unfold bind at 1. rewrite Hpi. cbn [fst snd].
      simpl (-1 =? -1). cbv iota. unfold bind at 1. unfold fprintf_stderr, sys_write.
      unfold bind at 1. by rewrite H3. }
    rewrite Hst in Hs. injection Hs as <-.
    simpl in Hl3, Hn3. rewrite Hf1 in Hl3, Hn3. unfold STDOUT_FILENO in *.
    assert (Hkeep : fd_get (ps_fds (me w3)) (last_in l)
                    = fd_get (ps_fds (me w)) (last_in l)).
    { apply Hn3. by left. }
    split; [|done].
    split; [done|]. split; [congruence|]. split; [|split; [|split]].
    + intros n Hnl _.
      destruct (decide (child_out l ≠ 1 ∧ n = child_out l)) as [[H1 ->]|Hno].
      * rewrite Hc3 by done. symmetry. by apply Hco.
      * assert (child_out l = 1 ∨ n ≠ child_out l) as Hb'.
        { destruct (decide (child_out l = 1)); [by left|right]. intros ->. by apply Hno. }
        rewrite Hn3 by (destruct Hb'; [by right|by left]). by apply Hn.
    + intros H0. destruct (Hli H0) as (Hfree & Hopen). split; [done|]. by rewrite Hkeep.
    + done.
    + done.
  - exfalso.
    assert (Hst : stage E c false l w
                  = (l' <- run_stage E c false (i, j) (set_child_in i l);;
                     ret (true, l')) w1).
    { unfold stage. cbn [negb]. unfold bind at 1. by rewrite Hpi. }
    rewrite Hst in Hs.
    destruct (run_stage_fds E c false (i, j) (set_child_in i l) w1 Hb)
      as (l2 & w2 & Hr & _).
    unfold bind in Hs. by rewrite Hr in Hs.
Qed.

(** The loop when a pipe has failed: the interpreter is left with the input
    of the pipeline, and with nothing else it did not have before. *)
Lemma launch_fds_broken base next : ∀ c l w,
  Forall (λ c, is_builtin c = false) (c :: next) →
  holds_only base (ps_fds (me w)) (last_in l) (child_out l) →
  ∃ l' w' evs, launch E (c :: next) l w = Ret l' w' ∧
    events w' = events w ++ evs ∧
    (Exists pipe_failure evs →
     holds_only base (ps_fds (me w')) (last_in l) 1 ∧
     fd_get (ps_fds (me w')) (last_in l) = fd_get (ps_fds (me w)) (last_in l)).
Proof.
  induction next as [|c2 next IH]; intros c l w Hall Hinv;
    inversion Hall as [|? ? Hc Hrest]; subst.
  - destruct (stage_fds E base c true l w Hc Hinv)
      as [(? & _)|(l' & w' & Hs & Hfds)]; [done|].
    pose proof (stage_sound E c true l w) as Hspec. rewrite Hs in Hspec.
    destruct (stage_written E _ _ _ _ _ _ Hspec Hc) as (evs & r & Hev & _ & Hnp & _).
    exists l', w', evs. cbn [launch is_null]. unfold bind. rewrite Hs. simpl.
    split; [done|]. split; [done|]. intros Hex. exfalso.
    apply Exists_exists in Hex as (e & He & Hpe).
    rewrite Forall_forall in Hnp. by apply (Hnp e).
  - pose proof (stage_sound E c false l w) as Hspec.
    cbn [launch is_null]. unfold bind at 1.
    destruct (stage_fds E base c false l w Hc Hinv)
      as [(_ & w' & Hs)|(l' & w' & Hs & Hinv')].
    + rewrite Hs in *. inversion Hspec as [? ? ? Hev| | | |]; subst.
      eexists l, w', _. split; [done|]. split; [exact Hev|]. intros _.
      by apply (stage_break_fds base c).
    + rewrite Hs in *. cbn [fst snd].
      destruct (stage_written E _ _ _ _ _ _ Hspec Hc) as (evs & r & Hev & _ & Hnp & _).
      destruct (stage_keeps_input base c l w l' w' Hc Hinv Hs) as (Hli & Hkeep).
      destruct (IH c2 l' w' Hrest Hinv') as (l2 & w2 & evs2 & Hl & Hev2 & Hr).
      exists l2, w2, (evs ++ evs2). split; [done|].
      split; [by rewrite Hev2, Hev, app_assoc|].
      intros Hex. apply Exists_app in Hex as [Hex|Hex].
      * exfalso. apply Exists_exists in Hex as (e & He & Hpe).
        rewrite Forall_forall in Hnp. by apply (Hnp e).
      * destruct (Hr Hex) as (Hh & Hk). rewrite Hli in *. split; [done|congruence].
Qed.

(** X19.  After a pipe has failed the input file stays open in the
    interpreter.  The loop is left by [break] without closing [last_in]:
    when the input of the command is redirected and no stage is built in,
    the descriptor [open] returned for the file is still open when
    [RunCommand] returns or waits, and every other descriptor of the
    interpreter is as it was before the command. *)
Theorem pipe_failure_leaks_the_input_file pr cmd path w :
  std_open (ps_fds (me w)) →
  Forall (λ c, is_builtin c = false) (pgm cmd) →
  rstdin cmd = Some path →
  (∃ e, e ∈ new_events w (final_world (RunCommand E pr cmd w)) ∧ pipe_failure e) →
  ∃ fd, 3 ≤ fd ∧
    fd_get (ps_fds (me w)) fd = None ∧
    fd_get (ps_fds (me (final_world (RunCommand E pr cmd w)))) fd = Some (FileRd path) ∧
    ∀ n, n ≠ fd →
         fd_get (ps_fds (me (final_world (RunCommand E pr cmd w)))) n
         = fd_get (ps_fds (me w)) n.
Proof.
  intros Hstd Hall Hin (e & He & Hpe).
  destruct (redirect_input_fds E cmd w Hstd) as (ri & w1 & evs1 & Hi & Hev1 & Hnp1 & Hr1).
  destruct ri as [li|].
  2:{ exfalso.
      assert (HR : RunCommand E pr cmd w = Ret tt w1).
      { unfold RunCommand. unfold bind at 1. by rewrite Hi. }
      rewrite HR in He. simpl in He. rewrite (new_events_app _ _ _ Hev1) in He.
      rewrite Forall_forall in Hnp1. by apply (Hnp1 e). }
  destruct (redirect_output_fds E _ cmd li w1 Hr1) as (ro & w2 & evs2 & Ho & Hev2 & Hnp2 & Hr2).
  destruct ro as [co|].
  2:{ exfalso.
      assert (HR : RunCommand E pr cmd w = Ret tt w2).
      { unfold RunCommand. unfold bind at 1. rewrite Hi. unfold bind at 1. by rewrite Ho. }
      rewrite HR in He. simpl in He.
      rewrite Hev1, <- app_assoc in Hev2. rewrite (new_events_app _ _ _ Hev2) in He.
      apply elem_of_app in He as [He|He].
      - rewrite Forall_forall in Hnp1. by apply (Hnp1 e).
      - rewrite Forall_forall in Hnp2. by apply (Hnp2 e). }
  set (l0 := mkLocals (CountCommands (pgm cmd)) (malloc E (CountCommands (pgm cmd)))
                      0 li STDIN_FILENO co).
  assert (HR : RunCommand E pr cmd w = (l <- launch E (pgm cmd) l0;; complete cmd l) w2).
  { unfold RunCommand. unfold bind at 1. rewrite Hi. unfold bind at 1. by rewrite Ho. }
  destruct (redirect_input_obj E cmd w li w1 Hi) as (_ & Hobj). rewrite Hin in Hobj.
  destruct Hobj as (Hfree & Hobj).
  destruct (redirect_output_obj E cmd li w1 co w2 Ho) as (_ & Hkeep & _).
  destruct (holds_only_high _ _ _ _ Hr2) as (Hli & _ & Hlico).
  assert (Hli3 : 3 ≤ li).
  { destruct Hli as [->|(? & _)]; [|done]. exfalso.
    destruct Hstd as ((x & Hx) & _). congruence. }
  assert (Hlaunch : ∃ l' wl evs3, launch E (pgm cmd) l0 w2 = Ret l' wl ∧
            events wl = events w2 ++ evs3 ∧
            (Exists pipe_failure evs3 →
             holds_only (ps_fds (me w)) (ps_fds (me wl)) li 1 ∧
             fd_get (ps_fds (me wl)) li = fd_get (ps_fds (me w2)) li)).
  { destruct (pgm cmd) as [|c next].
    - exists l0, w2, []. rewrite app_nil_r. split; [done|]. split; [done|].
      by intros ?%Exists_nil.
    - apply (launch_fds_broken (ps_fds (me w)) next c l0 w2 Hall Hr2). }
  destruct Hlaunch as (l' & wl & evs3 & Hl & Hev3 & Hbroken).
  rewrite HR in *. unfold bind in *. rewrite Hl in *.
  pose proof (complete_spec cmd l' wl) as Hc.
  assert (Hfin : ps_fds (me (final_world (complete cmd l' wl))) = ps_fds (me wl) ∧
                 ∃ waits, events (final_world (complete cmd l' wl)) = events wl ++ waits ∧
                          Forall waitpid_event waits).
  { destruct (background cmd).
    - rewrite Hc. split; [done|]. exists []. by rewrite app_nil_r.
    - destruct Hc as (w' & (_ & (waits & Hev & Hw) & _ & Hfds & _) & [->|(j & _ & ->)]);
        simpl; (split; [done|]); exists waits; done. }
  destruct Hfin as (Hfds & waits & Hevw & Hwaits).
  assert (Hex : Exists pipe_failure evs3).
  { apply Exists_exists. exists e. split; [|done].
    rewrite Hev3, Hev2, Hev1, <- !app_assoc in Hevw.
    rewrite (new_events_app _ _ _ Hevw) in He.
    rewrite !elem_of_app in He. destruct He as [He|[He|[He|He]]]; [| |done|].
    - rewrite Forall_forall in Hnp1. by destruct (Hnp1 e He).
    - rewrite Forall_forall in Hnp2. by destruct (Hnp2 e He).
    - rewrite Forall_forall in Hwaits. specialize (Hwaits e He). by destruct e. }
  destruct (Hbroken Hex) as ((_ & _ & Hn & _) & Hk).
  exists li. rewrite Hfds. split; [done|]. split; [done|]. split.
  - rewrite Hk, Hkeep by done. done.
  - intros n Hne. apply Hn; [by right|by left].
Qed.

End BrokenPipe.

(** ** The built-in [cd] as a command *)

Section BuiltinCd.
Variable E : Env.









End BuiltinCd.

(** ** A set-up that fails *)

Section SetupFailure.
Variable E : Env.




End SetupFailure.

(** * Instances on the example session *)

Lemma missing_input_witness :
  rstdin sort_missing = Some "missing.txt" ∧
  env_open example_env (ps_cwd (me example_world)) "missing.txt" = Some ENOENT ∧
  ∃ w', RunCommand example_env 1 sort_missing example_world = Ret tt w' ∧
        events w' = events example_world ++
          [EvOpen 100 "missing.txt" (-1);
           EvWrite 100 STDERR_FILENO (Some (Inherited 2)) ("No such file" +:+ nl)] ∧
        procs w' = procs example_world ∧
        k_forks (kern w') = k_forks (kern example_world) ∧
        ps_fds (me w') = ps_fds (me example_world).
Proof.
  split; [reflexivity|]. split; [reflexivity|].
  apply (missing_input_aborts_before_spawn example_env 1 sort_missing "missing.txt"
           example_world); reflexivity.
Defined.

Lemma output_failure_witness :
  ∃ w', RunCommand example_env 1 sort_unwritable example_world = Ret tt w' ∧
        procs w' = procs example_world ∧
        k_forks (kern w') = k_forks (kern example_world) ∧
        is_Some (fd_get (ps_fds (me (final_world (sys_open example_env "in.txt" example_world)))) 3) ∧
        fd_get (ps_fds (me w')) 3 = None ∧
        ps_fds (me w') = ps_fds (me example_world).
Proof.
  eapply (output_failure_releases_input example_env 1 sort_unwritable "in.txt" "/out.txt" 3
            example_world).
  - reflexivity.
  - reflexivity.
  - by eexists.
  - reflexivity.
  - lia.
  - reflexivity.
Defined.



Lemma background_command_witness :
  children (me (final_world (RunCommand example_env 1 sleep_bg example_world))) = [] ∧
  numChildren (me (final_world (RunCommand example_env 1 sleep_bg example_world))) = 0 ∧
  (∀ e, e ∈ new_events example_world
              (final_world (RunCommand example_env 1 sleep_bg example_world)) →
        ¬ waitpid_event e) ∧
  (∃ w', RunCommand example_env 1 sleep_bg example_world = Ret tt w') ∧
  ∀ p pid t,
    p ∈ spawned example_world
          (child_terminates pid t
             (final_world (RunCommand example_env 1 sleep_bg example_world))) →
    is_zombie p = false.
Proof.
  destruct (background_command_does_not_wait example_env 1 sleep_bg example_world eq_refl)
    as (H1 & H2 & H3 & H4 & H5 & H6 & H7).
  split; [exact H1|]. split; [exact H2|]. split; [exact H3|].
  split; [by eexists|].
  intros p pid t. by apply (H7 eq_refl p).
Defined.



Lemma children_forked_in_list_order_witness :
  length (spawned example_world
            (final_world (RunCommand example_env 1 ls_grep example_world)))
  = length (pgm ls_grep) ∧
  map p_argv (spawned example_world
                (final_world (RunCommand example_env 1 ls_grep example_world)))
  = [["grep"; "txt"]; ["ls"]].
Proof.
  split; [reflexivity|].
  apply (children_forked_in_list_order example_env 1 ls_grep example_world).
  reflexivity.
Defined.

(** C9 as the specification words it fails for [ls | grep txt]: the child
    for [grep] is forked before the child for [ls]. *)
Lemma does_not_spawn_left_to_right :
  ¬ spawns_left_to_right example_env ls_grep example_world.
Proof. unfold spawns_left_to_right. vm_compute. discriminate. Qed.



Lemma interrupt_witness :
  RunCommand example_env 1 ls_grep example_world
  = Stop (StWait (mkFrame [1000; 1001] 2 0))
         (final_world (RunCommand example_env 1 ls_grep example_world)) ∧
  children (me (final_world (RunCommand example_env 1 ls_grep example_world)))
  = [1000; 1001] ∧
  ∃ w2 w3,
    interrupt (final_world (RunCommand example_env 1 ls_grep example_world)) = Ret tt w2 ∧
    new_events (final_world (RunCommand example_env 1 ls_grep example_world)) w2
    = [EvKill 100 1000 SIGKILL; EvKill 100 1001 SIGKILL] ∧
    Forall (λ p, is_alive p = false) (spawned example_world w2) ∧
    resume (mkFrame [1000; 1001] 2 0) w2 = Ret tt w3 ∧
    numChildren (me w3) = 0 ∧ ps_sigint (me w3) = SIG_IGN.
Proof.
  assert (HR : RunCommand example_env 1 ls_grep example_world
               = Stop (StWait (mkFrame [1000; 1001] 2 0))
                      (final_world (RunCommand example_env 1 ls_grep example_world)))
    by (vm_compute; reflexivity).
  split; [exact HR|].
  destruct (interrupt_kills_every_recorded_child example_env 1 ls_grep example_world _ _ HR)
    as (H1 & _ & _ & w2 & w3 & H4 & H5 & H6 & H7 & H8 & H9).
  - vm_compute. reflexivity.
  - split; [rewrite H1; vm_compute; reflexivity|].
    exists w2, w3. split; [exact H4|]. split; [rewrite H5; vm_compute; reflexivity|].
    split; [exact H6|]. split; [exact H7|]. split; [exact H8|exact H9].
Defined.

Lemma example_env_found_agrees : agree_except "nosuch" example_env example_env_found.
Proof.
  split_and!; try reflexivity. intros cwd f Hne. simpl.
  destruct (String.eqb f "nosuch") eqn:Hf; [|done].
  by apply String.eqb_eq in Hf.
Qed.

Lemma failed_launch_witness :
  std_open (ps_fds (me example_world)) ∧
  new_events example_world
    (final_world (RunCommand example_env 1 ls_nosuch_grep example_world))
  = [EvPipe 100 0; EvFork 100 1000; EvExecvp 1000 "grep" None;
     EvPipe 100 0; EvFork 100 1001;
     EvExecvp 1001 "nosuch" (Some ENOENT);
     EvWrite 1001 STDERR_FILENO (Some (Inherited 2))
             ("Could not find executable: nosuch" +:+ nl);
     EvExit 1001 0;
     EvFork 100 1002; EvExecvp 1002 "ls" None] ∧
  map p_status
    (spawned example_world
       (final_world (RunCommand example_env 1 ls_nosuch_grep example_world)))
  = [Alive (Some ["grep"; "txt"]); Reaped (Exited 0); Alive (Some ["ls"])] ∧
  map p_status
    (spawned example_world
       (final_world (RunCommand example_env_found 1 ls_nosuch_grep example_world)))
  = [Alive (Some ["grep"; "txt"]); Alive (Some ["nosuch"]); Alive (Some ["ls"])] ∧
  reports_launch_failures (Some (Inherited 2))
    (new_events example_world
       (final_world (RunCommand example_env 1 ls_nosuch_grep example_world))) ∧
  Forall not_killed
    (spawned example_world
       (final_world (RunCommand example_env 1 ls_nosuch_grep example_world))) ∧
  Forall2 (same_unless "nosuch")
    (spawned example_world
       (final_world (RunCommand example_env 1 ls_nosuch_grep example_world)))
    (spawned example_world
       (final_world (RunCommand example_env_found 1 ls_nosuch_grep example_world))).
Proof.
  assert (Hstd : std_open (ps_fds (me example_world))).
  { repeat split; by eexists. }
  split; [exact Hstd|]. split; [vm_compute; reflexivity|].
  split; [vm_compute; reflexivity|]. split; [vm_compute; reflexivity|].
  destruct (failed_launch_reported_then_exit_zero example_env 1 ls_nosuch_grep
              example_world Hstd) as (H1 & H2 & _ & H4).
  split; [exact H1|]. split; [exact H2|].
  exact (H4 "nosuch" example_env_found example_env_found_agrees).
Defined.

(** C2 as the specification words it fails for [nosuch]: the child whose
    [execvp] failed has ended with status 0. *)
Lemma failed_launch_does_not_exit_nonzero :
  ¬ failed_launch_exits_nonzero example_env run_nosuch example_world.
Proof.
  intros H.
  destruct (H (mkProc ["nosuch"]
                 (mkPstate 1000 [None; None; None; None; None; None; None; None]
                           "/home" ENOENT SIG_IGN SIG_IGN [] 0)
                 (Reaped (Exited 0)))
              "nosuch" ENOENT) as (code & Hcode & Hne).
  - vm_compute. apply list_elem_of_here.
  - vm_compute. apply list_elem_of_further, list_elem_of_here.
  - vm_compute in Hcode. injection Hcode as <-. by apply Hne.
Qed.

(** * The revision in [src/lsh.c] on the same session

    Where the earlier revision is written differently it behaves
    differently; the later one is the one the theorems above are about. *)

(** [KillChildren] takes its bound from [sizeof]: of the three children of
    [a | b | c] it signals two, the third stays alive and the wait blocks
    again. *)
Example draft_handler_signals_two_children :
  let w1 := final_world (LshDraft.RunCommand example_env 1 three_stages example_world) in
  let w2 := final_world (LshDraft.interrupt example_env w1) in
  children (me w1) = [1000; 1001; 1002] ∧
  new_events w1 w2
  = [EvKill 100 1000 SIGKILL; EvKill 100 1001 SIGKILL;
     EvWrite 100 STDOUT_FILENO (Some (Inherited 1)) nl] ∧
  map is_alive (procs w2) = [false; false; true] ∧
  LshDraft.resume (mkFrame [1000; 1001; 1002] 3 0) w2
  = Stop (StWait (mkFrame [1000; 1001; 1002] 3 2))
         (final_world (LshDraft.resume (mkFrame [1000; 1001; 1002] 3 0) w2)).
Proof. vm_compute. repeat split. Qed.

(** A pipe that cannot be made ends the interpreter with [exit(-1)]. *)
Example draft_pipe_failure_exits :
  ∃ w', LshDraft.RunCommand example_env_one_pipe 1 three_stages example_world
        = Stop (StExit (-1)) w'.
Proof. eexists. vm_compute. reflexivity. Qed.

(** [cd] is carried out by the forked child: the directory of the
    interpreter stays. *)
Example draft_cd_runs_in_child :
  let w1 := final_world (LshDraft.RunCommand example_env 1 cd_tmp example_world) in
  ps_cwd (me w1) = "/home" ∧
  new_events example_world w1
  = [EvFork 100 1000; EvChdir 1000 (Some "/tmp") 0; EvExit 1000 0;
     EvWaitpid 100 1000 (-1)].
Proof. vm_compute. repeat split. Qed.

(** When the output file cannot be created the descriptor of the input file
    stays open. *)
Example draft_output_failure_leaks_input :
  let w1 := final_world (LshDraft.RunCommand example_env 1 sort_unwritable example_world) in
  fd_get (ps_fds (me w1)) 3 = Some (FileRd "in.txt") ∧
  fd_get (ps_fds (me example_world)) 3 = None.
Proof. vm_compute. repeat split. Qed.

(** The launch error goes to the standard output of the child, that is, to
    the file the output of the command is redirected to. *)
Example draft_launch_error_on_stdout :
  new_events example_world
    (final_world (LshDraft.RunCommand example_env 1
                    (mkCommand [mkPgm "nosuch" []] None (Some "out.txt") false)
                    example_world))
  = [EvCreat 100 "out.txt" 3; EvFork 100 1000;
     EvExecvp 1000 "nosuch" (Some ENOENT);
     EvWrite 1000 STDOUT_FILENO (Some (FileWr "out.txt"))
             ("Could not find executable: nosuch" +:+ nl);
     EvExit 1000 0; EvWaitpid 100 1000 (-1)].
Proof. vm_compute. reflexivity. Qed.

(** * Instances of the further properties *)

(** No event of a log that is computed is of the kind asked about. *)
Ltac no_such_event :=
  apply Forall_forall; vm_compute;
  repeat (constructor; [intros H; first [exact H|discriminate H]|]); constructor.

Lemma stripwhite_stays_in_string_witness :
  (copy_overlaps example_line = true ∧ stripwhite example_line = None) ∧
  (copy_overlaps indented_line = false ∧
   ∃ s' m, stripwhite indented_line = Some s' ∧ length s' = length indented_line ∧
           strlen s' = Some m ∧ (m ≤ 7)%nat ∧
           drop 8 s' = drop 8 indented_line).
Proof.
  split.
  - split; [reflexivity|].
    apply (stripwhite_stays_in_string example_line 9);
      [reflexivity|vm_compute; discriminate|reflexivity].
  - split; [reflexivity|].
    apply (stripwhite_stays_in_string indented_line 7);
      [reflexivity|vm_compute; discriminate|reflexivity].
Defined.

Lemma stripwhite_trims_witness :
  ∃ pre post,
    c_str indented_line
    = pre ++ c_str (list_ascii_of_string "ls" ++ [NUL; NUL]
                    ++ list_ascii_of_string "ls " ++ [NUL]) ++ post ∧
    blank pre ∧ blank post ∧
    (∀ c, head (c_str (list_ascii_of_string "ls" ++ [NUL; NUL]
                       ++ list_ascii_of_string "ls " ++ [NUL])) = Some c →
          isspace c = false) ∧
    (∀ c, last (c_str (list_ascii_of_string "ls" ++ [NUL; NUL]
                       ++ list_ascii_of_string "ls " ++ [NUL])) = Some c →
          isspace c = false).
Proof.
  apply (stripwhite_trims indented_line 7); [reflexivity| |reflexivity].
  vm_compute. discriminate.
Defined.

Lemma stripwhite_idempotent_witness :
  stripwhite (list_ascii_of_string "ls -l" ++ [NUL; " "%char; NUL])
  = Some (list_ascii_of_string "ls -l" ++ [NUL; " "%char; NUL]).
Proof.
  apply (stripwhite_idempotent plain_line 7); [reflexivity| |reflexivity].
  vm_compute. discriminate.
Defined.

Lemma blank_line_runs_nothing_witness :
  (copy_overlaps blank_line = false ∧ stripped blank_line = [] ∧
   Repl.turn example_env example_parse blank_line [] = ret []) ∧
  Repl.turn example_env example_parse plain_line []
  = (if is_null (stripped plain_line) then ret []
     else (RunCommand example_env (example_parse (stripped plain_line)).1
                      (example_parse (stripped plain_line)).2 ;;
           ret ([] ++ [stripped plain_line]))) ∧
  stripped plain_line = list_ascii_of_string "ls -l" ∧
  Repl.turn example_env example_parse example_line [] example_world
  = Stop StUndefined example_world.
Proof.
  split; [|split; [|split]].
  - apply (blank_line_runs_nothing example_env example_parse blank_line 3 []);
      [reflexivity|vm_compute; discriminate|].
    vm_compute. repeat constructor.
  - apply (blank_line_runs_nothing example_env example_parse plain_line 7 []);
      [reflexivity|vm_compute; discriminate|reflexivity].
  - reflexivity.
  - apply (blank_line_runs_nothing example_env example_parse example_line 9 []);
      [reflexivity|vm_compute; discriminate|reflexivity].
Defined.


Lemma no_child_is_left_a_zombie_witness :
  map is_alive (procs world_blocked) = [true; true] ∧
  ps_sigint (me world_blocked) = SIG_FN KillChildrenOnSignal_fn ∧
  (* an interrupt: the handler kills both children *)
  map p_status (procs (final_world (interrupt world_blocked)))
  = [Reaped (Killed SIGKILL); Reaped (Killed SIGKILL)] ∧
  reaping (final_world (interrupt world_blocked)) ∧
  (* the child for [grep] ends *)
  map p_status (procs (child_terminates 1000 (Exited 0) world_blocked))
  = [Reaped (Exited 0); Alive (Some ["ls"])] ∧
  reaping (child_terminates 1000 (Exited 0) world_blocked) ∧
  (* the wait is taken up again after that, and blocks at the second child *)
  resume (mkFrame [1000; 1001] 2 0) (child_terminates 1000 (Exited 0) world_blocked)
  = Stop (StWait (mkFrame [1000; 1001] 2 1))
         (final_world (resume (mkFrame [1000; 1001] 2 0)
                              (child_terminates 1000 (Exited 0) world_blocked))) ∧
  reaping (final_world (resume (mkFrame [1000; 1001] 2 0)
                               (child_terminates 1000 (Exited 0) world_blocked))) ∧
  (* another command is run with the two children still there *)
  reaping (final_world (RunCommand example_env 1 sleep_bg world_blocked)).
Proof.
  assert (Hr : reaping world_blocked).
  { split; [reflexivity|]. vm_compute. repeat constructor. }
  destruct (no_child_is_left_a_zombie example_env 1 sleep_bg world_blocked Hr)
    as (H1 & _ & H3 & H4).
  destruct (no_child_is_left_a_zombie example_env 1 sleep_bg
              (child_terminates 1000 (Exited 0) world_blocked) (H4 1000 (Exited 0)))
    as (_ & H2 & _ & _).
  split; [vm_compute; reflexivity|]. split; [vm_compute; reflexivity|].
  split; [vm_compute; reflexivity|]. split; [exact H3|].
  split; [vm_compute; reflexivity|]. split; [exact (H4 1000 (Exited 0))|].
  split; [vm_compute; reflexivity|]. split; [exact (H2 _)|exact H1].
Defined.

Lemma no_descriptor_is_leaked_witness :
  ps_fds (me (final_world (RunCommand example_env 1 sort_uniq_files example_world)))
  = ps_fds (me example_world).
Proof.
  apply (no_descriptor_is_leaked example_env 1 sort_uniq_files example_world).
  - repeat split; by eexists.
  - discriminate.
  - repeat constructor.
  - no_such_event.
Defined.

Lemma cd_stage_cancels_the_wait_witness :
  (∀ e, e ∈ new_events example_world
              (final_world (RunCommand example_env 1 ls_cd example_world)) →
        ¬ waitpid_event e) ∧
  ((∃ w', RunCommand example_env 1 ls_cd example_world = Ret tt w') ∨
   (∃ w', RunCommand example_env 1 ls_cd example_world = Stop (StExit 0) w')).
Proof.
  apply (cd_stage_cancels_the_wait example_env 1 ls_cd example_world).
  - exists (mkPgm "cd" ["/tmp"]). split; [apply list_elem_of_here|reflexivity].
  - no_such_event.
Defined.

Lemma exit_stage_ends_the_interpreter_witness :
  ((∃ w', RunCommand example_env 1 ls_exit example_world = Stop (StExit 0) w') ↔
   (∃ c, c ∈ pgm ls_exit ∧ pgm_name c = "exit")) ∧
  ((∃ c, c ∈ pgm ls_exit ∧ pgm_name c = "exit") →
   ∀ e, e ∈ new_events example_world
              (final_world (RunCommand example_env 1 ls_exit example_world)) →
        ¬ waitpid_event e ∧ ¬ kill_event e).
Proof.
  apply (exit_stage_ends_the_interpreter example_env 1 ls_exit example_world).
  no_such_event.
Defined.

Lemma failed_fork_waits_for_any_child_witness :
  ∃ w1,
    RunCommand example_env_one_fork 1 (mkCommand [mkPgm "ls" []] None None false)
      (final_world (RunCommand example_env_one_fork 1 sleep_bg example_world))
    = Stop (StWait (mkFrame [-1] 1 0)) w1 ∧
    new_events (final_world (RunCommand example_env_one_fork 1 sleep_bg example_world)) w1
    = [EvFork 100 (-1)] ∧
    children (me w1) = [-1] ∧ numChildren (me w1) = 1 ∧
    map (λ p, (p_argv p, is_alive p))
        (procs (final_world (RunCommand example_env_one_fork 1 sleep_bg example_world)))
    = [(["sleep"; "100"], true)] ∧
    ∃ w2, interrupt w1 = Ret tt w2 ∧
          new_events w1 w2 = [EvKill 100 (-1) SIGKILL] ∧
          map (λ p, (p_argv p, p_status p)) (procs w2)
          = [(["sleep"; "100"], Reaped (Killed SIGKILL))].
Proof.
  destruct (failed_fork_waits_for_any_child example_env_one_fork 1 (mkPgm "ls" [])
              (final_world (RunCommand example_env_one_fork 1 sleep_bg example_world)))
    as [(w1 & got & HR & _)|(w1 & HR & Hev & _ & Hch & Hn & w2 & Hi & Hev2 & Hp & _)].
  - reflexivity.
  - vm_compute. discriminate.
  - exfalso.
    apply (f_equal (λ r : res unit, match r with Ret _ _ => true | Stop _ _ => false end)) in HR.
    vm_compute in HR. discriminate HR.
  - exists w1. split; [exact HR|]. split; [exact Hev|]. split; [exact Hch|].
    split; [exact Hn|]. split; [vm_compute; reflexivity|].
    exists w2. split; [exact Hi|]. split; [exact Hev2|].
    rewrite Hp. vm_compute. reflexivity.
Defined.

Lemma only_cd_changes_directory_witness :
  ps_cwd (me (final_world (RunCommand example_env 1 ls_grep example_world))) = "/home" ∧
  Forall (λ p, ps_cwd (p_state p) = "/home")
         (spawned example_world
            (final_world (RunCommand example_env 1 ls_grep example_world))).
Proof.
  apply (only_cd_changes_directory example_env 1 ls_grep example_world).
  repeat constructor; discriminate.
Defined.

Lemma draft_kill_loop_signals_two_entries_witness :
  ∃ w', LshDraft.interrupt example_env
          (final_world (LshDraft.RunCommand example_env 1 three_stages example_world))
        = Ret tt w' ∧
    new_events (final_world (LshDraft.RunCommand example_env 1 three_stages example_world)) w'
    = [EvKill 100 1000 SIGKILL; EvKill 100 1001 SIGKILL;
       EvWrite 100 STDOUT_FILENO (Some (Inherited 1)) nl] ∧
    ∀ q, q ∈ procs (final_world
                      (LshDraft.RunCommand example_env 1 three_stages example_world)) →
         p_pid q ≠ 1000 → p_pid q ≠ 1001 → q ∈ procs w'.
Proof.
  apply (draft_kill_loop_signals_two_entries example_env
           (final_world (LshDraft.RunCommand example_env 1 three_stages example_world))
           1000 1001 [1002]).
  - reflexivity.
  - reflexivity.
  - lia.
  - lia.
Defined.

Lemma draft_pipe_failure_ends_interpreter_witness :
  ∃ w', LshDraft.RunCommand example_env_no_pipe 1 ls_grep example_world
        = Stop (StExit (-1)) w' ∧
    new_events example_world w'
    = [EvPipe 100 (-1);
       EvWrite 100 STDOUT_FILENO (Some (Inherited 1)) "Pipe failed";
       EvExit 100 (-1)] ∧
    procs w' = procs example_world.
Proof.
  apply (draft_pipe_failure_ends_interpreter example_env_no_pipe 1 ls_grep
           (mkPgm "grep" ["txt"]) (mkPgm "ls" []) [] EMFILE example_world);
    reflexivity.
Defined.

Lemma pipeline_is_wired_witness :
  map p_argv (spawned example_world
                (final_world (RunCommand example_env 1 sort_uniq_files example_world)))
  = [["uniq"]; ["sort"]] ∧
  wired (Some (FileWr "out.txt")) (Some (FileRd "in.txt"))
        (spawned example_world
           (final_world (RunCommand example_env 1 sort_uniq_files example_world))) ∧
  Forall (λ p, ∀ n, n ≠ 0 → n ≠ 1 →
               fd_of p n = fd_get (ps_fds (me example_world)) n ∨
               ∃ path, rstdin sort_uniq_files = Some path ∧
                       fd_of p n = Some (FileRd path))
         (spawned example_world
            (final_world (RunCommand example_env 1 sort_uniq_files example_world))).
Proof.
  apply (pipeline_is_wired example_env 1 sort_uniq_files example_world).
  - repeat split; by eexists.
  - repeat constructor.
  - reflexivity.
  - vm_compute. repeat constructor.
Defined.

Lemma pipe_failure_waits_on_unwritten_pids_witness :
  ∃ written rest,
    written = fork_results
                (new_events example_world
                   (final_world (RunCommand example_env_one_pipe 1 three_stages
                                            example_world))) ∧
    rest = drop (length written) (malloc example_env_one_pipe (CountCommands (pgm three_stages))) ∧
    rest ≠ [] ∧
    children (me (final_world (RunCommand example_env_one_pipe 1 three_stages
                                          example_world)))
    = written ++ rest ∧
    ((∃ w', RunCommand example_env_one_pipe 1 three_stages example_world = Ret tt w' ∧
            waitpid_targets (new_events example_world w') = written ++ rest) ∨
     (∃ j w', RunCommand example_env_one_pipe 1 three_stages example_world
              = Stop (StWait (mkFrame (written ++ rest) (CountCommands (pgm three_stages)) j))
                     w')).
Proof.
  apply (pipe_failure_waits_on_unwritten_pids example_env_one_pipe 1 three_stages
           example_world).
  - reflexivity.
  - repeat constructor.
  - exists (EvPipe 100 (-1)). split; [|reflexivity].
    vm_compute. do 3 apply list_elem_of_further. apply list_elem_of_here.
Defined.

Lemma pipe_failure_leaks_the_input_file_witness :
  ∃ fd, 3 ≤ fd ∧
    fd_get (ps_fds (me example_world)) fd = None ∧
    fd_get (ps_fds (me (final_world (RunCommand example_env_no_pipe 1 sort_uniq_files
                                                example_world)))) fd
    = Some (FileRd "in.txt") ∧
    ∀ n, n ≠ fd →
         fd_get (ps_fds (me (final_world (RunCommand example_env_no_pipe 1 sort_uniq_files
                                                     example_world)))) n
         = fd_get (ps_fds (me example_world)) n.
Proof.
  apply (pipe_failure_leaks_the_input_file example_env_no_pipe 1 sort_uniq_files "in.txt"
           example_world).
  - repeat split; by eexists.
  - repeat constructor.
  - reflexivity.
  - exists (EvPipe 100 (-1)). split; [|reflexivity].
    vm_compute. do 2 apply list_elem_of_further. apply list_elem_of_here.
Defined.
